(* ===== verification/_CoqProject ===== *)
-Q . S2P
Prelude.v
Codec.v
Message.v
Wire.v
Session.v
User.v
Room.v
Decimal.v
Event.v
World.v
RoomManager.v
RoomWorker.v
Respects.v
Invariant.v
RoomWorkerSafe.v
Server.v
System.v
RoomWorkerSpec.v
FlushConc.v
Loops.v
Flow.v
Lifecycle.v
Database.v
Client.v
Terminal.v
EndToEnd.v
Answers.v
Membership.v
Quiescence.v
Routing.v
Queries.v
WorkerLoop.v
Fleet.v
MainQueue.v
Ownership.v
Startup.v
Shared.v
Programs.v
RelyGuarantee.v
Actions.v
ProgramsSafe.v
Interleaving.v
Alone.v
Policy.v
Races.v
Finish.v
Crossing.v
Ranks.v
Rest.v
