(* ===== verification/Prelude.v ===== *)
(** * A verification development for cpp-epoll-chat

    The repository is a chat system in C++: an epoll server (server/src/), a
    terminal client (client/src/) and the wire format they share (protocol/).
    This library models the three in Rocq and proves what makes them correct.
    This file is its root: the documentation below is for the whole library,
    the definitions that follow it are the vocabulary every file uses.

    ** The program

    The server's main thread owns the listening socket, the epoll instance and
    the sessions (Server.cpp). It reads bytes into [Session]s, cuts them into
    packets, lets [RoomManager] plan each packet into a [RoomEvent] (a list of
    at most ten actions) and posts the event to a [RoomWorker]. Worker 1 owns
    the lobby (room 1), the other workers own the rooms placed on them; a
    worker executes the actions of an event in order, forwards the event to
    another worker or hands it to the database thread ([DBWorker]) when an
    action says so, and finally answers the client. Workers write to sockets
    themselves ([Session::flush]) and ask the main thread, through
    [IServerService] and a queue of [MainEvent]s, to arm or disarm EPOLLOUT or
    to close a session. The client keeps one request in flight and reads whole
    structures from a blocking socket.

    ** Files

    - Prelude.v: integers of a given width, little-endian encodings, lists.
    - Codec.v, Message.v (Module Msg): protocol/Codec.h and Message.h, the
      bounds-checked reader and the history payload.
    - Wire.v (Module Protocol): protocol/Protocol.h and Result.h, the packet
      structures with their object representations, [serialize_packet].
    - Session.v: network/Session.cpp and Socket.cpp, one function per method.
    - User.v, Room.v: user/ and room/Room.cpp.
    - Decimal.v: [std::to_string] and [std::stoll] as the database code uses them.
    - Event.v: event/*.h and db/DBJob.h, the messages between threads.
    - World.v: the server's state as one record, the monad of the handlers
      (a value and a new world, or a [Fault]), the [IServerService] interface,
      and the weakest-precondition rules the proofs are written with.
    - RoomManager.v, RoomWorker.v: room/, every handler. Server.v: server/,
      network/SessionManager.cpp and core/Epoll.cpp, the main thread, the
      transition labels of the whole server ([Label], [exec], [reachable]).
    - Invariant.v, RoomWorkerSafe.v, System.v: the global invariant [inv], its
      preservation by every handler, and the theorems about every reachable
      world.
    - RoomWorkerSpec.v: what each worker operation does, on every branch.
    - Flow.v: whole requests, from the packet to the response.
    - Lifecycle.v: connections, from accept to close.
    - FlushConc.v: [pack] and [flush] under interleaving, step by step.
    - Database.v: db/, over an abstract libpq.
    - Loops.v: the loops of the threads, with the fuel that is enough for them.
    - Respects.v: relational reasoning about handlers, shared by the next four.
    - Membership.v: an abstract service of rooms with members, and the
      refinement: which transition may change whose membership.
    - Client.v, Terminal.v: client/src/, the handlers and the texts of results.
    - EndToEnd.v: a line typed at a terminal, through the cut byte stream, the
      server and the cut answer, up to what the terminals show.
    - Answers.v: everything a server ever writes to a session, as packets; a
      ledger of requests read and responses written or still owed.
    - Quiescence.v: the work in flight, and that it runs out.
    - Routing.v: the exact relation between [room_to_worker_], the workers'
      rooms and the events that will create one.
    - Queries.v: which jobs, and so which queries, there can be.
    - WorkerLoop.v: the threads of RoomWorker.cpp and DBWorker.cpp with their
      mutex, condition variable and [join], one operation at a time.
    - Fleet.v: all the workers' threads together, from [Server::run] to
      [Server::~Server]: start, posting into each other, stop.
    - MainQueue.v: the queue of main events with its mutex and the eventfd.
    - Ownership.v: the classes that own a descriptor or a libpq handle.
    - Startup.v: constructors, destructors, the main loops and the two programs.
    - Shared.v: the state all threads share, and the [Action]s on it that no
      other thread can interrupt: one mutex section, one atomic operation, one
      system call, or a stretch of a thread's own code.
    - Programs.v: every handler once more, as a program over these actions.
    - RelyGuarantee.v, Actions.v, ProgramsSafe.v: a logic for programs that
      others interrupt, the lemma of each action, and each handler's triple.
    - Interleaving.v: the transition system of all threads over single actions
      ([exec], [enabled], [reachable]) and its safety.
    - Alone.v: a handler nobody interrupts is the handler of World.v to Server.v.
    - Policy.v: which thread performs which actions.
    - Races.v: which memory each action touches under which mutex, and the one
      data race there is.
    - Finish.v: handlers return under every interleaving.
    - Crossing.v: a join and a close that cross, step by step.
    - Ranks.v: what work an item of work can lead to, and the order in which
      queued items and programs in progress shrink.
    - Rest.v: the interleaved server, left alone, comes to rest.

    ** How the code is represented

    A [shared_ptr<Session>] is an identity ([Room.Sid]) into [heap], so the
    aliasing between the session table, rooms and events is explicit; a
    [shared_ptr<User>] is the key of [users_]. An [unordered_map] is a [gmap];
    where the code iterates one, the order is that of [map_to_list] and the
    theorems do not depend on it. A [std::queue] is a list. An enum read from
    the network is the byte that was read, a [switch] on it a match on its
    decoding. Structures are sent with their padding, whose bytes are a
    parameter; so is the command of an event that never got one ([new_event]).
    Kernel and libpq are not part of the repository: what [::recv], [::send]
    and [epoll_ctl] answer is data or a parameter, libpq is the class
    [Database.LibPQ], random numbers are an argument ([draws]): any that the
    distribution can give, and any at all where it is undefined, with fewer
    than two workers ([RoomWorkerSafe.drawable]).

    Granularity: in World.v to Lifecycle.v one transition is one handler of
    one thread (one event of a worker, one epoll event or one [handle_events]
    of the main thread, one callback of the database thread); System.v lets
    these interleave in every way. Programs.v and Interleaving.v take every
    handler apart into single actions, with all threads between any two of
    them; [interleaved_server_safe] is [server_safe] without the assumption
    that handlers are not interrupted, and [handlers_run_alone] relates the two
    models: what the other files prove of a handler holds of each run of it
    that nobody interrupts, and every execution of the one-step model is one
    of the interleaved model ([one_step_model_included]). An action runs at
    once, which the C++ allows only where it has no data race: [data_races]
    says that it has none but [get_rooms_num]'s, which is real. FlushConc.v is the part of Programs.v that lies inside [pack]
    and [flush], with any number of threads on one session and the main
    thread's side of EPOLLOUT. WorkerLoop.v refines how an event gets from
    [post_event] to [process_event]; Fleet.v composes these monitors, with what
    an item posts left open but for its weight, and [handlers_fit_fleet] says
    that the handlers keep to it; MainQueue.v refines the way back, from a
    worker's request to [handle_events]; and Startup.v the main loop:
    [server_run_refines] says that [run]'s loop is a run of the one-step system.

    A program of Programs.v reads a room once ([FindRoom]) and writes it back
    later ([PutRoom]): only its own worker touches it in between ([data_races]).
    A [shared_ptr<User>] survives the user's removal in [removed]; the fields
    [owner] and [packed] of [Shared] are auxiliary and read by no action.

    ** Bounds and fuel

    [process_event] runs with as much fuel as the event has actions left,
    [handle_request] with as much as the receive buffer has bytes,
    [handle_events] with as much as the queue has events; each loop's lemma
    ([process_loop_safe], [drain_terminates], [handle_events_safe]) shows that
    this is enough. [DBWorker::stop]'s loop has the length of the job queue,
    which its callbacks do not extend ([stop_drains]). In Programs.v the loop of
    [handle_events] is [Repeat] and has no bound, since other threads can push
    events while it runs; alone it ends ([handle_events_runs]). No bound is put on runs:
    [server_comes_to_rest] uses a lexicographic measure (open connections,
    weight of the queued events and jobs, main events), [interleaved_comes_to_rest]
    another (the ranks of queued items and of programs in progress, the work of
    the flushes, how far each thread is between two items), [shutdown_completes] the
    number of instructions left ([Fleet.effort]), in which each posted item
    counts [ITEM] steps more than its weight. Room, user and message
    ids are unbounded [Z]; [is_i64] is a hypothesis where the bytes matter.
    Lengths are reduced modulo 2^32 where the code stores them in 32 bits.

    ** The theorems

    Safety of the server: no interleaving makes a handler dereference a null
    or dangling pointer or leave its action list, whether handlers run to their
    end ([server_safe]) or are interrupted anywhere ([interleaved_server_safe]).
    Two things stop it: an [epoll_ctl] of the main thread that fails, which is
    an exception, and on a machine that reports fewer than two hardware threads
    the placing of a new room, whose distribution is undefined (the fault
    [BadDistribution]). Rooms keep their capacity ([server_capacity], [interleaved_capacity]). Requests: each command, from the
    packet to the response, in the success and in the failure cases (Flow.v).
    Connections: accept, close, and the exit events (Lifecycle.v),
    close with the objects that leave every table ([connection_closed]). Streams:
    packets survive any cutting of the byte stream, in both directions
    ([reassembly], [server_stream_understood]); [flush] loses, repeats and
    reorders nothing, alone ([flush_preserves_stream]), with any number of
    threads ([concurrent_flush_safe]) and in the whole server
    ([interleaved_streams]); no request is answered twice
    ([at_most_one_answer]). Rooms refine an abstract service in which nobody
    moves another client ([membership_refines]), and the routing table is exact,
    provided the database never issues a room id twice ([routing_exact]); that is
    why [create_room] never meets a room that exists already. Left alone, the
    server comes to rest ([server_comes_to_rest]), also when its handlers
    interrupt each other anywhere ([handlers_finish],
    [interleaved_comes_to_rest]; where a thread was stopped, [Finish.halted]). Threads: no lost wakeup, no
    lost or repeated event, and stopping terminates, for one worker
    (WorkerLoop.v), for all of them together with the posts between them and
    the callbacks that [DBWorker::stop] runs ([shutdown_completes]), and for the
    requests to the main thread, up to the exception of an [epoll_ctl]
    ([main_events_delivered]). Resources:
    every descriptor is closed exactly once, on every way out of a constructor
    or a program ([handles_own], [server_start_clean], [client_exit]). Formats:
    the payloads and structures round trip, truncated input is refused, an
    announced length is not trusted ([parse_bounds]). Database: a row goes
    from the table to the client unchanged, a query is retried at most once, its
    result is reported as it is ([worker_step_refines]), and
    each gets as many parameters as it has placeholders ([jobs_well_formed]).

    Some theorems state what the code does where that is not what it means to
    do: a count that drifts when a session joins twice ([rejoin_drift]), a
    request that is never answered ([leave_unknown_unanswered]), a ghost
    member ([ghost_member_reachable]), a lost wakeup ([flush_lost_wakeup]), a
    main event that stops the server ([stale_epollout_stops_server]), a client
    that an interrupted wait ends ([interrupted_wait]), an event that [stop]
    leaves behind ([room_stop_leaves_event]), a data race
    ([data_races]), a join that succeeds for a client that is gone
    ([ghost_after_success]), answers that shutdown posts to
    workers that have returned ([shutdown_strands_answer]).

    ** Not modelled

    The creation of a thread by the operating system, socket options and
    addresses, the formatting of times and prompts at the terminal (a line is
    a constructor of [Client.Line]), the SQL schema and the meaning of the SQL
    texts, the build files. In Fleet.v the room workers' handlers do not throw
    (which [server_safe] shows of the handlers' own faults; exhausted memory is
    outside the library) and a thread can always be created. Memory is
    sequentially consistent, as the standard promises a program without data
    races; the effect of the one race is taken to be
    that [rooms_.size()] returns the size before or after the insertion. [EventState.h] and
    the [Row] of AccountRepository.h have no users. *)

From Stdlib Require Export ZArith Lia.
From Stdlib Require Export Strings.Byte.
From stdpp Require Export base gmap list numbers option fin_maps relations.

Declare Scope chat_scope.
Delimit Scope chat_scope with chat.

#[global] Open Scope Z_scope.

Abbreviation byte := Byte.byte (only parsing).
Abbreviation bytes := (list Byte.byte).

#[export] Instance byte_eq_decision : EqDecision Byte.byte := Byte.byte_eq_dec.

(** ** Machine integers

    A w-bit value is a [Z]; the C++ conversions between widths are written
    out with [wrap] (reduction to the unsigned range) and [sgn] (the
    two's-complement reading). *)

Definition wrap (w z : Z) : Z := z mod 2 ^ w.

Definition sgn (w z : Z) : Z :=
  let u := wrap w z in if decide (u < 2 ^ (w - 1)) then u else u - 2 ^ w.

Definition is_u8 (z : Z) : Prop := 0 <= z < 2 ^ 8.
Definition is_u16 (z : Z) : Prop := 0 <= z < 2 ^ 16.
Definition is_u32 (z : Z) : Prop := 0 <= z < 2 ^ 32.
Definition is_u64 (z : Z) : Prop := 0 <= z < 2 ^ 64.
Definition is_i64 (z : Z) : Prop := - 2 ^ 63 <= z < 2 ^ 63.

(** [std::numeric_limits<int64_t>::max()] *)
Definition INT64_MAX : Z := 2 ^ 63 - 1.

(** ** Little-endian object representations (what [memcpy] of an integer
    copies on the x86-64 target). *)

Definition byte_to_Z (b : byte) : Z := Z.of_N (Byte.to_N b).
Definition byte_of_Z (z : Z) : byte :=
  default x00 (Byte.of_N (Z.to_N (z mod 256))).

Fixpoint le_enc (n : nat) (z : Z) : bytes :=
  match n with
  | O => []
  | S n' => byte_of_Z z :: le_enc n' (z / 256)
  end.

Fixpoint le_dec (l : bytes) : Z :=
  match l with
  | [] => 0
  | b :: l' => byte_to_Z b + 256 * le_dec l'
  end.

Definition u32_enc (z : Z) : bytes := le_enc 4 z.
Definition u32_dec (l : bytes) : Z := le_dec l.
Definition i64_enc (z : Z) : bytes := le_enc 8 z.
Definition i64_dec (l : bytes) : Z := sgn 64 (le_dec l).

(** [size()] of a byte vector, as a [size_t] value. *)
Definition size_of {A} (l : list A) : Z := Z.of_nat (length l).

(** [unordered_map::emplace]: does nothing when the key is present. *)
Definition emplace `{Countable K} {V} (k : K) (v : V) (m : gmap K V) : gmap K V :=
  match m !! k with Some _ => m | None => <[k := v]> m end.

(** ** Tactics *)

Ltac inv H := inversion H; clear H; simplify_eq.

(** Case analysis on the innermost [match]/[if] of the goal or a hypothesis. *)
Ltac case_step :=
  match goal with
  | |- context [match ?x with _ => _ end] =>
      lazymatch x with context [match _ with _ => _ end] => fail | _ => destruct x eqn:? end
  | H : context [match ?x with _ => _ end] |- _ =>
      lazymatch x with context [match _ with _ => _ end] => fail | _ => destruct x eqn:? end
  end.

Ltac case_all := repeat (case_step; simplify_eq/=; try done).

Create HintDb chat discriminated.

(** ** Integer lemmas *)

Lemma wrap_range w z : 0 <= w -> 0 <= wrap w z < 2 ^ w.
Proof. intros. unfold wrap. apply Z.mod_pos_bound. lia. Qed.

Lemma wrap_small w z : 0 <= z < 2 ^ w -> wrap w z = z.
Proof. intros. unfold wrap. by apply Z.mod_small. Qed.

Lemma wrap_u64_small z : is_u64 z -> wrap 64 z = z.
Proof. apply wrap_small. Qed.

Lemma wrap_u32_small z : is_u32 z -> wrap 32 z = z.
Proof. apply wrap_small. Qed.

Lemma sgn_small w z : 0 < w -> - 2 ^ (w - 1) <= z < 2 ^ (w - 1) -> sgn w z = z.
Proof.
  intros Hw Hz. unfold sgn, wrap.
  assert (Hp : 2 ^ w = 2 * 2 ^ (w - 1)).
  { rewrite <- Z.pow_succ_r by lia. f_equal. lia. }
  destruct (decide (0 <= z)) as [Hpos | Hneg].
  - rewrite Z.mod_small by lia. rewrite decide_True by lia. done.
  - assert (Hm : z mod 2 ^ w = z + 2 ^ w).
    { symmetry. apply (Zmod_unique _ _ (-1)); lia. }
    rewrite Hm, decide_False by lia. lia.
Qed.

Lemma sgn_wrap w z : 0 <= w -> sgn w (z mod 2 ^ w) = sgn w z.
Proof. intros. unfold sgn, wrap. by rewrite Z.mod_mod by lia. Qed.

Lemma sgn_i64_range z : is_i64 (sgn 64 z).
Proof.
  unfold is_i64, sgn, wrap.
  pose proof (Z.mod_pos_bound z (2 ^ 64)) as Hb.
  destruct (decide _) as [H | H]; lia.
Qed.

(** ** Byte lemmas *)

Lemma byte_to_Z_range b : 0 <= byte_to_Z b < 256.
Proof. unfold byte_to_Z. pose proof (Byte.to_N_bounded b). lia. Qed.

Lemma byte_to_of_Z z : byte_to_Z (byte_of_Z z) = z mod 256.
Proof.
  unfold byte_to_Z, byte_of_Z.
  pose proof (Z.mod_pos_bound z 256 ltac:(lia)) as Hb.
  destruct (Byte.of_N (Z.to_N (z mod 256))) as [b |] eqn:E.
  - apply Byte.to_of_N in E. simpl. rewrite E. lia.
  - apply Byte.of_N_None_iff in E. lia.
Qed.

Lemma byte_of_to_Z b : byte_of_Z (byte_to_Z b) = b.
Proof.
  unfold byte_of_Z. rewrite Z.mod_small by apply byte_to_Z_range.
  unfold byte_to_Z. rewrite N2Z.id, Byte.of_to_N. done.
Qed.

Lemma byte_to_Z_inj b1 b2 : byte_to_Z b1 = byte_to_Z b2 -> b1 = b2.
Proof. intros H. by rewrite <- (byte_of_to_Z b1), <- (byte_of_to_Z b2), H. Qed.

Lemma length_le_enc n z : length (le_enc n z) = n.
Proof. revert z. induction n; intros; simpl; auto. Qed.

Lemma le_dec_range l : 0 <= le_dec l < 2 ^ (8 * size_of l).
Proof.
  unfold size_of. induction l as [| b l IH]; simpl; [lia |].
  pose proof (byte_to_Z_range b).
  replace (8 * Z.of_nat (S (length l))) with (8 + 8 * Z.of_nat (length l)) by lia.
  rewrite Z.pow_add_r by lia. change (2 ^ 8) with 256. lia.
Qed.

Lemma le_dec_enc n z : le_dec (le_enc n z) = z mod 2 ^ (8 * Z.of_nat n).
Proof.
  revert z. induction n as [| n IH]; intros z; simpl le_enc; simpl le_dec.
  - by rewrite Z.mod_1_r.
  - rewrite IH, byte_to_of_Z.
    replace (8 * Z.of_nat (S n)) with (8 + 8 * Z.of_nat n) by lia.
    rewrite Z.pow_add_r by lia. change (2 ^ 8) with 256.
    rewrite Z.rem_mul_r by lia. done.
Qed.

Lemma le_enc_dec l : le_enc (length l) (le_dec l) = l.
Proof.
  induction l as [| b l IH]; simpl; [done |].
  pose proof (byte_to_Z_range b) as Hb. f_equal.
  - apply byte_to_Z_inj. rewrite byte_to_of_Z.
    rewrite (Z.mul_comm 256), Z.mod_add by lia. by apply Z.mod_small.
  - rewrite (Z.mul_comm 256), Z.div_add, Z.div_small by lia. by rewrite Z.add_0_l.
Qed.

Lemma le_dec_inj l1 l2 : length l1 = length l2 -> le_dec l1 = le_dec l2 -> l1 = l2.
Proof. intros Hl Hd. by rewrite <- (le_enc_dec l1), <- (le_enc_dec l2), Hl, Hd. Qed.

Lemma u32_dec_enc z : is_u32 z -> u32_dec (u32_enc z) = z.
Proof. intros H. unfold u32_dec, u32_enc. rewrite le_dec_enc. by apply wrap_small. Qed.

Lemma u32_dec_range l : length l = 4%nat -> is_u32 (u32_dec l).
Proof.
  intros Hl. unfold is_u32, u32_dec. pose proof (le_dec_range l) as H.
  unfold size_of in H. rewrite Hl in H. done.
Qed.

Lemma u32_enc_dec l : length l = 4%nat -> u32_enc (u32_dec l) = l.
Proof. intros Hl. unfold u32_enc, u32_dec. rewrite <- Hl. apply le_enc_dec. Qed.

Lemma i64_dec_enc z : is_i64 z -> i64_dec (i64_enc z) = z.
Proof.
  intros H. unfold i64_dec, i64_enc. rewrite le_dec_enc.
  change (8 * Z.of_nat 8) with 64. rewrite sgn_wrap by lia. by apply sgn_small.
Qed.

Lemma i64_dec_range l : is_i64 (i64_dec l).
Proof. apply sgn_i64_range. Qed.

Lemma le_enc_mod n z1 z2 :
  z1 mod 2 ^ (8 * Z.of_nat n) = z2 mod 2 ^ (8 * Z.of_nat n) -> le_enc n z1 = le_enc n z2.
Proof.
  intros H. apply le_dec_inj; [by rewrite !length_le_enc |]. by rewrite !le_dec_enc.
Qed.

Lemma i64_enc_dec l : length l = 8%nat -> i64_enc (i64_dec l) = l.
Proof.
  intros Hl. rewrite <- (le_enc_dec l) at 2. rewrite Hl. apply le_enc_mod.
  change (8 * Z.of_nat 8) with 64. unfold i64_dec, sgn, wrap.
  destruct (decide _); [by rewrite Z.mod_mod |].
  rewrite Zminus_mod, Z_mod_same_full, Z.sub_0_r. by rewrite !Z.mod_mod.
Qed.

Lemma length_u32_enc z : length (u32_enc z) = 4%nat.
Proof. apply length_le_enc. Qed.

Lemma length_i64_enc z : length (i64_enc z) = 8%nat.
Proof. apply length_le_enc. Qed.

#[global] Arguments le_enc : simpl never.
#[global] Arguments le_dec : simpl never.
#[global] Arguments i64_enc : simpl never.
#[global] Arguments i64_dec : simpl never.
#[global] Arguments u32_enc : simpl never.
#[global] Arguments u32_dec : simpl never.
#[global] Arguments wrap : simpl never.
#[global] Arguments sgn : simpl never.

#[export] Hint Rewrite @length_le_enc length_u32_enc length_i64_enc @length_app
  @length_take @length_drop @length_replicate : len.
#[export] Hint Resolve u32_dec_range i64_dec_range length_u32_enc length_i64_enc : chat.

(** Length goals: normalise with the [len] database, then arithmetic. *)
Ltac len := autorewrite with len in *; simpl length in *; try lia.

(** ** List lemmas *)

Lemma size_of_nonneg {A} (l : list A) : 0 <= size_of l.
Proof. unfold size_of. lia. Qed.

Lemma to_nat_size_of {A} (l : list A) : Z.to_nat (size_of l) = length l.
Proof. apply Nat2Z.id. Qed.

Lemma size_of_app {A} (l1 l2 : list A) : size_of (l1 ++ l2) = size_of l1 + size_of l2.
Proof. unfold size_of. rewrite length_app. lia. Qed.

Lemma take_app_exact {A} (l1 l2 : list A) n : length l1 = n -> take n (l1 ++ l2) = l1.
Proof. intros <-. apply take_app_length. Qed.

Lemma drop_app_exact {A} (l1 l2 : list A) n : length l1 = n -> drop n (l1 ++ l2) = l2.
Proof. intros <-. apply drop_app_length. Qed.

Lemma take_drop_split {A} (l : list A) n m :
  take n l ++ take m (drop n l) = take (n + m) l.
Proof. by rewrite <- take_take_drop. Qed.

(** ** Map lemmas *)

Section emplace.
Context `{Countable K} {V : Type}.
Implicit Types (m : gmap K V) (k : K) (v : V).

Lemma emplace_fresh m k v : m !! k = None -> emplace k v m = <[k := v]> m.
Proof. unfold emplace. by intros ->. Qed.

Lemma emplace_present m k v : is_Some (m !! k) -> emplace k v m = m.
Proof. unfold emplace. by intros [? ->]. Qed.

Lemma lookup_emplace_ne m k k' v : k <> k' -> emplace k v m !! k' = m !! k'.
Proof. intros Hne. unfold emplace. destruct (m !! k); [done |]. by apply lookup_insert_ne. Qed.

Lemma lookup_emplace_is_Some m k v : is_Some (emplace k v m !! k).
Proof.
  unfold emplace. destruct (m !! k) eqn:E; [rewrite E; eauto |].
  rewrite lookup_insert_eq. eauto.
Qed.

Lemma size_emplace_le m k v : (size (emplace k v m) <= S (size m))%nat.
Proof.
  unfold emplace. destruct (m !! k) eqn:E; [lia |].
  rewrite map_size_insert_None by done. lia.
Qed.

Lemma size_delete_lookup m k : is_Some (m !! k) -> size (delete k m) = pred (size m).
Proof. intros [v Hv]. by erewrite map_size_delete_Some. Qed.
End emplace.

(** ** Sums over the entries of a map *)

Section map_sum.
Context `{Countable K} {V : Type} (f : V -> nat).

Definition map_sum (m : gmap K V) : nat := sum_list_with (fun p => f p.2) (map_to_list m).

Lemma map_sum_insert (m : gmap K V) k v :
  map_sum (<[k := v]> m) = (f v + map_sum (delete k m))%nat.
Proof.
  unfold map_sum. rewrite <- insert_delete_eq.
  by rewrite map_to_list_insert by apply lookup_delete_eq.
Qed.

(** The entry taken out of the sum. *)
Lemma map_sum_lookup (m : gmap K V) k v :
  m !! k = Some v -> map_sum m = (f v + map_sum (delete k m))%nat.
Proof. intros Hk. rewrite <- map_sum_insert. by rewrite insert_id. Qed.

Lemma map_sum_zero (m : gmap K V) :
  (forall k v, m !! k = Some v -> f v = 0%nat) -> map_sum m = 0%nat.
Proof.
  intros Hm. unfold map_sum.
  assert (Hl : forall p, p ∈ map_to_list m -> f p.2 = 0%nat).
  { intros [k v] Hp. apply elem_of_map_to_list in Hp. by eapply Hm. }
  induction (map_to_list m) as [| p l IH]; [done |]. cbn. rewrite (Hl p) by constructor.
  apply IH. intros p' Hp'. apply Hl. by constructor.
Qed.
End map_sum.
