(* ===== verification/Codec.v ===== *)
(** * Codec: protocol/Codec.h

    The byte-level writer ([put], [put_str]) and the bounds-checked [Reader].
    Integers are passed as their object representation; [size_t] arithmetic is
    reduced modulo 2^64 as on the target, and [reader_wf] is the invariant
    under which no reduction takes place and no copy leaves the buffer.
    A read is a function [Reader -> option A * Reader]: [None] is the C++
    [false], and the reader returned is the one left behind in both cases. *)

From S2P Require Import Prelude.

Module Codec.

(** ** Writing *)

Definition put (out src : bytes) : bytes := out ++ src.

Definition put_str (out s : bytes) : bytes :=
  let len := wrap 32 (size_of s) in
  put (put out (u32_enc len)) s.

(** ** Reading *)

Record Reader := mkReader { buf_ : bytes; off_ : Z }.

Definition reader (buf : bytes) : Reader := mkReader buf 0.

Definition take (n : Z) (r : Reader) : option bytes * Reader :=
  if decide (wrap 64 (off_ r + n) > size_of (buf_ r)) then (None, r)
  else (Some (list.take (Z.to_nat n) (drop (Z.to_nat (off_ r)) (buf_ r))),
        mkReader (buf_ r) (wrap 64 (off_ r + n))).

Definition take_str (r : Reader) : option bytes * Reader :=
  match take 4 r with
  | (None, r') => (None, r')
  | (Some lenb, r') =>
      let len := u32_dec lenb in
      if decide (wrap 64 (off_ r' + len) > size_of (buf_ r')) then (None, r')
      else (Some (list.take (Z.to_nat len) (drop (Z.to_nat (off_ r')) (buf_ r'))),
            mkReader (buf_ r') (wrap 64 (off_ r' + len)))
  end.

Definition remaining (r : Reader) : Z := wrap 64 (size_of (buf_ r) - off_ r).

(** ** The reader monad: sequencing that stops at the first [false] *)

Definition Parser (A : Type) : Type := Reader -> option A * Reader.

Definition pbind {A B} (p : Parser A) (f : A -> Parser B) : Parser B :=
  fun r => match p r with
           | (Some a, r') => f a r'
           | (None, r') => (None, r')
           end.
Definition pret {A} (a : A) : Parser A := fun r => (Some a, r).

(** ** Invariant and abstract view *)

(** No vector is larger than [PTRDIFF_MAX] bytes, so [off_ + n] cannot wrap. *)
Definition reader_wf (r : Reader) : Prop :=
  0 <= off_ r <= size_of (buf_ r) /\ size_of (buf_ r) < 2 ^ 63.

(** The bytes not yet consumed. *)
Definition rest (r : Reader) : bytes := drop (Z.to_nat (off_ r)) (buf_ r).

Definition advance (n : Z) (r : Reader) : Reader := mkReader (buf_ r) (off_ r + n).

Lemma reader_wf_reader buf : size_of buf < 2 ^ 63 -> reader_wf (reader buf).
Proof. intros H. unfold reader_wf, reader; simpl. pose proof (size_of_nonneg buf). lia. Qed.

Lemma rest_reader buf : rest (reader buf) = buf.
Proof. done. Qed.

Lemma size_rest r : reader_wf r -> size_of (rest r) = size_of (buf_ r) - off_ r.
Proof. intros [H _]. unfold rest, size_of in *. rewrite length_drop. lia. Qed.

Lemma rest_advance n r : 0 <= n -> reader_wf r -> rest (advance n r) = drop (Z.to_nat n) (rest r).
Proof.
  intros Hn [H _]. unfold rest, advance; simpl. rewrite drop_drop. f_equal. lia.
Qed.

Lemma reader_wf_advance n r :
  reader_wf r -> 0 <= n <= size_of (rest r) -> reader_wf (advance n r).
Proof. intros Hr Hn. rewrite size_rest in Hn by done. destruct Hr. split; simpl; lia. Qed.

(** The three facts about [take]: what it returns when enough bytes remain,
    that it fails otherwise, and that it never touches the buffer. *)
Lemma take_ok n r :
  reader_wf r -> 0 <= n <= size_of (rest r) ->
  take n r = (Some (list.take (Z.to_nat n) (rest r)), advance n r).
Proof.
  intros Hr Hn. pose proof (size_rest r Hr) as Hs. destruct Hr as [H1 H2].
  unfold take. rewrite wrap_small by lia. rewrite decide_False by lia. done.
Qed.

Lemma take_fail n r :
  reader_wf r -> 0 <= n < 2 ^ 63 -> size_of (rest r) < n -> take n r = (None, r).
Proof.
  intros Hr Hn Hlt. rewrite size_rest in Hlt by done. destruct Hr as [H1 H2].
  unfold take. rewrite wrap_small by lia. by rewrite decide_True by lia.
Qed.

Lemma take_app x y r :
  reader_wf r -> rest r = x ++ y -> exists r',
    take (size_of x) r = (Some x, r') /\ rest r' = y /\ reader_wf r'.
Proof.
  intros Hr E. assert (Hx : 0 <= size_of x <= size_of (rest r)).
  { rewrite E, size_of_app. pose proof (size_of_nonneg x). pose proof (size_of_nonneg y). lia. }
  exists (advance (size_of x) r). rewrite take_ok, rest_advance by (done || lia).
  rewrite to_nat_size_of, E, take_app_length, drop_app_length.
  split_and!; [done.. |]. by apply reader_wf_advance.
Qed.

(** What a successful [take] says about the bytes that were left. *)
Lemma take_inv n r x r' :
  reader_wf r -> 0 <= n < 2 ^ 63 -> take n r = (Some x, r') ->
  rest r = x ++ rest r' /\ size_of x = n /\ reader_wf r'.
Proof.
  intros Hr Hn Ht. destruct (decide (n <= size_of (rest r))) as [Hle | Hgt].
  - rewrite take_ok in Ht by (done || lia). inv Ht.
    rewrite rest_advance by (done || lia). split_and!.
    + by rewrite take_drop.
    + unfold size_of in *. rewrite length_take. lia.
    + apply reader_wf_advance; [done | lia].
  - rewrite take_fail in Ht by (done || lia). done.
Qed.

Lemma take_None_reader n r r' : take n r = (None, r') -> r' = r.
Proof. unfold take. case_decide; intros Heq; by inv Heq. Qed.

(** ** Strings *)

Definition str_enc (s : bytes) : bytes := u32_enc (wrap 32 (size_of s)) ++ s.

Lemma put_str_enc out s : put_str out s = out ++ str_enc s.
Proof. unfold put_str, put, str_enc. by rewrite <- app_assoc. Qed.

Lemma take_str_app s y r :
  reader_wf r -> is_u32 (size_of s) -> rest r = str_enc s ++ y -> exists r',
    take_str r = (Some s, r') /\ rest r' = y /\ reader_wf r'.
Proof.
  intros Hr Hs E. unfold str_enc in E. rewrite wrap_u32_small, <- app_assoc in E by done.
  destruct (take_app _ _ r Hr E) as (r1 & Ht & Hr1 & Hwf1).
  change (size_of (u32_enc (size_of s))) with 4 in Ht.
  destruct (take_app s y r1 Hwf1 Hr1) as (r2 & Ht2 & Hr2 & Hwf2).
  exists r2. split_and!; try done. unfold take_str. rewrite Ht, u32_dec_enc by done. exact Ht2.
Qed.

Lemma take_str_inv r s r' :
  reader_wf r -> take_str r = (Some s, r') ->
  rest r = str_enc s ++ rest r' /\ is_u32 (size_of s) /\ reader_wf r'.
Proof.
  intros Hr H. unfold take_str in H. destruct (take 4 r) as [[lenb |] r1] eqn:E1; [| done].
  destruct (take_inv 4 r lenb r1 Hr ltac:(lia) E1) as (Er & Hl & Hr1).
  assert (Hl4 : length lenb = 4%nat) by (unfold size_of in Hl; lia).
  pose proof (u32_dec_range lenb Hl4) as Hu.
  change (take (u32_dec lenb) r1 = (Some s, r')) in H.
  destruct (take_inv (u32_dec lenb) r1 s r' Hr1 ltac:(unfold is_u32 in Hu; lia) H) as (Es & Hsz & Hr').
  split_and!; [| by rewrite Hsz | done].
  unfold str_enc. rewrite Hsz, wrap_u32_small by done. rewrite u32_enc_dec by done.
  by rewrite Er, Es, app_assoc.
Qed.

End Codec.
