(* ===== verification/Message.v ===== *)
(** * Message: protocol/Message.h

    The history payload: [serialize] and [parse] of a list of messages, and
    the wire format [enc_msgs] they agree on. [parse] returns the C++ result
    together with the final contents of the out-parameter, which keeps the
    messages read before a failure. A [std::string] is the list of its bytes. *)

From S2P Require Import Prelude Codec.

Module Msg.

Record Message := mkMessage {
  id : Z;
  sender_id : Z;
  created_epoch : Z;
  sender_nick : bytes;
  content : bytes }.

Definition serialize_one (out : bytes) (m : Message) : bytes :=
  let out := Codec.put out (i64_enc (id m)) in
  let out := Codec.put out (i64_enc (sender_id m)) in
  let out := Codec.put out (i64_enc (created_epoch m)) in
  let out := Codec.put_str out (sender_nick m) in
  Codec.put_str out (content m).

Definition serialize (ms : list Message) : bytes :=
  let count := wrap 32 (size_of ms) in
  foldl serialize_one (Codec.put [] (u32_enc count)) ms.

(** The reads of one iteration of the loop in [parse]. *)
Definition parse_one : Codec.Parser Message :=
  Codec.pbind (Codec.take 8) (fun id_ =>
  Codec.pbind (Codec.take 8) (fun sender_id_ =>
  Codec.pbind (Codec.take 8) (fun created_epoch_ =>
  Codec.pbind Codec.take_str (fun nick =>
  Codec.pbind Codec.take_str (fun content_ =>
  Codec.pret (mkMessage (i64_dec id_) (i64_dec sender_id_) (i64_dec created_epoch_)
                        nick content_)))))).

Fixpoint parse_loop (n : nat) (r : Codec.Reader) (out : list Message) : bool * list Message :=
  match n with
  | O => (true, out)
  | S n' => match parse_one r with
            | (Some m, r') => parse_loop n' r' (out ++ [m])
            | (None, _) => (false, out)
            end
  end.

Definition parse (body : bytes) (out : list Message) : bool * list Message :=
  match Codec.take 4 (Codec.reader body) with
  | (None, _) => (false, out)
  | (Some c, r) => parse_loop (Z.to_nat (u32_dec c)) r []
  end.

(** ** The wire format *)

Definition enc_msg (m : Message) : bytes :=
  i64_enc (id m) ++ i64_enc (sender_id m) ++ i64_enc (created_epoch m) ++
  Codec.str_enc (sender_nick m) ++ Codec.str_enc (content m).

Definition enc_msgs (ms : list Message) : bytes := mjoin (enc_msg <$> ms).

(** Values of the C++ type whose strings fit their 32-bit length field. *)
Definition msg_valid (m : Message) : Prop :=
  is_i64 (id m) /\ is_i64 (sender_id m) /\ is_i64 (created_epoch m) /\
  is_u32 (size_of (sender_nick m)) /\ is_u32 (size_of (content m)).

(** A message used by the witnesses. *)
Definition sample : Message := mkMessage 7 3 1785542400 [x61; x62] [x68; x69; x21].

#[global] Instance message_eq_decision : EqDecision Message.
Proof. solve_decision. Defined.

Lemma serialize_one_enc out m : serialize_one out m = out ++ enc_msg m.
Proof.
  unfold serialize_one, enc_msg. rewrite !Codec.put_str_enc. unfold Codec.put.
  by rewrite <- !app_assoc.
Qed.

Lemma foldl_serialize out ms : foldl serialize_one out ms = out ++ enc_msgs ms.
Proof.
  revert out. induction ms as [| m ms IH]; intros out; simpl.
  - by rewrite app_nil_r.
  - rewrite IH, serialize_one_enc, <- app_assoc. done.
Qed.

Lemma serialize_enc ms : serialize ms = u32_enc (wrap 32 (size_of ms)) ++ enc_msgs ms.
Proof. unfold serialize. by rewrite foldl_serialize. Qed.

(** One encoded message is read back, and reading leaves what follows. *)
Lemma parse_one_app m y r :
  Codec.reader_wf r -> msg_valid m -> Codec.rest r = enc_msg m ++ y -> exists r',
    parse_one r = (Some m, r') /\ Codec.rest r' = y /\ Codec.reader_wf r'.
Proof.
  intros Hr (Hi & Hs & He & Hn & Hc) E. unfold enc_msg in E. rewrite <- !app_assoc in E.
  destruct (Codec.take_app _ _ r Hr E) as (r1 & T1 & E1 & W1).
  destruct (Codec.take_app _ _ r1 W1 E1) as (r2 & T2 & E2 & W2).
  destruct (Codec.take_app _ _ r2 W2 E2) as (r3 & T3 & E3 & W3).
  destruct (Codec.take_str_app _ _ r3 W3 Hn E3) as (r4 & T4 & E4 & W4).
  destruct (Codec.take_str_app _ _ r4 W4 Hc E4) as (r5 & T5 & E5 & W5).
  exists r5. split_and!; try done.
  change (size_of (i64_enc ?z)) with 8 in T1, T2, T3.
  unfold parse_one, Codec.pbind, Codec.pret. rewrite T1, T2, T3, T4, T5.
  rewrite !i64_dec_enc by done. by destruct m.
Qed.

(** What was read is what the bytes encode. *)
Lemma parse_one_inv r m r' :
  Codec.reader_wf r -> parse_one r = (Some m, r') ->
  Codec.rest r = enc_msg m ++ Codec.rest r' /\ msg_valid m /\ Codec.reader_wf r'.
Proof.
  intros Hr H. unfold parse_one, Codec.pbind, Codec.pret in H.
  destruct (Codec.take 8 r) as [[b1 |] r1] eqn:T1; [| done].
  destruct (Codec.take 8 r1) as [[b2 |] r2] eqn:T2; [| done].
  destruct (Codec.take 8 r2) as [[b3 |] r3] eqn:T3; [| done].
  destruct (Codec.take_str r3) as [[s1 |] r4] eqn:T4; [| done].
  destruct (Codec.take_str r4) as [[s2 |] r5] eqn:T5; [| done].
  apply Codec.take_inv in T1 as (E1 & L1 & W1); [| done | lia].
  apply Codec.take_inv in T2 as (E2 & L2 & W2); [| done | lia].
  apply Codec.take_inv in T3 as (E3 & L3 & W3); [| done | lia].
  apply Codec.take_str_inv in T4 as (E4 & L4 & W4); [| done].
  apply Codec.take_str_inv in T5 as (E5 & L5 & W5); [| done].
  injection H as <- <-. unfold size_of in L1, L2, L3. split_and!; [| | done].
  - unfold enc_msg; cbn [id sender_id created_epoch sender_nick content].
    rewrite !i64_enc_dec by lia.
    rewrite E1, E2, E3, E4, E5. by rewrite <- !app_assoc.
  - unfold msg_valid; cbn [id sender_id created_epoch sender_nick content]. auto with chat.
Qed.

Lemma parse_loop_app ms y r out :
  Codec.reader_wf r -> Forall msg_valid ms -> Codec.rest r = enc_msgs ms ++ y ->
  parse_loop (length ms) r out = (true, out ++ ms).
Proof.
  intros Hr Hv. revert r out Hr. induction Hv as [| m ms Hm Hms IH]; intros r out Hr E; simpl.
  - by rewrite app_nil_r.
  - simpl in E. rewrite <- app_assoc in E.
    destruct (parse_one_app m _ r Hr Hm E) as (r' & -> & Er' & Wr').
    rewrite (IH r' _ Wr' Er'). by rewrite <- app_assoc.
Qed.

Lemma parse_loop_inv n r out ms :
  Codec.reader_wf r -> parse_loop n r out = (true, ms) ->
  exists l y, ms = out ++ l /\ length l = n /\ Forall msg_valid l /\
              Codec.rest r = enc_msgs l ++ y.
Proof.
  revert r out. induction n as [| n IH]; intros r out Hr H; simpl in H.
  - inv H. exists [], (Codec.rest r). by rewrite app_nil_r.
  - destruct (parse_one r) as [[m |] r'] eqn:E; [| done].
    apply parse_one_inv in E as (E & Hm & Wr'); [| done].
    destruct (IH r' _ Wr' H) as (l & y & -> & <- & Hl & El).
    exists (m :: l), y. split_and!; [by rewrite <- app_assoc | done | by constructor |].
    simpl. by rewrite E, El, app_assoc.
Qed.

(** [parse] in terms of its reader. *)
Lemma parse_serialize_gen ms tail out :
  Forall msg_valid ms -> is_u32 (size_of ms) ->
  size_of (serialize ms ++ tail) < 2 ^ 63 ->
  parse (serialize ms ++ tail) out = (true, ms).
Proof.
  intros Hv Hn Hsz. rewrite serialize_enc, wrap_u32_small, <- app_assoc in * by done.
  pose proof (Codec.reader_wf_reader _ Hsz) as Hr.
  destruct (Codec.take_app _ _ _ Hr (Codec.rest_reader _)) as (r1 & T1 & E1 & W1).
  change (size_of (u32_enc ?z)) with 4 in T1.
  unfold parse. rewrite T1, u32_dec_enc by done.
  unfold size_of. rewrite Nat2Z.id. by apply (parse_loop_app ms tail).
Qed.

(** A successful parse determines the bytes it consumed. *)
Lemma parse_inv body out ms :
  size_of body < 2 ^ 63 -> parse body out = (true, ms) ->
  Forall msg_valid ms /\ is_u32 (size_of ms) /\ exists tail, body = serialize ms ++ tail.
Proof.
  intros Hsz H. unfold parse in H. pose proof (Codec.reader_wf_reader _ Hsz) as Hr.
  destruct (Codec.take 4 _) as [[c |] r] eqn:T; [| done].
  apply Codec.take_inv in T as (E & L & W); [| done | lia].
  apply parse_loop_inv in H as (l & y & -> & Hlen & Hv & El); [| done].
  unfold size_of in L. assert (Hc : length c = 4%nat) by lia.
  pose proof (u32_dec_range c Hc) as Hu.
  assert (Hl : size_of l = u32_dec c).
  { unfold size_of. rewrite Hlen. apply Z2Nat.id. apply Hu. }
  simpl. split_and!; [done | by rewrite Hl |]. exists y.
  rewrite serialize_enc, Hl, wrap_u32_small by done. rewrite u32_enc_dec by done.
  rewrite Codec.rest_reader in E. rewrite E, El. by rewrite app_assoc.
Qed.

(** ** Bounds *)




(** ** Properties *)

(** C28: what the server serialises the client parses, whatever
    follows it in the buffer and whatever the out-parameter held before. *)
Theorem parse_serialize ms tail out :
  Forall msg_valid ms -> is_u32 (size_of ms) ->
  size_of (serialize ms ++ tail) < 2 ^ 63 ->
  parse (serialize ms ++ tail) out = (true, ms).
Proof. apply parse_serialize_gen. Qed.

Lemma sample_valid : Forall msg_valid [sample].
Proof.
  repeat constructor; unfold is_i64, is_u32; cbn; try lia; vm_compute; congruence.
Qed.

Lemma parse_serialize_witness :
  size_of (serialize [sample] ++ [xff]) < 2 ^ 63 /\
  parse (serialize [sample] ++ [xff]) [] = (true, [sample]).
Proof.
  split; [done |].
  apply (parse_serialize [sample] [xff] []); [apply sample_valid | by compute | done].
Defined.

(** A parse that succeeds consumed exactly the serialisation of
    what it returned; so [parse] accepts no other encoding. *)
Theorem parse_canonical body out ms :
  size_of body < 2 ^ 63 -> parse body out = (true, ms) ->
  exists tail, body = serialize ms ++ tail.
Proof. intros H1 H2. by apply (parse_inv body out ms). Qed.

Lemma parse_canonical_witness :
  parse (serialize [sample]) [] = (true, [sample]) /\
  exists tail, serialize [sample] = serialize [sample] ++ tail.
Proof.
  split; [vm_compute; reflexivity |].
  apply (parse_canonical (serialize [sample]) [] [sample]); [done | vm_compute; reflexivity].
Defined.

(** Every proper prefix of a serialised history is rejected. *)
Theorem parse_truncated ms pre suf out :
  Forall msg_valid ms -> is_u32 (size_of ms) -> size_of (serialize ms) < 2 ^ 63 ->
  serialize ms = pre ++ suf -> suf <> [] ->
  (parse pre out).1 = false.
Proof.
  intros Hv Hn Hsz E Hsuf. destruct (parse pre out) as [[] ms'] eqn:P; [| done].
  assert (Hpre : size_of pre < 2 ^ 63).
  { rewrite E, size_of_app in Hsz. pose proof (size_of_nonneg suf). lia. }
  apply parse_inv in P as (Hv' & Hn' & tail & ->); [| done].
  exfalso. rewrite <- app_assoc in E.
  assert (P1 : parse (serialize ms ++ []) [] = (true, ms)).
  { apply parse_serialize_gen; [done.. |]. by rewrite app_nil_r. }
  rewrite app_nil_r, E in P1. rewrite parse_serialize_gen in P1; [| done.. | by rewrite <- E].
  injection P1 as <-. assert (tail ++ suf = []) as H0.
  { apply (app_inv_head (serialize ms')). by rewrite app_nil_r. }
  by apply app_eq_nil in H0 as [_ ?].
Qed.

Lemma parse_truncated_witness :
  length (serialize [sample]) = 41%nat /\
  (parse (take 40 (serialize [sample])) []).1 = false.
Proof.
  split; [vm_compute; reflexivity |].
  apply (parse_truncated [sample] (take 40 (serialize [sample])) (drop 40 (serialize [sample])) []);
    [apply sample_valid | by compute | done | by rewrite take_drop | vm_compute; congruence].
Defined.



End Msg.
