(* ===== verification/Wire.v ===== *)
(** * Wire: protocol/Protocol.h, protocol/Result.h, protocol/Type.h

    The packet structures, their object representations on the x86-64 System V
    layout (little-endian, natural alignment), and [serialize_packet]. Padding
    bytes are indeterminate in C++ and [memcpy] copies them, so an object
    representation is a function of the value *and* of the padding.

    An [enum class E : uint8_t] read from the network may hold any byte: a
    struct field of enum type is a [byte], the enumerators are an inductive
    type, and a [switch] matches on the partial decoding. *)

From S2P Require Import Prelude.

Module Protocol.

(** [RoomId], [UserId] and [MessageId] are [int64_t] (Type.h). *)
Abbreviation RoomId := Z (only parsing).
Abbreviation UserId := Z (only parsing).
Abbreviation MessageId := Z (only parsing).

Inductive PacketType := PKT_REQUEST | PKT_RESPONSE | PKT_BROADCAST.

Inductive Command :=
  | CMD_CREATE_ROOM | CMD_JOIN_ROOM | CMD_LEAVE_ROOM | CMD_SEND_MESSAGE | CMD_LOAD_MESSAGE.

Inductive Event := EVT_MESSAGE | EVT_USER_JOIN | EVT_USER_LEAVE.

Inductive ResponseResultCode :=
  | RNone | RSuccess | RRoomNotFound | RRoomAlreadyExists | RRoomFull | RUserNotFound
  | RDBNotFound | RDBError | RDBDuplicate.

Inductive Result :=
  | None_ | Success | RoomNotFound | RoomAlreadyExists | RoomFull | UserNotFound
  | DBNotFound | DBError | DBDuplicate.

#[global] Instance packet_type_eq_decision : EqDecision PacketType.
Proof. solve_decision. Defined.
#[global] Instance command_eq_decision : EqDecision Command.
Proof. solve_decision. Defined.
#[global] Instance event_eq_decision : EqDecision Event.
Proof. solve_decision. Defined.
#[global] Instance rrc_eq_decision : EqDecision ResponseResultCode.
Proof. solve_decision. Defined.
#[global] Instance result_eq_decision : EqDecision Result.
Proof. solve_decision. Defined.

(** Underlying values of the enumerators. *)
Definition packet_type_byte (t : PacketType) : byte :=
  match t with PKT_REQUEST => x01 | PKT_RESPONSE => x02 | PKT_BROADCAST => x03 end.

Definition command_byte (c : Command) : byte :=
  match c with
  | CMD_CREATE_ROOM => x01 | CMD_JOIN_ROOM => x02 | CMD_LEAVE_ROOM => x03
  | CMD_SEND_MESSAGE => x04 | CMD_LOAD_MESSAGE => x05
  end.

Definition event_byte (e : Event) : byte :=
  match e with EVT_MESSAGE => x01 | EVT_USER_JOIN => x02 | EVT_USER_LEAVE => x03 end.

Definition status_byte (s : ResponseResultCode) : byte :=
  match s with
  | RNone => x00 | RSuccess => x01 | RRoomNotFound => x02 | RRoomAlreadyExists => x03
  | RRoomFull => x04 | RUserNotFound => x05 | RDBNotFound => x06 | RDBError => x07
  | RDBDuplicate => x08
  end.

(** Which [case] of a [switch] a raw value selects. *)
Definition to_packet_type (b : byte) : option PacketType :=
  match b with
  | x01 => Some PKT_REQUEST | x02 => Some PKT_RESPONSE | x03 => Some PKT_BROADCAST
  | _ => None
  end.

Definition to_command (b : byte) : option Command :=
  match b with
  | x01 => Some CMD_CREATE_ROOM | x02 => Some CMD_JOIN_ROOM | x03 => Some CMD_LEAVE_ROOM
  | x04 => Some CMD_SEND_MESSAGE | x05 => Some CMD_LOAD_MESSAGE
  | _ => None
  end.

Definition to_event (b : byte) : option Event :=
  match b with
  | x01 => Some EVT_MESSAGE | x02 => Some EVT_USER_JOIN | x03 => Some EVT_USER_LEAVE
  | _ => None
  end.

Definition to_status (b : byte) : option ResponseResultCode :=
  match b with
  | x00 => Some RNone | x01 => Some RSuccess | x02 => Some RRoomNotFound
  | x03 => Some RRoomAlreadyExists | x04 => Some RRoomFull | x05 => Some RUserNotFound
  | x06 => Some RDBNotFound | x07 => Some RDBError | x08 => Some RDBDuplicate
  | _ => None
  end.

Definition result_to_resresultcode (result : Result) : ResponseResultCode :=
  match result with
  | Success => RSuccess
  | RoomNotFound => RRoomNotFound
  | RoomAlreadyExists => RRoomAlreadyExists
  | RoomFull => RRoomFull
  | UserNotFound => RUserNotFound
  | DBNotFound => RDBNotFound
  | DBError => RDBError
  | DBDuplicate => RDBDuplicate
  | None_ => RNone
  end.

(** ** The structures *)

Record Header := mkHeader { type_ : byte }.

Record Request := mkRequest { rq_room_id : RoomId; rq_body_len : Z; rq_command : byte }.

Record Response := mkResponse { rs_body_len : Z; rs_command : byte; rs_status : byte }.

Record Broadcast := mkBroadcast {
  bc_sender_id : UserId; bc_room_id : RoomId; bc_body_len : Z; bc_event : byte }.

(** [Packet p = {};] value-initialises every member. *)
Record Packet := mkPacket { header : Header; request : Request; body : bytes }.
Definition empty_packet : Packet := mkPacket (mkHeader x00) (mkRequest 0 0 x00) [].

(** ** Object representations *)

(** What a trivially copyable structure promises to the code that [memcpy]s
    it: a fixed size, and that reading a representation back gives the value
    for every content of the padding. *)
Class Layout (T : Type) := {
  sizeof : nat;
  npad : nat;
  rep_valid : T -> Prop;
  to_rep : bytes -> T -> bytes;
  of_rep : bytes -> T;
  length_to_rep : forall pad t, length pad = npad -> length (to_rep pad t) = sizeof;
  of_to_rep : forall pad t, length pad = npad -> rep_valid t -> of_rep (to_rep pad t) = t;
  of_rep_valid : forall b, length b = sizeof -> rep_valid (of_rep b) }.

#[global] Arguments sizeof T {_}.
#[global] Arguments npad T {_}.

(** [n] bytes at offset [off] of a representation. *)
Definition field (off n : nat) (b : bytes) : bytes := take n (drop off b).

(** The byte at offset [off]. *)
Definition field1 (off : nat) (b : bytes) : byte := default x00 (b !! off).

Lemma length_field off n b : (off + n <= length b)%nat -> length (field off n b) = n.
Proof. intros H. unfold field. rewrite length_take, length_drop. lia. Qed.

Lemma field_app_r off n l1 l2 k :
  length l1 = k -> field (k + off) n (l1 ++ l2) = field off n l2.
Proof. intros <-. unfold field. rewrite <- drop_drop, drop_app_length. done. Qed.

Lemma field_head n l1 l2 : length l1 = n -> field 0 n (l1 ++ l2) = l1.
Proof. intros. unfold field. rewrite drop_0. by apply take_app_exact. Qed.

Definition header_rep (h : Header) : bytes := [type_ h].
Definition header_of (b : bytes) : Header := mkHeader (field1 0 b).

Definition request_rep (pad : bytes) (r : Request) : bytes :=
  i64_enc (rq_room_id r) ++ u32_enc (rq_body_len r) ++ [rq_command r] ++ pad.
Definition request_of (b : bytes) : Request :=
  mkRequest (i64_dec (field 0 8 b)) (u32_dec (field 8 4 b)) (field1 12 b).
Definition request_valid (r : Request) : Prop :=
  is_i64 (rq_room_id r) /\ is_u32 (rq_body_len r).

Definition response_rep (pad : bytes) (r : Response) : bytes :=
  u32_enc (rs_body_len r) ++ [rs_command r; rs_status r] ++ pad.
Definition response_of (b : bytes) : Response :=
  mkResponse (u32_dec (field 0 4 b)) (field1 4 b) (field1 5 b).
Definition response_valid (r : Response) : Prop := is_u32 (rs_body_len r).

Definition broadcast_rep (pad : bytes) (r : Broadcast) : bytes :=
  i64_enc (bc_sender_id r) ++ i64_enc (bc_room_id r) ++ u32_enc (bc_body_len r) ++
  [bc_event r] ++ pad.
Definition broadcast_of (b : bytes) : Broadcast :=
  mkBroadcast (i64_dec (field 0 8 b)) (i64_dec (field 8 8 b)) (u32_dec (field 16 4 b))
    (field1 20 b).
Definition broadcast_valid (r : Broadcast) : Prop :=
  is_i64 (bc_sender_id r) /\ is_i64 (bc_room_id r) /\ is_u32 (bc_body_len r).

Lemma request_of_rep pad r tail :
  request_valid r -> request_of (request_rep pad r ++ tail) = r.
Proof.
  intros [H1 H2]. unfold request_of, request_rep. rewrite <- !app_assoc.
  rewrite (field_head 8) by apply length_i64_enc.
  rewrite (field_app_r 0 4 (i64_enc _) _ 8), (field_head 4) by apply length_le_enc.
  rewrite i64_dec_enc, u32_dec_enc by done.
  destruct r; reflexivity.
Qed.

Lemma response_of_rep pad r tail :
  response_valid r -> response_of (response_rep pad r ++ tail) = r.
Proof.
  intros H. unfold response_of, response_rep. rewrite <- !app_assoc.
  rewrite (field_head 4) by apply length_u32_enc. rewrite u32_dec_enc by done.
  destruct r; reflexivity.
Qed.

Lemma broadcast_of_rep pad r tail :
  broadcast_valid r -> broadcast_of (broadcast_rep pad r ++ tail) = r.
Proof.
  intros (H1 & H2 & H3). unfold broadcast_of, broadcast_rep. rewrite <- !app_assoc.
  rewrite (field_head 8) by apply length_i64_enc.
  rewrite (field_app_r 0 8 (i64_enc _) _ 8), (field_head 8) by apply length_i64_enc.
  rewrite (field_app_r 8 4 (i64_enc _) _ 8) by apply length_i64_enc.
  rewrite (field_app_r 0 4 (i64_enc _) _ 8), (field_head 4) by apply length_le_enc.
  rewrite !i64_dec_enc, u32_dec_enc by done.
  destruct r; reflexivity.
Qed.

#[global] Program Instance header_layout : Layout Header := {|
  sizeof := 1; npad := 0; rep_valid := fun _ => True;
  to_rep := fun _ h => header_rep h; of_rep := header_of |}.
Solve Obligations with (intros; by try destruct t).

#[global] Program Instance request_layout : Layout Request := {|
  sizeof := 16; npad := 3; rep_valid := request_valid;
  to_rep := request_rep; of_rep := request_of |}.
Next Obligation. intros pad t H. unfold request_rep. len. Qed.
Next Obligation.
  intros pad t _ H. rewrite <- (app_nil_r (request_rep pad t)). by apply request_of_rep.
Qed.
Next Obligation.
  intros b H. split; cbn; [apply i64_dec_range |]. apply u32_dec_range, length_field. lia.
Qed.

#[global] Program Instance response_layout : Layout Response := {|
  sizeof := 8; npad := 2; rep_valid := response_valid;
  to_rep := response_rep; of_rep := response_of |}.
Next Obligation. intros pad t H. unfold response_rep. len. Qed.
Next Obligation.
  intros pad t _ H. rewrite <- (app_nil_r (response_rep pad t)). by apply response_of_rep.
Qed.
Next Obligation. intros b H. apply u32_dec_range, length_field. lia. Qed.

#[global] Program Instance broadcast_layout : Layout Broadcast := {|
  sizeof := 24; npad := 3; rep_valid := broadcast_valid;
  to_rep := broadcast_rep; of_rep := broadcast_of |}.
Next Obligation. intros pad t H. unfold broadcast_rep. len. Qed.
Next Obligation.
  intros pad t _ H. rewrite <- (app_nil_r (broadcast_rep pad t)). by apply broadcast_of_rep.
Qed.
Next Obligation.
  intros b H. repeat split; cbn; try apply i64_dec_range; apply u32_dec_range, length_field; lia.
Qed.

(** ** serialize_packet *)

(** [std::memcpy(dst.data() + off, src, n)] into a vector of bytes. *)
Definition memcpy_at (dst : bytes) (off : nat) (src : bytes) : bytes :=
  take off dst ++ src ++ drop (off + length src) dst.

Definition serialize_packet `{Layout T} (pad : bytes) (h : Header) (packet : T) (body : bytes)
    : bytes :=
  let data := replicate (sizeof Header + sizeof T + length body) x00 in
  let offset := 0%nat in
  let data := memcpy_at data offset (to_rep [] h) in
  let offset := (offset + sizeof Header)%nat in
  let data := memcpy_at data offset (to_rep pad packet) in
  let offset := (offset + sizeof T)%nat in
  if decide (body = []) then data else memcpy_at data offset body.

Lemma length_memcpy_at dst off src :
  (off + length src <= length dst)%nat -> length (memcpy_at dst off src) = length dst.
Proof. intros H. unfold memcpy_at. len. Qed.

(** Copying at the end of what has been written appends. *)
Lemma memcpy_at_fill l n src k :
  length l = k -> (length src <= n)%nat ->
  memcpy_at (l ++ replicate n x00) k src = (l ++ src) ++ replicate (n - length src) x00.
Proof.
  intros <- Hn. unfold memcpy_at. rewrite take_app_length, <- drop_drop, drop_app_length.
  by rewrite drop_replicate, <- app_assoc.
Qed.

Lemma serialize_packet_concat `{Layout T} pad h (t : T) body :
  length pad = npad T ->
  serialize_packet pad h t body = header_rep h ++ to_rep pad t ++ body.
Proof.
  intros Hp. pose proof (length_to_rep pad t Hp) as Hl. unfold serialize_packet.
  change (to_rep [] h) with (header_rep h). change (sizeof Header) with 1%nat.
  rewrite <- (app_nil_l (replicate (_ + _) x00)).
  rewrite memcpy_at_fill by (simpl; lia || done).
  rewrite memcpy_at_fill by (simpl; lia || done).
  case_decide as Hb.
  - subst body. rewrite Hl. cbn [length app header_rep]. replace (_ - _)%nat with 0%nat by lia.
    simpl. by rewrite !app_nil_r.
  - rewrite memcpy_at_fill by (simpl; rewrite ?length_app, ?Hl; simpl; lia).
    rewrite Hl. simpl. replace (_ - _)%nat with 0%nat by lia.
    simpl. by rewrite app_nil_r.
Qed.

(** ** Properties *)

(** Every packet structure is read back from its representation, whatever
    its indeterminate padding bytes hold. *)
Theorem layout_roundtrip pad req res bc :
  length pad = 3%nat -> request_valid req -> response_valid res -> broadcast_valid bc ->
  request_of (request_rep pad req) = req /\
  response_of (response_rep (take 2 pad) res) = res /\
  broadcast_of (broadcast_rep pad bc) = bc.
Proof.
  intros Hp Hq Hs Hb. split_and!.
  - exact (of_to_rep pad req Hp Hq).
  - apply (of_to_rep (Layout := response_layout)); [by rewrite length_take, Hp | done].
  - exact (of_to_rep pad bc Hp Hb).
Qed.

Lemma layout_roundtrip_witness :
  length [x00; xff; x07] = 3%nat /\
  request_of (request_rep [x00; xff; x07] (mkRequest (-5) 300 x02)) = mkRequest (-5) 300 x02.
Proof.
  split; [done |].
  apply (layout_roundtrip [x00; xff; x07] (mkRequest (-5) 300 x02) (mkResponse 0 x01 x01)
           (mkBroadcast 1 1 0 x01)); unfold request_valid, response_valid, broadcast_valid,
    is_i64, is_u32; cbn; lia.
Defined.

(** The layout on the wire: sizes 1, 16, 8 and 24 bytes; the 64-bit ids
    come first, the command byte of a request is at offset 12, the status byte
    of a response at offset 5, the event byte of a broadcast at offset 20. *)
Theorem layout_offsets pad h req res bc :
  length pad = 3%nat ->
  length (header_rep h) = 1%nat /\
  (length (request_rep pad req) = 16%nat /\
   request_rep pad req !! 12%nat = Some (rq_command req) /\
   field 0 8 (request_rep pad req) = i64_enc (rq_room_id req)) /\
  (length (response_rep (take 2 pad) res) = 8%nat /\
   response_rep (take 2 pad) res !! 5%nat = Some (rs_status res)) /\
  (length (broadcast_rep pad bc) = 24%nat /\
   broadcast_rep pad bc !! 20%nat = Some (bc_event bc)).
Proof.
  intros Hp. split_and!; try done.
  - exact (length_to_rep pad req Hp).
  - apply (length_to_rep (Layout := response_layout)). by rewrite length_take, Hp.
  - exact (length_to_rep pad bc Hp).
Qed.

Lemma layout_offsets_witness :
  length [x00; x00; x00] = 3%nat /\
  request_rep [x00; x00; x00] (mkRequest 7 0 x04) !! 12%nat = Some x04.
Proof.
  split; [done |].
  apply (layout_offsets [x00; x00; x00] (mkHeader x01) (mkRequest 7 0 x04)
    (mkResponse 0 x01 x01) (mkBroadcast 1 1 0 x01)); done.
Defined.

(** [serialize_packet]'s resize-and-three-copies is the concatenation of
    the header, the structure and the body, with exactly the length it
    reserved, for a body of any size. *)
Theorem serialize_packet_frames `{Layout T} pad h (t : T) body :
  length pad = npad T ->
  serialize_packet pad h t body = header_rep h ++ to_rep pad t ++ body /\
  length (serialize_packet pad h t body) = (sizeof Header + sizeof T + length body)%nat.
Proof.
  intros Hp. rewrite serialize_packet_concat by done. split; [done |].
  rewrite !length_app, (length_to_rep _ _ Hp). cbn. lia.
Qed.

Lemma serialize_packet_frames_witness :
  length [x00; x00] = npad Response /\
  length (serialize_packet [x00; x00] (mkHeader x02) (mkResponse 2 x01 x01) [x0a; x0b]) = 11%nat.
Proof.
  split; [done |].
  refine (proj2 (serialize_packet_frames [x00; x00] (mkHeader x02) (mkResponse 2 x01 x01)
                   [x0a; x0b] _)); done.
Defined.

End Protocol.
