(* ===== verification/Session.v ===== *)
(** * Session: server/src/network/Session.{h,cpp}, Socket.{h,cpp}

    One client connection: the receive buffer with its packet extraction, and
    the send queue with [flush]. The kernel's side of the socket is data: each
    [::recv] or [::send] consumes one outcome from a list (a list that has run
    out answers [EAGAIN]), so every behaviour of a non-blocking socket that
    returns finitely often with something other than [EAGAIN] is a value of
    that list. This file is the single-threaded behaviour; FlushConc.v has the
    interleavings of concurrent [pack] and [flush] calls. *)

From S2P Require Import Prelude Wire.

Module Session.
Import Protocol.

(** ** State *)

Record SendBuffer := mkSendBuffer { buffer : bytes; offset : nat }.

Inductive FlushResult := Complete | Pending | Error.

(** What one call of [::send] returns: a byte count, or -1 with an [errno]. *)
Inductive SendOut := SendN (n : nat) | SendAgain | SendIntr | SendErr.

(** What one call of [::recv] returns: bytes, 0 at end of file, or -1. *)
Inductive RecvOut := RecvData (b : bytes) | RecvEof | RecvAgain | RecvIntr | RecvErr.

Record Session := mkSession {
  fd : Z;
  recv_buffer_ : bytes;
  send_queue_ : list SendBuffer;
  disconnecting_ : bool;
  sending_ : bool;
  sock_outs : list SendOut;   (* outcomes of the coming [::send] calls *)
  sock_wire : bytes           (* bytes the socket has accepted so far *) }.

#[global] Instance flush_result_eq_decision : EqDecision FlushResult.
Proof. solve_decision. Defined.

(** [Session::Session(Socket&&)] *)
Definition new_session (fd_ : Z) : Session := mkSession fd_ [] [] false false [] [].

Definition get_fd (s : Session) : Z := fd s.

Definition set_recv (b : bytes) (s : Session) : Session :=
  mkSession (fd s) b (send_queue_ s) (disconnecting_ s) (sending_ s) (sock_outs s) (sock_wire s).

Definition mark_disconnecting (s : Session) : Session :=
  mkSession (fd s) (recv_buffer_ s) (send_queue_ s) true (sending_ s) (sock_outs s) (sock_wire s).

Definition set_send (q : list SendBuffer) (sending : bool) (outs : list SendOut) (wire : bytes)
    (s : Session) : Session :=
  mkSession (fd s) (recv_buffer_ s) q (disconnecting_ s) sending outs wire.

(** ** Receiving *)

Fixpoint on_readable (ins : list RecvOut) (s : Session) : bool * Session :=
  match ins with
  | [] => (true, s)
  | RecvData b :: ins' =>
      if decide (b = []) then (false, mark_disconnecting s)    (* n == 0 *)
      else on_readable ins' (set_recv (recv_buffer_ s ++ b) s)
  | RecvEof :: _ => (false, mark_disconnecting s)
  | RecvAgain :: _ => (true, s)
  | RecvIntr :: ins' => on_readable ins' s
  | RecvErr :: _ => (false, mark_disconnecting s)
  end.

(** The packet is an in/out parameter, partly written before a failure. *)
Definition extract_packet (packet : Packet) (s : Session) : bool * Packet * Session :=
  let buf := recv_buffer_ s in
  if decide (size_of buf < Z.of_nat (sizeof Header)) then (false, packet, s) else
  let packet := mkPacket (of_rep (take (sizeof Header) buf)) (request packet) (body packet) in
  let off := sizeof Header in
  if decide (size_of buf < Z.of_nat (off + sizeof Request)) then (false, packet, s) else
  let packet :=
    mkPacket (header packet) (of_rep (field off (sizeof Request) buf)) (body packet) in
  let off := (off + sizeof Request)%nat in
  let len := rq_body_len (request packet) in
  if decide (len > 0) then
    if decide (size_of buf < Z.of_nat off + len) then (false, packet, s) else
    let packet := mkPacket (header packet) (request packet) (field off (Z.to_nat len) buf) in
    (true, packet, set_recv (drop (off + Z.to_nat len) buf) s)
  else (true, packet, set_recv (drop off buf) s).

(** The extraction loop of [Server::handle_request]: every packet starts from
    [packet = {}]. The fuel bounds the number of iterations. *)
Fixpoint drain (fuel : nat) (s : Session) : list Packet * Session :=
  match fuel with
  | O => ([], s)
  | S fuel' =>
      match extract_packet empty_packet s with
      | (true, packet, s') =>
          let '(packets, s'') := drain fuel' s' in (packet :: packets, s'')
      | (false, _, s') => ([], s')
      end
  end.

Definition drain_all (s : Session) : list Packet * Session := drain (length (recv_buffer_ s)) s.

(** One readable event whose bytes are [chunk]: append, then drain. *)
Definition feed (st : list Packet * Session) (chunk : bytes) : list Packet * Session :=
  let '(packets, s) := st in
  let '(packets', s') := drain_all (set_recv (recv_buffer_ s ++ chunk) s) in
  (packets ++ packets', s').

(** ** Sending *)

Definition pack (data : bytes) (s : Session) : Session :=
  set_send (send_queue_ s ++ [mkSendBuffer data 0]) (sending_ s) (sock_outs s) (sock_wire s) s.

Inductive BufResult := BDone | BPending | BError.

(** The inner loop of [flush]: send the front buffer. *)
Fixpoint send_buffer (outs : list SendOut) (b : SendBuffer) (wire : bytes)
    : BufResult * SendBuffer * list SendOut * bytes :=
  if decide (offset b < length (buffer b))%nat then
    match outs with
    | [] => (BPending, b, [], wire)
    | SendN n :: outs' =>
        let chunk := take n (drop (offset b) (buffer b)) in
        if decide (length chunk = 0%nat) then (BError, b, outs', wire)
        else send_buffer outs' (mkSendBuffer (buffer b) (offset b + length chunk)) (wire ++ chunk)
    | SendAgain :: outs' => (BPending, b, outs', wire)
    | SendIntr :: outs' => send_buffer outs' b wire
    | SendErr :: outs' => (BError, b, outs', wire)
    end
  else (BDone, b, outs, wire).

(** The outer loop: result, queue, [sending_], and the socket. *)
Fixpoint flush_loop (q : list SendBuffer) (outs : list SendOut) (wire : bytes)
    : FlushResult * list SendBuffer * bool * list SendOut * bytes :=
  match q with
  | [] => (Complete, [], false, outs, wire)
  | b :: q' =>
      match send_buffer outs b wire with
      | (BPending, b', outs', wire') => (Pending, b' :: q', false, outs', wire')
      | (BError, b', outs', wire') => (Error, b' :: q', false, outs', wire')
      | (BDone, _, outs', wire') =>
          match q' with
          | [] => (Complete, [], false, outs', wire')
          | _ => flush_loop q' outs' wire'
          end
      end
  end.

Definition flush (s : Session) : FlushResult * Session :=
  if sending_ s then (Complete, s)
  else match flush_loop (send_queue_ s) (sock_outs s) (sock_wire s) with
       | (r, q, sending, outs, wire) => (r, set_send q sending outs wire s)
       end.

Definition is_send_queue_empty (s : Session) : bool := bool_decide (send_queue_ s = []).

(** ** The stream view of receiving *)

(** The next frame of a byte stream, and what follows it. *)
Definition next_frame (buf : bytes) : option (Packet * bytes) :=
  match extract_packet empty_packet (set_recv buf (new_session 0)) with
  | (true, p, s') => Some (p, recv_buffer_ s')
  | (false, _, _) => None
  end.

Fixpoint frames (fuel : nat) (buf : bytes) : list Packet * bytes :=
  match fuel with
  | O => ([], buf)
  | S fuel' => match next_frame buf with
               | Some (p, rest) => let '(ps, r) := frames fuel' rest in (p :: ps, r)
               | None => ([], buf)
               end
  end.

(** What [serialize_packet] (and the client's [send_request]) put on the wire. *)
Definition frame (f : bytes * Header * Request * bytes) : bytes :=
  let '(pad, h, r, b) := f in header_rep h ++ request_rep pad r ++ b.

Definition frame_packet (f : bytes * Header * Request * bytes) : Packet :=
  let '(_, h, r, b) := f in mkPacket h r b.

Definition frame_valid (f : bytes * Header * Request * bytes) : Prop :=
  let '(pad, h, r, b) := f in
  length pad = 3%nat /\ request_valid r /\ rq_body_len r = size_of b.

Lemma set_recv_recv b1 b2 s : set_recv b1 (set_recv b2 s) = set_recv b1 s.
Proof. done. Qed.

Lemma set_recv_id s : set_recv (recv_buffer_ s) s = s.
Proof. by destruct s. Qed.

Lemma extract_next s :
  match next_frame (recv_buffer_ s) with
  | Some (p, r) => extract_packet empty_packet s = (true, p, set_recv r s)
  | None => exists p, extract_packet empty_packet s = (false, p, s)
  end.
Proof.
  unfold next_frame, extract_packet. simpl recv_buffer_.
  repeat case_decide; try done; eauto.
Qed.

Lemma drain_frames fuel s :
  drain fuel s = ((frames fuel (recv_buffer_ s)).1, set_recv (frames fuel (recv_buffer_ s)).2 s).
Proof.
  revert s. induction fuel as [| fuel IH]; intros s; simpl.
  - by rewrite set_recv_id.
  - pose proof (extract_next s) as H. destruct (next_frame _) as [[p r] |].
    + rewrite H, IH. simpl. by destruct (frames fuel r).
    + destruct H as [p ->]. simpl. by rewrite set_recv_id.
Qed.

(** The shape of a frame that is accepted: 17 bytes and the announced body. *)
Lemma next_frame_Some buf p r :
  next_frame buf = Some (p, r) <->
  (17 <= length buf)%nat /\
  let rq := request_of (field 1 16 buf) in
  (17 + Z.to_nat (rq_body_len rq) <= length buf)%nat /\
  p = mkPacket (header_of (take 1 buf)) rq (field 17 (Z.to_nat (rq_body_len rq)) buf) /\
  r = drop (17 + Z.to_nat (rq_body_len rq)) buf.
Proof.
  unfold next_frame, extract_packet, size_of. cbn [recv_buffer_ set_recv].
  change (sizeof Header) with 1%nat. change (sizeof Request) with 16%nat.
  change (1 + 16)%nat with 17%nat. cbn [request header body of_rep header_layout request_layout].
  set (rq := request_of _).
  assert (Hlen : (17 <= length buf)%nat -> 0 <= rq_body_len rq).
  { intros H. apply (of_rep_valid (Layout := request_layout)), length_field. simpl. lia. }
  case_decide as H1; [split; [done | intros (? & _); lia] |].
  case_decide as H2; [split; [done | intros (? & _); lia] |].
  specialize (Hlen ltac:(lia)).
  case_decide as H3; [case_decide as H4 |].
  - split; [done | intros (_ & ? & _); lia].
  - split; [intros [= <- <-]; split_and!; try done; lia | intros (_ & _ & -> & ->); done].
  - replace (rq_body_len rq) with 0 by lia.
    split; [intros [= <- <-]; split_and!; try done; lia | intros (_ & _ & -> & ->); done].
Qed.

Lemma field_app_l off n (l1 l2 : bytes) :
  (off + n <= length l1)%nat -> field off n (l1 ++ l2) = field off n l1.
Proof.
  intros H. unfold field. rewrite drop_app_le by lia. rewrite take_app_le; [done |].
  rewrite length_drop. lia.
Qed.

(** Bytes that arrive later do not change a complete frame. *)
Lemma next_frame_app buf p r more :
  next_frame buf = Some (p, r) -> next_frame (buf ++ more) = Some (p, r ++ more).
Proof.
  intros H. apply next_frame_Some in H as (H1 & H2 & -> & ->). apply next_frame_Some.
  rewrite !(field_app_l 1 16) by lia. cbv zeta in *.
  rewrite length_app, take_app_le, drop_app_le, field_app_l by lia.
  split_and!; try done; lia.
Qed.

Lemma next_frame_shorter buf p r :
  next_frame buf = Some (p, r) -> (length r + 17 <= length buf)%nat.
Proof. intros H. apply next_frame_Some in H as (H1 & H2 & _ & ->). rewrite length_drop. lia. Qed.

(** Enough fuel is the buffer's length: more changes nothing. *)
Lemma frames_fuel fuel1 fuel2 buf :
  (length buf <= fuel1)%nat -> (length buf <= fuel2)%nat -> frames fuel1 buf = frames fuel2 buf.
Proof.
  revert fuel2 buf. induction fuel1 as [| f1 IH]; intros f2 buf H1 H2.
  - destruct buf; simpl in H1; [| lia]. by destruct f2.
  - destruct f2 as [| f2]; [destruct buf; simpl in H2; [done | lia] |].
    simpl. destruct (next_frame buf) as [[p r] |] eqn:E; [| done].
    apply next_frame_shorter in E. by rewrite (IH f2 r) by lia.
Qed.

Definition all_frames (buf : bytes) : list Packet * bytes := frames (length buf) buf.

Lemma all_frames_unfold buf :
  all_frames buf = match next_frame buf with
                   | Some (p, r) => (p :: (all_frames r).1, (all_frames r).2)
                   | None => ([], buf)
                   end.
Proof.
  unfold all_frames. rewrite (frames_fuel (length buf) (S (length buf))) by lia. simpl.
  destruct (next_frame buf) as [[p r] |] eqn:E; [| done].
  apply next_frame_shorter in E. rewrite (frames_fuel (length buf) (length r)) by lia.
  by destruct (frames _ r).
Qed.

Lemma all_frames_stuck buf : next_frame (all_frames buf).2 = None.
Proof.
  remember (length buf) as n eqn:Hn. revert buf Hn.
  induction n as [n IH] using lt_wf_ind; intros buf ->. rewrite all_frames_unfold.
  destruct (next_frame buf) as [[p r] |] eqn:E; [| done]. cbn [snd].
  apply next_frame_shorter in E. apply (IH (length r)); [lia | done].
Qed.

(** Draining, then receiving more and draining again, is draining it all. *)
Lemma all_frames_app b1 b2 :
  all_frames (b1 ++ b2) =
  ((all_frames b1).1 ++ (all_frames ((all_frames b1).2 ++ b2)).1,
   (all_frames ((all_frames b1).2 ++ b2)).2).
Proof.
  remember (length b1) as n eqn:Hn. revert b1 Hn.
  induction n as [n IH] using lt_wf_ind; intros b1 ->.
  rewrite (all_frames_unfold b1). destruct (next_frame b1) as [[p r] |] eqn:E; simpl.
  - rewrite all_frames_unfold, (next_frame_app _ _ _ _ E).
    apply next_frame_shorter in E. rewrite (IH (length r)) by (done || lia). done.
  - apply surjective_pairing.
Qed.

Lemma feed_all_frames ps s chunk :
  feed (ps, s) chunk = (ps ++ (all_frames (recv_buffer_ s ++ chunk)).1,
                        set_recv (all_frames (recv_buffer_ s ++ chunk)).2 s).
Proof. unfold feed, drain_all. by rewrite drain_frames. Qed.

(** Feeding chunk by chunk is draining the concatenation (up to the chunks
    of an empty list, which do not drain at all). *)
Lemma foldl_feed chunks ps s :
  chunks <> [] ->
  foldl feed (ps, s) chunks =
  (ps ++ (all_frames (recv_buffer_ s ++ mjoin chunks)).1,
   set_recv (all_frames (recv_buffer_ s ++ mjoin chunks)).2 s).
Proof.
  revert ps s. induction chunks as [| c cs IH]; intros ps s H; [done | clear H].
  change (foldl feed (ps, s) (c :: cs)) with (foldl feed (feed (ps, s) c) cs).
  change (mjoin (c :: cs)) with (c ++ mjoin cs). rewrite feed_all_frames.
  destruct cs as [| c1 cs].
  - by rewrite app_nil_r.
  - rewrite IH by done. cbn [recv_buffer_ set_recv].
    rewrite (app_assoc _ c), (all_frames_app (_ ++ c)). cbn [fst snd].
    by rewrite app_assoc, set_recv_recv.
Qed.

Lemma next_frame_frame f tail :
  frame_valid f -> next_frame (frame f ++ tail) = Some (frame_packet f, tail).
Proof.
  destruct f as [[[pad h] r] b]. intros (Hp & Hr & Hb). cbn [frame frame_packet].
  assert (Hl : length (request_rep pad r) = 16%nat) by exact (length_to_rep pad r Hp).
  assert (Hf : field 1 16 ((header_rep h ++ request_rep pad r ++ b) ++ tail) = request_rep pad r).
  { rewrite <- !app_assoc. rewrite (field_app_r 0 16 (header_rep h) _ 1) by done.
    by apply field_head. }
  apply next_frame_Some. rewrite Hf.
  assert (Hq : request_of (request_rep pad r) = r) by exact (of_to_rep pad r Hp Hr).
  rewrite Hq. cbv zeta. rewrite Hb, to_nat_size_of.
  split_and!; try (rewrite !length_app, Hl; cbn; lia).
  - f_equal; [by destruct h |]. rewrite <- !app_assoc.
    rewrite (field_app_r 16 _ (header_rep h) _ 1) by done.
    rewrite (field_app_r 0 _ (request_rep pad r) _ 16) by done. by rewrite field_head.
  - symmetry. apply drop_app_exact. rewrite !length_app, Hl. cbn. lia.
Qed.

Lemma all_frames_concat fs tail :
  Forall frame_valid fs -> next_frame tail = None ->
  all_frames (mjoin (frame <$> fs) ++ tail) = (frame_packet <$> fs, tail).
Proof.
  intros Hv Ht. induction Hv as [| f fs Hf Hfs IH].
  - simpl. by rewrite all_frames_unfold, Ht.
  - change (mjoin (frame <$> f :: fs)) with (frame f ++ mjoin (frame <$> fs)).
    rewrite all_frames_unfold, <- app_assoc, next_frame_frame by done. by rewrite IH.
Qed.

(** ** The stream view of sending *)

Definition buffer_rest (b : SendBuffer) : bytes := drop (offset b) (buffer b).
Definition queue_bytes (q : list SendBuffer) : bytes := mjoin (buffer_rest <$> q).

(** All that the peer has or will receive, in order. *)
Definition sent_stream (s : Session) : bytes := sock_wire s ++ queue_bytes (send_queue_ s).

Lemma send_buffer_stream outs b wire r b' outs' wire' :
  send_buffer outs b wire = (r, b', outs', wire') ->
  wire' ++ buffer_rest b' = wire ++ buffer_rest b /\
  (r = BDone -> buffer_rest b' = []) /\ (r <> BDone -> buffer_rest b' <> []).
Proof.
  assert (Hne : forall b0, (offset b0 < length (buffer b0))%nat -> buffer_rest b0 <> []).
  { intros b0 Hlt E. apply (f_equal length) in E. unfold buffer_rest in E.
    rewrite length_drop in E. simpl in E. lia. }
  assert (Hdone : forall b0, ~ (offset b0 < length (buffer b0))%nat -> buffer_rest b0 = []).
  { intros b0 Hge. apply drop_ge. lia. }
  revert b wire. induction outs as [| o outs IH]; intros b wire H; simpl in H;
    (case_decide as Hlt; [| inv H; naive_solver]).
  - inv H. naive_solver.
  - destruct o as [n | | |]; try (inv H; naive_solver).
    case_decide as Hz; [inv H; naive_solver |].
    apply IH in H as (H1 & H2 & H3). split_and!; [| done..].
    rewrite H1, <- app_assoc. f_equal. unfold buffer_rest; cbn [offset buffer].
    rewrite <- drop_drop. set (d := drop (offset b) (buffer b)).
    rewrite length_take. destruct (decide (n <= length d)%nat).
    + rewrite Nat.min_l by done. apply take_drop.
    + rewrite Nat.min_r by lia. by rewrite take_ge, drop_ge, app_nil_r by lia.
Qed.

Lemma flush_loop_stream q outs wire r q' sending outs' wire' :
  flush_loop q outs wire = (r, q', sending, outs', wire') ->
  wire' ++ queue_bytes q' = wire ++ queue_bytes q /\ sending = false /\
  (r = Complete <-> q' = []) /\ (r <> Complete -> queue_bytes q' <> []).
Proof.
  revert outs wire. induction q as [| b q IH]; intros outs wire H; simpl in H.
  - by inv H.
  - destruct (send_buffer outs b wire) as [[[rb b'] outs1] wire1] eqn:E.
    apply send_buffer_stream in E as (E1 & E2 & E3).
    assert (Hq : forall l, wire1 ++ queue_bytes (b' :: l) = wire ++ queue_bytes (b :: l)).
    { intros l. unfold queue_bytes; simpl. by rewrite !app_assoc, E1. }
    destruct rb.
    + assert (Hd : forall l, wire1 ++ queue_bytes l = wire ++ queue_bytes (b :: l)).
      { intros l. rewrite <- Hq. unfold queue_bytes; simpl. by rewrite E2. }
      destruct q as [| b1 q].
      * inv H. by rewrite <- Hd.
      * apply IH in H as (H1 & H2 & H3 & H4). by rewrite H1, Hd.
    + inv H. split_and!; [by apply Hq | done | done |].
      intros _ Heq. apply app_eq_nil in Heq as [Heq _]. by apply E3.
    + inv H. split_and!; [by apply Hq | done | done |].
      intros _ Heq. apply app_eq_nil in Heq as [Heq _]. by apply E3.
Qed.

Lemma flush_stream s r s' :
  sending_ s = false -> flush s = (r, s') ->
  sent_stream s' = sent_stream s /\ sending_ s' = false /\
  (r = Complete <-> send_queue_ s' = []) /\
  (r <> Complete -> queue_bytes (send_queue_ s') <> []).
Proof.
  intros Hs H. unfold flush in H. rewrite Hs in H.
  destruct (flush_loop _ _ _) as [[[[r1 q] sd] outs] wire] eqn:E. inv H.
  by apply flush_loop_stream in E.
Qed.

Lemma flush_frame s r s' :
  flush s = (r, s') -> fd s' = fd s /\ recv_buffer_ s' = recv_buffer_ s /\
  disconnecting_ s' = disconnecting_ s.
Proof.
  unfold flush. destruct (sending_ s); [intros [= <- <-]; done |].
  destruct (flush_loop _ _ _) as [[[[r1 q] sd] outs] wire]. intros [= <- <-]. done.
Qed.

Lemma pack_stream data s : sent_stream (pack data s) = sent_stream s ++ data.
Proof.
  unfold sent_stream, pack, queue_bytes; simpl. rewrite fmap_app, join_app. simpl.
  unfold buffer_rest at 2; simpl. by rewrite app_nil_r, app_assoc.
Qed.

(** ** Examples used by the witnesses *)

Definition ex_frame1 : bytes * Header * Request * bytes :=
  ([x00; x00; x00], mkHeader x01, mkRequest 100 2 x04, [x68; x69]).
Definition ex_frame2 : bytes * Header * Request * bytes :=
  ([xff; x00; x00], mkHeader x01, mkRequest 100 0 x03, []).
Definition ex_stream : bytes := frame ex_frame1 ++ frame ex_frame2.

Lemma ex_frames_valid : Forall frame_valid [ex_frame1; ex_frame2].
Proof. repeat constructor; unfold is_i64, is_u32; cbn; lia. Qed.

(** ** Properties *)

(** C19: packet reassembly. However the kernel cuts the client's stream of
    requests into readable events, the server's append-and-extract loop yields
    exactly the requests, in order, with their headers and bodies, and ends
    with an empty receive buffer. *)
Theorem reassembly fs chunks s :
  Forall frame_valid fs -> recv_buffer_ s = [] ->
  mjoin chunks = mjoin (frame <$> fs) ->
  foldl feed ([], s) chunks = (frame_packet <$> fs, s).
Proof.
  intros Hv Hs Hc.
  assert (Ha : all_frames (mjoin (frame <$> fs)) = (frame_packet <$> fs, [])).
  { rewrite <- (app_nil_r (mjoin _)). by apply all_frames_concat. }
  destruct (decide (chunks = [])) as [-> | Hne].
  - simpl in Hc. rewrite <- Hc in Ha. injection Ha as <-. done.
  - rewrite foldl_feed, Hs, Hc by done. simpl. rewrite Ha. cbn. by rewrite <- Hs, set_recv_id.
Qed.

Lemma reassembly_witness :
  mjoin [take 5 ex_stream; drop 5 (take 30 ex_stream); drop 30 ex_stream]
    = mjoin (frame <$> [ex_frame1; ex_frame2]) /\
  foldl feed ([], new_session 9)
    [take 5 ex_stream; drop 5 (take 30 ex_stream); drop 30 ex_stream]
    = (frame_packet <$> [ex_frame1; ex_frame2], new_session 9).
Proof.
  split; [vm_compute; reflexivity |].
  apply (reassembly [ex_frame1; ex_frame2]); [apply ex_frames_valid | done |].
  vm_compute; reflexivity.
Defined.

(** The extraction loop terminates: each iteration that yields a packet
    removes at least 17 bytes, so a fuel of the buffer's length always reaches
    the point where [extract_packet] returns [false] on what is left. *)
Theorem drain_terminates s fuel :
  (length (recv_buffer_ s) <= fuel)%nat ->
  drain fuel s = drain_all s /\
  exists p, extract_packet empty_packet (drain_all s).2 = (false, p, (drain_all s).2).
Proof.
  intros Hf. unfold drain_all. rewrite !drain_frames. cbn [snd].
  rewrite (frames_fuel fuel (length (recv_buffer_ s))) by lia. split; [done |].
  fold (all_frames (recv_buffer_ s)). set (r := (all_frames _).2).
  pose proof (extract_next (set_recv r s)) as H. cbn [recv_buffer_ set_recv] in H.
  unfold r in H at 1. by rewrite all_frames_stuck in H.
Qed.

Lemma drain_terminates_witness :
  (length (recv_buffer_ (set_recv ex_stream (new_session 9))) <= 36)%nat /\
  drain 36 (set_recv ex_stream (new_session 9)) = drain_all (set_recv ex_stream (new_session 9)).
Proof.
  split; [vm_compute; lia |].
  refine (proj1 (drain_terminates (set_recv ex_stream (new_session 9)) 36 _)). vm_compute; lia.
Defined.

(** [flush] keeps the outgoing byte stream: whatever the socket answers
    (partial writes, EAGAIN, EINTR, errors), the bytes accepted followed by the
    bytes still queued are unchanged, so nothing is lost, repeated or
    reordered; [sending_] is released; [Complete] means the queue is empty and
    any other result means unsent bytes remain. *)
Theorem flush_preserves_stream s data :
  sending_ s = false ->
  let '(r, s') := flush (pack data s) in
  sent_stream s' = sent_stream s ++ data /\ sending_ s' = false /\
  (r = Complete <-> send_queue_ s' = []) /\
  (r <> Complete -> queue_bytes (send_queue_ s') <> []).
Proof.
  intros Hs. destruct (flush (pack data s)) as [r s'] eqn:E.
  apply flush_stream in E; [| done]. by rewrite pack_stream in E.
Qed.

Lemma flush_preserves_stream_witness :
  let s := set_send [] false [SendN 2; SendIntr; SendAgain] [] (new_session 9) in
  sending_ s = false /\
  let '(r, s') := flush (pack [x01; x02; x03] s) in
  sent_stream s' = sent_stream s ++ [x01; x02; x03] /\ sending_ s' = false /\
  (r = Complete <-> send_queue_ s' = []) /\
  (r <> Complete -> queue_bytes (send_queue_ s') <> []).
Proof.
  split; [done |].
  apply (flush_preserves_stream
    (set_send [] false [SendN 2; SendIntr; SendAgain] [] (new_session 9)) [x01; x02; x03]).
  done.
Defined.

End Session.
