(* ===== verification/User.v ===== *)
(** * User: server/src/user/User.{h,cpp}, UserManager.{h,cpp}

    The user objects and the two tables of [UserManager]. Every user object is
    reached through [users_], so a [shared_ptr<User>] is modelled by the key
    under which the object is stored and a mutation of the object by an
    [alter] of the table. Each method runs under [mutex_] and is one atomic
    function. *)

From S2P Require Import Prelude Wire.

Module User.

Record User := mkUser {
  fd_ : Z;
  user_id_ : Z;
  user_name_ : bytes;
  current_room_ : Z;
  disconnecting : bool }.

(** [User::User(int, UserId, std::string)]: a new user starts in room 1. *)
Definition new_user (fd user_id : Z) (user_name : bytes) : User :=
  mkUser fd user_id user_name 1 false.

Definition set_current_room (room_id : Z) (u : User) : User :=
  mkUser (fd_ u) (user_id_ u) (user_name_ u) room_id (disconnecting u).

Definition mark_diconnecting (u : User) : User :=
  mkUser (fd_ u) (user_id_ u) (user_name_ u) (current_room_ u) true.

Definition set_name (user_name : bytes) (u : User) : User :=
  mkUser (fd_ u) (user_id_ u) user_name (current_room_ u) (disconnecting u).

Definition get_name (u : User) : bytes := user_name_ u.
Definition get_fd (u : User) : Z := fd_ u.
Definition get_id (u : User) : Z := user_id_ u.
Definition get_current_room (u : User) : Z := current_room_ u.
Definition is_diconnecting (u : User) : bool := disconnecting u.

(** Moving: what the target becomes and what is left of the source. The moved
    string's value is unspecified by the standard ([rest]). *)
Definition moved_from (rest : bytes) (other : User) : User :=
  mkUser (-1) (user_id_ other) rest (current_room_ other) (disconnecting other).

Definition move_user (rest : bytes) (other : User) : User * User :=
  (mkUser (fd_ other) (user_id_ other) (user_name_ other) (current_room_ other) (disconnecting other),
   moved_from rest other).

(** [operator=(User&&)]; [same] is [this == &other]. *)
Definition assign_user (same : bool) (rest : bytes) (this other : User) : User * User :=
  if same then (this, other) else move_user rest other.

(** At most one of the two objects holds the descriptor after a move, and
    moving keeps everything else a user is. *)
Lemma move_user_spec rest other :
  (move_user rest other).1 = other /\ get_fd (move_user rest other).2 = -1 /\
  get_id (move_user rest other).2 = get_id other /\
  assign_user true rest other other = (other, other).
Proof. by destruct other. Qed.

(** ** UserManager *)

Record UserManager := mkUserManager {
  users_ : gmap Z User;
  fd_to_user_id_ : gmap Z Z }.

Definition empty_manager : UserManager := mkUserManager ∅ ∅.

Definition add_user (user : User) (um : UserManager) : UserManager :=
  mkUserManager (emplace (user_id_ user) user (users_ um))
                (emplace (fd_ user) (user_id_ user) (fd_to_user_id_ um)).

Definition remove_user (user_id : Z) (um : UserManager) : UserManager :=
  match users_ um !! user_id with
  | None => um
  | Some user => mkUserManager (delete user_id (users_ um)) (delete (fd_ user) (fd_to_user_id_ um))
  end.

(** [get_user(UserId)] *)
Definition get_user_by_id (user_id : Z) (um : UserManager) : option User := users_ um !! user_id.

(** [get_user(int fd)] *)
Definition get_user (fd : Z) (um : UserManager) : option User :=
  match fd_to_user_id_ um !! fd with
  | None => None
  | Some user_id => users_ um !! user_id
  end.

Definition get_user_id (fd : Z) (um : UserManager) : Z :=
  match fd_to_user_id_ um !! fd with
  | None => 0
  | Some user_id => user_id
  end.

(** [user->set_current_room(r)] through a pointer obtained by [get_user(fd)]. *)
Definition user_set_room (fd room_id : Z) (um : UserManager) : UserManager :=
  match fd_to_user_id_ um !! fd with
  | None => um
  | Some user_id =>
      mkUserManager (alter (set_current_room room_id) user_id (users_ um)) (fd_to_user_id_ um)
  end.

(** [user->mark_diconnecting()] likewise. *)
Definition user_mark_disconnecting (fd : Z) (um : UserManager) : UserManager :=
  match fd_to_user_id_ um !! fd with
  | None => um
  | Some user_id =>
      mkUserManager (alter mark_diconnecting user_id (users_ um)) (fd_to_user_id_ um)
  end.

(** ** Invariant: the two tables are inverse to each other. *)
Record um_wf (um : UserManager) : Prop := {
  um_id : forall uid u, users_ um !! uid = Some u ->
    user_id_ u = uid /\ fd_to_user_id_ um !! fd_ u = Some uid;
  um_fd : forall fd uid, fd_to_user_id_ um !! fd = Some uid ->
    exists u, users_ um !! uid = Some u /\ fd_ u = fd }.

Lemma um_wf_empty : um_wf empty_manager.
Proof. split; intros ?? H; simpl in H; by rewrite lookup_empty in H. Qed.

Lemma um_wf_get_user um fd uid :
  um_wf um -> fd_to_user_id_ um !! fd = Some uid ->
  exists u, get_user fd um = Some u /\ fd_ u = fd /\ user_id_ u = uid.
Proof.
  intros Hw H. destruct (um_fd _ Hw _ _ H) as (u & Hu & Hf).
  destruct (um_id _ Hw _ _ Hu) as [Hid _].
  exists u. split_and!; [| done..]. unfold get_user. by rewrite H.
Qed.

Lemma get_user_Some_fd um fd u :
  um_wf um -> get_user fd um = Some u ->
  fd_ u = fd /\ fd_to_user_id_ um !! fd = Some (user_id_ u) /\ users_ um !! user_id_ u = Some u.
Proof.
  intros Hw H. unfold get_user in H. destruct (_ !! fd) as [uid |] eqn:E; [| done].
  destruct (um_fd _ Hw _ _ E) as (u' & Hu & Hf).
  destruct (um_id _ Hw _ _ Hu) as [Hid _]. rewrite H in Hu. injection Hu as ->.
  by rewrite Hid.
Qed.

Lemma get_user_None_iff um fd : um_wf um -> get_user fd um = None <-> fd_to_user_id_ um !! fd = None.
Proof.
  intros Hw. unfold get_user. destruct (_ !! fd) as [uid |] eqn:E; [| done].
  destruct (um_fd _ Hw _ _ E) as (u' & -> & Hf). done.
Qed.

Lemma um_wf_add um u :
  um_wf um -> users_ um !! user_id_ u = None -> fd_to_user_id_ um !! fd_ u = None ->
  um_wf (add_user u um).
Proof.
  intros Hw Hid Hfd. unfold add_user. rewrite !emplace_fresh by done. split; simpl.
  - intros uid u' H. apply lookup_insert_Some in H as [[<- <-] | [Hne H]].
    + split; [done |]. by rewrite lookup_insert_eq.
    + destruct (um_id _ Hw _ _ H) as [H1 H2]. split; [done |].
      rewrite lookup_insert_ne; [done |]. intros E. rewrite E in Hfd. congruence.
  - intros fd uid H. apply lookup_insert_Some in H as [[<- <-] | [Hne H]].
    + exists u. by rewrite lookup_insert_eq.
    + destruct (um_fd _ Hw _ _ H) as (u' & H1 & H2). exists u'. split; [| done].
      rewrite lookup_insert_ne; [done |]. intros E. rewrite E in Hid. congruence.
Qed.

Lemma um_wf_remove um uid : um_wf um -> um_wf (remove_user uid um).
Proof.
  intros Hw. unfold remove_user. destruct (users_ um !! uid) as [u |] eqn:E; [| done].
  destruct (um_id _ Hw _ _ E) as [Hid Hfd]. split; simpl.
  - intros uid' u' H. apply lookup_delete_Some in H as [Hne H].
    destruct (um_id _ Hw _ _ H) as [H1 H2]. split; [done |].
    rewrite lookup_delete_ne; [done |]. intros Eq. rewrite Eq in Hfd. congruence.
  - intros fd uid' H. apply lookup_delete_Some in H as [Hne H].
    destruct (um_fd _ Hw _ _ H) as (u' & H1 & H2). exists u'. split; [| done].
    rewrite lookup_delete_ne; [done |]. intros ->. simplify_eq.
Qed.

(** Mutating a user object through its pointer keeps the tables inverse. *)
Lemma um_wf_alter um (f : User -> User) uid :
  (forall u, fd_ (f u) = fd_ u /\ user_id_ (f u) = user_id_ u) -> um_wf um ->
  um_wf (mkUserManager (alter f uid (users_ um)) (fd_to_user_id_ um)).
Proof.
  intros Hf Hw. split; simpl.
  - intros uid' u' H. apply lookup_alter_Some in H as [(-> & u & H & ->) | [_ H]].
    + destruct (um_id _ Hw _ _ H), (Hf u) as [-> ->]. done.
    + by apply (um_id _ Hw).
  - intros fd uid' H. destruct (um_fd _ Hw _ _ H) as (u' & H1 & H2).
    destruct (decide (uid = uid')) as [-> | Hne].
    + exists (f u'). rewrite lookup_alter_eq, H1. by destruct (Hf u') as [-> _].
    + exists u'. by rewrite lookup_alter_ne.
Qed.

Lemma um_wf_set_room um fd r : um_wf um -> um_wf (user_set_room fd r um).
Proof. intros Hw. unfold user_set_room. case_match; [| done]. by apply um_wf_alter. Qed.

Lemma um_wf_mark um fd : um_wf um -> um_wf (user_mark_disconnecting fd um).
Proof. intros Hw. unfold user_mark_disconnecting. case_match; [| done]. by apply um_wf_alter. Qed.

#[global] Hint Resolve um_wf_empty um_wf_add um_wf_remove um_wf_set_room um_wf_mark : chat.

(** How each mutation shows through [get_user]. *)
Lemma get_user_add um u fd :
  fd_to_user_id_ um !! fd_ u = None -> users_ um !! user_id_ u = None ->
  um_wf um ->
  get_user fd (add_user u um) = if decide (fd = fd_ u) then Some u else get_user fd um.
Proof.
  intros Hf Hi Hw. unfold get_user, add_user; simpl. rewrite !emplace_fresh by done.
  destruct (decide (fd = fd_ u)) as [-> | Hne].
  - by rewrite !lookup_insert_eq.
  - rewrite lookup_insert_ne by done. destruct (_ !! fd) as [uid |] eqn:E; [| done].
    rewrite lookup_insert_ne; [done |].
    intros <-. destruct (um_fd _ Hw _ _ E) as (u' & H1 & _). congruence.
Qed.

(** Changing the user of [fd] through its pointer. *)
Lemma get_user_alter um fd fd' (f : User -> User) uid :
  um_wf um -> fd_to_user_id_ um !! fd = Some uid ->
  get_user fd' (mkUserManager (alter f uid (users_ um)) (fd_to_user_id_ um)) =
  if decide (fd = fd') then f <$> get_user fd' um else get_user fd' um.
Proof.
  intros Hw E. unfold get_user. cbn. destruct (decide (fd = fd')) as [<- | Hne].
  - by rewrite E, lookup_alter_eq.
  - destruct (fd_to_user_id_ um !! fd') as [uid' |] eqn:E'; [| done].
    rewrite lookup_alter_ne; [done |]. intros <-.
    destruct (um_fd _ Hw _ _ E) as (u & H1 & H2), (um_fd _ Hw _ _ E') as (u' & H1' & H2').
    congruence.
Qed.

Lemma get_user_unknown um fd fd' (f : User -> User) :
  fd_to_user_id_ um !! fd = None ->
  get_user fd' um = if decide (fd = fd') then f <$> get_user fd' um else get_user fd' um.
Proof. intros E. case_decide; [subst | done]. unfold get_user. by rewrite E. Qed.

Lemma get_user_set_room um fd fd' r :
  um_wf um ->
  get_user fd' (user_set_room fd r um) =
  if decide (fd = fd') then set_current_room r <$> get_user fd' um else get_user fd' um.
Proof.
  intros Hw. unfold user_set_room. destruct (fd_to_user_id_ um !! fd) as [uid |] eqn:E.
  - by apply get_user_alter.
  - by apply get_user_unknown.
Qed.

Lemma get_user_mark um fd fd' :
  um_wf um ->
  get_user fd' (user_mark_disconnecting fd um) =
  if decide (fd = fd') then mark_diconnecting <$> get_user fd' um else get_user fd' um.
Proof.
  intros Hw. unfold user_mark_disconnecting. destruct (fd_to_user_id_ um !! fd) as [uid |] eqn:E.
  - by apply get_user_alter.
  - by apply get_user_unknown.
Qed.

Lemma fd_map_set_room um fd r : fd_to_user_id_ (user_set_room fd r um) = fd_to_user_id_ um.
Proof. unfold user_set_room. by case_match. Qed.

Lemma get_user_id_set_room um fd fd' r :
  get_user_id fd' (user_set_room fd r um) = get_user_id fd' um.
Proof. unfold get_user_id. by rewrite fd_map_set_room. Qed.

(** Neither mutation adds or removes a user. *)
Lemma users_dom_set_room um fd r uid :
  is_Some (users_ (user_set_room fd r um) !! uid) <-> is_Some (users_ um !! uid).
Proof. unfold user_set_room. case_match; [| done]. simpl. apply lookup_alter_is_Some. Qed.

Lemma users_dom_mark um fd uid :
  is_Some (users_ (user_mark_disconnecting fd um) !! uid) <-> is_Some (users_ um !! uid).
Proof. unfold user_mark_disconnecting. case_match; [| done]. simpl. apply lookup_alter_is_Some. Qed.

Lemma fd_map_mark um fd : fd_to_user_id_ (user_mark_disconnecting fd um) = fd_to_user_id_ um.
Proof. unfold user_mark_disconnecting. by case_match. Qed.

Lemma get_user_remove um uid u fd :
  um_wf um -> users_ um !! uid = Some u ->
  get_user fd (remove_user uid um) = if decide (fd = fd_ u) then None else get_user fd um.
Proof.
  intros Hw E. unfold get_user, remove_user. rewrite E. simpl.
  destruct (um_id _ Hw _ _ E) as [_ Hfd]. destruct (decide (fd = fd_ u)) as [-> | Hne].
  - by rewrite lookup_delete_eq.
  - rewrite lookup_delete_ne by done. destruct (_ !! fd) as [uid' |] eqn:E'; [| done].
    rewrite lookup_delete_ne; [done |]. intros <-.
    destruct (um_fd _ Hw _ _ E') as (u' & H1 & H2). congruence.
Qed.

(** ** Properties *)

(** The two tables of [UserManager] stay inverse to each other under every
    operation: adding a user with a fresh id and descriptor, removing, moving
    between rooms and marking as disconnecting; and right after an addition
    the descriptor finds exactly that user, right after a removal it finds
    none, while all other descriptors keep their user. *)
Theorem user_tables_inverse um u fd r :
  um_wf um -> users_ um !! user_id_ u = None -> fd_to_user_id_ um !! fd_ u = None ->
  um_wf (add_user u um) /\ um_wf (remove_user (user_id_ u) (add_user u um)) /\
  um_wf (user_set_room fd r um) /\ um_wf (user_mark_disconnecting fd um) /\
  get_user fd (add_user u um) = (if decide (fd = fd_ u) then Some u else get_user fd um) /\
  get_user fd (remove_user (user_id_ u) (add_user u um)) =
    (if decide (fd = fd_ u) then None else get_user fd um).
Proof.
  intros Hw Hid Hfd. pose proof (um_wf_add um u Hw Hid Hfd) as Ha.
  split_and!; auto with chat; [by apply get_user_add |].
  rewrite (get_user_remove _ _ u) by (done || by simpl; rewrite emplace_fresh, lookup_insert_eq).
  rewrite get_user_add by done. by case_decide.
Qed.

Lemma user_tables_inverse_witness :
  um_wf empty_manager /\
  get_user 8 (remove_user 1 (add_user (new_user 8 1 []) empty_manager)) = None.
Proof.
  split; [apply um_wf_empty |].
  apply (user_tables_inverse empty_manager (new_user 8 1 []) 8 100); [apply um_wf_empty | done..].
Defined.

End User.
