(* ===== verification/Room.v ===== *)
(** * Room: server/src/room/Room.{h,cpp}

    A room: its sessions by descriptor, its capacity and its own head count.
    A [shared_ptr<Session>] is a session identity ([Sid]); the objects live in
    the heap of World.v. *)

From S2P Require Import Prelude.

Module Room.

(** Identity of a [Session] object (what a [shared_ptr] points to). *)
Definition Sid : Type := nat.

Record Room := mkRoom {
  room_id_ : Z;
  sessions_ : gmap Z Sid;
  max_sessions_ : Z;
  current_sessions_ : Z }.

Definition new_room (room_id max_sessions : Z) : Room := mkRoom room_id ∅ max_sessions 0.

(** [fd] is [session->get_fd()] of the session that joins. *)
Definition join_session (fd : Z) (session : Sid) (r : Room) : bool * Room :=
  if decide (current_sessions_ r >= max_sessions_ r) then (false, r)
  else (true, mkRoom (room_id_ r) (emplace fd session (sessions_ r)) (max_sessions_ r)
                     (current_sessions_ r + 1)).

Definition exit_session (fd : Z) (r : Room) : bool * Room :=
  match sessions_ r !! fd with
  | None => (false, r)
  | Some _ => (true, mkRoom (room_id_ r) (delete fd (sessions_ r)) (max_sessions_ r)
                            (current_sessions_ r - 1))
  end.

Definition find_session (fd : Z) (r : Room) : bool :=
  match sessions_ r !! fd with Some _ => true | None => false end.

Definition get_sessions_num (r : Room) : Z := current_sessions_ r.

(** ** Invariant: the map never outgrows the counter, nor the counter the
    capacity. (The counter may exceed the map: see [rejoin_drift].) *)
Definition room_wf (r : Room) : Prop :=
  Z.of_nat (size (sessions_ r)) <= current_sessions_ r <= max_sessions_ r.

(** The counter is exact as long as nobody joins twice. *)
Definition room_exact (r : Room) : Prop :=
  current_sessions_ r = Z.of_nat (size (sessions_ r)) /\ current_sessions_ r <= max_sessions_ r.

Lemma new_room_wf room_id max : 0 <= max -> room_wf (new_room room_id max).
Proof. intros H. unfold room_wf, new_room; simpl. rewrite map_size_empty. lia. Qed.

Lemma join_session_wf fd s r : room_wf r -> room_wf (join_session fd s r).2.
Proof.
  intros [H1 H2]. unfold join_session. case_decide; [done |]. unfold room_wf; simpl.
  pose proof (size_emplace_le (sessions_ r) fd s). lia.
Qed.

Lemma exit_session_wf fd r : room_wf r -> room_wf (exit_session fd r).2.
Proof.
  intros [H1 H2]. unfold exit_session. destruct (_ !! fd) as [s |] eqn:E; [| done].
  unfold room_wf; simpl. rewrite size_delete_lookup by eauto.
  assert (size (sessions_ r) <> 0%nat).
  { intros Hz. apply map_size_empty_inv in Hz. by rewrite Hz, lookup_empty in E. }
  lia.
Qed.

Lemma join_session_exact fd s r :
  room_exact r -> sessions_ r !! fd = None -> room_exact (join_session fd s r).2.
Proof.
  intros [H1 H2] Hf. unfold join_session. case_decide; [done |]. unfold room_exact; simpl.
  rewrite emplace_fresh, map_size_insert_None by done. lia.
Qed.

Lemma exit_session_exact fd r : room_exact r -> room_exact (exit_session fd r).2.
Proof.
  intros [H1 H2]. unfold exit_session. destruct (_ !! fd) as [s |] eqn:E; [| done].
  unfold room_exact; simpl. rewrite size_delete_lookup by eauto.
  assert (size (sessions_ r) <> 0%nat).
  { intros Hz. apply map_size_empty_inv in Hz. by rewrite Hz, lookup_empty in E. }
  lia.
Qed.

#[global] Hint Resolve join_session_wf exit_session_wf join_session_exact exit_session_exact : chat.

(** The operations as a sequence, for the history theorems. *)
Inductive RoomOp := OpJoin (fd : Z) (s : Sid) | OpExit (fd : Z).

Definition run_op (r : Room) (o : RoomOp) : Room :=
  match o with
  | OpJoin fd s => (join_session fd s r).2
  | OpExit fd => (exit_session fd r).2
  end.

(** What a session that joins again, or leaves, does to a room it is alone in. *)
Lemma first_join room_id max fd s :
  0 < max -> run_op (new_room room_id max) (OpJoin fd s) = mkRoom room_id {[fd := s]} max 1.
Proof.
  intros H. unfold run_op, join_session, new_room. simpl. rewrite decide_False by lia.
  simpl. by rewrite emplace_fresh by apply lookup_empty.
Qed.

Lemma rejoin room_id max fd s s' c :
  c < max ->
  join_session fd s' (mkRoom room_id {[fd := s]} max c) =
  (true, mkRoom room_id {[fd := s]} max (c + 1)).
Proof.
  intros H. unfold join_session. simpl. rewrite decide_False by lia.
  rewrite emplace_present; [done |]. rewrite lookup_singleton_eq. eauto.
Qed.

Lemma rejoin_many room_id max fd s s' n c :
  c + Z.of_nat n <= max ->
  foldl run_op (mkRoom room_id {[fd := s]} max c) (replicate n (OpJoin fd s')) =
  mkRoom room_id {[fd := s]} max (c + Z.of_nat n).
Proof.
  revert c. induction n as [| n IH]; intros c H; cbn [replicate foldl].
  - by rewrite Z.add_0_r.
  - unfold run_op at 2. rewrite rejoin by lia. cbn [snd]. rewrite IH by lia. f_equal. lia.
Qed.

Lemma exit_only room_id max fd s c :
  exit_session fd (mkRoom room_id {[fd := s]} max c) = (true, mkRoom room_id ∅ max (c - 1)).
Proof.
  unfold exit_session. simpl. rewrite lookup_singleton_eq. by rewrite delete_singleton_eq.
Qed.

(** ** Properties *)

(** Capacity. After any sequence of joins and exits on a new room, the
    number of sessions in the room is at most its counter, which is at most
    its capacity. *)
Theorem room_capacity room_id max ops :
  0 <= max -> room_wf (foldl run_op (new_room room_id max) ops).
Proof.
  intros Hm. assert (H : forall r, room_wf r -> room_wf (foldl run_op r ops)).
  { induction ops as [| o ops IH]; [done |]. intros r Hr. simpl. apply IH.
    destruct o; simpl; auto with chat. }
  apply H. by apply new_room_wf.
Qed.

Lemma room_capacity_witness :
  0 <= 2 /\
  room_wf (foldl run_op (new_room 100 2) [OpJoin 5 0%nat; OpJoin 6 1%nat; OpJoin 7 2%nat; OpExit 5]).
Proof. split; [lia |]. apply (room_capacity 100 2). lia. Defined.

(** [join_session] counts a session that is already in the room a second
    time: the session map is unchanged, the counter is not, so after the
    session has left the room looks occupied by nobody; with the capacity 5
    of ordinary rooms, five joins of one session fill the room. *)
Theorem rejoin_drift room_id fd s s' :
  let r1 := run_op (new_room room_id 5) (OpJoin fd s) in
  let r2 := run_op r1 (OpJoin fd s') in
  let r3 := run_op r2 (OpExit fd) in
  sessions_ r2 = sessions_ r1 /\ current_sessions_ r2 = 2 /\
  sessions_ r3 = ∅ /\ get_sessions_num r3 = 1 /\
  (forall fd2 s2,
     join_session fd2 s2 (foldl run_op r1 (replicate 4 (OpJoin fd s))) =
     (false, foldl run_op r1 (replicate 4 (OpJoin fd s))) /\
     size (sessions_ (foldl run_op r1 (replicate 4 (OpJoin fd s)))) = 1%nat).
Proof.
  cbv zeta. rewrite first_join by lia. split_and!.
  - unfold run_op. by rewrite rejoin.
  - unfold run_op. by rewrite rejoin.
  - unfold run_op. rewrite rejoin by lia. cbn [snd]. by rewrite exit_only.
  - unfold run_op. rewrite rejoin by lia. cbn [snd]. by rewrite exit_only.
  - intros fd2 s2. rewrite rejoin_many by lia. split; [done |]. apply map_size_singleton.
Qed.

(** The counter is exact (and so an emptied room reports zero) along every
    sequence of operations in which no session joins while it is inside. *)
Theorem room_counter_exact room_id max ops :
  0 <= max ->
  (forall pre fd s post, ops = pre ++ OpJoin fd s :: post ->
     sessions_ (foldl run_op (new_room room_id max) pre) !! fd = None) ->
  room_exact (foldl run_op (new_room room_id max) ops).
Proof.
  intros Hm. induction ops as [| o ops IH] using rev_ind; intros Hops.
  - unfold room_exact, new_room; simpl. rewrite map_size_empty. lia.
  - rewrite foldl_app. simpl. assert (He : room_exact (foldl run_op (new_room room_id max) ops)).
    { apply IH. intros pre fd s post ->. apply (Hops pre fd s (post ++ [o])).
      by rewrite <- app_assoc. }
    destruct o as [fd s | fd]; simpl; [| by apply exit_session_exact].
    apply join_session_exact; [done |]. by apply (Hops ops fd s []).
Qed.

Lemma room_counter_exact_witness :
  0 <= 5 /\ room_exact (foldl run_op (new_room 100 5) [OpJoin 5 0%nat; OpExit 5]).
Proof.
  split; [lia |]. apply (room_counter_exact 100 5); [lia |].
  intros pre fd s post E.
  destruct pre as [| o1 [| o2 [| o3 pre]]]; simpl in E; simplify_eq; by vm_compute.
Defined.

End Room.
