(* ===== verification/Decimal.v ===== *)
(** * Decimal: the standard library's integer/text conversions the program uses

    [std::to_string] on an [int64_t] (query parameters) and [std::stoll]
    (column values), on byte strings. [stoll] is [None] where the C++ function
    throws [invalid_argument] or [out_of_range]. *)

From S2P Require Import Prelude.

Module Decimal.

Definition digit (d : Z) : byte := byte_of_Z (48 + d).

Definition digit_value (b : byte) : option Z :=
  let v := byte_to_Z b in if decide (48 <= v <= 57) then Some (v - 48) else None.

(** Most significant digit first; [fuel] bounds the number of digits. *)
Fixpoint digits (fuel : nat) (n : Z) (acc : bytes) : bytes :=
  match fuel with
  | O => acc
  | S fuel' =>
      if decide (n < 10) then digit n :: acc
      else digits fuel' (n / 10) (digit (n mod 10) :: acc)
  end.

(** [std::to_string(int64_t)]: 19 digits hold every magnitude up to 2^63. *)
Definition to_string (z : Z) : bytes :=
  if decide (z < 0) then x2d :: digits 19 (- z) [] else digits 19 z [].

Definition is_space (b : byte) : bool :=
  bool_decide (b = x20 \/ (9 <= byte_to_Z b <= 13)).

Fixpoint skip_spaces (s : bytes) : bytes :=
  match s with
  | b :: s' => if is_space b then skip_spaces s' else s
  | [] => []
  end.

(** The longest run of digits: its value (from [acc]) and how many there were. *)
Fixpoint read_digits (s : bytes) (acc : Z) (n : nat) : Z * nat :=
  match s with
  | b :: s' => match digit_value b with
               | Some d => read_digits s' (10 * acc + d) (S n)
               | None => (acc, n)
               end
  | [] => (acc, n)
  end.

Definition in_int64 (z : Z) : bool := bool_decide (- 2 ^ 63 <= z < 2 ^ 63).

Definition stoll (s : bytes) : option Z :=
  let s := skip_spaces s in
  let '(neg, s) :=
    match s with
    | x2d :: s' => (true, s')
    | x2b :: s' => (false, s')
    | _ => (false, s)
    end in
  let '(v, n) := read_digits s 0 0 in
  match n with
  | O => None                                               (* invalid_argument *)
  | S _ => let v := if neg then - v else v in
           if in_int64 v then Some v else None              (* out_of_range *)
  end.

(** ** Round trip *)

Lemma digit_value_digit d : 0 <= d < 10 -> digit_value (digit d) = Some d.
Proof.
  intros H. unfold digit_value, digit. rewrite byte_to_of_Z, Z.mod_small by lia.
  rewrite decide_True by lia. f_equal. lia.
Qed.

Lemma digit_not_space d : 0 <= d < 10 -> is_space (digit d) = false.
Proof.
  intros H. unfold is_space. apply bool_decide_eq_false. intros [E | E].
  - apply (f_equal byte_to_Z) in E. unfold digit in E. rewrite byte_to_of_Z in E.
    rewrite Z.mod_small in E by lia. change (byte_to_Z x20) with 32 in E. lia.
  - unfold digit in E. rewrite byte_to_of_Z, Z.mod_small in E by lia. lia.
Qed.

(** [digits] writes the decimal expansion: reading it back from [a] gives
    [a * 10^k + n], where [k] is the number of digits written. *)
Lemma read_digits_digits fuel n acc :
  0 <= n < 10 ^ Z.of_nat fuel -> fuel <> 0%nat -> exists k,
  (0 < k <= fuel)%nat /\
  forall a m, read_digits (digits fuel n acc) a m =
              read_digits acc (a * 10 ^ Z.of_nat k + n) (k + m).
Proof.
  revert n acc. induction fuel as [| fuel IH]; intros n acc Hn Hf; [done |].
  cbn [digits]. case_decide as Hlt.
  - exists 1%nat. split; [lia |]. intros a m. cbn [read_digits].
    rewrite digit_value_digit by lia. f_equal. lia.
  - destruct fuel as [| fuel]; [simpl in Hn; lia |].
    destruct (IH (n / 10) (digit (n mod 10) :: acc)) as (k & Hk & IH'); [| done |].
    { rewrite Nat2Z.inj_succ, Z.pow_succ_r in Hn by lia.
      split; [apply Z.div_pos; lia |]. apply Z.div_lt_upper_bound; lia. }
    exists (S k). split; [lia |]. intros a m. rewrite IH'. cbn [read_digits].
    rewrite digit_value_digit by (apply Z.mod_pos_bound; lia).
    rewrite Nat2Z.inj_succ, Z.pow_succ_r by lia. f_equal.
    pose proof (Z.div_mod n 10 ltac:(lia)). lia.
Qed.

(** The first character of [digits] is a digit. *)
Lemma digits_head fuel n acc :
  0 <= n -> fuel <> 0%nat -> exists d s, 0 <= d < 10 /\ digits fuel n acc = digit d :: s.
Proof.
  revert n acc. induction fuel as [| fuel IH]; intros n acc Hn Hf; [done |].
  cbn [digits]. case_decide; [exists n; eauto with lia |].
  destruct fuel as [| fuel].
  - exists (n mod 10), acc. split; [apply Z.mod_pos_bound; lia | done].
  - apply IH; [apply Z.div_pos; lia | done].
Qed.

Lemma digit_not_sign d s :
  0 <= d < 10 ->
  match digit d :: s with
  | x2d :: s' => (true, s')
  | x2b :: s' => (false, s')
  | _ => (false, digit d :: s)
  end = (false, digit d :: s).
Proof.
  intros H. assert (Hv := byte_to_of_Z (48 + d)). rewrite Z.mod_small in Hv by lia.
  fold (digit d) in Hv. destruct (digit d); try done.
  - change (byte_to_Z x2b) with 43 in Hv. lia.
  - change (byte_to_Z x2d) with 45 in Hv. lia.
Qed.

Lemma stoll_to_string_gen z : is_i64 z -> stoll (to_string z) = Some z.
Proof.
  intros Hz. unfold is_i64 in Hz.
  assert (Hr : forall n, 0 <= n <= 2 ^ 63 -> exists k,
    read_digits (digits 19 n []) 0 0 = (n, S k)).
  { intros n Hn. destruct (read_digits_digits 19 n []) as (k & Hk & H); [| done |].
    { split; [lia |]. apply (Z.le_lt_trans _ (2 ^ 63)); [lia | done]. }
    exists (pred k). rewrite H. cbn [read_digits]. f_equal; lia. }
  unfold stoll, to_string. case_decide as Hneg.
  - cbn [skip_spaces]. change (is_space x2d) with false. cbv iota.
    destruct (Hr (- z)) as (k & ->); [lia |]. cbv iota zeta.
    unfold in_int64. rewrite bool_decide_eq_true_2 by lia. f_equal. lia.
  - destruct (digits_head 19 z []) as (d & s & Hd & E); [lia | done |].
    destruct (Hr z) as (k & Hk); [lia |]. rewrite E in *.
    cbn [skip_spaces]. rewrite digit_not_space by done. rewrite digit_not_sign by done.
    rewrite Hk. unfold in_int64. by rewrite bool_decide_eq_true_2 by lia.
Qed.

(** ** Properties *)

(** Every id the server writes into a query parameter with
    [std::to_string] is what [std::stoll] reads back from such a text, over the
    whole [int64_t] range including its minimum. *)
Theorem stoll_to_string z : is_i64 z -> stoll (to_string z) = Some z.
Proof. apply stoll_to_string_gen. Qed.

Lemma stoll_to_string_witness :
  is_i64 (- 2 ^ 63) /\ stoll (to_string (- 2 ^ 63)) = Some (- 2 ^ 63).
Proof.
  split; [unfold is_i64; lia |]. apply (stoll_to_string (- 2 ^ 63)). unfold is_i64; lia.
Defined.

End Decimal.
