(* ===== verification/Event.v ===== *)
(** * Event: server/src/event/*.h, server/src/db/DBJob.h

    The messages that travel between the threads: [RoomEvent] with its action
    list (the program a worker executes), [MainEvent] and [DBJob]. The
    [std::array<RoomAction, 10>] is modelled by its initialised prefix, so
    [action_len] is the length of the list; reading an action past it would
    read an indeterminate value and is a fault in the handlers. A
    [std::function] stored in a job is the closure it was built from. *)

From S2P Require Import Prelude Wire Room.

Module Event.
Import Protocol.

Inductive ActionCommand :=
  | CREATE_ROOM | JOIN_ROOM | LEAVE_ROOM | SEND_MESSAGE
  | REQUEST_DB_CREATE_ROOM | REQUEST_DB_LOAD_MESSAGE | SAVE_MESSAGE
  | REQUEST_JOIN_ROOM | REQUEST_LEAVE_ROOM
  | SEND_RESPONSE | FLUSH | DISCONNECT_SESSION.

#[global] Instance action_command_eq_decision : EqDecision ActionCommand.
Proof. solve_decision. Defined.

Record RoomAction := mkAction { command : ActionCommand; action_room : Z }.

Record RoomEvent := mkRoomEvent {
  actions : list RoomAction;
  current_action : nat;
  target_room_id : Z;
  initial_command : byte;
  event_fd : Z;
  session : option Room.Sid;
  request_data : bytes;
  response_data : bytes;
  result_code : Result }.

(** [constexpr RoomId PENDING_ROOM_ID] *)
Definition PENDING_ROOM_ID : Z := INT64_MAX.

(** [RoomEvent event;] leaves [initial_command] indeterminate. *)
Definition new_event (junk_command : byte) : RoomEvent :=
  mkRoomEvent [] 0 0 junk_command (-1) None [] [] None_.

Definition set_actions (l : list RoomAction) (e : RoomEvent) : RoomEvent :=
  mkRoomEvent l (current_action e) (target_room_id e) (initial_command e) (event_fd e)
    (session e) (request_data e) (response_data e) (result_code e).
Definition set_current (n : nat) (e : RoomEvent) : RoomEvent :=
  mkRoomEvent (actions e) n (target_room_id e) (initial_command e) (event_fd e)
    (session e) (request_data e) (response_data e) (result_code e).
Definition set_target (r : Z) (e : RoomEvent) : RoomEvent :=
  mkRoomEvent (actions e) (current_action e) r (initial_command e) (event_fd e)
    (session e) (request_data e) (response_data e) (result_code e).
Definition set_command (c : byte) (e : RoomEvent) : RoomEvent :=
  mkRoomEvent (actions e) (current_action e) (target_room_id e) c (event_fd e)
    (session e) (request_data e) (response_data e) (result_code e).
Definition set_fd (fd : Z) (e : RoomEvent) : RoomEvent :=
  mkRoomEvent (actions e) (current_action e) (target_room_id e) (initial_command e) fd
    (session e) (request_data e) (response_data e) (result_code e).
Definition set_session (s : option Room.Sid) (e : RoomEvent) : RoomEvent :=
  mkRoomEvent (actions e) (current_action e) (target_room_id e) (initial_command e) (event_fd e)
    s (request_data e) (response_data e) (result_code e).
Definition set_request (d : bytes) (e : RoomEvent) : RoomEvent :=
  mkRoomEvent (actions e) (current_action e) (target_room_id e) (initial_command e) (event_fd e)
    (session e) d (response_data e) (result_code e).
Definition set_response (d : bytes) (e : RoomEvent) : RoomEvent :=
  mkRoomEvent (actions e) (current_action e) (target_room_id e) (initial_command e) (event_fd e)
    (session e) (request_data e) d (result_code e).
Definition set_result (r : Result) (e : RoomEvent) : RoomEvent :=
  mkRoomEvent (actions e) (current_action e) (target_room_id e) (initial_command e) (event_fd e)
    (session e) (request_data e) (response_data e) r.

(** [add_action]: [false] when the array of ten is full. *)
Definition add_action (cmd : ActionCommand) (room_id : Z) (e : RoomEvent) : bool * RoomEvent :=
  if decide (10 <= length (actions e))%nat then (false, e)
  else (true, set_actions (actions e ++ [mkAction cmd room_id]) e).

(** The callers ignore the result. *)
Definition add (cmd : ActionCommand) (room_id : Z) (e : RoomEvent) : RoomEvent :=
  (add_action cmd room_id e).2.

Definition resolve_action (room_id : Z) (a : RoomAction) : RoomAction :=
  if decide (action_room a = PENDING_ROOM_ID) then mkAction (command a) room_id else a.

Definition resolve_room_id (room_id : Z) (e : RoomEvent) : RoomEvent :=
  set_target room_id (set_actions (resolve_action room_id <$> actions e) e).

(** [to_event_command]: no value is returned for a command outside the enumerators. *)
Definition to_event_command (c : byte) : option ActionCommand :=
  match to_command c with
  | Some CMD_CREATE_ROOM => Some CREATE_ROOM
  | Some CMD_JOIN_ROOM => Some JOIN_ROOM
  | Some CMD_LEAVE_ROOM => Some LEAVE_ROOM
  | Some CMD_SEND_MESSAGE => Some SEND_MESSAGE
  | Some CMD_LOAD_MESSAGE => Some REQUEST_DB_LOAD_MESSAGE
  | None => None
  end.

(** ** MainEvent *)

Inductive MainEventType := Disconnect | EnableEpollOut | DisalbeEpollOut.

#[global] Instance main_event_type_eq_decision : EqDecision MainEventType.
Proof. solve_decision. Defined.

Record MainEvent := mkMainEvent { me_type : MainEventType; me_fd : Z }.

(** ** DBJob *)

Inductive DBJobType := SaveMessage | LoadHistory | CreateRoom | FindAccount | CreateAccount.

Inductive DBStatus := DBSuccess | DBStNotFound | DBStDuplicate | DBStError.

#[global] Instance db_job_type_eq_decision : EqDecision DBJobType.
Proof. solve_decision. Defined.
#[global] Instance db_status_eq_decision : EqDecision DBStatus.
Proof. solve_decision. Defined.

(** The closures the workers store in [on_result], with the captured event. *)
Inductive Callback :=
  | NoCallback
  | DbCreateRoomOnResult (e : RoomEvent)
  | DbLoadMessagesOnResult (e : RoomEvent).

Record DBJob := mkDBJob { job_type : DBJobType; params : list bytes; on_result : Callback }.

(** The event a job will bring back. *)
Definition callback_event (c : Callback) : option RoomEvent :=
  match c with
  | NoCallback => None
  | DbCreateRoomOnResult e | DbLoadMessagesOnResult e => Some e
  end.

(** ** Facts about the action list *)

Lemma add_actions cmd r e :
  (length (actions e) < 10)%nat -> actions (add cmd r e) = actions e ++ [mkAction cmd r].
Proof. intros H. unfold add, add_action. by rewrite decide_False by lia. Qed.

Lemma add_full cmd r e : (10 <= length (actions e))%nat -> add cmd r e = e.
Proof. intros H. unfold add, add_action. by rewrite decide_True. Qed.

Lemma length_add cmd r e : (length (actions e) <= 10)%nat -> (length (actions (add cmd r e)) <= 10)%nat.
Proof.
  intros H. unfold add, add_action. case_decide; [done |]. cbn. rewrite length_app. simpl. lia.
Qed.

(** [add] touches nothing but the action list. *)
Lemma current_action_add c r e : current_action (add c r e) = current_action e.
Proof. unfold add, add_action. by case_decide. Qed.
Lemma target_room_id_add c r e : target_room_id (add c r e) = target_room_id e.
Proof. unfold add, add_action. by case_decide. Qed.
Lemma initial_command_add c r e : initial_command (add c r e) = initial_command e.
Proof. unfold add, add_action. by case_decide. Qed.
Lemma event_fd_add c r e : event_fd (add c r e) = event_fd e.
Proof. unfold add, add_action. by case_decide. Qed.
Lemma session_add c r e : session (add c r e) = session e.
Proof. unfold add, add_action. by case_decide. Qed.
Lemma request_data_add c r e : request_data (add c r e) = request_data e.
Proof. unfold add, add_action. by case_decide. Qed.
Lemma response_data_add c r e : response_data (add c r e) = response_data e.
Proof. unfold add, add_action. by case_decide. Qed.
Lemma result_code_add c r e : result_code (add c r e) = result_code e.
Proof. unfold add, add_action. by case_decide. Qed.

#[global] Hint Rewrite current_action_add target_room_id_add initial_command_add event_fd_add session_add request_data_add response_data_add result_code_add : event.

Lemma current_action_set_target r e : current_action (set_target r e) = current_action e.
Proof. done. Qed.
Lemma initial_command_set_target r e : initial_command (set_target r e) = initial_command e.
Proof. done. Qed.
Lemma event_fd_set_target r e : event_fd (set_target r e) = event_fd e.
Proof. done. Qed.
Lemma session_set_target r e : session (set_target r e) = session e.
Proof. done. Qed.
Lemma request_data_set_target r e : request_data (set_target r e) = request_data e.
Proof. done. Qed.
Lemma response_data_set_target r e : response_data (set_target r e) = response_data e.
Proof. done. Qed.
Lemma result_code_set_target r e : result_code (set_target r e) = result_code e.
Proof. done. Qed.

#[global] Hint Rewrite current_action_set_target initial_command_set_target event_fd_set_target session_set_target request_data_set_target response_data_set_target result_code_set_target : event.

Lemma resolve_action_command r a : command (resolve_action r a) = command a.
Proof. unfold resolve_action. by case_decide. Qed.

(** Resolving leaves no pending room, unless the issued id is itself the
    reserved maximum. *)
Lemma resolve_no_pending r e a :
  r <> PENDING_ROOM_ID -> a ∈ actions (resolve_room_id r e) -> action_room a <> PENDING_ROOM_ID.
Proof.
  intros Hr Ha. cbn in Ha. apply list_elem_of_fmap in Ha as (a' & -> & _).
  unfold resolve_action. by case_decide.
Qed.

End Event.
