(* ===== verification/World.v ===== *)
(** * World: the server's shared state and the monad its handlers run in

    One [World] holds everything the handlers touch: the [Session] objects
    (the heap behind [shared_ptr<Session>]), the tables of [SessionManager],
    [UserManager] and [RoomManager], every [RoomWorker] with its rooms and its
    event queue, the job queue of [DBWorker], the [MainEvent] queue, and the
    sequence of [epoll_ctl] calls made so far. A handler is a function
    [World -> Outcome A]: it returns a value and a new world, or stops with a
    [Fault] where the C++ would throw or have undefined behaviour. *)

From S2P Require Import Prelude Wire Session User Room Event.

Module World.

(** ** State *)

Inductive WorkerType := WRoom | WLobby.

#[global] Instance worker_type_eq_decision : EqDecision WorkerType.
Proof. solve_decision. Defined.

Record RoomWorker := mkRoomWorker {
  type_ : WorkerType;
  rooms_ : gmap Z Room.Room;
  event_queue_ : list Event.RoomEvent }.

(** The calls of [epoll_ctl], with EPOLLOUT as the only varying interest bit. *)
Inductive EpollOp := EpAdd (fd : Z) | EpDel (fd : Z) | EpMod (fd : Z) (out : bool).

Record World := mkWorld {
  heap : gmap Room.Sid Session.Session;
  sessions : gmap Z Room.Sid;
  user_manager : User.UserManager;
  room_workers : gmap Z RoomWorker;
  room_to_worker : gmap Z Z;
  room_worker_num : Z;
  job_queue : list Event.DBJob;
  main_events : list Event.MainEvent;
  total_users : Z;
  epoll_calls : list EpollOp }.

Definition set_heap (x : gmap Room.Sid Session.Session) (w : World) : World :=
  mkWorld x (sessions w) (user_manager w) (room_workers w) (room_to_worker w)
    (room_worker_num w) (job_queue w) (main_events w) (total_users w) (epoll_calls w).
Definition set_sessions (x : gmap Z Room.Sid) (w : World) : World :=
  mkWorld (heap w) x (user_manager w) (room_workers w) (room_to_worker w)
    (room_worker_num w) (job_queue w) (main_events w) (total_users w) (epoll_calls w).
Definition set_users (x : User.UserManager) (w : World) : World :=
  mkWorld (heap w) (sessions w) x (room_workers w) (room_to_worker w)
    (room_worker_num w) (job_queue w) (main_events w) (total_users w) (epoll_calls w).
Definition set_workers (x : gmap Z RoomWorker) (w : World) : World :=
  mkWorld (heap w) (sessions w) (user_manager w) x (room_to_worker w)
    (room_worker_num w) (job_queue w) (main_events w) (total_users w) (epoll_calls w).
Definition set_room_to_worker (x : gmap Z Z) (w : World) : World :=
  mkWorld (heap w) (sessions w) (user_manager w) (room_workers w) x
    (room_worker_num w) (job_queue w) (main_events w) (total_users w) (epoll_calls w).
Definition set_jobs (x : list Event.DBJob) (w : World) : World :=
  mkWorld (heap w) (sessions w) (user_manager w) (room_workers w) (room_to_worker w)
    (room_worker_num w) x (main_events w) (total_users w) (epoll_calls w).
Definition set_main (x : list Event.MainEvent) (w : World) : World :=
  mkWorld (heap w) (sessions w) (user_manager w) (room_workers w) (room_to_worker w)
    (room_worker_num w) (job_queue w) x (total_users w) (epoll_calls w).
Definition set_total (x : Z) (w : World) : World :=
  mkWorld (heap w) (sessions w) (user_manager w) (room_workers w) (room_to_worker w)
    (room_worker_num w) (job_queue w) (main_events w) x (epoll_calls w).
Definition set_epoll (x : list EpollOp) (w : World) : World :=
  mkWorld (heap w) (sessions w) (user_manager w) (room_workers w) (room_to_worker w)
    (room_worker_num w) (job_queue w) (main_events w) (total_users w) x.

(** ** The monad *)

Inductive Fault :=
  | NullSession          (* member call through a null shared_ptr<Session> *)
  | NullUser             (* member call through a null shared_ptr<User> *)
  | DanglingSession      (* a session identity with no object *)
  | NoWorker             (* room_workers_.at throws std::out_of_range *)
  | NoAction             (* reads an uninitialised RoomAction *)
  | BadDistribution      (* uniform_int_distribution with an empty range *)
  | NoMoreDraws          (* the redraw loop has not ended within the draws given *)
  | EpollCtlFailed.      (* Epoll throws std::runtime_error *)

#[global] Instance fault_eq_decision : EqDecision Fault.
Proof. solve_decision. Defined.

Inductive Outcome (A : Type) := Ok (a : A) (w : World) | Stop (f : Fault).
#[global] Arguments Ok {A} a w.
#[global] Arguments Stop {A} f.

Definition M (A : Type) : Type := World -> Outcome A.

Definition ret {A} (a : A) : M A := fun w => Ok a w.
Definition bind {A B} (m : M A) (f : A -> M B) : M B :=
  fun w => match m w with Ok a w' => f a w' | Stop e => Stop e end.
Definition fault {A} (e : Fault) : M A := fun _ => Stop e.
Definition gets {A} (f : World -> A) : M A := fun w => Ok (f w) w.
Definition modify (f : World -> World) : M unit := fun w => Ok tt (f w).

Lemma bind_ret {A B} (a : A) (f : A -> M B) : bind (ret a) f = f a.
Proof. done. Qed.

(** A pointer that must not be null. *)
Definition deref {A} (e : Fault) (o : option A) : M A :=
  match o with Some a => ret a | None => fault e end.

Notation "'let*' x ':=' m 'in' k" := (bind m (fun x => k))
  (at level 200, x pattern, m at level 100, k at level 200, right associativity) : chat_scope.
Notation "m ';;;' k" := (bind m (fun _ => k))
  (at level 199, right associativity) : chat_scope.
Open Scope chat_scope.

(** A range-based [for] over the entries of a container. *)
Fixpoint for_each {A} (l : list A) (f : A -> M unit) : M unit :=
  match l with
  | [] => ret tt
  | a :: l' => f a ;;; for_each l' f
  end.

(** Indeterminate values the code reads: padding bytes copied by [memcpy] and
    the [initial_command] of an event nobody set. They may depend on anything. *)
Class Indeterminate := {
  padding : World -> nat -> bytes;
  junk_command : World -> byte;
  length_padding : forall w n, length (padding w n) = n }.

#[global] Program Instance zero_indeterminate : Indeterminate := {|
  padding := fun _ n => replicate n x00; junk_command := fun _ => x00 |}.
Next Obligation. intros w n. apply length_replicate. Qed.

(** ** Access paths *)

Definition get_session (s : Room.Sid) : M Session.Session :=
  fun w => match heap w !! s with Some o => Ok o w | None => Stop DanglingSession end.
Definition put_session (s : Room.Sid) (o : Session.Session) : M unit :=
  modify (fun w => set_heap (<[s := o]> (heap w)) w).

(** [session->get_fd()] on a possibly null pointer. *)
Definition session_fd (s : option Room.Sid) : M Z :=
  let* sid := deref NullSession s in
  let* o := get_session sid in
  ret (Session.get_fd o).

Definition get_worker (wid : Z) : M RoomWorker :=
  fun w => match room_workers w !! wid with Some r => Ok r w | None => Stop NoWorker end.
Definition put_worker (wid : Z) (r : RoomWorker) : M unit :=
  modify (fun w => set_workers (<[wid := r]> (room_workers w)) w).

Definition set_rooms (rs : gmap Z Room.Room) (r : RoomWorker) : RoomWorker :=
  mkRoomWorker (type_ r) rs (event_queue_ r).
Definition set_queue (q : list Event.RoomEvent) (r : RoomWorker) : RoomWorker :=
  mkRoomWorker (type_ r) (rooms_ r) q.

(** The rooms of the worker that runs. *)
Definition get_rooms (wid : Z) : M (gmap Z Room.Room) :=
  let* r := get_worker wid in ret (rooms_ r).
Definition put_rooms (wid : Z) (rs : gmap Z Room.Room) : M unit :=
  let* r := get_worker wid in put_worker wid (set_rooms rs r).

(** [RoomWorker::post_event], called on [room_workers_.at(wid)]. *)
Definition post_event (wid : Z) (e : Event.RoomEvent) : M unit :=
  let* r := get_worker wid in put_worker wid (set_queue (event_queue_ r ++ [e]) r).

(** [DBWorker::post_job] *)
Definition post_job (j : Event.DBJob) : M unit :=
  modify (fun w => set_jobs (job_queue w ++ [j]) w).

Definition push_main (e : Event.MainEvent) (w : World) : World :=
  set_main (main_events w ++ [e]) w.

(** ** IServerService

    The interface through which workers reach the main thread: each request
    is accepted and does nothing but queue one event about that descriptor. *)
Class IServerService := {
  request_enable_epollout : Z -> M unit;
  request_disable_epollout : Z -> M unit;
  request_close_session : Z -> M unit;
  enable_queues : forall fd w,
    request_enable_epollout fd w = Ok tt (push_main (Event.mkMainEvent Event.EnableEpollOut fd) w);
  disable_queues : forall fd w,
    request_disable_epollout fd w = Ok tt (push_main (Event.mkMainEvent Event.DisalbeEpollOut fd) w);
  close_queues : forall fd w,
    request_close_session fd w = Ok tt (push_main (Event.mkMainEvent Event.Disconnect fd) w) }.

(** ** A small program logic: [wp m F Q w] holds when running [m] from [w]
    ends in a value and world satisfying [Q], or in a fault allowed by [F]. *)

Definition wp {A} (m : M A) (F : Fault -> Prop) (Q : A -> World -> Prop) (w : World) : Prop :=
  match m w with Ok a w' => Q a w' | Stop f => F f end.

Definition no_fault (f : Fault) : Prop := False.

Section wp.
Context {F : Fault -> Prop}.

Lemma wp_ret {A} (a : A) Q w : Q a w -> wp (ret a) F Q w.
Proof. done. Qed.

Lemma wp_bind {A B} (m : M A) (f : A -> M B) Q w :
  wp m F (fun a w' => wp (f a) F Q w') w -> wp (bind m f) F Q w.
Proof. unfold wp, bind. by destruct (m w). Qed.

Lemma wp_mono {A} (m : M A) (Q1 Q2 : A -> World -> Prop) w :
  wp m F Q1 w -> (forall a w', Q1 a w' -> Q2 a w') -> wp m F Q2 w.
Proof. unfold wp. intros H1 H. destruct (m w); [by apply H | done]. Qed.

Lemma wp_gets {A} (f : World -> A) Q w : Q (f w) w -> wp (gets f) F Q w.
Proof. done. Qed.

Lemma wp_modify (f : World -> World) Q w : Q tt (f w) -> wp (modify f) F Q w.
Proof. done. Qed.

Lemma wp_get_session s o Q w : heap w !! s = Some o -> Q o w -> wp (get_session s) F Q w.
Proof. unfold wp, get_session. by intros ->. Qed.

Lemma wp_get_worker wid r Q w :
  room_workers w !! wid = Some r -> Q r w -> wp (get_worker wid) F Q w.
Proof. unfold wp, get_worker. by intros ->. Qed.

Lemma wp_session_fd s o Q w :
  heap w !! s = Some o -> Q (Session.fd o) w -> wp (session_fd (Some s)) F Q w.
Proof. intros H HQ. unfold wp, session_fd, bind, get_session; simpl. by rewrite H. Qed.

(** A loop preserves what every iteration preserves. *)
Lemma wp_for_each {A} (I : World -> Prop) (l : list A) (f : A -> M unit) w :
  (forall a w', a ∈ l -> I w' -> wp (f a) F (fun _ => I) w') -> I w ->
  wp (for_each l f) F (fun _ => I) w.
Proof.
  revert w. induction l as [| a l IH]; intros w Hf HI; simpl.
  - by apply wp_ret.
  - apply wp_bind. eapply wp_mono; [apply Hf; [constructor | done] |].
    intros [] w' HI'. apply IH; [| done]. intros a' w'' Ha. apply Hf. by constructor.
Qed.
End wp.

(** Adding to a postcondition what every successful run satisfies. *)
Lemma wp_and {A} (m : M A) F (Q R : A -> World -> Prop) w :
  wp m F Q w -> (forall a w', m w = Ok a w' -> R a w') -> wp m F (fun a w' => Q a w' /\ R a w') w.
Proof. unfold wp. destruct (m w); [| done]. intros HQ HR. split; [done | by apply HR]. Qed.

Lemma wp_conj {A} (m : M A) F (Q R : A -> World -> Prop) w :
  wp m F Q w -> wp m F R w -> wp m F (fun a w' => Q a w' /\ R a w') w.
Proof. unfold wp. by destruct (m w). Qed.

(** Running a handler whose outcome is known. *)
Lemma wp_ok {A} (m : M A) F Q w a w' : m w = Ok a w' -> Q a w' -> wp m F Q w.
Proof. unfold wp. by intros ->. Qed.

Lemma wp_no_fault_ok {A} (m : M A) Q w :
  wp m no_fault Q w -> exists a w', m w = Ok a w' /\ Q a w'.
Proof. unfold wp. destruct (m w); [eauto | by intros []]. Qed.

#[global] Hint Resolve wp_ret wp_gets wp_modify : chat.

End World.
