(* ===== verification/RoomManager.v ===== *)
(** * RoomManager: server/src/room/RoomManager.{h,cpp}

    The routing table, the planning of a packet into a [RoomEvent], and the
    placement of new rooms on workers. *)

From S2P Require Import Prelude Wire Session User Room Event World.

Module RoomManager.
Import Protocol World.

Definition LOBBY_WORKER_ID : Z := 1.
Definition LOBBY_ROOM_ID : Z := 1.
Definition MAX_LOBBY_SESSIONS : Z := 999.

(** [RoomWorker::RoomWorker]: the lobby worker owns the lobby from the start. *)
Definition new_worker (type : WorkerType) : RoomWorker :=
  mkRoomWorker type
    (match type with
     | WLobby => {[LOBBY_ROOM_ID := Room.new_room LOBBY_ROOM_ID MAX_LOBBY_SESSIONS]}
     | WRoom => ∅
     end) [].

(** [RoomManager::RoomManager] with [std::thread::hardware_concurrency()] = [n]. *)
Definition init_workers (n : Z) : gmap Z RoomWorker :=
  foldl (fun m i => emplace (i + 2) (new_worker WRoom) m)
    (emplace LOBBY_WORKER_ID (new_worker WLobby) ∅) (seqZ 0 (n - 1)).

Definition init_world (n : Z) : World :=
  mkWorld ∅ ∅ User.empty_manager (init_workers n)
    (emplace LOBBY_ROOM_ID LOBBY_WORKER_ID ∅) n [] [] 0 [].

Section RoomManager.
Context {Indet : Indeterminate}.

(** 0 means that no worker owns the room. *)
Definition find_worker (room_id : Z) : M Z :=
  gets (fun w => match room_to_worker w !! room_id with None => 0 | Some wid => wid end).

(** The default argument is [target_worker_id = 0]. *)
Definition route_event (e : Event.RoomEvent) (target_worker_id : Z) : M Result :=
  let* worker_id := if decide (target_worker_id = 0) then find_worker (Event.target_room_id e)
                    else ret target_worker_id in
  if decide (worker_id = 0) then ret RoomNotFound
  else post_event worker_id e ;;; ret Success.

Definition erase_room_to_worker (room_id : Z) : M unit :=
  modify (fun w => set_room_to_worker (delete room_id (room_to_worker w)) w).

Definition disconnect_session (fd room_id : Z) : M unit :=
  let* junk := gets junk_command in
  let e := Event.set_target room_id (Event.set_fd fd (Event.new_event junk)) in
  let e := Event.add Event.DISCONNECT_SESSION (Event.target_room_id e) e in
  route_event e 0 ;;; ret tt.

Definition get_rooms_num (wid : Z) : M nat :=
  let* r := get_worker wid in ret (size (rooms_ r)).

(** The redraw loop [do { second = dist(gen); } while(first == second && n >= 3)]
    on the values [dist] returns. *)
Fixpoint draw_second (first n : Z) (draws : list Z) : option Z :=
  match draws with
  | [] => None
  | second :: draws' =>
      if decide (first = second /\ n >= 3) then draw_second first n draws' else Some second
  end.

Definition bind_room_worker (room_id : Z) (draws : list Z) : M Z :=
  let* n := gets room_worker_num in
  (if decide (n < LOBBY_WORKER_ID + 1) then fault BadDistribution else ret tt) ;;;
  let* chosen := deref NoMoreDraws
    match draws with
    | [] => None
    | first :: draws' => second ← draw_second first n draws'; Some (first, second)
    end in
  let '(first_worker, second_worker) := chosen in
  let* n1 := get_rooms_num first_worker in
  let* n2 := get_rooms_num second_worker in
  let worker_id := if decide (n1 < n2)%nat then first_worker else second_worker in
  modify (fun w => set_room_to_worker (emplace room_id worker_id (room_to_worker w)) w) ;;;
  ret worker_id.

Definition request_flush (session : Room.Sid) : M unit :=
  let* fd := session_fd (Some session) in
  let* um := gets user_manager in
  match User.get_user fd um with
  | None => ret tt
  | Some user =>
      let* junk := gets junk_command in
      let e := Event.set_target (User.current_room_ user)
                 (Event.set_session (Some session) (Event.new_event junk)) in
      let e := Event.add Event.FLUSH 0 e in
      route_event e 0 ;;; ret tt
  end.

(** ** Action plans *)

Definition plan_create_room (e : Event.RoomEvent) : Event.RoomEvent :=
  let e := Event.add Event.REQUEST_DB_CREATE_ROOM LOBBY_ROOM_ID e in
  let e := Event.add Event.CREATE_ROOM Event.PENDING_ROOM_ID e in
  let e := Event.add Event.JOIN_ROOM Event.PENDING_ROOM_ID e in
  let e := Event.add Event.REQUEST_LEAVE_ROOM LOBBY_ROOM_ID e in
  let e := Event.add Event.LEAVE_ROOM LOBBY_ROOM_ID e in
  let e := Event.add Event.SEND_RESPONSE 0 e in
  Event.set_target LOBBY_ROOM_ID e.

Definition plan_join_room (e : Event.RoomEvent) : Event.RoomEvent :=
  let e := Event.add Event.JOIN_ROOM (Event.target_room_id e) e in
  let e := Event.add Event.REQUEST_LEAVE_ROOM LOBBY_ROOM_ID e in
  let e := Event.add Event.LEAVE_ROOM LOBBY_ROOM_ID e in
  let e := Event.add Event.REQUEST_DB_LOAD_MESSAGE (Event.target_room_id e) e in
  Event.add Event.SEND_RESPONSE 0 e.

Definition plan_leave_room (e : Event.RoomEvent) : Event.RoomEvent :=
  let e := Event.add Event.JOIN_ROOM LOBBY_ROOM_ID e in
  let e := Event.add Event.REQUEST_LEAVE_ROOM (Event.target_room_id e) e in
  let e := Event.add Event.LEAVE_ROOM (Event.target_room_id e) e in
  let e := Event.add Event.SEND_RESPONSE 0 e in
  Event.set_target LOBBY_ROOM_ID e.

Definition plan_send_message (e : Event.RoomEvent) : Event.RoomEvent :=
  let e := Event.add Event.SEND_MESSAGE (Event.target_room_id e) e in
  let e := Event.add Event.SAVE_MESSAGE (Event.target_room_id e) e in
  Event.add Event.SEND_RESPONSE 0 e.

Definition plan_load_message (e : Event.RoomEvent) : Event.RoomEvent :=
  let e := Event.add Event.REQUEST_DB_LOAD_MESSAGE (Event.target_room_id e) e in
  Event.add Event.SEND_RESPONSE 0 e.

(** The [switch] of [dispatch_packet]: an unknown command plans nothing. *)
Definition plan (e : Event.RoomEvent) : Event.RoomEvent :=
  match to_command (Event.initial_command e) with
  | Some CMD_CREATE_ROOM => plan_create_room e
  | Some CMD_JOIN_ROOM => plan_join_room e
  | Some CMD_LEAVE_ROOM => plan_leave_room e
  | Some CMD_SEND_MESSAGE => plan_send_message e
  | Some CMD_LOAD_MESSAGE => plan_load_message e
  | None => e
  end.

(** The event a packet becomes before planning. *)
Definition packet_event (packet : Packet) (session : Room.Sid) : Event.RoomEvent :=
  Event.set_target (rq_room_id (request packet))
    (Event.set_session (Some session)
      (Event.set_request (body packet)
        (Event.new_event (rq_command (request packet))))).

Definition dispatch_packet (packet : Packet) (session : Room.Sid) : M unit :=
  let* r := route_event (plan (packet_event packet session)) 0 in
  if decide (r <> Success) then
    let fail := Event.set_session (Some session)
                  (Event.new_event (rq_command (request packet))) in
    let fail := Event.set_target LOBBY_ROOM_ID (Event.set_result RoomNotFound fail) in
    let fail := Event.add Event.SEND_RESPONSE 0 fail in
    route_event fail LOBBY_WORKER_ID ;;; ret tt
  else ret tt.

(** ** Outcomes of routing *)

Lemma route_event_ok e target w wid r :
  wid = (if decide (target = 0) then default 0 (room_to_worker w !! Event.target_room_id e) else target) ->
  wid <> 0 -> room_workers w !! wid = Some r ->
  route_event e target w =
  Ok Success (set_workers (<[wid := set_queue (event_queue_ r ++ [e]) r]> (room_workers w)) w).
Proof.
  intros Hwid Hnz Hr. unfold route_event. unfold bind at 1.
  assert (Hf : (if decide (target = 0) then find_worker (Event.target_room_id e)
                else ret target) w = Ok wid w).
  { rewrite Hwid. case_decide; [| done]. unfold find_worker, gets.
    by destruct (room_to_worker w !! _). }
  rewrite Hf, decide_False by done.
  unfold post_event, put_worker, get_worker, bind, modify. by rewrite Hr.
Qed.

Lemma route_event_unrouted e w :
  room_to_worker w !! Event.target_room_id e = None ->
  route_event e 0 w = Ok RoomNotFound w.
Proof.
  intros Hr. unfold route_event. rewrite decide_True by done.
  unfold bind, find_worker, gets. by rewrite Hr.
Qed.

(** Routing touches the workers' queues only. *)
Lemma route_event_frame e t w r w' :
  route_event e t w = Ok r w' -> w' = set_workers (room_workers w') w.
Proof.
  unfold route_event. unfold bind at 1. intros H.
  assert (Hf : exists wid, (if decide (t = 0) then find_worker (Event.target_room_id e)
                else ret t) w = Ok wid w).
  { case_decide; [| by exists t]. unfold find_worker, gets. eauto. }
  destruct Hf as [wid Hf]. rewrite Hf in H. clear Hf. case_decide.
  - injection H as <- <-. by destruct w.
  - unfold post_event, put_worker, get_worker, bind, modify in H.
    destruct (room_workers w !! wid); [| done]. by injection H as <- <-.
Qed.

Lemma disconnect_session_frame fd room_id w w' :
  disconnect_session fd room_id w = Ok tt w' -> w' = set_workers (room_workers w') w.
Proof.
  unfold disconnect_session, bind, gets. intros H.
  destruct (route_event _ 0 w) as [r w1 |] eqn:E; [| done].
  injection H as <-. by eapply route_event_frame.
Qed.

(** The redraw loop returns one of the values drawn, and a different worker
    as soon as there are at least three. *)
Lemma draw_second_spec first n draws second :
  draw_second first n draws = Some second ->
  second ∈ draws /\ (n >= 3 -> second <> first).
Proof.
  induction draws as [| d draws IH]; simpl; [done |]. case_decide as Hd.
  - intros H. destruct (IH H). split; [by constructor |]. done.
  - intros [= ->]. split; [constructor |]. intros Hn E. subst. by apply Hd.
Qed.

Lemma draw_second_terminates first n draws :
  draws <> [] -> (exists d, d ∈ draws /\ d <> first) \/ n < 3 ->
  is_Some (draw_second first n draws).
Proof.
  intros Hne H. induction draws as [| d draws IH]; [done |]. simpl. case_decide as Hd; [| eauto].
  destruct Hd as [<- Hn]. destruct H as [(d' & Hin & Hd') |]; [| lia].
  apply elem_of_cons in Hin as [-> | Hin]; [done |].
  apply IH; [| left; eauto]. intros ->. by apply elem_of_nil in Hin.
Qed.

(** Every planned event starts at its first action and fits the array. *)
Lemma plan_length e : Event.actions e = [] -> (length (Event.actions (plan e)) <= 6)%nat.
Proof. intros H. unfold plan. destruct e; simpl in *; subst. repeat case_match; simpl; lia. Qed.

(** Planning sets the actions and the routing target, nothing else. *)
Lemma plan_fields e :
  Event.current_action (plan e) = Event.current_action e /\
  Event.session (plan e) = Event.session e /\
  Event.initial_command (plan e) = Event.initial_command e /\
  Event.request_data (plan e) = Event.request_data e /\
  Event.response_data (plan e) = Event.response_data e /\
  Event.result_code (plan e) = Event.result_code e.
Proof.
  unfold plan, plan_create_room, plan_join_room, plan_leave_room, plan_send_message,
    plan_load_message.
  destruct (to_command _) as [[] |]; [.. | done];
    split_and!; by autorewrite with event.
Qed.

End RoomManager.
End RoomManager.
