(* ===== verification/RoomWorker.v ===== *)
(** * RoomWorker: server/src/room/RoomWorker.{h,cpp}

    The handlers of a worker thread, each a function of the worker's id (the
    C++ [this]) in the world monad. [process_event] interprets the action list
    of an event from [current_action] on; the two [db_*_on_result] functions
    are the callbacks the database thread runs. The workers see the server
    only through the [IServerService] interface. *)

From S2P Require Import Prelude Codec Wire Decimal Session User Room Event World RoomManager.

Module RoomWorker.
Import Protocol World.

Section RoomWorker.
Context {Indet : Indeterminate} {SService : IServerService}.

(** ** Writing to a session *)

Definition send_packet (session : option Room.Sid) (data : bytes) : M unit :=
  let* sid := deref NullSession session in
  let* s := get_session sid in
  let '(result, s') := Session.flush (Session.pack data s) in
  put_session sid s' ;;;
  match result with
  | Session.Pending => request_enable_epollout (Session.get_fd s')
  | Session.Error => request_close_session (Session.get_fd s')
  | Session.Complete => ret tt
  end.

Definition flush (session : option Room.Sid) : M unit :=
  let* sid := deref NullSession session in
  let* s := get_session sid in
  let '(result, s') := Session.flush s in
  put_session sid s' ;;;
  match result with
  | Session.Pending => ret tt
  | Session.Error => request_close_session (Session.get_fd s')
  | Session.Complete => request_disable_epollout (Session.get_fd s')
  end.

Definition send_response (e : Event.RoomEvent) : M unit :=
  let header := mkHeader (packet_type_byte PKT_RESPONSE) in
  let res := mkResponse (wrap 32 (size_of (Event.response_data e))) (Event.initial_command e)
               (status_byte (result_to_resresultcode (Event.result_code e))) in
  let* pad := gets (fun w => padding w (npad Response)) in
  send_packet (Event.session e) (serialize_packet pad header res (Event.response_data e)).

(** [event.actions[event.current_action-1].target_room_id] *)
Definition current_room (e : Event.RoomEvent) : M Z :=
  let* a := deref NoAction (Event.actions e !! pred (Event.current_action e)) in
  ret (Event.action_room a).

(** ** Room operations *)

Definition create_room (wid : Z) (e : Event.RoomEvent) (max_session : Z) : M Result :=
  let* room_id := current_room e in
  let* rooms := get_rooms wid in
  match rooms !! room_id with
  | Some _ => ret RoomAlreadyExists
  | None =>
      put_rooms wid (<[room_id := Room.new_room room_id max_session]> rooms) ;;;
      ret Success
  end.

(** [join_room(std::shared_ptr<Session>, RoomId)]. The descriptor is read
    before the capacity test instead of inside [Room::join_session]: a null
    session is a fault here even for a full room. *)
Definition join_room_session (wid : Z) (session : option Room.Sid) (room_id : Z) : M Result :=
  let* rooms := get_rooms wid in
  match rooms !! room_id with
  | None => ret RoomNotFound
  | Some room =>
      let* fd := session_fd session in
      let* sid := deref NullSession session in
      match Room.join_session fd sid room with
      | (false, _) => ret RoomFull
      | (true, room') =>
          put_rooms wid (<[room_id := room']> rooms) ;;;
          let* um := gets user_manager in
          match User.get_user fd um with
          | None => ret UserNotFound
          | Some _ => modify (fun w => set_users (User.user_set_room fd room_id (user_manager w)) w) ;;;
                      ret Success
          end
      end
  end.

Definition join_room (wid : Z) (e : Event.RoomEvent) : M Result :=
  let* room_id := current_room e in
  join_room_session wid (Event.session e) room_id.

(** [leave_room(int fd, RoomId)] *)
Definition leave_room_fd (wid fd room_id : Z) : M Result :=
  let* rooms := get_rooms wid in
  match rooms !! room_id with
  | None => ret RoomNotFound
  | Some room =>
      match Room.exit_session fd room with
      | (false, _) => ret UserNotFound
      | (true, room') =>
          put_rooms wid (<[room_id := room']> rooms) ;;;
          let* this := get_worker wid in
          (if decide (Room.get_sessions_num room' <= 0 /\ type_ this = WRoom) then
             RoomManager.erase_room_to_worker (Room.room_id_ room') ;;;
             put_rooms wid (delete (Room.room_id_ room') (rooms_ this))
           else ret tt) ;;;
          ret Success
      end
  end.

Definition leave_room (wid : Z) (e : Event.RoomEvent) : M Result :=
  let* fd := session_fd (Event.session e) in
  let* room_id := current_room e in
  leave_room_fd wid fd room_id.

(** The body of the broadcast loop for one session [s] of the room. *)
Definition broadcast_to (e : Event.RoomEvent) (room_id : Z) (data : bytes) (s : Room.Sid) : M unit :=
  let* fd := session_fd (Some s) in
  let* sender_fd := session_fd (Event.session e) in
  if decide (fd = sender_fd) then ret tt else
  let* um := gets user_manager in
  match User.get_user fd um with
  | None => ret tt
  | Some user =>
      if decide (User.current_room_ user <> room_id) then ret tt
      else send_packet (Some s) data
  end.

Definition send_message (wid : Z) (e : Event.RoomEvent) : M Result :=
  let* room_id := current_room e in
  let* rooms := get_rooms wid in
  match rooms !! room_id with
  | None => ret RoomNotFound
  | Some room =>
      let header := mkHeader (packet_type_byte PKT_BROADCAST) in
      let* sender_fd := session_fd (Event.session e) in
      let* um := gets user_manager in
      let broad := mkBroadcast (User.get_user_id sender_fd um) room_id
                     (wrap 32 (size_of (Event.request_data e))) (event_byte EVT_MESSAGE) in
      let* pad := gets (fun w => padding w (npad Broadcast)) in
      let data := serialize_packet pad header broad (Event.request_data e) in
      for_each (map_to_list (Room.sessions_ room)) (fun s => broadcast_to e room_id data s.2) ;;;
      ret Success
  end.

(** ** Database requests *)

(** ["tempnickname"] *)
Definition tempnick : bytes :=
  [x74; x65; x6d; x70; x6e; x69; x63; x6b; x6e; x61; x6d; x65].

(** [db::message::params_for_save] *)
Definition params_for_save (room_id sender_id : Z) (sender_nick content : bytes) : list bytes :=
  [Decimal.to_string room_id; Decimal.to_string sender_id; sender_nick; content].

Definition save_message (wid : Z) (e : Event.RoomEvent) : M unit :=
  let content := Event.request_data e in
  let* room_id := current_room e in
  let* fd := session_fd (Event.session e) in
  let* um := gets user_manager in
  post_job (Event.mkDBJob Event.SaveMessage
    (params_for_save room_id (User.get_user_id fd um) tempnick content) Event.NoCallback).

Definition request_db_create_room (e : Event.RoomEvent) : M unit :=
  post_job (Event.mkDBJob Event.CreateRoom [] (Event.DbCreateRoomOnResult e)).

(** The cursor of a history request: the first eight bytes of the body when
    there are that many, and "from the newest" unless it is positive. *)
Definition load_cursor (request_data : bytes) : Z :=
  let lasted_message_id :=
    if decide (8 <= size_of request_data) then i64_dec (take 8 request_data) else 0 in
  if decide (lasted_message_id <= 0) then INT64_MAX else lasted_message_id.

Definition request_db_load_message (e : Event.RoomEvent) : M unit :=
  let* room_id := current_room e in
  post_job (Event.mkDBJob Event.LoadHistory
    [Decimal.to_string room_id; Decimal.to_string (load_cursor (Event.request_data e))]
    (Event.DbLoadMessagesOnResult e)).

Definition db_create_room_on_result (e : Event.RoomEvent) (status : Event.DBStatus)
    (data : bytes) (draws : list Z) : M unit :=
  let '(taken, _) := Codec.take 8 (Codec.reader data) in
  match (if decide (status = Event.DBStError) then None else taken) with
  | None =>
      let e := Event.set_result DBError e in
      RoomManager.route_event e RoomManager.LOBBY_WORKER_ID ;;; ret tt
  | Some room_id_bytes =>
      let room_id := i64_dec room_id_bytes in
      let e := Event.set_result Success e in
      let e := Event.resolve_room_id room_id e in
      let e := Event.set_response data e in
      let* worker_id := RoomManager.bind_room_worker (Event.target_room_id e) draws in
      RoomManager.route_event e worker_id ;;; ret tt
  end.

Definition db_load_messages_on_result (e : Event.RoomEvent) (status : Event.DBStatus)
    (data : bytes) : M unit :=
  let e :=
    match status with
    | Event.DBSuccess => Event.set_response data (Event.set_result Success e)
    | Event.DBStNotFound => Event.set_result DBNotFound e
    | Event.DBStError => Event.set_result DBError e
    | Event.DBStDuplicate => Event.set_result DBDuplicate e
    end in
  let* room_id := current_room e in
  let e := Event.set_target room_id e in
  RoomManager.route_event e 0 ;;; ret tt.

(** ** Disconnection *)

(** The search through the rooms this worker owns. *)
Fixpoint leave_first (wid fd : Z) (room_ids : list Z) : M bool :=
  match room_ids with
  | [] => ret false
  | room_id :: room_ids' =>
      let* r := leave_room_fd wid fd room_id in
      if decide (r = Success) then ret true else leave_first wid fd room_ids'
  end.

Definition diconnect_session (wid fd room_id : Z) : M bool :=
  let* r := leave_room_fd wid fd room_id in
  if decide (r = Success) then ret true
  else
    let* rooms := get_rooms wid in
    leave_first wid fd ((fun p => Room.room_id_ p.2) <$> map_to_list rooms).

(** ** The action interpreter *)

(** What a [break] out of the [switch] continues with. *)
Definition after_action (e : Event.RoomEvent) (command : Event.ActionCommand)
    (continue_ : Event.RoomEvent -> M unit) : M unit :=
  if decide (Event.result_code e <> Success /\ command <> Event.SEND_RESPONSE) then
    let* first := deref NoAction (Event.actions e !! 0%nat) in
    (if decide (Event.command first = Event.CREATE_ROOM)
     then RoomManager.erase_room_to_worker (Event.target_room_id e) else ret tt) ;;;
    send_response e
  else continue_ e.

Fixpoint process_loop (fuel : nat) (wid : Z) (e : Event.RoomEvent) : M unit :=
  match fuel with
  | O => ret tt
  | S fuel' =>
      if decide (Event.current_action e < length (Event.actions e))%nat then
        if decide (Event.result_code e <> Success /\ Event.result_code e <> None_) then
          send_response e
        else
          let* action := deref NoAction (Event.actions e !! Event.current_action e) in
          let e := Event.set_current (S (Event.current_action e)) e in
          let continue_ e := process_loop fuel' wid e in
          let cmd := Event.command action in
          match cmd with
          | Event.REQUEST_DB_CREATE_ROOM => request_db_create_room e
          | Event.CREATE_ROOM =>
              let* r := create_room wid e 5 in
              after_action (Event.set_result r e) cmd continue_
          | Event.JOIN_ROOM =>
              let* r := join_room wid e in
              after_action (Event.set_result r e) cmd continue_
          | Event.LEAVE_ROOM =>
              let* r := leave_room wid e in
              after_action (Event.set_result r e) cmd continue_
          | Event.REQUEST_JOIN_ROOM | Event.REQUEST_LEAVE_ROOM =>
              let e := Event.set_target (Event.action_room action) e in
              RoomManager.route_event e 0 ;;; ret tt
          | Event.SEND_MESSAGE =>
              let* r := send_message wid e in
              after_action (Event.set_result r e) cmd continue_
          | Event.REQUEST_DB_LOAD_MESSAGE => request_db_load_message e
          | Event.SAVE_MESSAGE => save_message wid e ;;; after_action e cmd continue_
          | Event.SEND_RESPONSE => send_response e
          | Event.FLUSH => flush (Event.session e)
          | Event.DISCONNECT_SESSION =>
              diconnect_session wid (Event.event_fd e) (Event.target_room_id e) ;;; ret tt
          end
      else ret tt
  end.

(** Every iteration advances [current_action], so the action count is enough
    fuel; one more lets the loop test fail. *)
Definition process_event (wid : Z) (e : Event.RoomEvent) : M unit :=
  process_loop (S (length (Event.actions e))) wid e.

(** One iteration of the inner loop of [thread_main]: pop the front event and
    process it. [false] when the queue is empty. *)
Definition worker_step (wid : Z) : M bool :=
  let* this := get_worker wid in
  match event_queue_ this with
  | [] => ret false
  | e :: q =>
      put_worker wid (set_queue q this) ;;;
      process_event wid e ;;;
      ret true
  end.

(** The callback of a finished database job. *)
Definition run_callback (c : Event.Callback) (status : Event.DBStatus) (data : bytes)
    (draws : list Z) : M unit :=
  match c with
  | Event.NoCallback => ret tt
  | Event.DbCreateRoomOnResult e => db_create_room_on_result e status data draws
  | Event.DbLoadMessagesOnResult e => db_load_messages_on_result e status data
  end.

End RoomWorker.
End RoomWorker.
