(* ===== verification/Respects.v ===== *)
(** * Respects: relational reasoning about handlers

    A handler respects a relation when the world it ends in is related to the
    one it started from. The rules follow the structure of a handler down to
    its updates; Membership.v, Quiescence.v and Routing.v instantiate the
    relation. The second half is one instance they share: the handlers that
    leave the traffic of the server (queues, jobs, routes, which rooms exist,
    which connections are open) as it is. *)

From S2P Require Import Prelude Codec Wire Session User Room Event World RoomManager RoomWorker.

Module Respects.
Import Protocol World.

Create HintDb respects discriminated.

(** ** The rules *)

(** From worlds that satisfy [P], [m] ends in related ones. *)
Definition respects {A} (P : World -> Prop) (R : World -> World -> Prop) (m : M A) : Prop :=
  forall w a w', P w -> m w = Ok a w' -> R w w'.

Section Respects.
Context {P : World -> Prop} {R : World -> World -> Prop} {HR : PreOrder R}.

Lemma respects_ret {A} (a : A) : respects P R (ret a).
Proof using HR. intros w b w' _ [= _ <-]. reflexivity. Qed.

Lemma respects_gets {A} (f : World -> A) : respects P R (gets f).
Proof using HR. intros w b w' _ [= _ <-]. reflexivity. Qed.

Lemma respects_fault {A} f : respects (A := A) P R (fault f).
Proof. done. Qed.

Lemma respects_deref {A} e (o : option A) : respects P R (deref e o).
Proof using HR. destruct o; [apply respects_ret | apply respects_fault]. Qed.

Lemma respects_get_session s : respects P R (get_session s).
Proof using HR. intros w b w' _. unfold get_session. destruct (_ !! _); [| done]. intros [= _ <-]. reflexivity. Qed.

Lemma respects_get_worker wid : respects P R (get_worker wid).
Proof using HR. intros w b w' _. unfold get_worker. destruct (_ !! _); [| done]. intros [= _ <-]. reflexivity. Qed.

Lemma respects_modify f : (forall w, P w -> R w (f w)) -> respects P R (modify f).
Proof. intros H w b w' Hp [= _ <-]. by apply H. Qed.

Lemma respects_bind {A B} (m : M A) (f : A -> M B) :
  (forall w w', R w w' -> P w -> P w') ->
  respects P R m -> (forall a, respects P R (f a)) -> respects P R (bind m f).
Proof using HR.
  intros HP Hm Hf w b w' Hw H. unfold bind in H. destruct (m w) as [a w1 |] eqn:E; [| done].
  pose proof (Hm w a w1 Hw E) as H1. etransitivity; [exact H1 |]. by apply (Hf a w1 b w'); [apply (HP w) |].
Qed.

Lemma respects_for_each {A} (l : list A) (f : A -> M unit) :
  (forall w w', R w w' -> P w -> P w') -> (forall a, respects P R (f a)) -> respects P R (for_each l f).
Proof using HR.
  intros HP Hf. induction l as [| a l IH]; [apply respects_ret |]. by apply respects_bind.
Qed.
End Respects.

(** Walking through a handler up to the step that matters: what came before
    respects [R], so the world reached is related to the first one. *)
Lemma until_bind {A B} (R : World -> World -> Prop) {HR : PreOrder R} w0 (m : M A) (f : A -> M B) F Q w1 :
  R w0 w1 -> respects (fun _ => True) R m ->
  (forall g, F g) -> (forall a w2, R w0 w2 -> wp (f a) F Q w2) -> wp (bind m f) F Q w1.
Proof.
  intros H01 Hm HF Hf. apply wp_bind. unfold wp at 1. destruct (m w1) as [a w2 |] eqn:E; [| apply HF].
  apply Hf. etransitivity; [exact H01 |]. by apply (Hm w1 a w2).
Qed.

Lemma respects_weaken {A} P P' (R R' : World -> World -> Prop) (m : M A) :
  (forall w, P' w -> P w) -> (forall w w', R w w' -> R' w w') -> respects P R m -> respects P' R' m.
Proof. intros HP HR Hm w a w' Hp H. by apply HR, (Hm w a w'); [apply HP |]. Qed.

(** Anywhere. *)
Definition any (w : World) : Prop := True.
Lemma any_kept (R : World -> World -> Prop) w w' : R w w' -> any w -> any w'.
Proof. done. Qed.

#[export] Hint Resolve respects_ret respects_gets respects_fault respects_deref respects_get_session respects_get_worker any_kept : respects.
#[export] Hint Extern 1 (PreOrder _) => typeclasses eauto : respects.

(** The structure of a handler, down to its updates. *)
Ltac follow :=
  repeat first
    [ progress eauto with respects
    | apply respects_bind; [by eauto with respects | | intros ?]
    | case_decide
    | case_match ].

(** ** The traffic of the server *)

Definition queues (w : World) : gmap Z (list Event.RoomEvent) := event_queue_ <$> room_workers w.

(** Which rooms exist where, and the id each of them carries. *)
Definition room_ids (w : World) : gmap Z (gmap Z Z) :=
  (fun r => Room.room_id_ <$> rooms_ r) <$> room_workers w.

Definition traffic (w : World) :=
  (queues w, job_queue w, room_to_worker w, room_ids w, sessions w).

Definition same_traffic (w w' : World) : Prop := traffic w' = traffic w.

#[global] Instance same_traffic_preorder : PreOrder same_traffic.
Proof. split; [by intros w | intros w1 w2 w3 H1 H2; unfold same_traffic in *; congruence]. Qed.

Lemma queues_set_queue wid r q w :
  room_workers w !! wid = Some r ->
  queues (set_workers (<[wid := set_queue q r]> (room_workers w)) w) = <[wid := q]> (queues w).
Proof. intros _. unfold queues. cbn. by rewrite fmap_insert. Qed.

Lemma room_ids_set_queue wid r q w :
  room_workers w !! wid = Some r ->
  room_ids (set_workers (<[wid := set_queue q r]> (room_workers w)) w) = room_ids w.
Proof.
  intros Hr. unfold room_ids. cbn. rewrite fmap_insert. apply insert_id. by rewrite lookup_fmap, Hr.
Qed.

Lemma queues_set_rooms wid r rs w :
  room_workers w !! wid = Some r ->
  queues (set_workers (<[wid := set_rooms rs r]> (room_workers w)) w) = queues w.
Proof.
  intros Hr. unfold queues. cbn. rewrite fmap_insert. apply insert_id. by rewrite lookup_fmap, Hr.
Qed.

Lemma room_ids_set_rooms wid r rs w :
  room_ids (set_workers (<[wid := set_rooms rs r]> (room_workers w)) w) =
  <[wid := Room.room_id_ <$> rs]> (room_ids w).
Proof. unfold room_ids. cbn. by rewrite fmap_insert. Qed.

Lemma queues_lookup w wid r : room_workers w !! wid = Some r -> queues w !! wid = Some (event_queue_ r).
Proof. intros H. unfold queues. by rewrite lookup_fmap, H. Qed.

Lemma room_ids_lookup w wid r :
  room_workers w !! wid = Some r -> room_ids w !! wid = Some (Room.room_id_ <$> rooms_ r).
Proof. intros H. unfold room_ids. by rewrite lookup_fmap, H. Qed.

Section Handlers.
Context {Indet : Indeterminate} {SService : IServerService}.

Abbreviation idle m := (respects any same_traffic m).

Lemma idle_set_users f : idle (modify (fun w => set_users (f w) w)).
Proof. by apply respects_modify. Qed.
Lemma idle_put_session sid o : idle (put_session sid o).
Proof. by apply respects_modify. Qed.
Lemma idle_enable fd : idle (request_enable_epollout fd).
Proof. intros w a w' _. rewrite enable_queues. by intros [= _ <-]. Qed.
Lemma idle_disable fd : idle (request_disable_epollout fd).
Proof. intros w a w' _. rewrite disable_queues. by intros [= _ <-]. Qed.
Lemma idle_close fd : idle (request_close_session fd).
Proof. intros w a w' _. rewrite close_queues. by intros [= _ <-]. Qed.

#[local] Hint Resolve idle_set_users idle_put_session idle_enable idle_disable idle_close : respects.

Lemma idle_session_fd s : idle (session_fd s).
Proof. unfold session_fd. follow. Qed.
Lemma idle_get_rooms wid : idle (get_rooms wid).
Proof. unfold get_rooms. follow. Qed.
Lemma idle_current_room e : idle (RoomWorker.current_room e).
Proof. unfold RoomWorker.current_room. follow. Qed.

#[local] Hint Resolve idle_session_fd idle_get_rooms idle_current_room : respects.

Lemma idle_send_packet session data : idle (RoomWorker.send_packet session data).
Proof. unfold RoomWorker.send_packet. follow. Qed.
Lemma idle_flush session : idle (RoomWorker.flush session).
Proof. unfold RoomWorker.flush. follow. Qed.

#[local] Hint Resolve idle_send_packet idle_flush : respects.

Lemma idle_send_response e : idle (RoomWorker.send_response e).
Proof. unfold RoomWorker.send_response. follow. Qed.

Lemma idle_send_message wid e : idle (RoomWorker.send_message wid e).
Proof.
  unfold RoomWorker.send_message. follow. apply respects_for_each; [done |]. intros p.
  unfold RoomWorker.broadcast_to. follow.
Qed.

(** Replacing a room by one with the same id. *)
Lemma traffic_same_rooms wid r k room room' w :
  room_workers w !! wid = Some r -> rooms_ r !! k = Some room -> Room.room_id_ room' = Room.room_id_ room ->
  same_traffic w (set_workers (<[wid := set_rooms (<[k := room']> (rooms_ r)) r]> (room_workers w)) w).
Proof.
  intros Hr Hk E. unfold same_traffic, traffic. rewrite queues_set_rooms, room_ids_set_rooms by done. cbn.
  rewrite fmap_insert, (insert_id (Room.room_id_ <$> rooms_ r)) by (by rewrite lookup_fmap, Hk, E).
  by rewrite insert_id by by apply room_ids_lookup.
Qed.

Lemma idle_join_room wid e : idle (RoomWorker.join_room wid e).
Proof.
  unfold RoomWorker.join_room. apply respects_bind; [done | eauto with respects |]. intros k w a w' _.
  unfold RoomWorker.join_room_session, get_rooms, get_worker, bind at 1, ret. unfold bind at 1.
  destruct (room_workers w !! wid) as [r |] eqn:Hr; [| done].
  destruct (rooms_ r !! k) as [room |] eqn:Hk; [| by intros [= _ <-]].
  unfold session_fd, deref, get_session, bind, ret. destruct (Event.session e) as [sid |]; [| done].
  destruct (heap w !! sid) as [o |] eqn:Ho; [| done].
  destruct (Room.join_session _ _ _) as [b room'] eqn:Ej. destruct b; [| by intros [= _ <-]].
  unfold put_rooms, get_worker, put_worker, bind, modify. rewrite Hr. intros H.
  etransitivity; [apply (traffic_same_rooms wid r k room room' w Hr Hk) |].
  - unfold Room.join_session in Ej. case_decide; [done | by injection Ej as <-].
  - unfold gets in H. by destruct (User.get_user _ _); injection H as _ <-.
Qed.

End Handlers.

#[export] Hint Resolve idle_set_users idle_put_session idle_enable idle_disable idle_close idle_session_fd
  idle_get_rooms idle_current_room idle_send_packet idle_flush idle_send_response idle_send_message
  idle_join_room : respects.

End Respects.
