(* ===== verification/Invariant.v ===== *)
(** * Invariant: well-formed worlds and how the primitive updates keep them

    [inv] is the global invariant of the server: every reference points to an
    object, the tables agree with each other, every room respects its capacity
    and every event in flight can be executed without reading past its actions
    or through a null session. This file proves that each primitive update of
    the world keeps [inv]; RoomWorkerSafe.v and Server.v compose the updates. *)

From S2P Require Import Prelude Wire Session User Room Event World RoomManager.

Module Invariant.
Import Protocol World.

Abbreviation Heap := (gmap Room.Sid Session.Session).

(** ** The parts, relative to the heap of sessions *)

(** [sid] is the object of the connection [fd]. *)
Definition sess_ref (h : Heap) (fd : Z) (sid : Room.Sid) : Prop :=
  exists o, h !! sid = Some o /\ Session.fd o = fd.

Definition room_ok (h : Heap) (wid k : Z) (room : Room.Room) : Prop :=
  Room.room_id_ room = k /\ Room.room_wf room /\
  (Room.max_sessions_ room = 5 \/
   wid = 1 /\ k = 1 /\ Room.max_sessions_ room = RoomManager.MAX_LOBBY_SESSIONS) /\
  map_Forall (sess_ref h) (Room.sessions_ room).

(** An event can run: its cursor is inside its actions, it has a session
    unless it is a disconnection, and it does not start with CREATE_ROOM. *)
Definition event_ok (h : Heap) (e : Event.RoomEvent) : Prop :=
  (length (Event.actions e) <= 10)%nat /\
  (Event.current_action e <= length (Event.actions e))%nat /\
  (forall a, Event.actions e !! 0%nat = Some a -> Event.command a <> Event.CREATE_ROOM) /\
  match Event.session e with
  | Some sid => is_Some (h !! sid)
  | None => Forall (fun a => Event.command a = Event.DISCONNECT_SESSION) (Event.actions e) /\
            Event.result_code e = None_
  end.

(** The same once an action has been fetched: the handlers read it back
    through [current_action - 1], and only sessions' events get this far. *)
Definition running_ok (h : Heap) (e : Event.RoomEvent) : Prop :=
  event_ok h e /\ (0 < Event.current_action e)%nat /\ Event.session e <> None.

Definition job_ok (h : Heap) (j : Event.DBJob) : Prop :=
  forall e, Event.callback_event (Event.on_result j) = Some e -> running_ok h e.

(** Worker 1 is the lobby's, the others are ordinary. *)
Definition worker_type (wid : Z) : WorkerType := if decide (wid = 1) then WLobby else WRoom.

Definition worker_ok (h : Heap) (wid : Z) (r : RoomWorker) : Prop :=
  type_ r = worker_type wid /\
  map_Forall (room_ok h wid) (rooms_ r) /\
  (wid = 1 -> is_Some (rooms_ r !! RoomManager.LOBBY_ROOM_ID)) /\
  Forall (event_ok h) (event_queue_ r).

Record inv (w : World) : Prop := {
  i_users : User.um_wf (user_manager w);
  i_sessions : map_Forall (sess_ref (heap w)) (sessions w);
  i_coherent : forall fd, is_Some (sessions w !! fd) <->
                          is_Some (User.fd_to_user_id_ (user_manager w) !! fd);
  i_ids : forall wid, 1 <= wid <= Z.max 1 (room_worker_num w) -> is_Some (room_workers w !! wid);
  i_workers : map_Forall (worker_ok (heap w)) (room_workers w);
  i_route : map_Forall (fun _ wid => wid <> 0 /\ is_Some (room_workers w !! wid)) (room_to_worker w);
  i_total : forall uid, is_Some (User.users_ (user_manager w) !! uid) -> uid <= total_users w;
  i_jobs : Forall (job_ok (heap w)) (job_queue w);
  i_sending : map_Forall (fun _ o => Session.sending_ o = false) (heap w) }.

(** ** Evolution of the heap: objects stay, and keep their descriptor. *)

Definition heap_le (h h' : Heap) : Prop :=
  forall sid o, h !! sid = Some o -> exists o', h' !! sid = Some o' /\ Session.fd o' = Session.fd o.

#[global] Instance heap_le_preorder : PreOrder heap_le.
Proof.
  split.
  - intros h sid o H. eauto.
  - intros h1 h2 h3 H12 H23 sid o H. destruct (H12 _ _ H) as (o2 & H2 & E2).
    destruct (H23 _ _ H2) as (o3 & H3 & E3). exists o3. split; [done | congruence].
Qed.

Lemma heap_le_insert h sid o o' :
  h !! sid = Some o -> Session.fd o' = Session.fd o -> heap_le h (<[sid := o']> h).
Proof.
  intros H E sid' o1 H1. destruct (decide (sid = sid')) as [-> | Hne].
  - exists o'. rewrite lookup_insert_eq. split; [done |]. congruence.
  - exists o1. by rewrite lookup_insert_ne.
Qed.

Lemma heap_le_insert_new h sid o : h !! sid = None -> heap_le h (<[sid := o]> h).
Proof.
  intros H sid' o1 H1. exists o1. rewrite lookup_insert_ne; [done |]. intros ->. congruence.
Qed.

Lemma heap_le_is_Some h h' sid : heap_le h h' -> is_Some (h !! sid) -> is_Some (h' !! sid).
Proof. intros Hle [o Ho]. destruct (Hle _ _ Ho) as (o' & -> & _). eauto. Qed.

Section mono.
Context {h h' : Heap} (Hle : heap_le h h').

Lemma sess_ref_mono fd sid : sess_ref h fd sid -> sess_ref h' fd sid.
Proof using Hle. intros (o & Ho & E). destruct (Hle _ _ Ho) as (o' & Ho' & E'). exists o'.
  split; [done | congruence]. Qed.

Lemma room_ok_mono wid k room : room_ok h wid k room -> room_ok h' wid k room.
Proof using Hle.
  intros (H1 & H2 & H3 & H4). split_and!; try done.
  intros fd sid H. by apply sess_ref_mono, H4.
Qed.

Lemma event_ok_mono e : event_ok h e -> event_ok h' e.
Proof using Hle.
  intros (H1 & H2 & H3 & H4). split_and!; try done.
  destruct (Event.session e); [| done]. by eapply heap_le_is_Some.
Qed.

Lemma running_ok_mono e : running_ok h e -> running_ok h' e.
Proof using Hle. intros (H1 & H2). split; [by apply event_ok_mono | done]. Qed.

Lemma job_ok_mono j : job_ok h j -> job_ok h' j.
Proof using Hle. intros H e He. by apply running_ok_mono, H. Qed.

Lemma worker_ok_mono wid r : worker_ok h wid r -> worker_ok h' wid r.
Proof using Hle.
  intros (H1 & H2 & H3 & H4). split_and!; try done.
  - intros k room H. by apply room_ok_mono, H2.
  - eapply Forall_impl; [exact H4 |]. intros e. apply event_ok_mono.
Qed.
End mono.

(** What a handler may do to the world besides keeping [inv]. *)
Definition evolves (w w' : World) : Prop :=
  heap_le (heap w) (heap w') /\
  (forall wid, is_Some (room_workers w !! wid) -> is_Some (room_workers w' !! wid)) /\
  room_worker_num w' = room_worker_num w.

#[global] Instance evolves_preorder : PreOrder evolves.
Proof.
  split.
  - intros w. split_and!; [reflexivity | done | done].
  - intros w1 w2 w3 (H1 & H2 & H3) (G1 & G2 & G3). split_and!; [| naive_solver | congruence].
    by transitivity (heap w2).
Qed.

(** ** Primitive updates *)

Lemma inv_heap w h :
  inv w -> heap_le (heap w) h -> map_Forall (fun _ o => Session.sending_ o = false) h ->
  inv (set_heap h w) /\ evolves w (set_heap h w).
Proof.
  intros [] Hle Hs. split; [| by split_and!]. split; simpl; try done.
  - intros fd sid H. by eapply sess_ref_mono, i_sessions0.
  - intros wid r H. by eapply worker_ok_mono, i_workers0.
  - eapply Forall_impl; [done |]. intros j. by apply job_ok_mono.
Qed.

(** Replacing a session object by one with the same descriptor. *)
Lemma inv_put_session w sid o o' :
  inv w -> heap w !! sid = Some o -> Session.fd o' = Session.fd o ->
  Session.sending_ o' = false ->
  inv (set_heap (<[sid := o']> (heap w)) w) /\ evolves w (set_heap (<[sid := o']> (heap w)) w).
Proof.
  intros Hw Ho Hfd Hs. apply inv_heap; [done | by eapply heap_le_insert |].
  apply map_Forall_insert_2; [done |]. apply (i_sending _ Hw).
Qed.

Lemma inv_put_worker w wid r r' :
  inv w -> room_workers w !! wid = Some r -> worker_ok (heap w) wid r' ->
  inv (set_workers (<[wid := r']> (room_workers w)) w) /\
  evolves w (set_workers (<[wid := r']> (room_workers w)) w).
Proof.
  intros [] Hr Hok.
  assert (Hdom : forall wid', is_Some (room_workers w !! wid') ->
                 is_Some (<[wid := r']> (room_workers w) !! wid')).
  { intros wid' H. destruct (decide (wid = wid')) as [-> | Hne].
    - rewrite lookup_insert_eq. eauto.
    - by rewrite lookup_insert_ne. }
  split; [| split_and!; [reflexivity | done | done]]. split; simpl; try done.
  - intros wid' H. by apply Hdom, i_ids0.
  - by apply map_Forall_insert_2.
  - intros room wid' H. destruct (i_route0 _ _ H). eauto.
Qed.

Lemma inv_put_rooms w wid r rs :
  inv w -> room_workers w !! wid = Some r -> map_Forall (room_ok (heap w) wid) rs ->
  (wid = 1 -> is_Some (rs !! RoomManager.LOBBY_ROOM_ID)) ->
  inv (set_workers (<[wid := set_rooms rs r]> (room_workers w)) w) /\
  evolves w (set_workers (<[wid := set_rooms rs r]> (room_workers w)) w).
Proof.
  intros Hw Hr Hrs Hl. eapply inv_put_worker; [done.. |].
  destruct (i_workers _ Hw _ _ Hr) as (H1 & H2 & H3 & H4). by split_and!.
Qed.

Lemma inv_post_event w wid r e :
  inv w -> room_workers w !! wid = Some r -> event_ok (heap w) e ->
  inv (set_workers (<[wid := set_queue (event_queue_ r ++ [e]) r]> (room_workers w)) w) /\
  evolves w (set_workers (<[wid := set_queue (event_queue_ r ++ [e]) r]> (room_workers w)) w).
Proof.
  intros Hw Hr He. eapply inv_put_worker; [done.. |].
  destruct (i_workers _ Hw _ _ Hr) as (H1 & H2 & H3 & H4). split_and!; try done.
  simpl. apply Forall_app. by split; [| constructor].
Qed.

Lemma inv_users w um :
  inv w -> User.um_wf um ->
  (forall fd, is_Some (sessions w !! fd) <-> is_Some (User.fd_to_user_id_ um !! fd)) ->
  (forall uid, is_Some (User.users_ um !! uid) -> uid <= total_users w) ->
  inv (set_users um w) /\ evolves w (set_users um w).
Proof. intros [] Hum Hc Ht. split; [| by split_and!]. by split. Qed.

Lemma inv_set_room w fd room_id :
  inv w ->
  inv (set_users (User.user_set_room fd room_id (user_manager w)) w) /\
  evolves w (set_users (User.user_set_room fd room_id (user_manager w)) w).
Proof.
  intros Hw. apply inv_users; [done | apply User.um_wf_set_room, (i_users _ Hw) | |].
  - intros fd'. rewrite User.fd_map_set_room. apply (i_coherent _ Hw).
  - intros uid Hu. apply User.users_dom_set_room in Hu. by apply (i_total _ Hw).
Qed.

Lemma inv_erase_route w room_id :
  inv w ->
  inv (set_room_to_worker (delete room_id (room_to_worker w)) w) /\
  evolves w (set_room_to_worker (delete room_id (room_to_worker w)) w).
Proof.
  intros []. split; [| by split_and!]. split; simpl; try done. by apply map_Forall_delete.
Qed.

Lemma inv_bind_route w room_id wid :
  inv w -> wid <> 0 -> is_Some (room_workers w !! wid) ->
  inv (set_room_to_worker (emplace room_id wid (room_to_worker w)) w) /\
  evolves w (set_room_to_worker (emplace room_id wid (room_to_worker w)) w).
Proof.
  intros [] Hnz Hwid. split; [| by split_and!]. split; simpl; try done.
  unfold emplace. destruct (_ !! room_id); [done |]. by apply map_Forall_insert_2.
Qed.

Lemma inv_post_job w j :
  inv w -> job_ok (heap w) j ->
  inv (set_jobs (job_queue w ++ [j]) w) /\ evolves w (set_jobs (job_queue w ++ [j]) w).
Proof.
  intros [] Hj. split; [| by split_and!]. split; simpl; try done.
  apply Forall_app. by split; [| constructor].
Qed.

Lemma inv_push_main w e : inv w -> inv (push_main e w) /\ evolves w (push_main e w).
Proof. intros []. split; [| by split_and!]. by split. Qed.

Lemma inv_set_main w l : inv w -> inv (set_main l w) /\ evolves w (set_main l w).
Proof. intros []. split; [| by split_and!]. by split. Qed.

Lemma inv_set_jobs w l :
  inv w -> Forall (job_ok (heap w)) l -> inv (set_jobs l w) /\ evolves w (set_jobs l w).
Proof. intros [] Hl. split; [| by split_and!]. by split. Qed.

Lemma inv_set_epoll w l : inv w -> inv (set_epoll l w) /\ evolves w (set_epoll l w).
Proof. intros []. split; [| by split_and!]. by split. Qed.

Lemma inv_set_total w n :
  inv w -> total_users w <= n -> inv (set_total n w) /\ evolves w (set_total n w).
Proof.
  intros [] Hn. split; [| by split_and!]. split; try done. simpl.
  intros uid Hu. specialize (i_total0 uid Hu). lia.
Qed.

(** ** Safe handlers

    [safe P m]: from a well-formed world where [P] holds, [m] does not fault
    and leaves a well-formed world that evolved from the first. [P] is a fact
    about references and stays true as the world evolves. *)

Definition stable (P : World -> Prop) : Prop := forall w w', evolves w w' -> P w -> P w'.

Definition safe_ex (F : Fault -> Prop) (P : World -> Prop) {A} (m : M A) : Prop :=
  forall w, inv w -> P w -> wp m F (fun _ w' => inv w' /\ evolves w w') w.

Abbreviation safe P m := (safe_ex no_fault P m).

Section safe.
Context {F : Fault -> Prop}.

Lemma safe_ret {A} P (a : A) : safe_ex F P (ret a).
Proof. intros w Hw HP. by apply wp_ret. Qed.

Lemma safe_bind {A B} P (m : M A) (f : A -> M B) :
  stable P -> safe_ex F P m -> (forall a, safe_ex F P (f a)) -> safe_ex F P (bind m f).
Proof.
  intros HPs Hm Hf w Hw HP. apply wp_bind. eapply wp_mono; [by apply Hm |].
  intros a w' [Hw' Hev]. eapply wp_mono; [apply Hf; [done | by eapply HPs] |].
  intros b w'' [Hw'' Hev']. split; [done |]. by transitivity w'.
Qed.

Lemma safe_weaken {A} (P Q : World -> Prop) (m : M A) :
  (forall w, inv w -> P w -> Q w) -> safe_ex F Q m -> safe_ex F P m.
Proof. intros HPQ Hm w Hw HP. by apply Hm, HPQ. Qed.

(** Reading: the continuation may use what was read and the world it came from. *)
Lemma safe_gets {A B} P (f : World -> A) (k : A -> M B) :
  (forall w, inv w -> P w ->
     wp (k (f w)) F (fun _ w' => inv w' /\ evolves w w') w) ->
  safe_ex F P (bind (gets f) k).
Proof. intros Hk w Hw HP. apply wp_bind, wp_gets. by apply Hk. Qed.

Lemma safe_modify P (f : World -> World) :
  (forall w, inv w -> P w -> inv (f w) /\ evolves w (f w)) -> safe_ex F P (modify f).
Proof. intros Hf w Hw HP. by apply wp_modify, Hf. Qed.

Lemma safe_if {A} P (b : Prop) `{Decision b} (m1 m2 : M A) :
  safe_ex F P m1 -> safe_ex F P m2 -> safe_ex F P (if decide b then m1 else m2).
Proof. intros H1 H2. by case_decide. Qed.

Lemma safe_for_each {A} P (l : list A) (f : A -> M unit) :
  stable P -> (forall a, a ∈ l -> safe_ex F P (f a)) -> safe_ex F P (for_each l f).
Proof.
  intros HPs. induction l as [| a l IH]; intros Hf; simpl; [apply safe_ret |].
  apply safe_bind; [done | apply Hf; constructor |]. intros _. apply IH.
  intros a' Ha'. apply Hf. by constructor.
Qed.
End safe.

(** The facts used as [P]. *)
Definition event_fact (e : Event.RoomEvent) (w : World) : Prop := event_ok (heap w) e.
Definition running_fact (e : Event.RoomEvent) (w : World) : Prop := running_ok (heap w) e.
Definition worker_fact (wid : Z) (w : World) : Prop := is_Some (room_workers w !! wid).
Definition session_fact (sid : Room.Sid) (w : World) : Prop := is_Some (heap w !! sid).

Lemma stable_event e : stable (event_fact e).
Proof. intros w w' (H & _) He. by eapply event_ok_mono. Qed.
Lemma stable_running e : stable (running_fact e).
Proof. intros w w' (H & _) He. by eapply running_ok_mono. Qed.
Lemma stable_worker wid : stable (worker_fact wid).
Proof. intros w w' (_ & H & _) Hw. by apply H. Qed.
Lemma stable_session sid : stable (session_fact sid).
Proof. intros w w' (H & _) Hs. by eapply heap_le_is_Some. Qed.
Lemma stable_and P Q : stable P -> stable Q -> stable (fun w => P w /\ Q w).
Proof. intros HP HQ w w' Hev [? ?]. split; eauto. Qed.
Lemma stable_True : stable (fun _ => True).
Proof. done. Qed.

#[global] Hint Resolve stable_event stable_running stable_worker stable_session stable_and
  stable_True : chat.

End Invariant.
