(* ===== verification/RoomWorkerSafe.v ===== *)
(** * RoomWorkerSafe: the worker's handlers keep the invariant and never fault

    Every operation of RoomManager.v and RoomWorker.v, run in a well-formed
    world on an event that is [event_ok], returns without a fault (no null or
    dangling session, no missing worker, no read past the action list) and
    leaves a well-formed world. The proofs use only the [IServerService]
    interface, whatever implements it. *)

From S2P Require Import Prelude Codec Wire Session User Room Event World RoomManager RoomWorker.
From S2P Require Import Invariant.

Module RoomWorkerSafe.
Import Protocol World Invariant.

Section Safe.
Context {Indet : Indeterminate} {SService : IServerService} {F : Fault -> Prop}.

(** ** RoomManager *)

Lemma post_event_safe wid e :
  safe_ex F (fun w => worker_fact wid w /\ event_fact e w) (post_event wid e).
Proof.
  intros w Hw [[r Hr] He]. unfold post_event. apply wp_bind.
  eapply wp_get_worker; [done |]. apply wp_modify. by apply inv_post_event.
Qed.

(** A named worker, or the table's worker for the event's room, exists. *)
Lemma route_event_safe e t :
  safe_ex F (fun w => event_fact e w /\ (t <> 0 -> worker_fact t w)) (RoomManager.route_event e t).
Proof.
  intros w Hw [He Ht]. unfold RoomManager.route_event. apply wp_bind.
  assert (Hwid : wp (if decide (t = 0) then RoomManager.find_worker (Event.target_room_id e)
                     else ret t) F
            (fun wid w' => w' = w /\ (wid <> 0 -> worker_fact wid w)) w).
  { case_decide; [| by apply wp_ret; auto]. apply wp_gets. split; [done |].
    destruct (room_to_worker w !! _) as [wid |] eqn:E; [| done].
    intros _. apply (i_route _ Hw _ _ E). }
  eapply wp_mono; [exact Hwid |]. clear Hwid. intros wid w' [-> Hf]. case_decide; [by apply wp_ret |].
  apply wp_bind. eapply wp_mono; [apply post_event_safe; auto |]. by auto with chat.
Qed.

Lemma route_event_0_safe e : safe_ex F (event_fact e) (RoomManager.route_event e 0).
Proof. eapply safe_weaken; [| apply route_event_safe]. done. Qed.

Lemma erase_safe P room_id : safe_ex F P (RoomManager.erase_room_to_worker room_id).
Proof. apply safe_modify. intros w Hw _. by apply inv_erase_route. Qed.

(** ** Sessions *)

Lemma main_request_safe P (m : M unit) (t : Z -> Event.MainEvent) fd :
  (forall w, m w = Ok tt (push_main (t fd) w)) -> safe_ex F P m.
Proof. intros E w Hw _. eapply wp_ok; [apply E |]. by apply inv_push_main. Qed.

Lemma request_enable_safe P fd : safe_ex F P (request_enable_epollout fd).
Proof. apply (main_request_safe _ _ (Event.mkMainEvent Event.EnableEpollOut) fd), enable_queues. Qed.
Lemma request_disable_safe P fd : safe_ex F P (request_disable_epollout fd).
Proof. apply (main_request_safe _ _ (Event.mkMainEvent Event.DisalbeEpollOut) fd), disable_queues. Qed.
Lemma request_close_safe P fd : safe_ex F P (request_close_session fd).
Proof. apply (main_request_safe _ _ (Event.mkMainEvent Event.Disconnect) fd), close_queues. Qed.

(** Storing a session that [flush] returned. *)
Lemma put_flushed_safe w sid o r o' (k : M unit) :
  inv w -> heap w !! sid = Some o -> Session.fd o' = Session.fd o ->
  Session.sending_ o' = false -> safe_ex F (fun _ => True) k ->
  wp (put_session sid o' ;;; (fun _ : Session.FlushResult => k) r) F
    (fun _ w' => inv w' /\ evolves w w') w.
Proof.
  intros Hw Ho Hfd Hs Hk. apply wp_bind, wp_modify.
  destruct (inv_put_session w sid o o' Hw Ho Hfd Hs) as [Hw' Hev].
  eapply wp_mono; [by apply Hk |]. intros a w'' [? ?]. split; [done |]. by etransitivity.
Qed.

Lemma send_packet_safe sid data :
  safe_ex F (session_fact sid) (RoomWorker.send_packet (Some sid) data).
Proof.
  intros w Hw [o Ho]. unfold RoomWorker.send_packet. apply wp_bind, wp_ret, wp_bind.
  eapply wp_get_session; [done |].
  destruct (Session.flush (Session.pack data o)) as [r o'] eqn:E.
  pose proof (Session.flush_frame _ _ _ E) as (Hfd & _).
  apply Session.flush_stream in E as (_ & Hs & _); [| apply (i_sending _ Hw _ _ Ho)].
  apply (put_flushed_safe w sid o r); [done.. |].
  destruct r; [apply safe_ret | apply request_enable_safe | apply request_close_safe].
Qed.

Lemma flush_safe sid : safe_ex F (session_fact sid) (RoomWorker.flush (Some sid)).
Proof.
  intros w Hw [o Ho]. unfold RoomWorker.flush. apply wp_bind, wp_ret, wp_bind.
  eapply wp_get_session; [done |]. destruct (Session.flush o) as [r o'] eqn:E.
  pose proof (Session.flush_frame _ _ _ E) as (Hfd & _).
  apply Session.flush_stream in E as (_ & Hs & _); [| apply (i_sending _ Hw _ _ Ho)].
  apply (put_flushed_safe w sid o r); [done.. |].
  destruct r; [apply request_disable_safe | apply safe_ret | apply request_close_safe].
Qed.

(** An event with a session has one in the heap. *)
Lemma event_session h e sid :
  event_ok h e -> Event.session e = Some sid -> is_Some (h !! sid).
Proof. intros (_ & _ & _ & H) E. by rewrite E in H. Qed.

Lemma send_response_safe e :
  Event.session e <> None -> safe_ex F (event_fact e) (RoomWorker.send_response e).
Proof.
  intros Hs. destruct (Event.session e) as [sid |] eqn:E; [| done].
  unfold RoomWorker.send_response. apply safe_gets. intros w Hw He. rewrite E.
  apply send_packet_safe; [done |]. by eapply event_session.
Qed.

(** ** Reading the event *)

Lemma wp_current_room e w Q :
  running_ok (heap w) e -> (forall room_id, Q room_id w) ->
  wp (RoomWorker.current_room e) F Q w.
Proof.
  intros (Hok & Hpos & _) HQ. unfold RoomWorker.current_room. apply wp_bind.
  destruct Hok as (_ & Hle & _).
  destruct (Event.actions e !! pred (Event.current_action e)) as [a |] eqn:E.
  - apply wp_ret. by apply wp_ret.
  - apply lookup_ge_None in E. lia.
Qed.

Lemma wp_event_fd e w Q :
  running_ok (heap w) e ->
  (forall sid o, Event.session e = Some sid -> heap w !! sid = Some o -> Q (Session.fd o) w) ->
  wp (session_fd (Event.session e)) F Q w.
Proof.
  intros ((_ & _ & _ & Hs) & _ & Hn) HQ. destruct (Event.session e) as [sid |] eqn:E; [| done].
  destruct Hs as [o Ho]. eapply wp_session_fd; [done |]. by eapply HQ.
Qed.

Lemma wp_get_rooms wid r w Q :
  room_workers w !! wid = Some r -> Q (rooms_ r) w -> wp (get_rooms wid) F Q w.
Proof. intros Hr HQ. apply wp_bind. eapply wp_get_worker; [done |]. by apply wp_ret. Qed.

Lemma wp_put_rooms wid r rs w Q :
  room_workers w !! wid = Some r ->
  Q tt (set_workers (<[wid := set_rooms rs r]> (room_workers w)) w) ->
  wp (put_rooms wid rs) F Q w.
Proof. intros Hr HQ. apply wp_bind. eapply wp_get_worker; [done |]. by apply wp_modify. Qed.

(** ** Room operations *)

Lemma create_room_safe wid e :
  safe_ex F (fun w => worker_fact wid w /\ running_fact e w) (RoomWorker.create_room wid e 5).
Proof.
  intros w Hw [[r Hr] He]. unfold RoomWorker.create_room. apply wp_bind.
  apply wp_current_room; [done |]. intros room_id. apply wp_bind.
  eapply wp_get_rooms; [done |]. destruct (rooms_ r !! room_id) as [room |] eqn:E.
  - by apply wp_ret.
  - apply wp_bind. eapply wp_put_rooms; [done |]. apply wp_ret.
    destruct (i_workers _ Hw _ _ Hr) as (_ & Hrs & Hl & _). apply inv_put_rooms; [done.. | |].
    + apply map_Forall_insert_2; [| done]. split_and!; [done | | by left |].
      * apply Room.new_room_wf. lia.
      * apply map_Forall_empty.
    + intros ->. apply lookup_insert_is_Some'. right. by apply Hl.
Qed.

Lemma room_ok_join h wid k fd sid room room' b :
  room_ok h wid k room -> sess_ref h fd sid ->
  Room.join_session fd sid room = (b, room') -> room_ok h wid k room'.
Proof.
  intros (H1 & H2 & H3 & H4) Hs E. pose proof (Room.join_session_wf fd sid room H2) as Hwf.
  rewrite E in Hwf. unfold Room.join_session in E. case_decide; inv E; [done |].
  split_and!; try done. simpl. unfold emplace. destruct (_ !! fd); [done |].
  by apply map_Forall_insert_2.
Qed.

Lemma room_ok_exit h wid k fd room room' b :
  room_ok h wid k room -> Room.exit_session fd room = (b, room') -> room_ok h wid k room'.
Proof.
  intros (H1 & H2 & H3 & H4) E. pose proof (Room.exit_session_wf fd room H2) as Hwf.
  rewrite E in Hwf. unfold Room.exit_session in E. case_match; inv E; [| done].
  split_and!; try done. simpl. by apply map_Forall_delete.
Qed.

Lemma join_room_session_safe wid sid room_id :
  safe_ex F (fun w => worker_fact wid w /\ session_fact sid w)
    (RoomWorker.join_room_session wid (Some sid) room_id).
Proof.
  intros w Hw [[r Hr] [o Ho]]. unfold RoomWorker.join_room_session. apply wp_bind.
  eapply wp_get_rooms; [done |]. destruct (rooms_ r !! room_id) as [room |] eqn:E; [| by apply wp_ret].
  apply wp_bind. eapply wp_session_fd; [done |]. apply wp_bind, wp_ret.
  destruct (i_workers _ Hw _ _ Hr) as (_ & Hrs & Hl & _).
  destruct (Room.join_session _ sid room) as [b room'] eqn:Ej.
  assert (Hok : room_ok (heap w) wid room_id room').
  { eapply room_ok_join; [by apply Hrs | | done]. by exists o. }
  destruct b; [| by apply wp_ret]. apply wp_bind. eapply wp_put_rooms; [done |].
  assert (Hput : inv (set_workers (<[wid := set_rooms (<[room_id := room']> (rooms_ r)) r]>
                                     (room_workers w)) w) /\
    evolves w (set_workers (<[wid := set_rooms (<[room_id := room']> (rooms_ r)) r]>
                              (room_workers w)) w)).
  { apply inv_put_rooms; [done | done | by apply map_Forall_insert_2 |].
    intros ->. apply lookup_insert_is_Some'. right. by apply Hl. }
  destruct Hput as [Hw' Hev]. apply wp_bind, wp_gets.
  destruct (User.get_user _ _) as [u |]; [| by apply wp_ret].
  apply wp_bind, wp_modify, wp_ret. destruct (inv_set_room _ (Session.fd o) room_id Hw') as [? ?].
  split; [done |]. by etransitivity.
Qed.

Lemma join_room_safe wid e :
  safe_ex F (fun w => worker_fact wid w /\ running_fact e w) (RoomWorker.join_room wid e).
Proof.
  intros w Hw [Hr He]. unfold RoomWorker.join_room. apply wp_bind.
  apply wp_current_room; [done |]. intros room_id.
  destruct He as ((_ & _ & _ & Hs) & _ & Hn). destruct (Event.session e) as [sid |]; [| done].
  by apply join_room_session_safe.
Qed.

Lemma leave_room_fd_safe wid fd room_id :
  safe_ex F (worker_fact wid) (RoomWorker.leave_room_fd wid fd room_id).
Proof.
  intros w Hw [r Hr]. unfold RoomWorker.leave_room_fd. apply wp_bind.
  eapply wp_get_rooms; [done |]. destruct (rooms_ r !! room_id) as [room |] eqn:E; [| by apply wp_ret].
  destruct (i_workers _ Hw _ _ Hr) as (Ht & Hrs & Hl & _).
  destruct (Room.exit_session fd room) as [b room'] eqn:Ee.
  assert (Hok : room_ok (heap w) wid room_id room') by (eapply room_ok_exit; [by apply Hrs | done]).
  destruct b; [| by apply wp_ret]. apply wp_bind. eapply wp_put_rooms; [done |].
  set (w1 := set_workers _ w).
  assert (Hput : inv w1 /\ evolves w w1).
  { apply inv_put_rooms; [done | done | by apply map_Forall_insert_2 |].
    intros ->. apply lookup_insert_is_Some'. right. by apply Hl. }
  destruct Hput as [Hw1 Hev1].
  assert (Hr1 : room_workers w1 !! wid = Some (set_rooms (<[room_id := room']> (rooms_ r)) r)).
  { apply lookup_insert_eq. }
  apply wp_bind. eapply wp_get_worker; [done |]. apply wp_bind.
  case_decide as Hempty; [| by apply wp_ret, wp_ret].
  apply wp_bind, wp_modify.
  destruct (inv_erase_route w1 (Room.room_id_ room') Hw1) as [Hw2 Hev2].
  eapply wp_put_rooms; [exact Hr1 |]. apply wp_ret.
  edestruct (inv_put_rooms _ wid _ (delete (Room.room_id_ room') (<[room_id := room']> (rooms_ r)))
    Hw2 Hr1) as [Hw3 Hev3].
  - apply map_Forall_delete. by apply map_Forall_insert_2.
  - intros ->. destruct Hempty as [_ Hty]. simpl in Hty. by rewrite Ht in Hty.
  - split; [done |]. etransitivity; [exact Hev1 |]. by etransitivity.
Qed.

Lemma leave_room_safe wid e :
  safe_ex F (fun w => worker_fact wid w /\ running_fact e w) (RoomWorker.leave_room wid e).
Proof.
  intros w Hw [Hr He]. unfold RoomWorker.leave_room. apply wp_bind.
  apply wp_event_fd; [done |]. intros sid o _ _. apply wp_bind.
  apply wp_current_room; [done |]. intros room_id. by apply leave_room_fd_safe.
Qed.

Lemma leave_first_safe wid fd ids : safe_ex F (worker_fact wid) (RoomWorker.leave_first wid fd ids).
Proof.
  induction ids as [| k ids IH]; [apply safe_ret |].
  apply safe_bind; [auto with chat | apply leave_room_fd_safe |].
  intros r. apply safe_if; [apply safe_ret | apply IH].
Qed.

Lemma diconnect_session_safe wid fd room_id :
  safe_ex F (worker_fact wid) (RoomWorker.diconnect_session wid fd room_id).
Proof.
  apply safe_bind; [auto with chat | apply leave_room_fd_safe |]. intros res.
  apply safe_if; [apply safe_ret |]. intros w Hw [r Hr]. apply wp_bind.
  eapply wp_get_rooms; [done |]. apply leave_first_safe; [done | by exists r].
Qed.

(** ** Messages and the database *)

Lemma broadcast_to_safe e room_id data sid :
  safe_ex F (fun w => running_fact e w /\ session_fact sid w)
    (RoomWorker.broadcast_to e room_id data sid).
Proof.
  intros w Hw [He [o Ho]]. unfold RoomWorker.broadcast_to. apply wp_bind.
  eapply wp_session_fd; [done |]. apply wp_bind. apply wp_event_fd; [done |].
  intros sid' o' _ _. case_decide; [by apply wp_ret |]. apply wp_bind, wp_gets.
  destruct (User.get_user _ _) as [u |]; [| by apply wp_ret].
  case_decide; [by apply wp_ret |]. apply send_packet_safe; [done | by exists o].
Qed.

Lemma send_message_safe wid e :
  safe_ex F (fun w => worker_fact wid w /\ running_fact e w) (RoomWorker.send_message wid e).
Proof.
  intros w Hw [[r Hr] He]. unfold RoomWorker.send_message. apply wp_bind.
  apply wp_current_room; [done |]. intros room_id. apply wp_bind.
  eapply wp_get_rooms; [done |]. destruct (rooms_ r !! room_id) as [room |] eqn:E; [| by apply wp_ret].
  apply wp_bind. apply wp_event_fd; [done |]. intros sid o _ _.
  apply wp_bind, wp_gets, wp_bind, wp_gets, wp_bind.
  destruct (i_workers _ Hw _ _ Hr) as (_ & Hrs & _). destruct (Hrs _ _ E) as (_ & _ & _ & Hss).
  eapply wp_mono; [| intros a w' H; apply wp_ret; exact H].
  apply (safe_for_each (fun w => running_fact e w /\
    Forall (fun s : Z * Room.Sid => session_fact s.2 w) (map_to_list (Room.sessions_ room)))).
  - apply stable_and; [auto with chat |]. intros w1 w2 Hev H. eapply Forall_impl; [exact H |].
    intros s Hs. by eapply stable_session.
  - intros s Hin. eapply safe_weaken; [| apply broadcast_to_safe].
    intros w1 _ [H1 H2]. split; [done |]. rewrite Forall_forall in H2. by apply H2.
  - done.
  - split; [done |]. apply Forall_forall. intros [fd s] Hin. apply elem_of_map_to_list in Hin.
    destruct (Hss _ _ Hin) as (o' & Ho' & _). by exists o'.
Qed.

Lemma post_job_safe j : safe_ex F (fun w => job_ok (heap w) j) (post_job j).
Proof. apply safe_modify. intros w Hw Hj. by apply inv_post_job. Qed.

Lemma save_message_safe wid e : safe_ex F (running_fact e) (RoomWorker.save_message wid e).
Proof.
  intros w Hw He. unfold RoomWorker.save_message. apply wp_bind.
  apply wp_current_room; [done |]. intros room_id. apply wp_bind.
  apply wp_event_fd; [done |]. intros sid o _ _. apply wp_bind, wp_gets.
  by apply post_job_safe.
Qed.

Lemma job_of_running h t p c e :
  running_ok h e -> Event.callback_event c = Some e -> job_ok h (Event.mkDBJob t p c).
Proof. intros He Hc e' He'. simpl in He'. congruence. Qed.

Lemma request_db_create_room_safe e :
  safe_ex F (running_fact e) (RoomWorker.request_db_create_room e).
Proof. intros w Hw He. apply post_job_safe; [done |]. by apply (job_of_running _ _ _ _ e). Qed.

Lemma request_db_load_message_safe e :
  safe_ex F (running_fact e) (RoomWorker.request_db_load_message e).
Proof.
  intros w Hw He. unfold RoomWorker.request_db_load_message. apply wp_bind.
  apply wp_current_room; [done |]. intros room_id. apply post_job_safe; [done |].
  by apply (job_of_running _ _ _ _ e).
Qed.

(** ** The interpreter *)

(** Only result, target room and response of a running event may change. *)
Lemma running_set_result h e r : running_ok h e -> running_ok h (Event.set_result r e).
Proof.
  intros ((H1 & H2 & H3 & H4) & H5 & H6). split; [| done]. split_and!; try done.
  simpl. by destruct (Event.session e).
Qed.

Lemma running_set_target h e r : running_ok h e -> running_ok h (Event.set_target r e).
Proof. intros H. exact H. Qed.

Lemma running_set_response h e d : running_ok h e -> running_ok h (Event.set_response d e).
Proof. intros H. exact H. Qed.

Lemma running_resolve h e room_id : running_ok h e -> running_ok h (Event.resolve_room_id room_id e).
Proof.
  intros ((H1 & H2 & H3 & H4) & H5 & H6). split; [| done].
  split_and!; simpl; rewrite ?length_fmap; try done.
  - intros a Ha. rewrite list_lookup_fmap in Ha. apply fmap_Some in Ha as (a' & Ha' & ->).
    rewrite Event.resolve_action_command. by apply H3.
  - by destruct (Event.session e).
Qed.

#[local] Hint Resolve running_set_result running_set_target running_set_response running_resolve : chat.

Lemma after_action_safe wid e cmd k :
  safe_ex F (fun w => worker_fact wid w /\ running_fact e w) (k e) ->
  safe_ex F (fun w => worker_fact wid w /\ running_fact e w) (RoomWorker.after_action e cmd k).
Proof.
  intros Hk. unfold RoomWorker.after_action. apply safe_if; [| done].
  intros w Hw [Hr He]. apply wp_bind.
  destruct (Event.actions e !! 0%nat) as [a |] eqn:E.
  - apply wp_ret, wp_bind. destruct He as (Hok & Hpos & Hn). pose proof Hok as (_ & _ & Hc & _).
    rewrite decide_False by (by apply Hc). apply wp_ret. by apply send_response_safe.
  - destruct He as ((_ & Hle & _) & Hpos & _). apply lookup_ge_None in E. lia.
Qed.

(** The result of an operation becomes the event's result. *)
Lemma op_then_safe wid e cmd (m : M Result) k :
  safe_ex F (fun w => worker_fact wid w /\ running_fact e w) m ->
  (forall e', safe_ex F (fun w => worker_fact wid w /\ running_fact e' w) (k e')) ->
  safe_ex F (fun w => worker_fact wid w /\ running_fact e w)
    (let* r := m in RoomWorker.after_action (Event.set_result r e) cmd k).
Proof.
  intros Hm Hk. apply safe_bind; [auto with chat | done |]. intros r.
  eapply safe_weaken; [| apply after_action_safe, Hk].
  intros w _ [? ?]. split; [done |]. by apply running_set_result.
Qed.

(** Fetching an action advances the cursor; an event without a session can
    only be fetched a DISCONNECT_SESSION. *)
Lemma running_fetch h e sid :
  event_ok h e -> Event.session e = Some sid ->
  (Event.current_action e < length (Event.actions e))%nat ->
  running_ok h (Event.set_current (S (Event.current_action e)) e).
Proof.
  intros (H1 & H2 & H3 & H4) Hs Hlt. split; [| split; simpl; [lia | by rewrite Hs]].
  split_and!; simpl; try done.
Qed.

Lemma process_loop_running fuel wid e :
  Event.session e <> None ->
  safe_ex F (fun w => worker_fact wid w /\ event_fact e w) (RoomWorker.process_loop fuel wid e).
Proof.
  revert e. induction fuel as [| fuel IH]; intros e Hs; cbn [RoomWorker.process_loop]; [apply safe_ret |].
  case_decide as Hlt; [| apply safe_ret].
  apply safe_if.
  { eapply safe_weaken; [| by apply send_response_safe]. by intros w _ [_ ?]. }
  destruct (Event.actions e !! Event.current_action e) as [action |] eqn:Ea;
    [| apply lookup_ge_None in Ea; lia].
  apply safe_bind; [auto with chat | apply safe_ret |]. intros action'. clear action Ea.
  set (e1 := Event.set_current (S (Event.current_action e)) e).
  destruct (Event.session e) as [sid |] eqn:Es; [clear Hs | done].
  apply (safe_weaken _ (fun w => worker_fact wid w /\ running_fact e1 w)).
  { intros w _ [? ?]. split; [done |]. by eapply running_fetch. }
  assert (Hk : forall e', safe_ex F (fun w => worker_fact wid w /\ running_fact e' w)
                 (RoomWorker.process_loop fuel wid e')).
  { intros e' w Hw [Hwf (He' & _ & Hn)]. by apply IH. }
  assert (Hp : forall (P Q : World -> Prop) (m : M unit),
    safe_ex F Q m -> safe_ex F (fun w => P w /\ Q w) m).
  { intros P Q m Hm. eapply safe_weaken; [| exact Hm]. by intros w _ [_ ?]. }
  assert (Hroute : forall e2, (forall h, running_ok h e1 -> event_ok h e2) ->
    safe_ex F (running_fact e1) (RoomManager.route_event e2 0 ;;; ret tt)).
  { intros e2 H2. apply safe_bind; [auto with chat | | intros; apply safe_ret].
    eapply safe_weaken; [| apply route_event_0_safe]. intros w _ He. by apply H2. }
  destruct (Event.command action').
  - apply op_then_safe; [apply create_room_safe | done].
  - apply op_then_safe; [apply join_room_safe | done].
  - apply op_then_safe; [apply leave_room_safe | done].
  - apply op_then_safe; [apply send_message_safe | done].
  - apply Hp, request_db_create_room_safe.
  - apply Hp, request_db_load_message_safe.
  - apply safe_bind; [auto with chat | apply Hp, save_message_safe |]. intros _.
    by apply after_action_safe.
  - apply Hp, Hroute. by intros h [? _].
  - apply Hp, Hroute. by intros h [? _].
  - apply Hp. eapply safe_weaken; [| apply send_response_safe; change (Event.session e <> None); by rewrite Es]. by intros w _ [? _].
  - apply Hp. change (Event.session e1) with (Event.session e). rewrite Es.
    eapply safe_weaken; [| apply flush_safe].
    intros w _ [He _]. by eapply event_session.
  - eapply safe_bind; [auto with chat | | intros; apply safe_ret].
    eapply safe_weaken; [| apply diconnect_session_safe]. by intros w _ [? _].
Qed.

(** [process_event] on any well-formed event. *)
Lemma process_event_safe wid e :
  safe_ex F (fun w => worker_fact wid w /\ event_fact e w) (RoomWorker.process_event wid e).
Proof.
  destruct (Event.session e) as [sid |] eqn:Es.
  { apply process_loop_running. by rewrite Es. }
  intros w Hw [Hwf (H1 & H2 & H3 & H4)]. rewrite Es in H4. destruct H4 as [Hd Hres].
  unfold RoomWorker.process_event. cbn [RoomWorker.process_loop].
  case_decide as Hlt; [| by apply wp_ret]. rewrite Hres. rewrite decide_False by naive_solver.
  destruct (Event.actions e !! Event.current_action e) as [action |] eqn:Ea;
    [| apply lookup_ge_None in Ea; lia].
  apply wp_bind, wp_ret. rewrite Forall_lookup in Hd. rewrite (Hd _ _ Ea).
  apply wp_bind. eapply wp_mono; [by apply diconnect_session_safe |]. intros; by apply wp_ret.
Qed.

Lemma worker_step_safe wid : safe_ex F (worker_fact wid) (RoomWorker.worker_step wid).
Proof.
  intros w Hw [r Hr]. unfold RoomWorker.worker_step. apply wp_bind.
  eapply wp_get_worker; [done |]. destruct (event_queue_ r) as [| e q] eqn:Eq; [by apply wp_ret |].
  destruct (i_workers _ Hw _ _ Hr) as (H1 & H2 & H3 & H4). rewrite Eq in H4.
  inversion H4 as [| ? ? He Hq]; subst.
  apply wp_bind, wp_modify.
  destruct (inv_put_worker w wid r (set_queue q r) Hw Hr) as [Hw' Hev]; [by split_and! |].
  apply wp_bind. eapply wp_mono.
  - apply process_event_safe; [done |]. split; [| done]. unfold worker_fact; simpl.
    rewrite lookup_insert_eq. eauto.
  - intros _ w'' [? ?]. apply wp_ret. split; [done |]. by etransitivity.
Qed.

(** ** The callbacks *)

(** The values drawn are usable: inside the distribution's range, and the
    redraw loop ends within them. *)
Definition draws_ok (n : Z) (draws : list Z) : Prop :=
  2 <= n /\ Forall (fun d => 2 <= d <= n) draws /\
  match draws with
  | [] => False
  | first :: rest => rest <> [] /\ (Exists (fun d => d <> first) rest \/ n < 3)
  end.

#[global] Instance draws_ok_dec n draws : Decision (draws_ok n draws).
Proof. unfold draws_ok. destruct draws; apply _. Defined.

(** With fewer than two workers the distribution's range is empty and drawing
    from it undefined: no requirement on the values, but a fault. *)
Definition drawable (n : Z) (draws : list Z) : Prop := 2 <= n -> draws_ok n draws.

#[global] Instance drawable_dec n draws : Decision (drawable n draws).
Proof. unfold drawable. apply _. Defined.

Definition draw_fact (draws : list Z) (w : World) : Prop :=
  drawable (room_worker_num w) draws /\ (room_worker_num w < 2 -> F BadDistribution).

Lemma wp_bind_room_worker room_id draws w :
  inv w -> draw_fact draws w ->
  wp (RoomManager.bind_room_worker room_id draws) F
    (fun wid w' => inv w' /\ evolves w w' /\ worker_fact wid w') w.
Proof.
  intros Hw (Hok & Hbad). unfold RoomManager.bind_room_worker. apply wp_bind, wp_gets, wp_bind.
  destruct (decide (room_worker_num w < 2)) as [Hlt | Hge].
  { rewrite decide_True by (unfold RoomManager.LOBBY_WORKER_ID; lia). by apply Hbad. }
  destruct Hok as (Hn & Hd & Hdraws); [lia |]. destruct draws as [| first rest]; [done |].
  destruct Hdraws as (Hne & Hex). rewrite Exists_exists in Hex. rewrite decide_False by (unfold RoomManager.LOBBY_WORKER_ID; lia).
  apply wp_ret, wp_bind.
  destruct (RoomManager.draw_second_terminates first (room_worker_num w) rest Hne Hex) as [second E].
  cbn [mbind option_bind]. rewrite E. apply wp_ret.
  apply RoomManager.draw_second_spec in E as [Hin _].
  assert (Hworker : forall d, d ∈ first :: rest -> d <> 0 /\ is_Some (room_workers w !! d)).
  { intros d Hin'. rewrite Forall_forall in Hd. specialize (Hd d Hin').
    split; [lia |]. apply (i_ids _ Hw). lia. }
  destruct (Hworker first) as [Hf0 [r1 Hr1]]; [constructor |].
  destruct (Hworker second) as [Hs0 [r2 Hr2]]; [by constructor |].
  unfold RoomManager.get_rooms_num.
  apply wp_bind, wp_bind. eapply wp_get_worker; [done |]. apply wp_ret.
  apply wp_bind, wp_bind. eapply wp_get_worker; [done |]. apply wp_ret.
  apply wp_bind, wp_modify, wp_ret.
  edestruct (inv_bind_route w room_id (if decide (size (rooms_ r1) < size (rooms_ r2))%nat
    then first else second) Hw) as [Hw' Hev].
  - by case_decide.
  - case_decide; eauto.
  - split_and!; [done | done |]. unfold worker_fact; simpl. case_decide; eauto.
Qed.

(** The callbacks that place a room: a CREATE's whose query did not fail. *)
Definition places (c : Event.Callback) (status : Event.DBStatus) : Prop :=
  status <> Event.DBStError /\ exists e, c = Event.DbCreateRoomOnResult e.

Lemma db_create_room_safe e status data draws :
  safe_ex F (fun w => running_fact e w /\
      (status <> Event.DBStError -> draw_fact draws w))
    (RoomWorker.db_create_room_on_result e status data draws).
Proof.
  intros w Hw (He & Hd). unfold RoomWorker.db_create_room_on_result.
  destruct (Codec.take 8 _) as [taken rd].
  destruct (if decide _ then None else taken) as [b |] eqn:Eb.
  - assert (Hst : status <> Event.DBStError) by by case_decide.
    apply wp_bind. eapply wp_mono; [by apply wp_bind_room_worker, Hd |].
    intros wid w' (Hw' & Hev & Hwid). cbv beta. apply wp_bind.
    eapply wp_mono; [apply route_event_safe; [done |] |].
    + split; [| done]. apply (stable_running _ _ _ Hev) in He.
      by apply running_set_response, running_resolve, running_set_result.
    + intros _ w'' [? ?]. apply wp_ret. split; [done |]. by etransitivity.
  - apply wp_bind. eapply wp_mono; [apply route_event_safe; [done |] |].
    + split; [by apply running_set_result |]. intros _.
      apply (i_ids _ Hw). unfold RoomManager.LOBBY_WORKER_ID. lia.
    + intros; by apply wp_ret.
Qed.

Lemma db_load_messages_safe e status data :
  safe_ex F (running_fact e) (RoomWorker.db_load_messages_on_result e status data).
Proof.
  intros w Hw He. unfold RoomWorker.db_load_messages_on_result.
  set (e' := match status with Event.DBSuccess => _ | _ => _ end).
  assert (He' : running_ok (heap w) e') by (unfold e'; destruct status; auto with chat).
  apply wp_bind. apply wp_current_room; [done |]. intros room_id. apply wp_bind.
  eapply wp_mono; [apply route_event_0_safe; [done |] |].
  - by apply running_set_target.
  - intros; by apply wp_ret.
Qed.

Lemma run_callback_safe j status data draws :
  safe_ex F (fun w => job_ok (heap w) j /\
      (places (Event.on_result j) status -> draw_fact draws w))
    (RoomWorker.run_callback (Event.on_result j) status data draws).
Proof.
  intros w Hw [Hj Hd]. unfold job_ok in Hj.
  destruct (Event.on_result j) as [| e | e]; cbn [Event.callback_event] in Hj;
    unfold RoomWorker.run_callback; [by apply wp_ret | |].
  - apply db_create_room_safe; [done |]. split; [by apply Hj |]. intros Hst. apply Hd. split; [done | by exists e].
  - apply db_load_messages_safe; [done |]. by apply Hj.
Qed.

End Safe.
End RoomWorkerSafe.
