(* ===== verification/Server.v ===== *)
(** * Server: server/src/server/Server.{h,cpp}, network/SessionManager.{h,cpp}, core/Epoll.{h,cpp}

    The main thread: accepting connections, reading requests, the queue of
    main events, and closing sessions. The kernel's answer to [epoll_ctl] is a
    parameter ([EpollKernel]); [Epoll::add] and the two MODs throw when the
    call fails, which stops the server. *)

From S2P Require Import Prelude Wire Session User Room Event World RoomManager RoomWorker.
From S2P Require Import Invariant RoomWorkerSafe.

Module Server.
Import Protocol World Invariant.

(** ** epoll *)

(** Whether the descriptor's registration, as left by the calls made so far,
    is in force. *)
Fixpoint registered (calls : list EpollOp) (fd : Z) : bool :=
  match calls with
  | [] => false
  | EpAdd fd' :: calls' => bool_decide (fd = fd') || registered calls' fd
  | EpDel fd' :: calls' => negb (bool_decide (fd = fd')) && registered calls' fd
  | EpMod _ _ :: calls' => registered calls' fd
  end.

(** [epoll_ctl] as documented: its result is a function of the calls made so
    far (most recent first) and of the new call, and modifying a descriptor
    that is not registered fails with ENOENT. *)
Class EpollKernel := {
  epoll_ctl_ok : list EpollOp -> EpollOp -> bool;
  epoll_mod_enoent : forall calls fd out,
    registered calls fd = false -> epoll_ctl_ok calls (EpMod fd out) = false }.

#[global] Program Instance simple_epoll : EpollKernel := {|
  epoll_ctl_ok := fun calls op =>
    match op with EpMod fd _ => registered calls fd | _ => true end |}.
Solve Obligations with done.

(** The [IServerService] side of [Server]: lock, push, [eventfd_write]. *)
#[global] Program Instance server_service : IServerService := {|
  request_enable_epollout := fun fd =>
    modify (push_main (Event.mkMainEvent Event.EnableEpollOut fd));
  request_disable_epollout := fun fd =>
    modify (push_main (Event.mkMainEvent Event.DisalbeEpollOut fd));
  request_close_session := fun fd =>
    modify (push_main (Event.mkMainEvent Event.Disconnect fd)) |}.
Solve Obligations with done.

Section Server.
Context {Indet : Indeterminate} {Kernel : EpollKernel}.

(** [Epoll::add], [enable_epoll_out], [disable_epoll_out]: throw on failure. *)
Definition epoll_ctl (op : EpollOp) : M unit :=
  let* calls := gets epoll_calls in
  if epoll_ctl_ok calls op then modify (set_epoll (op :: calls)) else fault EpollCtlFailed.

Definition epoll_add (fd : Z) : M unit := epoll_ctl (EpAdd fd).
Definition enable_epollout (fd : Z) : M unit := epoll_ctl (EpMod fd true).
Definition disable_epollout (fd : Z) : M unit := epoll_ctl (EpMod fd false).

(** [Epoll::remove] ignores the result. *)
Definition epoll_remove (fd : Z) : M unit :=
  modify (fun w => set_epoll (EpDel fd :: epoll_calls w) w).

(** ** SessionManager *)

Definition add_session (fd : Z) : M unit :=
  let* sid := gets (fun w => fresh (dom (heap w) : gset Room.Sid)) in
  put_session sid (Session.new_session fd) ;;;
  modify (fun w => set_sessions (emplace fd sid (sessions w)) w).

Definition remove_session (fd : Z) : M unit :=
  modify (fun w => set_sessions (delete fd (sessions w)) w).

Definition find_session (fd : Z) : M (option Room.Sid) := gets (fun w => sessions w !! fd).

(** ** Handlers *)

(** ["temp"] *)
Definition temp_name : bytes := [x74; x65; x6d; x70].

(** [fd] is what [accept4] returned. *)
Definition accept_client (fd : Z) : M unit :=
  if decide (fd < 0) then ret tt else
  epoll_add fd ;;;
  add_session fd ;;;
  modify (fun w => set_total (wrap 64 (total_users w + 1)) w) ;;;
  let* total := gets total_users in
  modify (fun w => set_users (User.add_user (User.new_user fd (sgn 64 total) temp_name)
                                (user_manager w)) w) ;;;
  let* junk := gets junk_command in
  let* session := find_session fd in
  let e := Event.set_session session
             (Event.set_target RoomManager.LOBBY_ROOM_ID (Event.new_event junk)) in
  let e := Event.add Event.JOIN_ROOM RoomManager.LOBBY_ROOM_ID e in
  RoomManager.route_event e RoomManager.LOBBY_WORKER_ID ;;; ret tt.

Definition close_session (fd : Z) : M unit :=
  let* session := find_session fd in
  match session with
  | None => ret tt
  | Some sid =>
      epoll_remove fd ;;;
      let* um := gets user_manager in
      let* user := deref NullUser (User.get_user fd um) in
      modify (fun w => set_users (User.user_mark_disconnecting fd (user_manager w)) w) ;;;
      let* s := get_session sid in
      put_session sid (Session.mark_disconnecting s) ;;;
      let room_id := User.current_room_ user in
      RoomManager.disconnect_session fd room_id ;;;
      (if decide (room_id <> RoomManager.LOBBY_ROOM_ID)
       then RoomManager.disconnect_session fd RoomManager.LOBBY_ROOM_ID else ret tt) ;;;
      remove_session fd ;;;
      modify (fun w => set_users (User.remove_user (User.user_id_ user) (user_manager w)) w)
  end.

(** The extraction loop of [handle_request]. *)
Fixpoint handle_packets (fuel : nat) (sid : Room.Sid) : M unit :=
  match fuel with
  | O => ret tt
  | S fuel' =>
      let* s := get_session sid in
      match Session.extract_packet empty_packet s with
      | (true, packet, s') =>
          put_session sid s' ;;;
          RoomManager.dispatch_packet packet sid ;;;
          handle_packets fuel' sid
      | (false, _, s') => put_session sid s'
      end
  end.

(** [ins] are the outcomes of the [::recv] calls of this readable event. *)
Definition handle_request (fd : Z) (ins : list Session.RecvOut) : M unit :=
  let* session := find_session fd in
  match session with
  | None => close_session fd
  | Some sid =>
      let* s := get_session sid in
      let '(readable, s') := Session.on_readable ins s in
      put_session sid s' ;;;
      if readable then handle_packets (length (Session.recv_buffer_ s')) sid
      else close_session fd
  end.

Definition handle_epollout (fd : Z) : M unit :=
  let* session := find_session fd in
  match session with
  | None => close_session fd
  | Some sid => RoomManager.request_flush sid
  end.

Definition handle_main_event (e : Event.MainEvent) : M unit :=
  match Event.me_type e with
  | Event.Disconnect => close_session (Event.me_fd e)
  | Event.EnableEpollOut => enable_epollout (Event.me_fd e)
  | Event.DisalbeEpollOut => disable_epollout (Event.me_fd e)
  end.

(** The loop of [handle_events]; nothing it calls queues a main event, so the
    length of the queue is enough fuel. *)
Fixpoint handle_events_loop (fuel : nat) : M unit :=
  match fuel with
  | O => ret tt
  | S fuel' =>
      let* q := gets main_events in
      match q with
      | [] => ret tt
      | e :: q' =>
          modify (set_main q') ;;;
          handle_main_event e ;;;
          handle_events_loop fuel'
      end
  end.

Definition handle_events : M unit :=
  let* n := gets (fun w => length (main_events w)) in
  handle_events_loop n.

(** The body of [run]'s loop for a client descriptor: EPOLLIN, then EPOLLOUT,
    then the error and hang-up bits. *)
Definition on_ready (fd : Z) (epollin : option (list Session.RecvOut)) (epollout hangup : bool)
    : M unit :=
  match epollin with Some ins => handle_request fd ins | None => ret tt end ;;;
  (if epollout then handle_epollout fd else ret tt) ;;;
  (if hangup then close_session fd else ret tt).

(** ** The system's transitions

    One transition is one handler run to completion: by the main thread, by a
    worker on the front event of its queue, or by the database thread on the
    callback of the front job (with whatever status and data the query gave). *)
Inductive Label :=
  | LAccept (fd : Z)
  | LReady (fd : Z) (epollin : option (list Session.RecvOut)) (epollout hangup : bool)
  | LMainEvents
  | LWorker (wid : Z)
  | LDb (status : Event.DBStatus) (data : bytes) (draws : list Z)
  | LKernel (sid : Room.Sid) (outs : list Session.SendOut).

(** The kernel decides how the coming sends on a socket go. *)
Definition set_outs (sid : Room.Sid) (outs : list Session.SendOut) : M unit :=
  let* s := get_session sid in
  put_session sid (Session.set_send (Session.send_queue_ s) (Session.sending_ s) outs
                     (Session.sock_wire s) s).

Definition db_step (status : Event.DBStatus) (data : bytes) (draws : list Z) : M unit :=
  let* jobs := gets job_queue in
  match jobs with
  | [] => ret tt
  | j :: jobs' =>
      modify (set_jobs jobs') ;;;
      RoomWorker.run_callback (Event.on_result j) status data draws
  end.

Definition exec (l : Label) : M unit :=
  match l with
  | LAccept fd => accept_client fd
  | LReady fd epollin epollout hangup => on_ready fd epollin epollout hangup
  | LMainEvents => handle_events
  | LWorker wid => RoomWorker.worker_step wid ;;; ret tt
  | LDb status data draws => db_step status data draws
  | LKernel sid outs => set_outs sid outs
  end.

(** What the environment guarantees: [accept4] returns no descriptor that is
    still open here, the 64-bit user counter has not run out, workers exist,
    and the random draws lie in the distribution's range if it has one. (With
    fewer than two workers it has none, and a step that draws faults.) *)
Definition enabled (w : World) (l : Label) : Prop :=
  match l with
  | LAccept fd => sessions w !! fd = None /\ 0 <= total_users w < 2 ^ 63 - 1
  | LWorker wid => is_Some (room_workers w !! wid)
  | LDb _ _ draws => RoomWorkerSafe.drawable (room_worker_num w) draws
  | LKernel sid _ => is_Some (heap w !! sid)
  | LReady _ _ _ _ | LMainEvents => True
  end.

Definition step (w w' : World) : Prop := exists l, enabled w l /\ exec l w = Ok tt w'.

Definition reachable (n : Z) (w : World) : Prop := rtc step (RoomManager.init_world n) w.

(** ** The main thread's handlers are safe *)

Definition only_epoll (f : Fault) : Prop := f = EpollCtlFailed.

Lemma epoll_ctl_safe P op : safe_ex only_epoll P (epoll_ctl op).
Proof.
  apply safe_gets. intros w Hw _. destruct (epoll_ctl_ok _ _); [| done].
  apply wp_modify. by apply inv_set_epoll.
Qed.

Section F.
Context {F : Fault -> Prop}.

Lemma packet_event_ok h e sid :
  Event.actions e = [] -> Event.current_action e = 0%nat -> Event.session e = Some sid ->
  is_Some (h !! sid) -> event_ok h (RoomManager.plan e).
Proof.
  intros Ha Hc Hs Hsid. destruct (RoomManager.plan_fields e) as (F1 & F2 & _).
  pose proof (RoomManager.plan_length e Ha) as Hl.
  split_and!; [lia | rewrite F1, Hc; lia | | by rewrite F2, Hs].
  intros a. destruct e; simpl in *; subst. unfold RoomManager.plan. simpl.
  destruct (to_command _) as [[] |]; simpl; intros E; by simplify_eq.
Qed.

Lemma dispatch_packet_safe packet sid :
  safe_ex F (session_fact sid) (RoomManager.dispatch_packet packet sid).
Proof.
  apply safe_bind; [auto with chat | |].
  - eapply safe_weaken; [| apply RoomWorkerSafe.route_event_0_safe].
    intros w _ Hs. by apply (packet_event_ok _ _ sid).
  - intros r. apply safe_if; [| apply safe_ret].
    apply safe_bind; [auto with chat | | intros; apply safe_ret].
    eapply safe_weaken; [| apply RoomWorkerSafe.route_event_safe].
    intros w Hw Hs. split.
    + split_and!; simpl; try lia; [| done]. by intros a [= <-].
    + intros _. apply (i_ids _ Hw). unfold RoomManager.LOBBY_WORKER_ID. lia.
Qed.

Lemma disconnect_session_safe P fd room_id :
  safe_ex F P (RoomManager.disconnect_session fd room_id).
Proof.
  apply safe_gets. intros w Hw _. apply wp_bind.
  eapply wp_mono; [apply RoomWorkerSafe.route_event_0_safe; [done |] | intros; by apply wp_ret].
  split_and!; simpl; try lia; [by intros a [= <-] |]. split; [by repeat constructor | done].
Qed.

Lemma request_flush_safe sid : safe_ex F (session_fact sid) (RoomManager.request_flush sid).
Proof.
  intros w Hw [o Ho]. unfold RoomManager.request_flush. apply wp_bind.
  eapply wp_session_fd; [done |]. apply wp_bind, wp_gets.
  destruct (User.get_user _ _) as [u |]; [| by apply wp_ret]. apply wp_bind, wp_gets, wp_bind.
  eapply wp_mono; [apply RoomWorkerSafe.route_event_0_safe; [done |] | intros; by apply wp_ret].
  split_and!; simpl; try lia; [by intros a [= <-] | by eexists].
Qed.

(** Replacing a session by what a read-only or receiving method returned. *)
Lemma put_session_same w sid o o' :
  inv w -> heap w !! sid = Some o -> Session.fd o' = Session.fd o ->
  Session.sending_ o' = Session.sending_ o ->
  inv (set_heap (<[sid := o']> (heap w)) w) /\ evolves w (set_heap (<[sid := o']> (heap w)) w).
Proof.
  intros Hw Ho Hfd Hs. eapply inv_put_session; [done.. |]. rewrite Hs. by apply (i_sending _ Hw _ _ Ho).
Qed.

Lemma extract_packet_fields p s :
  Session.fd (Session.extract_packet p s).2 = Session.fd s /\
  Session.sending_ (Session.extract_packet p s).2 = Session.sending_ s.
Proof. unfold Session.extract_packet. by repeat case_decide. Qed.

Lemma on_readable_fields ins s :
  Session.fd (Session.on_readable ins s).2 = Session.fd s /\
  Session.sending_ (Session.on_readable ins s).2 = Session.sending_ s.
Proof.
  revert s. induction ins as [| i ins IH]; intros s; [done |].
  destruct i; simpl; try done; try apply IH. case_decide; [done |].
  exact (IH (Session.set_recv (Session.recv_buffer_ s ++ b) s)).
Qed.

Lemma handle_packets_safe fuel sid : safe_ex F (session_fact sid) (handle_packets fuel sid).
Proof.
  induction fuel as [| fuel IH]; [apply safe_ret |]. intros w Hw [o Ho]. cbn [handle_packets].
  apply wp_bind. eapply wp_get_session; [done |].
  pose proof (extract_packet_fields empty_packet o) as [Hfd Hs].
  destruct (Session.extract_packet empty_packet o) as [[[] p] o']; simpl in Hfd, Hs;
    destruct (put_session_same w sid o o' Hw Ho Hfd Hs) as [Hw' Hev]; [| by apply wp_modify].
  apply wp_bind, wp_modify. eapply wp_mono.
  - assert (Hs' : session_fact sid (set_heap (<[sid := o']> (heap w)) w)).
    { unfold session_fact; simpl. rewrite lookup_insert_eq. eauto. }
    assert (Hsafe : safe_ex F (session_fact sid)
              (RoomManager.dispatch_packet p sid ;;; handle_packets fuel sid)).
    { apply safe_bind; [auto with chat | apply dispatch_packet_safe | done]. }
    by apply Hsafe.
  - intros a w'' [? ?]. split; [done |]. by etransitivity.
Qed.
End F.

(** ** Opening and closing connections *)

(** A new connection: a fresh session object, its table entry and its user
    appear together. *)
Lemma inv_new_connection w fd sid uid name :
  inv w -> heap w !! sid = None -> sessions w !! fd = None ->
  User.users_ (user_manager w) !! uid = None -> uid <= total_users w ->
  let w' := set_users (User.add_user (User.new_user fd uid name) (user_manager w))
              (set_sessions (<[fd := sid]> (sessions w))
                (set_heap (<[sid := Session.new_session fd]> (heap w)) w)) in
  inv w' /\ evolves w w'.
Proof.
  intros Hw Hsid Hfd Huid Hle. cbv zeta.
  assert (Hnone : User.fd_to_user_id_ (user_manager w) !! fd = None).
  { apply eq_None_not_Some. intros H. apply (i_coherent _ Hw) in H. rewrite Hfd in H. by destruct H. }
  destruct (inv_heap w (<[sid := Session.new_session fd]> (heap w)) Hw) as [[] Hev].
  { by apply heap_le_insert_new. }
  { apply map_Forall_insert_2; [done | apply (i_sending _ Hw)]. }
  split; [| by split_and!; apply Hev]. split; simpl in *; try done.
  - by apply User.um_wf_add.
  - apply map_Forall_insert_2; [| done]. exists (Session.new_session fd).
    by rewrite lookup_insert_eq.
  - intros fd'. rewrite emplace_fresh by done. rewrite !lookup_insert_is_Some'.
    rewrite i_coherent0. done.
  - intros uid' Hu. rewrite emplace_fresh in Hu by done.
    apply lookup_insert_is_Some' in Hu as [<- | Hu]; [done |]. by apply i_total0.
Qed.

(** Closing one: the table entry and the user disappear together. *)
Lemma inv_drop_connection w fd u :
  inv w -> User.get_user fd (user_manager w) = Some u ->
  let w' := set_users (User.remove_user (User.user_id_ u) (user_manager w))
              (set_sessions (delete fd (sessions w)) w) in
  inv w' /\ evolves w w'.
Proof.
  intros [] Hu. cbv zeta. destruct (User.get_user_Some_fd _ _ _ i_users0 Hu) as (Hfd & Hid & Huid).
  split; [| by split_and!]. split; simpl; try done.
  - by apply User.um_wf_remove.
  - by apply map_Forall_delete.
  - intros fd'. unfold User.remove_user. rewrite Huid. simpl. rewrite Hfd.
    rewrite !lookup_delete_is_Some. by rewrite i_coherent0.
  - intros uid Hs. unfold User.remove_user in Hs. rewrite Huid in Hs. simpl in Hs.
    apply lookup_delete_is_Some in Hs as [_ Hs]. by apply i_total0.
Qed.

End Server.
End Server.
