(* ===== verification/System.v ===== *)
(** * System: safety of the whole server

    The main thread's remaining handlers (accepting, reading, closing, the
    main-event queue), and the safety theorem over every interleaving of the
    main thread, the workers and the database thread. *)

From S2P Require Import Prelude Wire Session User Room Event World RoomManager RoomWorker.
From S2P Require Import Invariant RoomWorkerSafe Server.

Module System.
Import Protocol World Invariant Server.

Section System.
Context {Indet : Indeterminate} {Kernel : EpollKernel}.

Section F.
Context {F : Fault -> Prop}.

(** A disconnection is routed without touching sessions or users. *)
Lemma wp_disconnect fd room_id w :
  inv w ->
  wp (RoomManager.disconnect_session fd room_id) F
    (fun _ w' => (inv w' /\ evolves w w') /\ w' = set_workers (room_workers w') w) w.
Proof.
  intros Hw. apply wp_and; [by apply (disconnect_session_safe (fun _ => True)) |].
  intros [] w' E. by eapply RoomManager.disconnect_session_frame.
Qed.

Lemma close_session_safe P fd : safe_ex F P (close_session fd).
Proof.
  intros w Hw _. unfold close_session, find_session. apply wp_bind, wp_gets.
  destruct (sessions w !! fd) as [sid |] eqn:Es; [| by apply wp_ret].
  assert (Hu : exists uid, User.fd_to_user_id_ (user_manager w) !! fd = Some uid).
  { apply (i_coherent _ Hw). eauto. }
  destruct Hu as [uid Huid].
  destruct (User.um_wf_get_user _ _ _ (i_users _ Hw) Huid) as (u & Hu & Hufd & Huid').
  destruct (i_sessions _ Hw _ _ Es) as (o & Ho & Hofd).
  apply wp_bind, wp_modify, wp_bind, wp_gets. cbn [user_manager set_epoll]. rewrite Hu.
  apply wp_bind, wp_ret, wp_bind, wp_modify.
  set (w1 := set_users _ _).
  assert (H1 : inv w1 /\ evolves w w1).
  { destruct (inv_set_epoll w (EpDel fd :: epoll_calls w) Hw) as [Hw0 Hev0].
    edestruct (inv_users _ (User.user_mark_disconnecting fd (user_manager w)) Hw0) as [Hw1 Hev1].
    - apply User.um_wf_mark, (i_users _ Hw).
    - intros fd'. rewrite User.fd_map_mark. apply (i_coherent _ Hw0).
    - intros uid' H. apply User.users_dom_mark in H. by apply (i_total _ Hw).
    - split; [exact Hw1 |]. by etransitivity. }
  destruct H1 as [Hw1 Hev1].
  apply wp_bind. apply (wp_get_session sid o); [exact Ho |]. apply wp_bind, wp_modify.
  destruct (put_session_same w1 sid o (Session.mark_disconnecting o) Hw1 Ho) as [Hw2 Hev2]; [done.. |].
  set (w2 := set_heap _ w1) in *.
  apply wp_bind. eapply wp_mono; [by apply wp_disconnect |].
  intros _ w3 [[Hw3 Hev3] E3]. apply wp_bind.
  assert (H4 : wp (if decide (User.current_room_ u <> RoomManager.LOBBY_ROOM_ID)
      then RoomManager.disconnect_session fd RoomManager.LOBBY_ROOM_ID else ret tt) F
      (fun _ w' => (inv w' /\ evolves w3 w') /\ w' = set_workers (room_workers w') w3) w3).
  { case_decide; [by apply wp_disconnect |]. apply wp_ret. by destruct w3. }
  eapply wp_mono; [exact H4 |]. clear H4. intros _ w4 [[Hw4 Hev4] E4].
  apply wp_bind, wp_modify, wp_modify.
  assert (Hum : user_manager w4 = User.user_mark_disconnecting fd (user_manager w)).
  { rewrite E4. cbn [user_manager set_workers]. by rewrite E3. }
  assert (Hu4 : User.get_user fd (user_manager w4) = Some (User.mark_diconnecting u)).
  { rewrite Hum. unfold User.get_user, User.user_mark_disconnecting. rewrite Huid. cbn.
    rewrite Huid, lookup_alter_eq. unfold User.get_user in Hu. rewrite Huid in Hu. by rewrite Hu. }
  destruct (inv_drop_connection w4 fd _ Hw4 Hu4) as [Hw5 Hev5]. split; [exact Hw5 |].
  etransitivity; [exact Hev1 |]. etransitivity; [exact Hev2 |].
  etransitivity; [exact Hev3 |]. etransitivity; [exact Hev4 |]. exact Hev5.
Qed.

Lemma handle_request_safe P fd ins : safe_ex F P (handle_request fd ins).
Proof.
  intros w Hw _. unfold handle_request, find_session. apply wp_bind, wp_gets.
  destruct (sessions w !! fd) as [sid |] eqn:Es; [| by apply (close_session_safe (fun _ => True))].
  destruct (i_sessions _ Hw _ _ Es) as (o & Ho & Hofd).
  apply wp_bind. eapply wp_get_session; [done |].
  pose proof (on_readable_fields ins o) as [Hfd Hs].
  destruct (Session.on_readable ins o) as [b o']. simpl in Hfd, Hs.
  destruct (put_session_same w sid o o' Hw Ho Hfd Hs) as [Hw' Hev].
  apply wp_bind, wp_modify.
  assert (Hk : safe_ex F (session_fact sid)
    (if b then handle_packets (length (Session.recv_buffer_ o')) sid else close_session fd)).
  { destruct b; [apply handle_packets_safe | apply close_session_safe]. }
  eapply wp_mono; [apply Hk; [done |] |].
  - unfold session_fact; simpl. rewrite lookup_insert_eq. eauto.
  - intros a w'' [? ?]. split; [done |]. by etransitivity.
Qed.

Lemma handle_epollout_safe P fd : safe_ex F P (handle_epollout fd).
Proof.
  intros w Hw _. unfold handle_epollout, find_session. apply wp_bind, wp_gets.
  destruct (sessions w !! fd) as [sid |] eqn:Es; [| by apply (close_session_safe (fun _ => True))].
  destruct (i_sessions _ Hw _ _ Es) as (o & Ho & Hofd).
  apply request_flush_safe; [done |]. by exists o.
Qed.

Lemma on_ready_safe P fd epollin epollout hangup :
  safe_ex F P (on_ready fd epollin epollout hangup).
Proof.
  apply (safe_weaken _ (fun _ => True)); [done |].
  apply safe_bind; [done | destruct epollin; [apply handle_request_safe | apply safe_ret] |].
  intros _. apply safe_bind; [done | destruct epollout; [apply handle_epollout_safe | apply safe_ret] |].
  intros _. destruct hangup; [apply close_session_safe | apply safe_ret].
Qed.

Lemma set_outs_safe sid outs : safe_ex F (session_fact sid) (set_outs sid outs).
Proof.
  intros w Hw [o Ho]. unfold set_outs. apply wp_bind. eapply wp_get_session; [done |].
  apply wp_modify. by eapply put_session_same.
Qed.

(** The database thread is about to place a room. *)
Definition placing (w : World) (status : Event.DBStatus) : Prop :=
  exists j, head (job_queue w) = Some j /\ RoomWorkerSafe.places (Event.on_result j) status.

Lemma db_step_safe status data draws :
  safe_ex F (fun w => RoomWorkerSafe.drawable (room_worker_num w) draws /\
      (room_worker_num w < 2 -> placing w status -> F BadDistribution)) (db_step status data draws).
Proof.
  apply safe_gets. intros w Hw [Hd Hbad]. destruct (job_queue w) as [| j js] eqn:Ej; [by apply wp_ret |].
  pose proof (i_jobs _ Hw) as Hj. rewrite Ej in Hj. inversion Hj as [| ? ? Hj1 Hj2]; subst.
  apply wp_bind, wp_modify. destruct (inv_set_jobs w js Hw Hj2) as [Hw' Hev].
  eapply wp_mono; [apply RoomWorkerSafe.run_callback_safe; [done |] |].
  { split; [done |]. intros Hp. split; [exact Hd |]. intros Hn. apply (Hbad Hn). exists j. by rewrite Ej. }
  intros a w'' [? ?]. split; [done |]. by etransitivity.
Qed.
End F.

Lemma handle_events_safe P : safe_ex only_epoll P handle_events.
Proof.
  apply safe_gets. intros w Hw _. set (n := length _). clearbody n. revert w Hw.
  induction n as [| n IH]; intros w Hw; [by apply wp_ret |]. cbn [handle_events_loop].
  apply wp_bind, wp_gets. destruct (main_events w) as [| e q]; [by apply wp_ret |].
  apply wp_bind, wp_modify. destruct (inv_set_main w q Hw) as [Hw1 Hev1]. apply wp_bind.
  assert (Hh : safe_ex only_epoll (fun _ => True) (handle_main_event e)).
  { unfold handle_main_event. destruct (Event.me_type e);
      [apply close_session_safe | apply epoll_ctl_safe | apply epoll_ctl_safe]. }
  eapply wp_mono; [by apply Hh |]. intros _ w2 [Hw2 Hev2].
  eapply wp_mono; [by apply IH |]. intros _ w3 [Hw3 Hev3]. split; [done |].
  etransitivity; [exact Hev1 |]. by etransitivity.
Qed.

Lemma accept_client_safe fd :
  safe_ex only_epoll (fun w => sessions w !! fd = None /\ 0 <= total_users w < 2 ^ 63 - 1)
    (accept_client fd).
Proof.
  intros w Hw [Hfd Ht]. unfold accept_client. case_decide; [by apply wp_ret |].
  apply wp_bind. unfold epoll_add, epoll_ctl. apply wp_bind, wp_gets.
  destruct (epoll_ctl_ok _ _); [| done]. apply wp_modify.
  destruct (inv_set_epoll w (EpAdd fd :: epoll_calls w) Hw) as [Hw1 Hev1].
  set (w1 := set_epoll _ w) in *.
  unfold add_session. apply wp_bind, wp_bind, wp_gets, wp_bind, wp_modify, wp_modify.
  apply wp_bind, wp_modify, wp_bind, wp_gets, wp_bind, wp_modify.
  cbn [total_users set_total set_sessions set_heap user_manager sessions].
  change (total_users w1) with (total_users w). change (sessions w1) with (sessions w).
  change (user_manager w1) with (user_manager w). change (heap w1) with (heap w).
  rewrite wrap_small by lia. rewrite (sgn_small 64) by (simpl; lia).
  set (sid := fresh (dom (heap w) : gset Room.Sid)).
  assert (Hsid : heap w1 !! sid = None).
  { apply not_elem_of_dom. apply (is_fresh (dom (heap w))). }
  destruct (inv_set_total w1 (total_users w + 1) Hw1) as [Hw2 Hev2]; [simpl; lia |].
  destruct (inv_new_connection (set_total (total_users w + 1) w1) fd sid (total_users w + 1)
    temp_name Hw2 Hsid Hfd) as [Hw3 Hev3]; [| simpl; lia |].
  { apply eq_None_not_Some. intros H1. apply (i_total _ Hw) in H1. lia. }
  rewrite emplace_fresh by done.
  match goal with |- wp _ _ _ ?w' => set (w3 := w') end.
  change (inv w3) in Hw3. change (evolves (set_total (total_users w + 1) w1) w3) in Hev3.
  apply wp_bind, wp_gets, wp_bind, wp_gets.
  assert (Hf3 : sessions w3 !! fd = Some sid) by apply lookup_insert_eq. rewrite Hf3.
  apply wp_bind. eapply wp_mono; [apply RoomWorkerSafe.route_event_safe; [exact Hw3 |] |].
  - split.
    + split_and!; simpl; try lia; [by intros a [= <-] |]. rewrite lookup_insert_eq. eauto.
    + intros _. apply (i_ids _ Hw3). unfold RoomManager.LOBBY_WORKER_ID. lia.
  - intros r w4 [Hw4 Hev4]. apply wp_ret. split; [done |].
    etransitivity; [exact Hev1 |]. etransitivity; [exact Hev2 |]. by etransitivity.
Qed.

(** Which transitions may end in a fault at all. *)
Definition may_throw (w : World) (l : Label) : Fault -> Prop :=
  match l with
  | LAccept _ | LMainEvents => only_epoll
  | LDb status _ _ => fun f => f = BadDistribution /\ room_worker_num w < 2 /\ placing w status
  | _ => no_fault
  end.

Lemma exec_safe l w :
  inv w -> enabled w l -> wp (exec l) (may_throw w l) (fun _ w' => inv w' /\ evolves w w') w.
Proof.
  intros Hw He. destruct l; simpl in *.
  - by apply accept_client_safe.
  - by apply (on_ready_safe (fun _ => True)).
  - by apply (handle_events_safe (fun _ => True)).
  - apply wp_bind. eapply wp_mono; [by apply RoomWorkerSafe.worker_step_safe |].
    intros; by apply wp_ret.
  - apply db_step_safe; [done |]. by split.
  - by apply set_outs_safe.
Qed.

(** ** The initial world *)

Lemma lookup_init_workers n wid r :
  RoomManager.init_workers n !! wid = Some r ->
  r = RoomManager.new_worker (worker_type wid).
Proof.
  unfold RoomManager.init_workers.
  assert (H0 : forall wid r, (emplace RoomManager.LOBBY_WORKER_ID (RoomManager.new_worker WLobby)
    (∅ : gmap Z RoomWorker)) !! wid = Some r -> r = RoomManager.new_worker (worker_type wid)).
  { intros wid' r'. rewrite emplace_fresh by apply lookup_empty.
    rewrite lookup_insert_Some, lookup_empty. intros [[<- <-] | [_ ?]]; [done | done]. }
  assert (Hseq : Forall (fun i => 0 <= i) (seqZ 0 (n - 1))).
  { apply Forall_forall. intros i Hi. apply elem_of_seqZ in Hi. lia. }
  revert H0 Hseq. generalize (emplace RoomManager.LOBBY_WORKER_ID (RoomManager.new_worker WLobby)
    (∅ : gmap Z RoomWorker)) as m, (seqZ 0 (n - 1)) as l.
  intros m l. revert m wid r. induction l as [| i l IH]; intros m wid r H0 Hl; simpl; [apply H0 |].
  inversion Hl; subst. apply IH; [| done]. intros wid' r'. unfold emplace.
  destruct (m !! (i + 2)); [apply H0 |]. rewrite lookup_insert_Some.
  intros [[<- <-] | [_ ?]]; [| by apply H0].
  unfold worker_type. by rewrite decide_False by lia.
Qed.

Lemma init_workers_ids n wid :
  1 <= wid <= Z.max 1 n -> is_Some (RoomManager.init_workers n !! wid).
Proof.
  intros Hw. unfold RoomManager.init_workers.
  assert (Hmono : forall l (m : gmap Z RoomWorker), is_Some (m !! wid) -> is_Some
    (foldl (fun m i => emplace (i + 2) (RoomManager.new_worker WRoom) m) m l !! wid)).
  { induction l as [| i l IH]; intros m Hm; [done |]. simpl. apply IH.
    unfold emplace. destruct (m !! (i + 2)); [done |]. apply lookup_insert_is_Some'. by right. }
  destruct (decide (wid = 1)) as [-> | Hne]; [apply Hmono, lookup_emplace_is_Some |].
  assert (Hin : wid - 2 ∈ seqZ 0 (n - 1)) by (apply elem_of_seqZ; lia).
  apply list_elem_of_split in Hin as (l1 & l2 & ->). rewrite foldl_app. simpl. apply Hmono.
  replace (wid - 2 + 2) with wid by lia. apply lookup_emplace_is_Some.
Qed.

Lemma init_inv n : inv (RoomManager.init_world n).
Proof.
  split; simpl; try done.
  - intros fd. by rewrite !lookup_empty.
  - apply init_workers_ids.
  - intros wid r Hr. apply lookup_init_workers in Hr as ->.
    split_and!; [done | | | constructor].
    + unfold RoomManager.new_worker, worker_type. case_decide as Hw; simpl; [| done].
      intros k room Hk. apply lookup_singleton_Some in Hk as [<- <-].
      split_and!; [done | by apply Room.new_room_wf | by right | done].
    + intros ->. simpl. rewrite lookup_singleton_eq. eauto.
  - intros room wid H. rewrite emplace_fresh in H by apply lookup_empty.
    apply lookup_insert_Some in H as [[<- <-] | [_ H]]; [| by rewrite lookup_empty in H].
    split; [done |]. apply init_workers_ids. unfold RoomManager.LOBBY_WORKER_ID. lia.
  - intros uid [u Hu]. by rewrite lookup_empty in Hu.
Qed.

Lemma reachable_inv n w : reachable n w -> inv w.
Proof.
  intros Hr. unfold reachable in Hr. remember (RoomManager.init_world n) as w0 eqn:E.
  assert (H0 : inv w0) by (rewrite E; apply init_inv). clear E.
  induction Hr as [| w1 w2 w3 (l & He & Hx) _ IH]; [done |]. apply IH.
  pose proof (exec_safe l w1 H0 He) as H. unfold wp in H. rewrite Hx in H. by destruct H.
Qed.

Lemma reachable_worker_num n w : reachable n w -> room_worker_num w = n.
Proof.
  intros Hr. assert (H : inv w /\ room_worker_num w = n); [| by destruct H].
  revert w Hr. apply rtc_ind_r; [split; [apply init_inv | done] |].
  intros w1 w2 Hr (l & He & Hx) [Hi Hn]. pose proof (exec_safe l w1 Hi He) as H. unfold wp in H. rewrite Hx in H.
  destruct H as [H2 (_ & _ & E)]. split; [done |]. congruence.
Qed.

(** ** Executable traces *)

#[global] Instance enabled_dec w l : Decision (enabled w l).
Proof. destruct l; simpl; try apply _. Defined.

(** Running a schedule, as long as every label is enabled and no handler stops. *)
Fixpoint run (ls : list Label) (w : World) : option World :=
  match ls with
  | [] => Some w
  | l :: ls' =>
      if decide (enabled w l) then
        match exec l w with Ok _ w' => run ls' w' | Stop _ => None end
      else None
  end.

Lemma run_reachable ls n w w' : reachable n w -> run ls w = Some w' -> reachable n w'.
Proof.
  revert w. induction ls as [| l ls IH]; intros w Hw H; simpl in H; [by simplify_eq |].
  case_decide as He; [| done]. destruct (exec l w) as [[] w1 |] eqn:E; [| done].
  apply (IH w1); [| done]. eapply rtc_r; [exact Hw |]. by exists l.
Qed.

(** ** Properties *)

(** C4: no handler of the running server faults, with two exceptions. In every
    world a server with any number [n] of workers can reach, under every
    interleaving of the main thread, the workers and the database thread and for
    every behaviour of clients, sockets and queries, an enabled transition
    either completes in a world that satisfies the global invariant again; or it
    is [accept_client] or [handle_events] and what stopped it is an [epoll_ctl]
    call that failed; or there are fewer than two workers and it is the database
    thread placing a new room, whose distribution is then undefined. Nothing
    else ever dereferences a null or dangling pointer, reads an action past the
    end, or misses a worker. *)
Theorem server_safe n w l :
  reachable n w -> enabled w l ->
  match exec l w with
  | Ok _ w' => inv w' /\ reachable n w'
  | Stop f =>
      f = EpollCtlFailed /\ ((exists fd, l = LAccept fd) \/ l = LMainEvents) \/
      f = BadDistribution /\ n < 2 /\ exists status data draws, l = LDb status data draws /\ placing w status
  end.
Proof.
  intros Hr He. pose proof (exec_safe l w (reachable_inv n w Hr) He) as H. unfold wp in H.
  destruct (exec l w) as [[] w' | f] eqn:E.
  - destruct H as [Hw' _]. split; [done |]. eapply rtc_r; [exact Hr |]. by exists l.
  - rewrite <- (reachable_worker_num n w Hr). destruct l; simpl in H; try done; [left; eauto.. |].
    right. destruct H as (-> & Hn & Hp). split_and!; [done.. |]. eauto.
Qed.

(** Capacity and ownership in every reachable world. Each room is stored
    under its own id, ordinary rooms hold at most 5 sessions and the lobby at
    most 999, every session a room holds is a live [Session] object registered
    under its own descriptor, and the lobby is never deleted. *)
Theorem server_capacity n w wid r k room :
  reachable n w -> room_workers w !! wid = Some r -> rooms_ r !! k = Some room ->
  Room.room_id_ room = k /\
  Z.of_nat (size (Room.sessions_ room)) <= (if decide (wid = 1 /\ k = 1) then 999 else 5) /\
  (forall fd sid, Room.sessions_ room !! fd = Some sid ->
     exists o, heap w !! sid = Some o /\ Session.get_fd o = fd) /\
  (exists lobby, room_workers w !! 1 = Some lobby /\ is_Some (rooms_ lobby !! 1)).
Proof.
  intros Hr Hwid Hk. pose proof (reachable_inv n w Hr) as Hw.
  destruct (i_workers _ Hw _ _ Hwid) as (_ & Hrooms & _ & _).
  destruct (Hrooms _ _ Hk) as (Hid & [Hs Hc] & Hmax & Href).
  split_and!; [done | | |].
  - unfold RoomManager.MAX_LOBBY_SESSIONS in Hmax. case_decide as Hd; [lia |].
    destruct Hmax as [? | (-> & -> & _)]; [lia |]. by destruct Hd.
  - intros fd sid H. by apply Href.
  - destruct (i_ids _ Hw 1) as [lobby Hl]; [lia |]. exists lobby. split; [done |].
    destruct (i_workers _ Hw _ _ Hl) as (_ & _ & H & _). by apply H.
Qed.

End System.

(** ** Reachable worlds by execution *)

(** The world a schedule leads to on a two-worker server; the initial one if
    the schedule is not executable. *)
Definition after (ls : list Label) : World :=
  default (RoomManager.init_world 2) (run ls (RoomManager.init_world 2)).

(** The world after client 5 has asked for a room on a server with [n] workers. *)
Definition create_frame : bytes :=
  Session.frame (replicate 3 x00, mkHeader x00, mkRequest 0 0 (command_byte CMD_CREATE_ROOM), []).
Definition asks_for_room : list Label :=
  [LAccept 5; LWorker 1; LReady 5 (Some [Session.RecvData create_frame; Session.RecvAgain]) false false; LWorker 1].
Definition asked_on (n : Z) : World :=
  default (RoomManager.init_world n) (run asks_for_room (RoomManager.init_world n)).

Lemma asked_on_reachable n : reachable n (asked_on n).
Proof.
  unfold asked_on. destruct (run asks_for_room _) as [w |] eqn:E; [| apply rtc_refl].
  by eapply run_reachable; [apply rtc_refl |].
Qed.

Lemma after_reachable ls : reachable 2 (after ls).
Proof.
  unfold after. destruct (run ls _) as [w |] eqn:E; [| apply rtc_refl].
  by eapply run_reachable; [apply rtc_refl |].
Qed.

Lemma after_inv ls : inv (after ls).
Proof. apply (reachable_inv 2), after_reachable. Qed.

(** One client, descriptor 5, in the lobby. *)
Definition one_client : World := after [LAccept 5; LWorker 1].

(** The two exceptions are real, see [stale_epollout_stops_server] for the first;
    this is the second: on a server with one worker, a CREATE whose insertion
    succeeds. *)
Lemma server_safe_witness :
  exec (LDb Event.DBSuccess (i64_enc 100) []) (asked_on 1) = Stop BadDistribution /\
  match exec (LDb Event.DBSuccess (i64_enc 100) []) (asked_on 1) with
  | Ok _ w' => inv w' /\ reachable 1 w'
  | Stop f =>
      f = EpollCtlFailed /\ ((exists fd, LDb Event.DBSuccess (i64_enc 100) [] = LAccept fd) \/
        LDb Event.DBSuccess (i64_enc 100) [] = LMainEvents) \/
      f = BadDistribution /\ 1 < 2 /\ exists status data draws,
        LDb Event.DBSuccess (i64_enc 100) [] = LDb status data draws /\ placing (asked_on 1) status
  end.
Proof.
  split; [by vm_compute |].
  apply (server_safe 1); [apply asked_on_reachable | by apply (bool_decide_unpack _); vm_compute].
Defined.

Lemma server_capacity_witness :
  exists r room, room_workers one_client !! 1 = Some r /\ rooms_ r !! 1 = Some room /\
    Room.room_id_ room = 1 /\
    Z.of_nat (size (Room.sessions_ room)) <= (if decide (1 = 1 /\ 1 = 1) then 999 else 5) /\
    (forall fd sid, Room.sessions_ room !! fd = Some sid ->
       exists o, heap one_client !! sid = Some o /\ Session.get_fd o = fd) /\
    (exists lobby, room_workers one_client !! 1 = Some lobby /\ is_Some (rooms_ lobby !! 1)).
Proof.
  eexists _, _. do 2 (split; [by vm_compute |]).
  eapply (server_capacity 2 one_client 1 _ 1); [apply after_reachable | by vm_compute | by vm_compute].
Defined.

(** ** A schedule that stops the server

    A client is accepted and enters the lobby; it asks to join a room that does
    not exist; the response is sent in part and the worker asks the main thread
    for EPOLLOUT; before the main thread handles that request, the connection
    hangs up and is closed. *)
Definition join_frame (room_id : Z) : bytes :=
  Session.frame (replicate 3 x00, mkHeader x00,
    mkRequest room_id 0 (command_byte CMD_JOIN_ROOM), []).

Definition stale_schedule : list Label :=
  [LAccept 5; LWorker 1;
   LReady 5 (Some [Session.RecvData (join_frame 7); Session.RecvAgain]) false false;
   LKernel 0%nat [Session.SendN 4; Session.SendAgain]; LWorker 1;
   LReady 5 None false true].

(** C34: a queued request for EPOLLOUT outlives its connection. With one client
    that hangs up while a response is half sent, the server reaches a world in
    which [handle_events] stops with the exception of [Epoll::enable_epoll_out]
    (nothing on the path to [main] catches it, so the server ends); and
    whenever the front main event names a descriptor that is no longer
    registered the same happens, whatever the kernel. *)
Theorem stale_epollout_stops_server :
  (exists w, reachable 2 w /\ enabled w LMainEvents /\ exec LMainEvents w = Stop EpollCtlFailed) /\
  (forall (Indet : Indeterminate) (Kernel : EpollKernel) w fd q,
     main_events w = Event.mkMainEvent Event.EnableEpollOut fd :: q ->
     registered (epoll_calls w) fd = false ->
     exec LMainEvents w = Stop EpollCtlFailed).
Proof.
  split.
  - exists (after stale_schedule). split_and!; [apply after_reachable | done |].
    by vm_compute.
  - intros Indet Kernel w fd q Hq Hreg. simpl. unfold handle_events, bind at 1, gets. rewrite Hq.
    cbn [length handle_events_loop]. unfold bind, gets, modify. rewrite Hq.
    unfold handle_main_event. cbn. unfold enable_epollout, epoll_ctl, bind, gets. cbn.
    by rewrite epoll_mod_enoent.
Qed.

End System.
