(* ===== verification/RoomWorkerSpec.v ===== *)
(** * RoomWorkerSpec: what the room workers' operations do

    The functional behaviour of the operations of RoomWorker.v on every
    branch: joining, leaving, broadcasting, answering. The [wp_*] lemmas give
    the exact next world of each branch; the properties are stated with the
    views below ([room_in], [user_of], [out]) and say what changed and what
    did not. *)

From S2P Require Import Prelude Codec Wire Decimal Session User Room Event World RoomManager.
From S2P Require Import RoomWorker Invariant RoomWorkerSafe Server System.

Module RoomWorkerSpec.
Import Protocol World Invariant.

(** ** Views of a world *)

Definition room_in (w : World) (wid k : Z) : option Room.Room :=
  r ← room_workers w !! wid; rooms_ r !! k.

Definition user_of (w : World) (fd : Z) : option User.User := User.get_user fd (user_manager w).

(** All the bytes sent, or queued to be sent, on a session. *)
Definition out (w : World) (sid : Room.Sid) : option bytes :=
  Session.sent_stream <$> heap w !! sid.

Definition queue (w : World) (wid : Z) : option (list Event.RoomEvent) :=
  event_queue_ <$> room_workers w !! wid.

(** A room after one more session, and after one less. *)
Definition joined (fd : Z) (sid : Room.Sid) (room : Room.Room) : Room.Room :=
  (Room.join_session fd sid room).2.
Definition left_ (fd : Z) (room : Room.Room) : Room.Room := (Room.exit_session fd room).2.

Definition is_full (room : Room.Room) : Prop := Room.current_sessions_ room >= Room.max_sessions_ room.

(** The world in which worker [wid]'s rooms are [rs]. *)
Definition with_rooms (wid : Z) (r : RoomWorker) (rs : gmap Z Room.Room) (w : World) : World :=
  set_workers (<[wid := set_rooms rs r]> (room_workers w)) w.

Definition with_user_room (fd k : Z) (w : World) : World :=
  set_users (User.user_set_room fd k (user_manager w)) w.

(** The packets the server sends. *)
Definition response_packet (pad : bytes) (command : byte) (result : Result) (body : bytes) : bytes :=
  serialize_packet pad (mkHeader (packet_type_byte PKT_RESPONSE))
    (mkResponse (wrap 32 (size_of body)) command (status_byte (result_to_resresultcode result))) body.

Definition broadcast_packet (pad : bytes) (sender_id room_id : Z) (body : bytes) : bytes :=
  serialize_packet pad (mkHeader (packet_type_byte PKT_BROADCAST))
    (mkBroadcast sender_id room_id (wrap 32 (size_of body)) (event_byte EVT_MESSAGE)) body.

Section Spec.
Context {Indet : Indeterminate} {SService : IServerService} {F : Fault -> Prop}.

(** ** Exact steps *)

Lemma wp_join_session wid r k sid o Q w :
  room_workers w !! wid = Some r -> heap w !! sid = Some o ->
  (rooms_ r !! k = None -> Q RoomNotFound w) ->
  (forall room, rooms_ r !! k = Some room ->
     (is_full room -> Q RoomFull w) /\
     (~ is_full room ->
      let w1 := with_rooms wid r (<[k := joined (Session.fd o) sid room]> (rooms_ r)) w in
      (user_of w (Session.fd o) = None -> Q UserNotFound w1) /\
      (is_Some (user_of w (Session.fd o)) -> Q Success (with_user_room (Session.fd o) k w1)))) ->
  wp (RoomWorker.join_room_session wid (Some sid) k) F Q w.
Proof.
  intros Hr Ho Hnone Hsome. unfold RoomWorker.join_room_session.
  apply wp_bind. eapply RoomWorkerSafe.wp_get_rooms; [done |].
  destruct (rooms_ r !! k) as [room |] eqn:Hk; [| by apply wp_ret, Hnone].
  destruct (Hsome room eq_refl) as [Hfull Hroom]. unfold is_full in *.
  apply wp_bind. eapply wp_session_fd; [done |]. apply wp_bind, wp_ret.
  unfold joined, Room.join_session in *. case_decide as Hd; [by apply wp_ret, Hfull |].
  destruct (Hroom Hd) as [Hu1 Hu2]. cbn [snd] in *.
  apply wp_bind. eapply RoomWorkerSafe.wp_put_rooms; [done |]. apply wp_bind, wp_gets.
  unfold user_of in *. cbn [user_manager set_workers].
  destruct (User.get_user _ _) as [u |]; [| by apply wp_ret, Hu1].
  apply wp_bind, wp_modify, wp_ret, Hu2. eauto.
Qed.

Lemma wp_leave_fd wid r fd k Q w :
  room_workers w !! wid = Some r ->
  (rooms_ r !! k = None -> Q RoomNotFound w) ->
  (forall room, rooms_ r !! k = Some room ->
     (Room.sessions_ room !! fd = None -> Q UserNotFound w) /\
     (is_Some (Room.sessions_ room !! fd) ->
        (~ (Room.current_sessions_ room <= 1 /\ type_ r = WRoom) ->
           Q Success (with_rooms wid r (<[k := left_ fd room]> (rooms_ r)) w)) /\
        (Room.current_sessions_ room <= 1 /\ type_ r = WRoom ->
           Q Success (with_rooms wid r (delete (Room.room_id_ room) (<[k := left_ fd room]> (rooms_ r)))
              (set_room_to_worker (delete (Room.room_id_ room) (room_to_worker w)) w))))) ->
  wp (RoomWorker.leave_room_fd wid fd k) F Q w.
Proof.
  intros Hr Hnone Hsome. unfold RoomWorker.leave_room_fd.
  apply wp_bind. eapply RoomWorkerSafe.wp_get_rooms; [done |].
  destruct (rooms_ r !! k) as [room |] eqn:Hk; [| by apply wp_ret, Hnone].
  destruct (Hsome room eq_refl) as [Hout Hin]. unfold left_, Room.exit_session in *.
  destruct (Room.sessions_ room !! fd) as [s |]; [| by apply wp_ret, Hout].
  destruct (Hin ltac:(eauto)) as [Hstay Hgone]. cbn [snd] in *.
  apply wp_bind. eapply RoomWorkerSafe.wp_put_rooms; [done |].
  apply wp_bind. eapply wp_get_worker; [apply lookup_insert_eq |]. apply wp_bind.
  unfold Room.get_sessions_num. cbn [Room.current_sessions_ Room.room_id_ type_ set_rooms].
  case_decide as Hd.
  - apply wp_bind, wp_modify. eapply RoomWorkerSafe.wp_put_rooms; [apply lookup_insert_eq |].
    apply wp_ret. cbn [room_workers set_room_to_worker set_workers].
    rewrite insert_insert_eq. apply Hgone. split; [lia | apply Hd].
  - apply wp_ret, wp_ret, Hstay. intros [? ?]. apply Hd. split; [lia | done].
Qed.

(** Sending appends to the stream of that session, and at most queues a main event. *)
Lemma wp_send_packet sid o data Q w :
  heap w !! sid = Some o -> Session.sending_ o = false ->
  (forall o' evs, Session.fd o' = Session.fd o -> Session.sending_ o' = false ->
     Session.sent_stream o' = Session.sent_stream o ++ data ->
     Q tt (set_main (main_events w ++ evs) (set_heap (<[sid := o']> (heap w)) w))) ->
  wp (RoomWorker.send_packet (Some sid) data) F Q w.
Proof.
  intros Ho Hs HQ. unfold RoomWorker.send_packet. apply wp_bind, wp_ret, wp_bind.
  eapply wp_get_session; [done |].
  destruct (Session.flush (Session.pack data o)) as [res o'] eqn:E.
  pose proof (Session.flush_frame _ _ _ E) as (Hfd & _).
  apply Session.flush_stream in E as (Hst & Hs' & _); [| done].
  rewrite Session.pack_stream in Hst. specialize (HQ o').
  apply wp_bind, wp_modify. destruct res.
  - apply wp_ret. specialize (HQ []). rewrite app_nil_r in HQ. by apply HQ.
  - eapply wp_ok; [apply enable_queues |]. by apply HQ.
  - eapply wp_ok; [apply close_queues |]. by apply HQ.
Qed.

Lemma wp_send_response e sid o Q w :
  Event.session e = Some sid -> heap w !! sid = Some o -> Session.sending_ o = false ->
  (forall o' evs pad, Session.fd o' = Session.fd o -> Session.sending_ o' = false ->
     length pad = npad Response ->
     Session.sent_stream o' = Session.sent_stream o ++
       response_packet pad (Event.initial_command e) (Event.result_code e) (Event.response_data e) ->
     Q tt (set_main (main_events w ++ evs) (set_heap (<[sid := o']> (heap w)) w))) ->
  wp (RoomWorker.send_response e) F Q w.
Proof.
  intros He Ho Hs HQ. unfold RoomWorker.send_response. apply wp_bind, wp_gets. rewrite He.
  eapply wp_send_packet; [done | done |]. intros o' evs Hfd Hs' Hst.
  apply (HQ o' evs (padding w (npad Response))); [done | done | apply length_padding | done].
Qed.

Lemma wp_route e t wid r Q w :
  wid = (if decide (t = 0) then default 0 (room_to_worker w !! Event.target_room_id e) else t) ->
  wid <> 0 -> room_workers w !! wid = Some r ->
  Q Success (set_workers (<[wid := set_queue (event_queue_ r ++ [e]) r]> (room_workers w)) w) ->
  wp (RoomManager.route_event e t) F Q w.
Proof. intros Hwid Hnz Hr HQ. eapply wp_ok; [by eapply RoomManager.route_event_ok | done]. Qed.

Lemma wp_worker_step wid r e q Q w :
  room_workers w !! wid = Some r -> event_queue_ r = e :: q ->
  wp (RoomWorker.process_event wid e) F (fun _ w' => Q true w')
    (set_workers (<[wid := set_queue q r]> (room_workers w)) w) ->
  wp (RoomWorker.worker_step wid) F Q w.
Proof.
  intros Hr Hq H. unfold RoomWorker.worker_step. apply wp_bind.
  eapply wp_get_worker; [done |]. rewrite Hq. apply wp_bind, wp_modify, wp_bind.
  eapply wp_mono; [exact H |]. intros [] w' HQ. by apply wp_ret.
Qed.

(** Placing a room: the two candidates and the choice. *)
Definition placed (w : World) (draws : list Z) (wid : Z) : Prop :=
  exists c1 c2 r1 r2, hd_error draws = Some c1 /\ c2 ∈ draws /\
    2 <= c1 <= room_worker_num w /\ 2 <= c2 <= room_worker_num w /\
    (room_worker_num w >= 3 -> c1 <> c2) /\
    room_workers w !! c1 = Some r1 /\ room_workers w !! c2 = Some r2 /\
    wid = if decide (size (rooms_ r1) < size (rooms_ r2))%nat then c1 else c2.

Lemma bind_worker_ok w room_id draws :
  (forall wid, 2 <= wid <= room_worker_num w -> is_Some (room_workers w !! wid)) ->
  RoomWorkerSafe.draws_ok (room_worker_num w) draws ->
  exists wid, placed w draws wid /\
    RoomManager.bind_room_worker room_id draws w =
    Ok wid (set_room_to_worker (emplace room_id wid (room_to_worker w)) w).
Proof.
  intros Hw (Hn & Hd & Hdraws). destruct draws as [| c1 rest]; [done |].
  destruct Hdraws as (Hne & Hex). rewrite Exists_exists in Hex.
  destruct (RoomManager.draw_second_terminates c1 (room_worker_num w) rest Hne Hex) as [c2 Hc2].
  pose proof (RoomManager.draw_second_spec _ _ _ _ Hc2) as [Hin Hdiff].
  inversion Hd as [| ? ? Hc1 Hrest]; subst. rewrite Forall_forall in Hrest. specialize (Hrest _ Hin).
  destruct (Hw c1) as [r1 Hr1]; [lia |]. destruct (Hw c2) as [r2 Hr2]; [lia |].
  eexists. split.
  - exists c1, c2, r1, r2. split_and!; try done; try lia. by constructor.
  - unfold RoomManager.bind_room_worker, bind at 1, gets. unfold bind at 1.
    rewrite decide_False by (unfold RoomManager.LOBBY_WORKER_ID; lia). cbn [ret].
    rewrite Hc2. cbn [mbind option_bind deref]. rewrite bind_ret.
    unfold RoomManager.get_rooms_num, get_worker, bind, ret, modify. by rewrite Hr1, Hr2.
Qed.

(** ** Views after an update *)

Lemma room_in_with_rooms wid r rs w wid' k :
  room_in (with_rooms wid r rs w) wid' k = if decide (wid = wid') then rs !! k else room_in w wid' k.
Proof.
  unfold room_in, with_rooms; simpl. case_decide as E; [subst; by rewrite lookup_insert_eq |].
  by rewrite lookup_insert_ne.
Qed.

Lemma user_of_with_user_room fd k w fd' :
  inv w ->
  user_of (with_user_room fd k w) fd' =
  if decide (fd = fd') then User.set_current_room k <$> user_of w fd' else user_of w fd'.
Proof. intros Hw. unfold user_of. simpl. apply User.get_user_set_room, (i_users _ Hw). Qed.

Lemma room_in_Some w wid k room r :
  room_workers w !! wid = Some r -> room_in w wid k = Some room <-> rooms_ r !! k = Some room.
Proof. intros Hr. unfold room_in. by rewrite Hr. Qed.

Lemma room_in_worker w wid k r : room_workers w !! wid = Some r -> room_in w wid k = rooms_ r !! k.
Proof. intros Hr. unfold room_in. by rewrite Hr. Qed.

(** What neither joining nor leaving touches. *)
Definition same_elsewhere (w w' : World) : Prop :=
  heap w' = heap w /\ sessions w' = sessions w /\ job_queue w' = job_queue w /\
  main_events w' = main_events w /\ epoll_calls w' = epoll_calls w /\
  (forall wid, queue w' wid = queue w wid).

Lemma queue_with_rooms wid r rs w wid' :
  room_workers w !! wid = Some r -> queue (with_rooms wid r rs w) wid' = queue w wid'.
Proof.
  intros Hr. unfold queue, with_rooms; simpl. destruct (decide (wid = wid')) as [-> |].
  - by rewrite lookup_insert_eq, Hr.
  - by rewrite lookup_insert_ne.
Qed.

(** ** Sending to many sessions *)

(** Whether a broadcast in room [k] sent from [sender_fd] goes to [fd]. *)
Definition receives (w : World) (k sender_fd fd : Z) : Prop :=
  fd <> sender_fd /\ User.current_room_ <$> user_of w fd = Some k.

#[global] Instance receives_dec w k sfd fd : Decision (receives w k sfd fd).
Proof. unfold receives. apply _. Defined.

(** A world whose users and workers are those of [w] and whose sessions differ
    only by what was appended to them. *)
Definition appended (w w' : World) (data : Room.Sid -> bytes) : Prop :=
  user_manager w' = user_manager w /\ room_workers w' = room_workers w /\
  room_to_worker w' = room_to_worker w /\ job_queue w' = job_queue w /\
  (forall sid o, heap w !! sid = Some o ->
     exists o', heap w' !! sid = Some o' /\ Session.fd o' = Session.fd o /\
       Session.sending_ o' = Session.sending_ o /\
       Session.sent_stream o' = Session.sent_stream o ++ data sid).

Lemma appended_refl w data : (forall sid, is_Some (heap w !! sid) -> data sid = []) -> appended w w data.
Proof.
  intros H. split_and!; try done. intros sid o Ho. exists o. rewrite H, app_nil_r by eauto. done.
Qed.

Lemma appended_trans w1 w2 w3 d1 d2 :
  appended w1 w2 d1 -> appended w2 w3 d2 -> appended w1 w3 (fun sid => d1 sid ++ d2 sid).
Proof.
  intros (A1 & A2 & A3 & A4 & A5) (B1 & B2 & B3 & B4 & B5). split_and!; try congruence.
  intros sid o Ho. destruct (A5 _ _ Ho) as (o2 & H2 & F2 & S2 & T2).
  destruct (B5 _ _ H2) as (o3 & H3 & F3 & S3 & T3). exists o3. split_and!; try congruence.
  by rewrite T3, T2, <- app_assoc.
Qed.

Lemma appended_ext w1 w2 d1 d2 :
  (forall sid, is_Some (heap w1 !! sid) -> d1 sid = d2 sid) -> appended w1 w2 d1 -> appended w1 w2 d2.
Proof.
  intros E (A1 & A2 & A3 & A4 & A5). split_and!; try done. intros sid o Ho.
  rewrite <- E by eauto. by apply A5.
Qed.

Lemma wp_send_appended sid data w :
  inv w -> is_Some (heap w !! sid) ->
  wp (RoomWorker.send_packet (Some sid) data) F
    (fun _ w' => appended w w' (fun s => if decide (s = sid) then data else [])) w.
Proof.
  intros Hw [o Ho]. pose proof (i_sending _ Hw _ _ Ho) as Hs. simpl in Hs.
  eapply wp_send_packet; [done | done |]. intros o' evs Hfd Hs' Hst. split_and!; try done. simpl.
  intros s os Hos. case_decide as E.
  - subst. exists o'. rewrite lookup_insert_eq. split_and!; congruence.
  - exists os. rewrite lookup_insert_ne by done. by rewrite app_nil_r.
Qed.

(** One iteration of the broadcast loop. *)
Lemma wp_broadcast_to e k data sid o sender so w :
  inv w -> heap w !! sid = Some o -> Event.session e = Some sender -> heap w !! sender = Some so ->
  wp (RoomWorker.broadcast_to e k data sid) F
    (fun _ w' => appended w w'
       (fun s => if decide (s = sid /\ receives w k (Session.fd so) (Session.fd o)) then data else [])) w.
Proof.
  intros Hw Ho He Hso. unfold RoomWorker.broadcast_to. rewrite He.
  apply wp_bind. eapply wp_session_fd; [done |]. apply wp_bind. eapply wp_session_fd; [done |].
  assert (Hno : ~ receives w k (Session.fd so) (Session.fd o) -> appended w w (fun s =>
    if decide (s = sid /\ receives w k (Session.fd so) (Session.fd o)) then data else [])).
  { intros H. apply appended_refl. intros s _. by rewrite decide_False by tauto. }
  case_decide as Hfd; [apply wp_ret, Hno; by intros [? _] |].
  apply wp_bind, wp_gets. destruct (User.get_user _ _) as [u |] eqn:Eu.
  - case_decide as Hc; [apply wp_ret, Hno; unfold receives, user_of; rewrite Eu; naive_solver |].
    eapply wp_mono; [apply wp_send_appended; [done | eauto] |]. intros x w2 H.
    eapply appended_ext; [| exact H]. intros s _. simpl. apply decide_ext.
    assert (receives w k (Session.fd so) (Session.fd o)); [| tauto].
    unfold receives, user_of. rewrite Eu. split; [done | by rewrite <- Hc].
  - apply wp_ret, Hno. unfold receives, user_of. rewrite Eu. naive_solver.
Qed.

(** What a broadcast over the entries [l] of a room appends to session [s]. *)
Definition broadcast_data (w : World) (k sender_fd : Z) (l : list (Z * Room.Sid)) (data : bytes)
    (s : Room.Sid) : bytes :=
  match heap w !! s with
  | Some o => if decide ((Session.fd o, s) ∈ l /\ receives w k sender_fd (Session.fd o)) then data else []
  | None => []
  end.

Lemma wp_broadcast_all e k data sender so l w :
  inv w -> Invariant.running_ok (heap w) e ->
  Event.session e = Some sender -> heap w !! sender = Some so -> NoDup l ->
  Forall (fun p => sess_ref (heap w) p.1 p.2) l ->
  wp (for_each l (fun s => RoomWorker.broadcast_to e k data s.2)) F
    (fun _ w' => inv w' /\ evolves w w' /\
       appended w w' (broadcast_data w k (Session.fd so) l data)) w.
Proof.
  intros Hw Hok He Hso Hnd Hl. revert w so Hw Hok Hso Hl.
  induction l as [| [fd sid] l IH]; intros w so Hw Hok Hso Hl; cbn [for_each].
  - apply wp_ret. split_and!; [done | reflexivity |]. apply appended_refl. intros s [o Ho].
    unfold broadcast_data. rewrite Ho, decide_False; [done |]. by intros [H _]; apply elem_of_nil in H.
  - apply NoDup_cons in Hnd as [Hni Hnd]. inversion Hl as [| ? ? (o & Ho & Hfd) Hl']; subst.
    cbn [fst snd] in *. subst fd. apply wp_bind. eapply wp_mono.
    { apply wp_conj; [apply RoomWorkerSafe.broadcast_to_safe; [done | split; [done | by exists o]] |].
      by eapply wp_broadcast_to. }
    intros x w1 [[Hw1 Hev1] H1]. clear x. pose proof Hev1 as (Hle & _).
    destruct (Hle _ _ Hso) as (so1 & Hso1 & Hfd1). eapply wp_mono.
    { apply (IH Hnd w1 so1); [done | by eapply running_ok_mono | done |].
      eapply Forall_impl; [exact Hl' |]. intros p. by apply sess_ref_mono. }
    intros x w2 (Hw2 & Hev2 & H2). split_and!; [done | by etransitivity |].
    eapply appended_ext; [| exact (appended_trans _ _ _ _ _ H1 H2)].
    intros s [os Hos]. simpl. destruct (Hle _ _ Hos) as (os1 & Hos1 & Hfds).
    destruct H1 as (Hum & _).
    assert (Hr : receives w1 k (Session.fd so1) (Session.fd os1) <->
                 receives w k (Session.fd so) (Session.fd os)).
    { unfold receives, user_of. by rewrite Hum, Hfd1, Hfds. }
    unfold broadcast_data. rewrite Hos, Hos1.
    assert (Hcons : (Session.fd os, s) ∈ (Session.fd o, sid) :: l <-> s = sid \/ (Session.fd os1, s) ∈ l).
    { rewrite elem_of_cons, Hfds. split; [intros [[= _ ->] | ?]; auto |].
      intros [-> | ?]; [left; congruence | by right]. }
    assert (Hno : s = sid -> os = o /\ (Session.fd os1, s) ∉ l).
    { intros ->. assert (os = o) by congruence. subst os. rewrite Hfds. by split. }
    repeat case_decide; simpl; rewrite ?app_nil_r; try done; naive_solver.
Qed.

End Spec.

(** What a broadcast in [room] sent from [sender_fd] adds to session [s]: the
    packet if [s] is in the room, is not the sender's and its user is there. *)
Definition broadcast_to_sessions (w : World) (k sender_fd : Z) (room : Room.Room) (packet : bytes)
    (s : Room.Sid) : bytes :=
  match heap w !! s with
  | Some o =>
      if decide (Room.sessions_ room !! Session.fd o = Some s /\ receives w k sender_fd (Session.fd o))
      then packet else []
  | None => []
  end.

(** ** Properties *)

(** What a join leaves behind when it is let in: the room has one more entry
    and one more head, every other room is what it was, and the user, if there
    is one, is now in this room. *)
Definition join_effect (w w' : World) (wid k : Z) (sid : Room.Sid) (fd : Z) (room : Room.Room) : Prop :=
  (exists room', room_in w' wid k = Some room' /\
     Room.sessions_ room' = emplace fd sid (Room.sessions_ room) /\
     Room.current_sessions_ room' = Room.current_sessions_ room + 1) /\
  (forall wid' k', (wid', k') <> (wid, k) -> room_in w' wid' k' = room_in w wid' k') /\
  (forall fd', user_of w' fd' = if decide (fd = fd') then User.set_current_room k <$> user_of w fd'
                                else user_of w fd') /\
  room_to_worker w' = room_to_worker w /\ same_elsewhere w w'.

(** Joining a room, on every branch. [join_room] answers RoomNotFound or
    RoomFull without changing anything; otherwise the session is in the room,
    the user's current room is that room and nothing else has changed, and the
    answer is Success exactly when the user still exists. *)
Theorem join_room_spec {Indet : Indeterminate} {SService : IServerService} w wid k sid o :
  inv w -> is_Some (room_workers w !! wid) -> heap w !! sid = Some o ->
  exists res w', RoomWorker.join_room_session wid (Some sid) k w = Ok res w' /\
    match room_in w wid k with
    | None => res = RoomNotFound /\ w' = w
    | Some room =>
        if decide (is_full room) then res = RoomFull /\ w' = w
        else join_effect w w' wid k sid (Session.fd o) room /\
             (res = Success <-> is_Some (user_of w (Session.fd o))) /\
             (res = UserNotFound <-> user_of w (Session.fd o) = None)
    end.
Proof.
  intros Hw [r Hr] Ho. rewrite (room_in_worker _ _ _ _ Hr).
  assert (Hev : forall room, rooms_ r !! k = Some room -> ~ is_full room ->
    let w1 := with_rooms wid r (<[k := joined (Session.fd o) sid room]> (rooms_ r)) w in
    join_effect w (with_user_room (Session.fd o) k w1) wid k sid (Session.fd o) room).
  { intros room Hk Hnf w1. unfold join_effect, joined, Room.join_session.
    unfold is_full in Hnf. split_and!; try done.
    - exists (joined (Session.fd o) sid room).
      change (room_in (with_user_room (Session.fd o) k w1) wid k) with (room_in w1 wid k).
      unfold w1. rewrite room_in_with_rooms, decide_True, lookup_insert_eq by done.
      unfold joined, Room.join_session. by rewrite decide_False.
    - intros wid' k' Hne.
      change (room_in (with_user_room (Session.fd o) k w1) wid' k') with (room_in w1 wid' k').
      unfold w1. rewrite room_in_with_rooms. case_decide as E; [subst wid' | done].
      rewrite lookup_insert_ne by congruence. symmetry. by apply room_in_worker.
    - intros fd'. exact (User.get_user_set_room _ _ _ k (i_users _ Hw)).
    - split_and!; try done. intros wid'. by apply (queue_with_rooms wid r). }
  apply wp_no_fault_ok. eapply wp_join_session; [done | done | intros ->; done |].
  intros room Hk. rewrite Hk. split; [intros Hf; by rewrite decide_True |].
  intros Hnf w1. rewrite !decide_False by done. specialize (Hev room Hk Hnf). split.
  - intros Hu. split_and!; [| rewrite Hu; split; [done | by intros [? ?]] | done].
    unfold join_effect in *. assert (E : with_user_room (Session.fd o) k w1 = w1); [| by rewrite <- E].
    unfold with_user_room, w1, with_rooms, set_users, set_workers; cbn.
    replace (User.user_set_room (Session.fd o) k (user_manager w)) with (user_manager w); [done |].
    unfold user_of in Hu. apply User.get_user_None_iff in Hu; [| apply (i_users _ Hw)].
    unfold User.user_set_room. by rewrite Hu.
  - intros Hu. split; [done |]. split; [done |]. split; [done |]. intros E. rewrite E in Hu. by destruct Hu.
Qed.

Lemma join_room_spec_witness :
  exists res w', RoomWorker.join_room_session 2 (Some 0%nat) 100 System.one_client = Ok res w'.
Proof.
  destruct (join_room_spec System.one_client 2 100 0%nat (default (Session.new_session 0)
    (heap System.one_client !! 0%nat)) (System.after_inv _))
    as (res & w' & E & _); [by apply (bool_decide_unpack _); vm_compute | by vm_compute | eauto].
Defined.

(** Leaving a room, on every branch. [leave_room] answers RoomNotFound or
    UserNotFound without changing anything; otherwise the session is no longer
    in the room. When nobody is counted inside any more, an ordinary worker
    deletes the room together with its entry in the routing table, so the two
    never disagree; the lobby stays. The user's current room is not touched. *)
Theorem leave_room_spec {Indet : Indeterminate} {SService : IServerService} w wid fd k :
  inv w -> is_Some (room_workers w !! wid) ->
  exists res w', RoomWorker.leave_room_fd wid fd k w = Ok res w' /\
    match room_in w wid k with
    | None => res = RoomNotFound /\ w' = w
    | Some room =>
        if decide (Room.sessions_ room !! fd = None) then res = UserNotFound /\ w' = w
        else res = Success /\ same_elsewhere w w' /\ user_manager w' = user_manager w /\
          (forall wid' k', (wid', k') <> (wid, k) -> room_in w' wid' k' = room_in w wid' k') /\
          if decide (Room.current_sessions_ room <= 1 /\ wid <> 1)
          then room_in w' wid k = None /\ room_to_worker w' = delete k (room_to_worker w)
          else room_to_worker w' = room_to_worker w /\
               exists room', room_in w' wid k = Some room' /\
                 Room.sessions_ room' = delete fd (Room.sessions_ room) /\
                 Room.current_sessions_ room' = Room.current_sessions_ room - 1
    end.
Proof.
  intros Hw [r Hr]. rewrite (room_in_worker _ _ _ _ Hr).
  destruct (i_workers _ Hw _ _ Hr) as (Hty & Hrooms & _).
  assert (Hwty : type_ r = WRoom <-> wid <> 1).
  { rewrite Hty. unfold worker_type. case_decide; naive_solver. }
  apply wp_no_fault_ok. eapply wp_leave_fd; [done | intros ->; done |].
  intros room Hk. rewrite Hk. destruct (Hrooms _ _ Hk) as (Hid & _).
  assert (Hin : forall rs rt w', w' = with_rooms wid r rs (set_room_to_worker rt w) ->
    room_in w' wid k = rs !! k).
  { intros rs rt w' ->. by rewrite room_in_with_rooms, decide_True. }
  assert (Hother : forall rs rt w', w' = with_rooms wid r rs (set_room_to_worker rt w) ->
    (forall k', k' <> k -> rs !! k' = rooms_ r !! k') ->
    forall wid' k', (wid', k') <> (wid, k) -> room_in w' wid' k' = room_in w wid' k').
  { intros rs rt w' -> Hrs wid' k' Hne. rewrite room_in_with_rooms. case_decide as E; [| done].
    subst. rewrite (room_in_worker _ _ _ _ Hr). apply Hrs. congruence. }
  split; [intros Hf; by rewrite decide_True |].
  intros [s Hs]. assert (Hnn : Room.sessions_ room !! fd <> None) by congruence.
  rewrite Hwty in *.
  split; intros Hd; (rewrite !(decide_False (P := Room.sessions_ room !! fd = None)) by done);
    (split; [done |]);
    (split; [split_and!; try done; intros wid'; exact (queue_with_rooms wid r _ w _ Hr) |]);
    (split; [done |]).
  - rewrite !decide_False by done. split; [| split; [done |]].
    + eapply (Hother _ (room_to_worker w)); [by destruct w |]. intros k' Hk'. by rewrite lookup_insert_ne.
    + exists (left_ fd room). split.
      * by erewrite (Hin _ (room_to_worker w)), lookup_insert_eq by by destruct w.
      * unfold left_, Room.exit_session. by rewrite Hs.
  - rewrite !decide_True by done. rewrite Hid. split; [| split; [| done]].
    + eapply Hother; [done |]. intros k' Hk'. by rewrite lookup_delete_ne, lookup_insert_ne.
    + by erewrite Hin, lookup_delete_eq.
Qed.

Lemma leave_room_spec_witness :
  exists res w', RoomWorker.leave_room_fd 1 5 1 System.one_client = Ok res w'.
Proof.
  destruct (leave_room_spec System.one_client 1 5 1 (System.after_inv _))
    as (res & w' & E & _); [by apply (bool_decide_unpack _); vm_compute | eauto].
Defined.

(** Sending on a room this worker owns. *)
Lemma wp_send_message {Indet : Indeterminate} {SService : IServerService} {F : Fault -> Prop}
    w wid e k sender so r room :
  inv w -> room_workers w !! wid = Some r -> rooms_ r !! k = Some room -> running_ok (heap w) e ->
  Event.action_room <$> (Event.actions e !! pred (Event.current_action e)) = Some k ->
  Event.session e = Some sender -> heap w !! sender = Some so ->
  wp (RoomWorker.send_message wid e) F
    (fun res w' => res = Success /\ inv w' /\ evolves w w' /\
       exists pad, length pad = npad Broadcast /\
       appended w w' (fun s => broadcast_to_sessions w k (Session.fd so) room
         (broadcast_packet pad (User.get_user_id (Session.fd so) (user_manager w)) k
            (Event.request_data e)) s)) w.
Proof.
  intros Hw Hr Er Hok Hk He Hso. apply fmap_Some in Hk as (a & Ha & ->).
  unfold RoomWorker.send_message, RoomWorker.current_room. rewrite Ha.
  apply wp_bind, wp_ret, wp_bind. eapply RoomWorkerSafe.wp_get_rooms; [done |]. rewrite Er.
  rewrite He. apply wp_bind. eapply wp_session_fd; [done |]. apply wp_bind, wp_gets, wp_bind, wp_gets.
  destruct (i_workers _ Hw _ _ Hr) as (_ & Hrooms & _). destruct (Hrooms _ _ Er) as (_ & _ & _ & Hss).
  apply wp_bind. eapply wp_mono.
  { eapply (wp_broadcast_all e); [done | done | done | done | apply NoDup_map_to_list |].
    apply Forall_forall. intros [fd s] Hin. apply elem_of_map_to_list in Hin. by apply Hss. }
  intros x w' (Hw' & Hev & H). apply wp_ret. split_and!; [done | done | done |].
  exists (padding w (npad Broadcast)). split; [apply length_padding |].
  eapply appended_ext; [| exact H]. intros s [o Ho]. unfold broadcast_data, broadcast_to_sessions.
  rewrite Ho. apply decide_ext. by rewrite elem_of_map_to_list.
Qed.

(** Who hears a message. [send_message] answers RoomNotFound and sends
    nothing when the room is not here; otherwise exactly the sessions of the
    room other than the sender whose user's current room is this room get the
    broadcast packet, once each, at the end of their stream; no other session
    gets a byte, and users, rooms, queues and routing are untouched. *)
Theorem send_message_spec {Indet : Indeterminate} {SService : IServerService} w wid e k sender so :
  inv w -> is_Some (room_workers w !! wid) -> running_ok (heap w) e ->
  Event.action_room <$> (Event.actions e !! pred (Event.current_action e)) = Some k ->
  Event.session e = Some sender -> heap w !! sender = Some so ->
  exists res w', RoomWorker.send_message wid e w = Ok res w' /\
    match room_in w wid k with
    | None => res = RoomNotFound /\ w' = w
    | Some room =>
        res = Success /\
        exists pad, length pad = npad Broadcast /\
        appended w w' (fun s => broadcast_to_sessions w k (Session.fd so) room
          (broadcast_packet pad (User.get_user_id (Session.fd so) (user_manager w)) k
             (Event.request_data e)) s)
    end.
Proof.
  intros Hw [r Hr] Hok Hk He Hso. rewrite (room_in_worker _ _ _ _ Hr). apply wp_no_fault_ok.
  destruct (rooms_ r !! k) as [room |] eqn:Er.
  - eapply wp_mono; [by eapply wp_send_message |]. intros res w' (-> & _ & _ & H). done.
  - apply fmap_Some in Hk as (a & Ha & ->).
    unfold RoomWorker.send_message, RoomWorker.current_room. rewrite Ha.
    apply wp_bind, wp_ret, wp_bind. eapply RoomWorkerSafe.wp_get_rooms; [done |]. rewrite Er.
    by apply wp_ret.
Qed.

(** Client 5 says something in the lobby; its event after the first fetch. *)
Definition hello : Event.RoomEvent :=
  Event.set_current 1 (RoomManager.plan (RoomManager.packet_event
    (mkPacket (mkHeader x00) (mkRequest 1 2 (command_byte CMD_SEND_MESSAGE)) [x68; x69]) 0%nat)).

Lemma send_message_spec_witness :
  exists res w', RoomWorker.send_message 1 hello System.one_client = Ok res w'.
Proof.
  destruct (send_message_spec System.one_client 1 hello 1 0%nat (default (Session.new_session 0)
    (heap System.one_client !! 0%nat)) (System.after_inv _)) as (res & w' & E & _); [.. | eauto].
  - by apply (bool_decide_unpack _); vm_compute.
  - split; [split_and! | split].
    + vm_compute. lia.
    + vm_compute. lia.
    + intros a H. vm_compute in H. by injection H as <-.
    + by apply (bool_decide_unpack _); vm_compute.
    + vm_compute. lia.
    + done.
  - by vm_compute.
  - done.
  - by vm_compute.
Defined.

(** Placement of a new room. From a well-formed world and draws inside the
    distribution's range, [bind_room_worker] looks at two ordinary workers
    (different ones when there are at least two to choose from), picks one that
    owns no more rooms than the other, and records it in the routing table
    unless the room is already routed; nothing else changes. *)
Theorem bind_room_worker_spec w room_id draws :
  inv w -> RoomWorkerSafe.draws_ok (room_worker_num w) draws ->
  exists wid other r1 r2,
    RoomManager.bind_room_worker room_id draws w =
      Ok wid (set_room_to_worker (emplace room_id wid (room_to_worker w)) w) /\
    (2 <= wid <= room_worker_num w) /\ (2 <= other <= room_worker_num w) /\
    (room_worker_num w >= 3 -> wid <> other) /\ wid ∈ draws /\ other ∈ draws /\
    room_workers w !! wid = Some r1 /\ room_workers w !! other = Some r2 /\
    type_ r1 = WRoom /\ (size (rooms_ r1) <= size (rooms_ r2))%nat.
Proof.
  intros Hw Hd. destruct (bind_worker_ok w room_id draws) as (wid & (c1 & c2 & r1 & r2 & Hhd & Hin & Hc1 & Hc2 & Hne & Hr1 & Hr2 & ->) & E);
    [intros wid ?; apply (i_ids _ Hw); lia | done |].
  assert (Hin1 : c1 ∈ draws).
  { destruct draws; [done |]. injection Hhd as ->. by constructor. }
  assert (Hty : forall c r, 2 <= c -> room_workers w !! c = Some r -> type_ r = WRoom).
  { intros c r Hc Hr. destruct (i_workers _ Hw _ _ Hr) as (-> & _). unfold worker_type.
    by rewrite decide_False by lia. }
  rewrite E. case_decide as Hlt.
  - exists c1, c2, r1, r2. split_and!; try done; try lia. eapply (Hty c1); [lia | done].
  - exists c2, c1, r2, r1. split_and!; try done; try lia. eapply (Hty c2); [lia | done].
Qed.

Lemma bind_room_worker_spec_witness :
  RoomWorkerSafe.draws_ok 2 [2; 2] /\
  exists wid, RoomManager.bind_room_worker 100 [2; 2] System.one_client =
    Ok wid (set_room_to_worker (emplace 100 wid (room_to_worker System.one_client)) System.one_client).
Proof.
  split; [by apply (bool_decide_unpack _); vm_compute |].
  destruct (bind_room_worker_spec System.one_client 100 [2; 2] (System.after_inv _))
    as (wid & other & r1 & r2 & E & _); [by apply (bool_decide_unpack _); vm_compute | eauto].
Defined.

End RoomWorkerSpec.
