(* ===== verification/FlushConc.v ===== *)
(** * FlushConc: Session::pack and Session::flush under concurrency

    A session is written to by several worker threads at once: the worker of
    the room the client is in broadcasts to it, the worker of the room it left
    answers its request, and the worker of its current room flushes it after
    EPOLLOUT. This file takes [Session::pack], [Session::flush]
    (server/src/network/Session.cpp) and their two callers
    [RoomWorker::send_packet] and [RoomWorker::flush]
    (server/src/room/RoomWorker.cpp) apart into the steps between which other
    threads can run: every operation on the atomic [sending_], every critical
    section of [send_queue_mutex_], every [::send], and the request posted to
    the main thread afterwards. The main thread's side is the part of
    [Server::handle_events] that concerns this connection.

    Session.v and RoomWorker.v have the same functions as one step each;
    [send_packet_runs_alone] relates the two. *)

From S2P Require Import Prelude Wire Session User Room Event World RoomManager RoomWorker Server.

Module FlushConc.
Import World.

(** ** Threads *)

(** Who called [flush], which decides what is requested afterwards. *)
Inductive Caller := BySendPacket | ByFlush.

(** Where a thread is; the comments give the lines of Session.cpp to come. *)
Inductive Pc :=
  | Idle
  | Packing (data : bytes)                          (* pack: emplace under the lock *)
  | Cas (o : Caller)                                (* compare_exchange_strong *)
  | Front (o : Caller)                              (* empty()? front(), under the lock *)
  | Sending (o : Caller)                            (* the inner while, one ::send *)
  | Popping (o : Caller)                            (* pop(), under the lock *)
  | Releasing (o : Caller)                          (* sending_.store(false) *)
  | Testing (o : Caller)                            (* is_send_queue_empty() *)
  | Exchanging (o : Caller)                         (* sending_.exchange(true) *)
  | GivingUp (o : Caller) (r : Session.FlushResult) (* store(false); return r *)
  | Posting (o : Caller) (r : Session.FlushResult). (* the caller's switch on r *)

Definition set_sending (b : bool) (s : Session.Session) : Session.Session :=
  Session.set_send (Session.send_queue_ s) b (Session.sock_outs s) (Session.sock_wire s) s.
Definition set_queue (q : list Session.SendBuffer) (s : Session.Session) : Session.Session :=
  Session.set_send q (Session.sending_ s) (Session.sock_outs s) (Session.sock_wire s) s.

(** One [::send] of the front buffer [b], and what follows it. *)
Definition send_once (o : Caller) (b : Session.SendBuffer) (q : list Session.SendBuffer)
    (s : Session.Session) : Pc * Session.Session :=
  let took outs := Session.set_send (b :: q) (Session.sending_ s) outs (Session.sock_wire s) s in
  if decide (Session.offset b < length (Session.buffer b))%nat then
    match Session.sock_outs s with
    | [] => (GivingUp o Session.Pending, s)
    | Session.SendN n :: outs =>
        let chunk := take n (drop (Session.offset b) (Session.buffer b)) in
        if decide (length chunk = 0%nat) then (GivingUp o Session.Error, took outs)
        else (Sending o, Session.set_send
               (Session.mkSendBuffer (Session.buffer b) (Session.offset b + length chunk) :: q)
               (Session.sending_ s) outs (Session.sock_wire s ++ chunk) s)
    | Session.SendAgain :: outs => (GivingUp o Session.Pending, took outs)
    | Session.SendIntr :: outs => (Sending o, took outs)
    | Session.SendErr :: outs => (GivingUp o Session.Error, took outs)
    end
  else (Popping o, s).

(** One step of a thread; [None] for a thread at rest, and for a use of the
    front of an empty queue. *)
Definition tstep (pc : Pc) (s : Session.Session) : option (Pc * Session.Session) :=
  match pc with
  | Idle => None
  | Packing data => Some (Cas BySendPacket, Session.pack data s)
  | Cas o =>
      if Session.sending_ s then Some (Posting o Session.Complete, s)
      else Some (Front o, set_sending true s)
  | Front o =>
      match Session.send_queue_ s with
      | [] => Some (Posting o Session.Complete, set_sending false s)
      | _ :: _ => Some (Sending o, s)
      end
  | Sending o =>
      match Session.send_queue_ s with [] => None | b :: q => Some (send_once o b q s) end
  | Popping o =>
      match Session.send_queue_ s with [] => None | _ :: q => Some (Releasing o, set_queue q s) end
  | Releasing o => Some (Testing o, set_sending false s)
  | Testing o =>
      if Session.is_send_queue_empty s then Some (Posting o Session.Complete, s)
      else Some (Exchanging o, s)
  | Exchanging o =>
      if Session.sending_ s then Some (Posting o Session.Complete, s)
      else Some (Front o, set_sending true s)
  | GivingUp o r => Some (Posting o r, set_sending false s)
  | Posting _ _ => Some (Idle, s)
  end.

(** The [switch] of [RoomWorker::send_packet] and of [RoomWorker::flush]. *)
Definition request (o : Caller) (r : Session.FlushResult) : list Event.MainEventType :=
  match o, r with
  | BySendPacket, Session.Pending => [Event.EnableEpollOut]
  | BySendPacket, Session.Complete => []
  | ByFlush, Session.Pending => []
  | ByFlush, Session.Complete => [Event.DisalbeEpollOut]
  | _, Session.Error => [Event.Disconnect]
  end.

(** What the main thread will be asked by this step. *)
Definition posted (pc : Pc) : list Event.MainEventType :=
  match pc with Posting o r => request o r | _ => [] end.

(** What this step adds to the session's output. *)
Definition packs (pc : Pc) : bytes := match pc with Packing data => data | _ => [] end.

(** ** The connection and its threads *)

Record State := mkState {
  sess : Session.Session;
  pcs : gmap Z Pc;                        (* threads at rest are absent *)
  posts : list Event.MainEventType;       (* main_events_, this descriptor's *)
  armed : bool;                           (* registered for EPOLLOUT *)
  closing : bool;                         (* Disconnect was handled *)
  flushes : nat;                          (* FLUSH events on their way to a worker *)
  packed : bytes }.                       (* all that was ever packed, in order *)

Definition pc (st : State) (t : Z) : Pc := default Idle (pcs st !! t).

Definition set_pc (t : Z) (p : Pc) (st : State) : State :=
  mkState (sess st) (<[t := p]> (pcs st)) (posts st) (armed st) (closing st) (flushes st) (packed st).

Definition init (fd : Z) : State :=
  mkState (Session.new_session fd) ∅ [] false false 0 [].

Inductive Label :=
  | LSend (t : Z) (data : bytes)          (* thread t calls send_packet *)
  | LFlush (t : Z)                        (* thread t takes a FLUSH event *)
  | LThread (t : Z)                       (* thread t makes a step *)
  | LKernel (outs : list Session.SendOut) (* what the coming ::sends answer *)
  | LEpollOut                             (* epoll reports the socket writable *)
  | LMain.                                (* handle_events takes one event *)

Definition thread_step (t : Z) (st : State) : option State :=
  match tstep (pc st t) (sess st) with
  | None => None
  | Some (p, s) =>
      Some (mkState s (<[t := p]> (pcs st)) (posts st ++ posted (pc st t)) (armed st) (closing st)
              (flushes st) (packed st ++ packs (pc st t)))
  end.

(** The three cases of [handle_events]; after [Disconnect] the descriptor is
    no longer this connection's. *)
Definition main_step (st : State) : option State :=
  match posts st with
  | [] => None
  | e :: q =>
      if closing st then None else
      Some (match e with
            | Event.EnableEpollOut => mkState (sess st) (pcs st) q true false (flushes st) (packed st)
            | Event.DisalbeEpollOut => mkState (sess st) (pcs st) q false false (flushes st) (packed st)
            | Event.Disconnect => mkState (sess st) (pcs st) q false true (flushes st) (packed st)
            end)
  end.

Definition set_outs (outs : list Session.SendOut) (s : Session.Session) : Session.Session :=
  Session.set_send (Session.send_queue_ s) (Session.sending_ s) outs (Session.sock_wire s) s.

Definition exec (l : Label) (st : State) : option State :=
  match l with
  | LSend t data => match pc st t with Idle => Some (set_pc t (Packing data) st) | _ => None end
  | LFlush t =>
      match pc st t, flushes st with
      | Idle, S n =>
          Some (mkState (sess st) (<[t := Cas ByFlush]> (pcs st)) (posts st) (armed st) (closing st) n
                  (packed st))
      | _, _ => None
      end
  | LThread t => thread_step t st
  | LKernel outs =>
      Some (mkState (set_outs outs (sess st)) (pcs st) (posts st) (armed st) (closing st) (flushes st)
              (packed st))
  | LEpollOut =>
      if armed st then
        Some (mkState (sess st) (pcs st) (posts st) true (closing st) (S (flushes st)) (packed st))
      else None
  | LMain => main_step st
  end.

Definition step (st st' : State) : Prop := exists l, exec l st = Some st'.
Definition reachable (fd : Z) (st : State) : Prop := rtc step (init fd) st.

(** Executions in which no FLUSH event is taken. *)
Definition send_step (st st' : State) : Prop :=
  exists l, (forall t, l <> LFlush t) /\ exec l st = Some st'.
Definition reachable_sending (fd : Z) (st : State) : Prop := rtc send_step (init fd) st.

Definition quiescent (st : State) : Prop := forall t, pc st t = Idle.

Fixpoint run (ls : list Label) (st : State) : option State :=
  match ls with [] => Some st | l :: ls' => st' ← exec l st; run ls' st' end.

Lemma run_conc_reachable ls fd st st' : reachable fd st -> run ls st = Some st' -> reachable fd st'.
Proof.
  revert st. induction ls as [| l ls IH]; intros st Hr H; cbn in H; [by injection H as <- |].
  destruct (exec l st) as [st1 |] eqn:E; [| done]. cbn in H.
  apply (IH st1); [| done]. eapply rtc_r; [exact Hr | by exists l].
Qed.

Lemma pc_insert t p t' m s q a c f k :
  pc (mkState s (<[t := p]> m) q a c f k) t' = if decide (t' = t) then p else default Idle (m !! t').
Proof.
  unfold pc; cbn. case_decide; subst; [by rewrite lookup_insert_eq | by rewrite lookup_insert_ne].
Qed.

Lemma quiescent_list st : Forall (fun tp => tp.2 = Idle) (map_to_list (pcs st)) -> quiescent st.
Proof.
  intros H t. unfold pc. destruct (pcs st !! t) as [p |] eqn:E; [| done].
  apply elem_of_map_to_list in E. rewrite Forall_forall in H. apply (H _ E).
Qed.

(** ** Ownership of [sending_] *)

(** The thread between a successful exchange and the store that releases it. *)
Definition owns (p : Pc) : Prop :=
  match p with
  | Front _ | Sending _ | Popping _ | Releasing _ | GivingUp _ _ => True
  | _ => False
  end.

#[global] Instance owns_dec p : Decision (owns p).
Proof. destruct p; cbn; apply _. Defined.

(** The owner holds a pointer to the front buffer. *)
Definition pointer_ok (p : Pc) (q : list Session.SendBuffer) : Prop :=
  match p with
  | Sending _ => q <> []
  | Popping _ => exists b q', q = b :: q' /\ Session.buffer_rest b = []
  | _ => True
  end.

(** An owner is unique, and there is one exactly while [sending_] is set. *)
Definition exclusive (f : Z -> Pc) (sending : bool) : Prop :=
  (forall t1 t2, owns (f t1) -> owns (f t2) -> t1 = t2) /\
  (sending = true <-> exists t, owns (f t)).

Record conc_inv (st : State) : Prop := {
  ci_excl : exclusive (pc st) (Session.sending_ (sess st));
  ci_pointer : forall t, pointer_ok (pc st t) (Session.send_queue_ (sess st));
  ci_stream : Session.sent_stream (sess st) = packed st }.

Section Exclusive.
Context (f g : Z -> Pc) (t : Z) (Hg : forall t', t' <> t -> g t' = f t').

Lemma exclusive_same b : (owns (g t) <-> owns (f t)) -> exclusive f b -> exclusive g b.
Proof using Hg.
  intros Ht [Hu He]. assert (H : forall t', owns (g t') <-> owns (f t')).
  { intros t'. destruct (decide (t' = t)) as [-> | Hne]; [done | by rewrite Hg]. }
  split; [intros t1 t2; rewrite !H; apply Hu |]. rewrite He. by setoid_rewrite H.
Qed.

Lemma exclusive_acquire : owns (g t) -> exclusive f false -> exclusive g true.
Proof using Hg.
  intros Ht [Hu He]. assert (Hno : forall t', ~ owns (f t')).
  { intros t' H. assert (false = true) by (apply He; by exists t'). done. }
  assert (H : forall t', owns (g t') -> t' = t).
  { intros t' Ho. destruct (decide (t' = t)); [done |]. rewrite Hg in Ho by done. by apply Hno in Ho. }
  split; [intros t1 t2 H1 H2; by rewrite (H t1), (H t2) |]. split; [by exists t | done].
Qed.

Lemma exclusive_release b : owns (f t) -> ~ owns (g t) -> exclusive f b -> exclusive g false.
Proof using Hg.
  intros Ht Hn [Hu He]. assert (H : forall t', ~ owns (g t')).
  { intros t' Ho. destruct (decide (t' = t)) as [-> | Hne]; [done |]. rewrite Hg in Ho by done.
    by apply Hne, Hu. }
  split; [by intros t1 t2 ?%H |]. split; [done | by intros [t' ?%H]].
Qed.

(** An owner sees [sending_] set. *)
Lemma exclusive_owner b : owns (f t) -> exclusive f b -> b = true.
Proof using Type. intros Ho [_ He]. apply He. by exists t. Qed.
End Exclusive.

(** What a step of one thread does to [sending_]. *)
Inductive own_effect (p p' : Pc) (b b' : bool) : Prop :=
  | own_same : b' = b -> (owns p' <-> owns p) -> own_effect p p' b b'
  | own_acquire : b = false -> b' = true -> ~ owns p -> owns p' -> own_effect p p' b b'
  | own_release : b' = false -> owns p -> ~ owns p' -> own_effect p p' b b'.

Lemma send_once_ok o b q s p' s' :
  send_once o b q s = (p', s') -> Session.send_queue_ s = b :: q ->
  Session.sent_stream s' = Session.sent_stream s /\ pointer_ok p' (Session.send_queue_ s') /\
  owns p' /\ Session.sending_ s' = Session.sending_ s.
Proof.
  unfold send_once. intros H Hq. case_decide as Hlt.
  - destruct (Session.sock_outs s) as [| [n | | |] outs]; try case_decide as Hz;
      injection H as <- <-; unfold Session.sent_stream; cbn; rewrite ?Hq; try done.
    split_and!; try done. rewrite <- app_assoc. f_equal. unfold Session.queue_bytes; cbn.
    rewrite app_assoc. f_equal. unfold Session.buffer_rest; cbn. rewrite <- drop_drop.
    set (d := drop _ _). rewrite length_take. destruct (decide (n <= length d)%nat).
    + rewrite Nat.min_l by done. apply take_drop.
    + rewrite Nat.min_r by lia. by rewrite take_ge, drop_ge, app_nil_r by lia.
  - injection H as <- <-. cbn. split_and!; try done. exists b, q. split; [done |].
    apply drop_ge. lia.
Qed.

(** The four conclusions below, for a step that sends nothing. *)
Ltac settle effect :=
  cbn; rewrite ?app_nil_r; split_and!;
  [done | done | apply effect; cbn; solve [done | tauto]
  | first [by left | right; exists []; by rewrite app_nil_r]].

Lemma tstep_ok p s p' s' :
  tstep p s = Some (p', s') -> pointer_ok p (Session.send_queue_ s) ->
  Session.sent_stream s' = Session.sent_stream s ++ packs p /\
  pointer_ok p' (Session.send_queue_ s') /\
  own_effect p p' (Session.sending_ s) (Session.sending_ s') /\
  (owns p \/ exists l, Session.send_queue_ s' = Session.send_queue_ s ++ l).
Proof.
  intros H Hp. destruct p as [| data | o | o | o | o | o | o | o | o r | o r]; cbn in H, Hp.
  - done.
  - injection H as <- <-. split_and!; [apply Session.pack_stream | done | by apply own_same |].
    right. by eexists.
  - destruct (Session.sending_ s) eqn:E; injection H as <- <-; rewrite ?E; [settle own_same | settle own_acquire].
  - destruct (Session.send_queue_ s) eqn:E; injection H as <- <-; unfold Session.sent_stream; cbn;
      rewrite ?E; [settle own_release | settle own_same].
  - destruct (Session.send_queue_ s) as [| b q] eqn:E; [done |]. injection H as H.
    apply send_once_ok in H as (H1 & H2 & H3 & H4); [| done]. rewrite app_nil_r, H4.
    split_and!; [done | done | by apply own_same | left; done].
  - destruct Hp as (b & q & E & Hb). rewrite E in H. injection H as <- <-.
    split_and!; [| done | by apply own_same | by left].
    unfold Session.sent_stream; cbn. rewrite E. unfold Session.queue_bytes; cbn. by rewrite Hb, app_nil_r.
  - injection H as <- <-. settle own_release.
  - destruct (Session.is_send_queue_empty s); injection H as <- <-; settle own_same.
  - destruct (Session.sending_ s) eqn:E; injection H as <- <-; rewrite ?E; [settle own_same | settle own_acquire].
  - injection H as <- <-. settle own_release.
  - injection H as <- <-. settle own_same.
Qed.

Lemma pointer_ok_app p q l : pointer_ok p q -> pointer_ok p (q ++ l).
Proof.
  destruct p; cbn; try done; [by destruct q |]. intros (b & q' & -> & Hb). by exists b, (q' ++ l).
Qed.

Lemma pointer_ok_idle p q : ~ owns p -> pointer_ok p q.
Proof. destruct p; cbn; tauto. Qed.

Lemma thread_step_inv t st st' : conc_inv st -> thread_step t st = Some st' -> conc_inv st'.
Proof.
  intros [Hx Hp Hs] H. unfold thread_step in H.
  destruct (tstep (pc st t) (sess st)) as [[p s] |] eqn:E; [| done]. injection H as <-.
  apply tstep_ok in E as (E1 & E2 & E3 & E4); [| apply Hp].
  set (st' := mkState _ _ _ _ _ _ _).
  assert (Ht : pc st' t = p) by (unfold st'; by rewrite pc_insert, decide_True).
  assert (Hg : forall t', t' <> t -> pc st' t' = pc st t').
  { intros t' Hne. unfold st'. by rewrite pc_insert, decide_False. }
  split; cbn [sess packed st'].
  - destruct E3 as [-> Ho | Hb -> Hn Ho | -> Ho Hn].
    + apply (exclusive_same (pc st) _ t); [done | by rewrite Ht | done].
    + apply (exclusive_acquire (pc st) _ t); [done | by rewrite Ht | by rewrite <- Hb].
    + apply (exclusive_release (pc st) _ t Hg (Session.sending_ (sess st))); [done | by rewrite Ht | done].
  - intros t'. destruct (decide (t' = t)) as [-> | Hne]; [by rewrite Ht |]. rewrite Hg by done.
    destruct E4 as [Ho | [l ->]]; [| by apply pointer_ok_app].
    apply pointer_ok_idle. intros Ho'. by apply Hne, (proj1 Hx).
  - by rewrite E1, Hs.
Qed.

Lemma exec_inv l st st' : conc_inv st -> exec l st = Some st' -> conc_inv st'.
Proof.
  intros Hi H. destruct l as [t data | t | t | outs | |]; cbn in H.
  - destruct (pc st t) eqn:E; try done. injection H as <-. destruct Hi as [Hx Hp Hs].
    split; cbn; [| | done].
    + apply (exclusive_same (pc st) _ t); [| | done].
      * intros t' Hne. unfold set_pc. by rewrite pc_insert, decide_False.
      * unfold set_pc. by rewrite pc_insert, decide_True, E.
    + intros t'. unfold set_pc. rewrite pc_insert. case_decide; [done | apply Hp].
  - destruct (pc st t) eqn:E, (flushes st) as [| n] eqn:En; try done. injection H as <-.
    destruct Hi as [Hx Hp Hs]. split; cbn; [| | done].
    + apply (exclusive_same (pc st) _ t); [| | done].
      * intros t' Hne. by rewrite pc_insert, decide_False.
      * by rewrite pc_insert, decide_True, E.
    + intros t'. rewrite pc_insert. case_decide; [done | apply Hp].
  - by eapply thread_step_inv.
  - injection H as <-. by destruct Hi.
  - destruct (armed st) eqn:E; [| done]. injection H as <-. by destruct Hi.
  - unfold main_step in H. destruct (posts st) as [| e q]; [done |]. destruct (closing st); [done |].
    injection H as <-. by destruct Hi, e.
Qed.

Lemma init_conc_inv fd : conc_inv (init fd).
Proof.
  split; [| done | done]. split; [by intros t1 t2 H1 H2 |]. split; [done | by intros [t H]].
Qed.

Lemma reachable_conc_inv fd st : reachable fd st -> conc_inv st.
Proof.
  apply (rtc_ind_r conc_inv); [apply init_conc_inv |]. intros s1 s2 _ [l Hl] Hi. by eapply exec_inv.
Qed.

(** A busy thread can always make its step. *)
Lemma tstep_defined p s :
  p <> Idle -> pointer_ok p (Session.send_queue_ s) -> is_Some (tstep p s).
Proof.
  destruct p; cbn; intros Hp Hq; try done.
  - by case_match.
  - by case_match.
  - by destruct (Session.send_queue_ s).
  - by destruct Hq as (b & q & -> & _).
  - by case_match.
  - by case_match.
Qed.

(** ** Leftover bytes when only [send_packet] runs *)

Definition by_send (p : Pc) : Prop :=
  match p with
  | Idle | Packing _ => True
  | GivingUp o r => o = BySendPacket /\ r <> Session.Complete
  | Cas o | Front o | Sending o | Popping o | Releasing o | Testing o | Exchanging o | Posting o _ =>
      o = BySendPacket
  end.

(** Threads that will look at the queue again, or that will ask for help. *)
Definition retries (p : Pc) : Prop :=
  match p with
  | Cas _ | Testing _ | Exchanging _ => True
  | Posting _ r => r <> Session.Complete
  | _ => False
  end.

Definition asks (e : Event.MainEventType) : Prop := e <> Event.DisalbeEpollOut.
Definition heard (st : State) : Prop := armed st = true \/ closing st = true \/ posts st <> [].

Record sends_inv (st : State) : Prop := {
  si_by : forall t, by_send (pc st t);
  si_posts : Forall asks (posts st);
  si_live : Session.send_queue_ (sess st) <> [] ->
    Session.sending_ (sess st) = true \/ (exists t, retries (pc st t)) \/ heard st }.

Lemma send_once_by o b q s : o = BySendPacket -> by_send (send_once o b q s).1.
Proof. intros ->. unfold send_once. by repeat case_match. Qed.

Lemma send_once_sending o b q s : Session.sending_ (send_once o b q s).2 = Session.sending_ s.
Proof. unfold send_once. by repeat case_match. Qed.

(** The last conclusion below: one of its four cases. *)
Ltac live := intros Hq; first
  [ done | by left | by right; left | by right; right; left
  | right; right; right; split_and!; [done | done | by intros []] ].

Lemma tstep_sends p s p' s' :
  tstep p s = Some (p', s') -> by_send p ->
  by_send p' /\ Forall asks (posted p) /\
  (Session.send_queue_ s' <> [] ->
   Session.sending_ s' = true \/ retries p' \/ posted p <> [] \/
   (Session.send_queue_ s <> [] /\ Session.sending_ s' = Session.sending_ s /\ ~ retries p)).
Proof.
  intros H Hp. destruct p as [| data | o | o | o | o | o | o | o | o r | o r]; cbn in H, Hp; try done.
  - injection H as <- <-. split_and!; [done | constructor | live].
  - case_match eqn:E; injection H as <- <-; (split_and!; [done | constructor | live]).
  - destruct (Session.send_queue_ s) eqn:E; injection H as <- <-;
      (split_and!; [done | constructor | cbn; rewrite ?E; live]).
  - destruct (Session.send_queue_ s) as [| b q] eqn:E; [done |]. injection H as H.
    pose proof (send_once_by o b q s Hp) as H1. pose proof (send_once_sending o b q s) as H2.
    rewrite H in H1, H2. split_and!; [done | constructor | live].
  - destruct (Session.send_queue_ s) as [| b q] eqn:E; [done |]. injection H as <- <-.
    split_and!; [done | constructor | live].
  - injection H as <- <-. split_and!; [done | constructor | live].
  - unfold Session.is_send_queue_empty in H. case_bool_decide; injection H as <- <-;
      (split_and!; [done | constructor | live]).
  - case_match eqn:E; injection H as <- <-; (split_and!; [done | constructor | live]).
  - destruct Hp as [-> Hr]. injection H as <- <-. split_and!; [done | constructor | live].
  - injection H as <- <-. subst o. destruct r; (split_and!; [done | by repeat constructor | cbn; live]).
Qed.

Lemma thread_step_sends t st st' : sends_inv st -> thread_step t st = Some st' -> sends_inv st'.
Proof.
  intros [Hb Hp Hl] H. unfold thread_step in H.
  destruct (tstep (pc st t) (sess st)) as [[p s] |] eqn:E; [| done]. injection H as <-.
  apply tstep_sends in E as (E1 & E2 & E3); [| apply Hb].
  set (st' := mkState _ _ _ _ _ _ _).
  assert (Hpc : forall t', pc st' t' = if decide (t' = t) then p else pc st t').
  { intros t'. unfold st'. by rewrite pc_insert. }
  split; cbn [sess posts st'].
  - intros t'. rewrite Hpc. by case_decide.
  - by apply Forall_app.
  - intros Hq. destruct (E3 Hq) as [? | [Hr | [Hn | (Hq0 & Hs & Hr)]]]; [by left | | |].
    + right; left. exists t. by rewrite Hpc, decide_True.
    + right; right. right; right. cbn. intros Ha. by apply app_eq_nil in Ha as [_ ?].
    + destruct (Hl Hq0) as [? | [[t' Ht'] | Hh]]; [left; congruence | |].
      * right; left. exists t'. rewrite Hpc. case_decide; [congruence | done].
      * right; right. destruct Hh as [? | [? | Hn]]; [by left | by right; left |].
        right; right. cbn. intros Ha. by apply app_eq_nil in Ha as [? _].
Qed.

Lemma exec_sends l st st' :
  (forall t, l <> LFlush t) -> sends_inv st -> exec l st = Some st' -> sends_inv st'.
Proof.
  intros Hl Hi H. destruct l as [t data | t | t | outs | |]; cbn in H.
  - destruct (pc st t) eqn:E; try done. injection H as <-. destruct Hi as [Hb Hp Hw].
    assert (Hpc : forall t', pc (set_pc t (Packing data) st) t' =
      if decide (t' = t) then Packing data else pc st t') by (intros t'; unfold set_pc; by rewrite pc_insert).
    split; [intros t'; rewrite Hpc; by case_decide | done |].
    intros Hq. destruct (Hw Hq) as [? | [[t' Ht'] | ?]]; [by left | | by right; right].
    right; left. exists t'. rewrite Hpc. case_decide; [| done]. subst. by rewrite E in Ht'.
  - by destruct (Hl t).
  - by eapply thread_step_sends.
  - injection H as <-. by destruct Hi.
  - destruct (armed st) eqn:E; [| done]. injection H as <-. destruct Hi as [Hb Hp Hw]. split; try done.
    intros Hq. destruct (Hw Hq) as [? | [? | ?]]; [by left | by right; left |]. right; right. by left.
  - unfold main_step in H. destruct (posts st) as [| e q] eqn:Eq; [done |]. destruct (closing st) eqn:Ec; [done |].
    injection H as <-. destruct Hi as [Hb Hp Hw]. rewrite Eq in Hp. inversion Hp as [| ? ? Ha Hq']; subst.
    destruct e; [| | by destruct Ha]; (split; [exact Hb | exact Hq' |]); intros _; right; right;
      [by right; left | by left].
Qed.

Lemma reachable_sends_inv fd st : reachable_sending fd st -> sends_inv st /\ conc_inv st.
Proof.
  apply (rtc_ind_r (fun st => sends_inv st /\ conc_inv st)).
  - split; [| apply init_conc_inv]. by split; cbn; [intros t; unfold pc; cbn; rewrite lookup_empty | |].
  - intros s1 s2 _ (l & Hl & H) [H1 H2]. split; [by eapply exec_sends | by eapply exec_inv].
Qed.

(** ** A call that runs without interruption *)

Definition alone (t : Z) (st st' : State) : Prop := thread_step t st = Some st'.

(** Steps of one thread that post and pack nothing. *)
Definition quiet (c c' : Pc * Session.Session) : Prop :=
  tstep c.1 c.2 = Some c' /\ posted c.1 = [] /\ packs c.1 = [].

Lemma quiet_alone t c c' :
  rtc quiet c c' -> forall st, pc st t = c.1 -> sess st = c.2 ->
  exists st', rtc (alone t) st st' /\ pc st' t = c'.1 /\ sess st' = c'.2 /\ posts st' = posts st /\
    (forall t', t' <> t -> pc st' t' = pc st t').
Proof.
  induction 1 as [c | c [p1 s1] c' (H & Hp & Hk) _ IH]; intros st Hpc Hs; [by exists st |].
  set (st1 := mkState s1 (<[t := p1]> (pcs st)) (posts st ++ posted (pc st t)) (armed st) (closing st)
                (flushes st) (packed st ++ packs (pc st t))).
  assert (E : alone t st st1) by (unfold alone, thread_step; by rewrite Hpc, Hs, H, <- Hpc).
  destruct (IH st1) as (st' & H1 & H2 & H3 & H4 & H5);
    [unfold st1; by rewrite pc_insert, decide_True | done |].
  exists st'. split_and!; [by eapply rtc_l | done | done | |].
  - rewrite H4. cbn. by rewrite Hpc, Hp, app_nil_r.
  - intros t' Hne. rewrite H5 by done. unfold st1. by rewrite pc_insert, decide_False.
Qed.

Lemma quiet_l p s p1 s1 c : tstep p s = Some (p1, s1) -> posted p = [] -> packs p = [] ->
  rtc quiet (p1, s1) c -> rtc quiet (p, s) c.
Proof. intros H1 H2 H3 H. by eapply rtc_l; [split_and! |]. Qed.

Lemma send_buffer_runs o b q outs wire s r b' outs' wire' :
  Session.send_buffer outs b wire = (r, b', outs', wire') ->
  rtc quiet (Sending o, Session.set_send (b :: q) true outs wire s)
    (match r with
     | Session.BDone => Popping o
     | Session.BPending => GivingUp o Session.Pending
     | Session.BError => GivingUp o Session.Error
     end, Session.set_send (b' :: q) true outs' wire' s).
Proof.
  revert b wire. induction outs as [| out outs IH]; intros b wire H; cbn in H;
    (case_decide as Hlt; [| injection H as <- <- <- <-; eapply quiet_l; [| done | done | apply rtc_refl];
       cbn; unfold send_once; by rewrite decide_False]).
  - injection H as <- <- <- <-. eapply quiet_l; [| done | done | apply rtc_refl].
    cbn. unfold send_once. by rewrite decide_True.
  - destruct out as [n | | |].
    + case_decide as Hz.
      * injection H as <- <- <- <-. eapply quiet_l; [| done | done | apply rtc_refl].
        cbn. unfold send_once. rewrite decide_True by done. cbn. by rewrite decide_True.
      * apply IH in H. eapply quiet_l; [| done | done | exact H].
        cbn. unfold send_once. rewrite decide_True by done. cbn. by rewrite decide_False.
    + injection H as <- <- <- <-. eapply quiet_l; [| done | done | apply rtc_refl].
      cbn. unfold send_once. by rewrite decide_True.
    + apply IH in H. eapply quiet_l; [| done | done | exact H].
      cbn. unfold send_once. by rewrite decide_True.
    + injection H as <- <- <- <-. eapply quiet_l; [| done | done | apply rtc_refl].
      cbn. unfold send_once. by rewrite decide_True.
Qed.

Lemma flush_loop_runs o q outs wire s r q' sending outs' wire' :
  Session.flush_loop q outs wire = (r, q', sending, outs', wire') ->
  rtc quiet (Front o, Session.set_send q true outs wire s)
    (Posting o r, Session.set_send q' sending outs' wire' s).
Proof.
  revert outs wire. induction q as [| b q IH]; intros outs wire H; cbn in H.
  - injection H as <- <- <- <- <-. by eapply quiet_l; [| | | apply rtc_refl].
  - destruct (Session.send_buffer outs b wire) as [[[rb b'] outs1] wire1] eqn:E.
    apply (send_buffer_runs o b q _ _ s) in E. eapply quiet_l; [done.. |]. etrans; [exact E |].
    destruct rb.
    + do 2 (eapply quiet_l; [done.. |]). destruct q as [| b1 q].
      * injection H as <- <- <- <- <-. by eapply quiet_l; [| | | apply rtc_refl].
      * do 2 (eapply quiet_l; [done.. |]). by apply IH.
    + injection H as <- <- <- <- <-. by eapply quiet_l; [| | | apply rtc_refl].
    + injection H as <- <- <- <- <-. by eapply quiet_l; [| | | apply rtc_refl].
Qed.

Lemma flush_runs o s : rtc quiet (Cas o, s) (Posting o (Session.flush s).1, (Session.flush s).2).
Proof.
  unfold Session.flush. destruct (Session.sending_ s) eqn:E.
  - eapply quiet_l; [| done | done | apply rtc_refl]. cbn. by rewrite E.
  - destruct (Session.flush_loop _ _ _) as [[[[r q] sd] outs] wire] eqn:El. cbn.
    eapply quiet_l; [cbn; by rewrite E | done | done |].
    by apply (flush_loop_runs o _ _ _ s) in El.
Qed.

(** ** Properties *)

(** Concurrent [pack] and [flush]. Under every interleaving of any number
    of threads, and whatever the kernel answers: at most one thread is inside
    the guarded part of [flush], and [sending_] is set exactly while one is;
    the bytes accepted by the socket followed by the bytes still queued are
    everything that was ever packed, in the order of packing; and no thread
    uses the front of an empty queue: a busy thread can always continue. *)
Theorem concurrent_flush_safe fd st :
  reachable fd st ->
  (forall t1 t2, owns (pc st t1) -> owns (pc st t2) -> t1 = t2) /\
  (Session.sending_ (sess st) = true <-> exists t, owns (pc st t)) /\
  Session.sent_stream (sess st) = packed st /\
  (forall t, pc st t <> Idle -> is_Some (exec (LThread t) st)).
Proof.
  intros Hr. destruct (reachable_conc_inv _ _ Hr) as [[Hu He] Hp Hs]. split_and!; [done.. |].
  intros t Ht. destruct (tstep_defined (pc st t) (sess st) Ht (Hp t)) as [[p s] E].
  cbn. unfold thread_step. rewrite E. by eexists.
Qed.

(** C26: no output is forgotten while only [send_packet] runs. When every call
    has returned and the main thread has handled what was posted, either the
    send queue is empty, or EPOLLOUT is armed for what is left, or the
    connection is being closed; a call that found another one in progress and
    returned [Complete] without sending leaves its bytes to that one. *)
Theorem send_packet_leaves_no_bytes fd st :
  reachable_sending fd st -> quiescent st -> posts st = [] ->
  Session.send_queue_ (sess st) = [] \/ armed st = true \/ closing st = true.
Proof.
  intros Hr Hq Hp. destruct (reachable_sends_inv _ _ Hr) as [[_ _ Hl] [[_ He] _ _]].
  destruct (decide (Session.send_queue_ (sess st) = [])) as [? | Hne]; [by left | right].
  destruct (Hl Hne) as [H | [[t H] | [H | [H | H]]]]; [| by rewrite Hq in H | by left | by right | done].
  apply He in H as [t H]. by rewrite Hq in H.
Qed.

(** The entry of the two callers of [flush], and the callers as RoomWorker.v
    has them. *)
Definition entry (o : Caller) (data : bytes) : Pc :=
  match o with BySendPacket => Packing data | ByFlush => Cas ByFlush end.

Section Refinement.
Context {Indet : Indeterminate} {SService : IServerService}.

Definition handler (o : Caller) (sid : Room.Sid) (data : bytes) : M unit :=
  match o with
  | BySendPacket => RoomWorker.send_packet (Some sid) data
  | ByFlush => RoomWorker.flush (Some sid)
  end.

(** The calls as RoomWorker.v runs them, by the result of [flush]. *)
Lemma handler_result o sid data w s r s' :
  heap w !! sid = Some s ->
  Session.flush (match o with BySendPacket => Session.pack data s | ByFlush => s end) = (r, s') ->
  handler o sid data w =
  Ok tt (set_main (main_events w ++ ((fun ty => Event.mkMainEvent ty (Session.fd s)) <$> request o r))
           (set_heap (<[sid := s']> (heap w)) w)).
Proof.
  intros Hs Hf. pose proof (Session.flush_frame _ _ _ Hf) as (Hfd & _ & _).
  assert (Hfd' : Session.get_fd s' = Session.fd s) by (unfold Session.get_fd; rewrite Hfd; by destruct o).
  destruct o; cbn [handler]; unfold RoomWorker.send_packet, RoomWorker.flush, bind, deref, get_session,
    put_session, modify; cbn [ret]; unfold ret; rewrite Hs, Hf; cbn; rewrite Hfd'; destruct r; cbn;
    rewrite ?enable_queues, ?disable_queues, ?close_queues, ?app_nil_r; try done; by destruct w.
Qed.

(** The worker handlers are the uninterrupted runs of these steps. A
    thread that has entered [send_packet] or [flush] and is not interrupted
    comes to rest after finitely many steps, and leaves the session, and asks
    of the main thread, exactly what the one-step [send_packet] and [flush] of
    the server model do. *)
Theorem send_packet_runs_alone st t o data sid w :
  pc st t = entry o data -> heap w !! sid = Some (sess st) ->
  exists st' w' new, rtc (alone t) st st' /\ pc st' t = Idle /\
    (forall t', t' <> t -> pc st' t' = pc st t') /\
    handler o sid data w = Ok tt w' /\ heap w' !! sid = Some (sess st') /\
    posts st' = posts st ++ new /\
    main_events w' = main_events w ++ ((fun ty => Event.mkMainEvent ty (Session.fd (sess st))) <$> new).
Proof.
  intros Hpc Hh.
  set (s := match o with BySendPacket => Session.pack data (sess st) | ByFlush => sess st end).
  destruct (Session.flush s) as [r s'] eqn:Hf. pose proof (flush_runs o s) as Hrun. rewrite Hf in Hrun.
  assert (Hin : exists st1, rtc (alone t) st st1 /\ pc st1 t = Cas o /\ sess st1 = s /\
    posts st1 = posts st /\ (forall t', t' <> t -> pc st1 t' = pc st t')).
  { destruct o; [| by exists st]. eexists. split; [apply rtc_once; unfold alone, thread_step; rewrite Hpc; done |].
    cbn. split_and!; [by rewrite pc_insert, decide_True | done | by rewrite app_nil_r |].
    intros t' Hne. by rewrite pc_insert, decide_False. }
  destruct Hin as (st1 & R1 & P1 & S1 & Q1 & O1).
  destruct (quiet_alone t _ _ Hrun st1 P1 S1) as (st2 & R2 & P2 & S2 & Q2 & O2). cbn in P2, S2.
  eexists _, _, (request o r). split_and!.
  - etrans; [exact R1 |]. eapply rtc_r; [exact R2 |]. unfold alone, thread_step. by rewrite P2.
  - by rewrite pc_insert, decide_True.
  - intros t' Hne. rewrite pc_insert, decide_False by done. fold (pc st2 t'). by rewrite O2, O1.
  - by apply (handler_result o sid data w (sess st) r s').
  - cbn. by rewrite S2, lookup_insert_eq.
  - cbn. by rewrite Q2, Q1.
  - done.
Qed.

End Refinement.

(** ** A lost wakeup

    Thread 2 handles a FLUSH event and empties the queue; before it asks for
    EPOLLOUT to be disarmed, thread 1 packs a response, meets EAGAIN and asks
    for EPOLLOUT to be armed. The requests arrive in the wrong order. *)
Definition threads (t : Z) (n : nat) : list Label := replicate n (LThread t).

Definition stall_schedule : list Label :=
  [LSend 1 [x01]] ++ threads 1 6 ++ [LMain; LEpollOut]           (* EAGAIN, then writable *)
  ++ [LKernel [Session.SendN 1]; LFlush 2] ++ threads 2 7        (* the FLUSH succeeds *)
  ++ [LSend 1 [x02]] ++ threads 1 6                              (* EAGAIN again *)
  ++ threads 2 1 ++ [LMain; LMain].

Definition stalled : State := default (init 5) (run stall_schedule (init 5)).

(** C27: a lost wakeup. With two threads, one FLUSH and one response, the
    connection reaches a state where every call has returned, every request
    has been handled, a response is still in the send queue and EPOLLOUT is
    not armed: nothing will send it until something else is written to the
    same client. *)
Theorem flush_lost_wakeup :
  reachable 5 stalled /\ quiescent stalled /\ posts stalled = [] /\
  armed stalled = false /\ closing stalled = false /\ flushes stalled = 0%nat /\
  Session.queue_bytes (Session.send_queue_ (sess stalled)) = [x02].
Proof.
  split; [| split; [| by vm_compute]].
  - unfold stalled. destruct (run stall_schedule (init 5)) as [st |] eqn:E; [| apply rtc_refl].
    eapply run_conc_reachable; [apply rtc_refl | exact E].
  - apply quiescent_list. vm_compute. by repeat constructor.
Qed.

(** ** Witnesses *)

(** Two threads in the middle of [send_packet], the first one the owner. *)
Definition busy_schedule : list Label :=
  [LSend 1 [x01; x02]; LSend 2 [x03]; LKernel [Session.SendN 1]] ++ threads 1 4 ++ threads 2 1.
Definition busy : State := default (init 5) (run busy_schedule (init 5)).
Definition leftover : State :=
  default (init 5) (run ([LSend 1 [x01]] ++ threads 1 6 ++ [LMain]) (init 5)).

Lemma run_sending ls fd st st' :
  Forall (fun l => match l with LFlush _ => False | _ => True end) ls -> reachable_sending fd st -> run ls st = Some st' -> reachable_sending fd st'.
Proof.
  revert st. induction ls as [| l ls IH]; intros st Hl Hr H; cbn in H; [by injection H as <- |].
  destruct (exec l st) as [st1 |] eqn:E; [| done]. cbn in H.
  inversion Hl; subst. apply (IH st1); [done | | done].
  eapply rtc_r; [exact Hr |]. exists l. split; [| done]. by intros t ->.
Qed.

Lemma concurrent_flush_safe_witness :
  owns (pc busy 1) /\ pc busy 2 = Cas BySendPacket /\ Session.sock_wire (sess busy) = [x01] /\
  (forall t1 t2, owns (pc busy t1) -> owns (pc busy t2) -> t1 = t2) /\
  (Session.sending_ (sess busy) = true <-> exists t, owns (pc busy t)) /\
  Session.sent_stream (sess busy) = packed busy /\
  (forall t, pc busy t <> Idle -> is_Some (exec (LThread t) busy)).
Proof.
  do 3 (split; [by vm_compute |]). apply (concurrent_flush_safe 5 busy). unfold busy.
  destruct (run busy_schedule (init 5)) as [st |] eqn:E; [| apply rtc_refl].
  eapply run_conc_reachable; [apply rtc_refl | exact E].
Defined.

Lemma leftover_quiescent : quiescent leftover.
Proof. apply quiescent_list. vm_compute. by repeat constructor. Qed.

Lemma send_packet_leaves_no_bytes_witness :
  Session.send_queue_ (sess leftover) <> [] /\
  (Session.send_queue_ (sess leftover) = [] \/ armed leftover = true \/ closing leftover = true).
Proof.
  split; [by vm_compute |].
  apply (send_packet_leaves_no_bytes 5 leftover); [| apply leftover_quiescent | by vm_compute].
  unfold leftover. destruct (run _ (init 5)) as [st |] eqn:E; [| apply rtc_refl].
  eapply run_sending; [| apply rtc_refl | exact E]. by repeat constructor.
Defined.

Definition one_session : World :=
  set_heap {[1%nat := sess (default (init 5) (exec (LSend 1 [x01]) (init 5)))]} (RoomManager.init_world 2).

Lemma send_packet_runs_alone_witness :
  let st := default (init 5) (exec (LSend 1 [x01]) (init 5)) in
  exists st' w' new, rtc (alone 1) st st' /\ pc st' 1 = Idle /\
    (forall t', t' <> 1 -> pc st' t' = pc st t') /\
    handler BySendPacket 1%nat [x01] one_session = Ok tt w' /\ heap w' !! 1%nat = Some (sess st') /\
    posts st' = posts st ++ new /\
    main_events w' =
      main_events one_session ++ ((fun ty => Event.mkMainEvent ty (Session.fd (sess st))) <$> new).
Proof.
  intros st. apply (send_packet_runs_alone st 1 BySendPacket [x01] 1%nat one_session); reflexivity.
Defined.

End FlushConc.
