(* ===== verification/Loops.v ===== *)
(** * Loops: the loops of the three kinds of threads

    The handlers' loops are written with fuel in RoomWorker.v and Server.v.
    Here: the fuel given is enough ([process_event] does not depend on it, the
    extraction loop stops at an incomplete packet, the event loop at an empty
    queue), and what the loops do as a whole. *)

From S2P Require Import Prelude Wire Session User Room Event World RoomManager RoomWorker Invariant.
From S2P Require Import RoomWorkerSafe Server.

Module Loops.
Import Protocol World.

(** ** The action interpreter *)

Lemma bind_ext {A B} (m : M A) (f g : A -> M B) w :
  (forall a w', f a w' = g a w') -> bind m f w = bind m g w.
Proof. intros H. unfold bind. destruct (m w); [apply H | done]. Qed.

Section Interpreter.
Context {Indet : Indeterminate} {SService : IServerService}.

Lemma after_action_ext e c k1 k2 w :
  (forall w', k1 e w' = k2 e w') ->
  RoomWorker.after_action e c k1 w = RoomWorker.after_action e c k2 w.
Proof. intros H. unfold RoomWorker.after_action. by case_decide. Qed.

(** Actions left in an event. *)
Definition left_over (e : Event.RoomEvent) : nat :=
  (length (Event.actions e) - Event.current_action e)%nat.

Lemma process_loop_fuel f1 f2 wid e w :
  (left_over e < f1)%nat -> (left_over e < f2)%nat ->
  RoomWorker.process_loop f1 wid e w = RoomWorker.process_loop f2 wid e w.
Proof.
  revert f2 e w. induction f1 as [| f1 IH]; intros f2 e w H1 H2; [lia |].
  destruct f2 as [| f2]; [lia |]. cbn [RoomWorker.process_loop].
  destruct (decide (Event.current_action e < length (Event.actions e))%nat) as [Hlt |]; [| done].
  case_decide; [done |]. apply bind_ext. intros a w1.
  set (e1 := Event.set_current (S (Event.current_action e)) e).
  assert (Hk : forall r w', RoomWorker.process_loop f1 wid (Event.set_result r e1) w' =
                            RoomWorker.process_loop f2 wid (Event.set_result r e1) w').
  { intros r w'. apply IH; unfold left_over, e1 in *; cbn in *; lia. }
  assert (Hk0 : forall w', RoomWorker.process_loop f1 wid e1 w' = RoomWorker.process_loop f2 wid e1 w').
  { intros w'. apply IH; unfold left_over, e1 in *; cbn in *; lia. }
  destruct (Event.command a); try done; apply bind_ext; intros r w2; by apply after_action_ext.
Qed.

(** The action interpreter terminates. [process_event] gives its loop one
    unit of fuel more than the event has actions, and that is enough: with any
    larger amount, from any action on, it does exactly the same, so it never
    stops because the fuel is used up. *)
Theorem process_event_terminates fuel wid e w :
  (length (Event.actions e) <= fuel)%nat ->
  RoomWorker.process_loop (S fuel) wid e w = RoomWorker.process_event wid e w.
Proof. intros H. apply process_loop_fuel; unfold left_over; lia. Qed.

End Interpreter.

(** ** Reading requests *)

Section Server.
Context {Indet : Indeterminate} {Kernel : Server.EpollKernel}.

(** A handler that neither reads nor writes the session objects. *)
Definition heapless {A} (m : M A) : Prop :=
  forall h w, m (set_heap h w) = match m w with Ok a w' => Ok a (set_heap h w') | Stop f => Stop f end.

Lemma heapless_bind {A B} (m : M A) (f : A -> M B) :
  heapless m -> (forall a, heapless (f a)) -> heapless (bind m f).
Proof. intros Hm Hf h w. unfold bind. rewrite Hm. destruct (m w); [apply Hf | done]. Qed.

Lemma heapless_route e t : heapless (RoomManager.route_event e t).
Proof.
  unfold RoomManager.route_event. apply heapless_bind; [by case_decide |].
  intros wid. case_decide; [done |]. apply heapless_bind; [| done].
  intros h w. unfold post_event, bind, get_worker. cbn. by destruct (room_workers w !! wid).
Qed.

Lemma heapless_dispatch sid p : heapless (RoomManager.dispatch_packet p sid).
Proof.
  unfold RoomManager.dispatch_packet. apply heapless_bind; [apply heapless_route |].
  intros r. case_decide; [| done]. apply heapless_bind; [apply heapless_route | done].
Qed.

Lemma heapless_for_each {A} (l : list A) (f : A -> M unit) :
  (forall a, heapless (f a)) -> heapless (for_each l f).
Proof. intros Hf. induction l as [| a l IH]; [done |]. by apply heapless_bind. Qed.

Lemma handle_packets_run fuel sid s w :
  heap w !! sid = Some s ->
  Server.handle_packets fuel sid w =
  match for_each (Session.drain fuel s).1 (fun p => RoomManager.dispatch_packet p sid) w with
  | Ok _ w' => Ok tt (set_heap (<[sid := (Session.drain fuel s).2]> (heap w)) w')
  | Stop f => Stop f
  end.
Proof.
  revert s w. induction fuel as [| fuel IH]; intros s w Hs.
  - cbn. rewrite insert_id by done. by destruct w.
  - cbn [Server.handle_packets Session.drain]. unfold bind at 1, get_session. rewrite Hs.
    destruct (Session.extract_packet empty_packet s) as [[[] p] s1]; [| done].
    unfold bind at 1, put_session, modify. unfold bind at 1. rewrite heapless_dispatch.
    destruct (Session.drain fuel s1) as [ps s2] eqn:E. cbn [fst snd for_each].
    unfold bind at 1. destruct (RoomManager.dispatch_packet p sid w) as [[] w1 | f]; [| done].
    rewrite (IH s1) by (cbn; by rewrite lookup_insert_eq). rewrite E. cbn [fst snd].
    rewrite heapless_for_each by apply heapless_dispatch.
    destruct (for_each ps _ w1) as [[] w2 | f]; [| done]. cbn. by rewrite insert_insert_eq.
Qed.

(** What one readable event dispatches. When the bytes received so far are
    requests [fs] followed by an incomplete one, [handle_request] dispatches
    exactly [fs], in order, each to the [RoomManager] as the packet that was
    sent, keeps the incomplete rest for the next event, and touches nothing
    else of the session. *)
Theorem handle_request_dispatches w fd sid s ins s1 fs rest :
  sessions w !! fd = Some sid -> heap w !! sid = Some s ->
  Session.on_readable ins s = (true, s1) ->
  Session.recv_buffer_ s1 = mjoin (Session.frame <$> fs) ++ rest ->
  Forall Session.frame_valid fs -> Session.next_frame rest = None ->
  Server.handle_request fd ins w =
  match for_each (Session.frame_packet <$> fs) (fun p => RoomManager.dispatch_packet p sid) w with
  | Ok _ w' => Ok tt (set_heap (<[sid := Session.set_recv rest s1]> (heap w)) w')
  | Stop f => Stop f
  end.
Proof.
  intros Hf Hs Hin Hb Hv Hr.
  unfold Server.handle_request, Server.find_session, bind at 1, gets. rewrite Hf.
  unfold bind at 1, get_session. rewrite Hs, Hin. unfold bind, put_session, modify.
  rewrite (handle_packets_run _ sid s1) by (cbn; by rewrite lookup_insert_eq).
  rewrite Session.drain_frames, Hb. fold (Session.all_frames (mjoin (Session.frame <$> fs) ++ rest)).
  rewrite Session.all_frames_concat by done. cbn [fst snd].
  rewrite heapless_for_each by apply heapless_dispatch.
  destruct (for_each _ _ w) as [[] w' | f]; [| done]. cbn. by rewrite insert_insert_eq.
Qed.

(** ** Main events *)

(** A handler that leaves the queue of main events alone. *)
Definition keeps_main {A} (m : M A) : Prop :=
  forall w a w', m w = Ok a w' -> main_events w' = main_events w.

Lemma keeps_bind {A B} (m : M A) (f : A -> M B) :
  keeps_main m -> (forall a, keeps_main (f a)) -> keeps_main (bind m f).
Proof.
  intros Hm Hf w b w' H. unfold bind in H. destruct (m w) as [a w1 |] eqn:E; [| done].
  rewrite (Hf _ _ _ _ H). by eapply Hm.
Qed.

Lemma keeps_modify f : (forall w, main_events (f w) = main_events w) -> keeps_main (modify f).
Proof. intros Hf w [] w' [= <-]. apply Hf. Qed.

Lemma keeps_same {A} (m : M A) : (forall w a w', m w = Ok a w' -> w' = w) -> keeps_main m.
Proof. by intros H w a w' ->%H. Qed.

Lemma keeps_deref {A} e (o : option A) : keeps_main (deref e o).
Proof. apply keeps_same. intros w a w'. by destruct o; cbn; [intros [= _ <-] |]. Qed.

Lemma keeps_get_session s : keeps_main (get_session s).
Proof. apply keeps_same. intros w o w'. unfold get_session. case_match; [by intros [= _ <-] | done]. Qed.

Lemma keeps_get_worker wid : keeps_main (get_worker wid).
Proof. apply keeps_same. intros w o w'. unfold get_worker. case_match; [by intros [= _ <-] | done]. Qed.

Ltac keeps := repeat first
  [ apply keeps_deref | apply keeps_get_session | apply keeps_get_worker
  | apply keeps_bind; [| intros ?] | apply keeps_modify; done
  | (apply keeps_same; intros ? ? ? [= _ <-]; done)
  | case_decide | progress cbn ].

Lemma keeps_route e t : keeps_main (RoomManager.route_event e t).
Proof. unfold RoomManager.route_event, RoomManager.find_worker, post_event, put_worker. keeps. Qed.

Lemma keeps_close_session fd : keeps_main (Server.close_session fd).
Proof.
  unfold Server.close_session, Server.find_session. apply keeps_bind; [keeps |].
  intros [sid |]; [| keeps]. unfold Server.epoll_remove, RoomManager.disconnect_session, put_session,
    Server.remove_session. keeps; apply keeps_route.
Qed.

Lemma keeps_epoll_ctl op : keeps_main (Server.epoll_ctl op).
Proof. unfold Server.epoll_ctl. keeps. by case_match; keeps. Qed.

Lemma keeps_main_event e : keeps_main (Server.handle_main_event e).
Proof.
  unfold Server.handle_main_event, Server.enable_epollout, Server.disable_epollout.
  destruct (Event.me_type e); [apply keeps_close_session | apply keeps_epoll_ctl..].
Qed.

Lemma handle_events_loop_done q w w' :
  main_events w = q -> Server.handle_events_loop (length q) w = Ok tt w' -> main_events w' = [].
Proof.
  revert w. induction q as [| e q IH]; intros w Hq H; cbn [length Server.handle_events_loop] in H;
    [by injection H as <- |].
  unfold bind, gets, modify in H. rewrite Hq in H.
  destruct (Server.handle_main_event e (set_main q w)) as [[] w1 |] eqn:E; [| done].
  apply (IH w1); [| done]. by apply keeps_main_event in E.
Qed.

(** The main thread handles every event that was queued. [handle_events]
    goes through the queue once: unless an [epoll_ctl] stops it, it returns
    with the queue empty, so the number of events queued at its start is enough
    fuel. *)
Theorem handle_events_empties w w' :
  Server.handle_events w = Ok tt w' -> main_events w' = [].
Proof. intros H. by apply (handle_events_loop_done (main_events w) w w'). Qed.

End Server.

(** ** Witnesses *)

Definition looping_event : Event.RoomEvent :=
  Event.add Event.SEND_RESPONSE 0 (Event.add Event.JOIN_ROOM 1 (Event.new_event x01)).

Lemma process_event_terminates_witness :
  RoomWorker.process_loop 6 1 looping_event (RoomManager.init_world 2) =
  RoomWorker.process_event 1 looping_event (RoomManager.init_world 2).
Proof. apply (process_event_terminates 5). by vm_compute; lia. Defined.

(** Descriptor 5 is connected; two requests arrive, the second one in part. *)
Definition reading_world : World :=
  set_sessions {[5 := 1%nat]} (set_heap {[1%nat := Session.new_session 5]} (RoomManager.init_world 2)).
Definition reading_session : Session.Session :=
  Session.set_recv (Session.frame Session.ex_frame1 ++ [x01; x00]) (Session.new_session 5).

Lemma handle_request_dispatches_witness :
  Server.handle_request 5
    [Session.RecvData (take 9 (Session.frame Session.ex_frame1)); Session.RecvIntr;
     Session.RecvData (drop 9 (Session.frame Session.ex_frame1) ++ [x01; x00]); Session.RecvAgain]
    reading_world =
  match for_each (Session.frame_packet <$> [Session.ex_frame1])
          (fun p => RoomManager.dispatch_packet p 1%nat) reading_world with
  | Ok _ w' => Ok tt (set_heap (<[1%nat := Session.set_recv [x01; x00] reading_session]> (heap reading_world)) w')
  | Stop f => Stop f
  end.
Proof.
  apply (handle_request_dispatches reading_world 5 1%nat (Session.new_session 5)); try done.
  pose proof Session.ex_frames_valid as H. inversion H; subst. by constructor.
Defined.

Definition two_events : World :=
  set_main [Event.mkMainEvent Event.Disconnect 8; Event.mkMainEvent Event.Disconnect 9]
    (RoomManager.init_world 2).

Lemma handle_events_empties_witness :
  exists w', Server.handle_events two_events = Ok tt w' /\ main_events w' = [].
Proof.
  eexists. split; [vm_compute; reflexivity |].
  apply (handle_events_empties two_events). vm_compute. reflexivity.
Defined.

End Loops.
