(* ===== verification/Flow.v ===== *)
(** * Flow: requests from the packet to the response

    What one client request does when nothing else is in flight: the packet is
    planned, its event travels between the workers and the database thread, and
    exactly one response is sent. The action interpreter is unfolded one
    action at a time with the lemmas of the first part. *)

From S2P Require Import Prelude Codec Wire Decimal Session User Room Event World RoomManager.
From S2P Require Import RoomWorker Invariant RoomWorkerSafe Server System RoomWorkerSpec.

Module Flow.
Import Protocol World Invariant RoomWorkerSpec.

Abbreviation act := Event.mkAction.

(** How a database status ends a history request. *)
Definition load_result (st : Event.DBStatus) : Result :=
  match st with
  | Event.DBSuccess => Success
  | Event.DBStNotFound => DBNotFound
  | Event.DBStError => DBError
  | Event.DBStDuplicate => DBDuplicate
  end.

(** A body is attached only on success. *)
Definition load_body (st : Event.DBStatus) (data old : bytes) : bytes :=
  match st with Event.DBSuccess => data | _ => old end.

Section Flow.
Context {Indet : Indeterminate} {SService : IServerService} {F : Fault -> Prop}.

(** ** One action at a time *)

(** The body of the [switch] for an action already fetched. *)
Definition run_action (wid : Z) (action : Event.RoomAction) (e : Event.RoomEvent)
    (continue_ : Event.RoomEvent -> M unit) : M unit :=
  let cmd := Event.command action in
  match cmd with
  | Event.REQUEST_DB_CREATE_ROOM => RoomWorker.request_db_create_room e
  | Event.CREATE_ROOM =>
      let* r := RoomWorker.create_room wid e 5 in
      RoomWorker.after_action (Event.set_result r e) cmd continue_
  | Event.JOIN_ROOM =>
      let* r := RoomWorker.join_room wid e in
      RoomWorker.after_action (Event.set_result r e) cmd continue_
  | Event.LEAVE_ROOM =>
      let* r := RoomWorker.leave_room wid e in
      RoomWorker.after_action (Event.set_result r e) cmd continue_
  | Event.REQUEST_JOIN_ROOM | Event.REQUEST_LEAVE_ROOM =>
      RoomManager.route_event (Event.set_target (Event.action_room action) e) 0 ;;; ret tt
  | Event.SEND_MESSAGE =>
      let* r := RoomWorker.send_message wid e in
      RoomWorker.after_action (Event.set_result r e) cmd continue_
  | Event.REQUEST_DB_LOAD_MESSAGE => RoomWorker.request_db_load_message e
  | Event.SAVE_MESSAGE => RoomWorker.save_message wid e ;;; RoomWorker.after_action e cmd continue_
  | Event.SEND_RESPONSE => RoomWorker.send_response e
  | Event.FLUSH => RoomWorker.flush (Event.session e)
  | Event.DISCONNECT_SESSION =>
      RoomWorker.diconnect_session wid (Event.event_fd e) (Event.target_room_id e) ;;; ret tt
  end.

(** An event that has not failed runs its next action. *)
Lemma loop_fetch fuel wid e a :
  Event.actions e !! Event.current_action e = Some a ->
  Event.result_code e = Success \/ Event.result_code e = None_ ->
  RoomWorker.process_loop (S fuel) wid e =
  run_action wid a (Event.set_current (S (Event.current_action e)) e)
    (RoomWorker.process_loop fuel wid).
Proof.
  intros Ha Hres. cbn [RoomWorker.process_loop]. rewrite decide_True by (by eapply lookup_lt_Some).
  rewrite decide_False by naive_solver. rewrite Ha. cbn [deref].
  rewrite bind_ret. unfold run_action. by destruct (Event.command a).
Qed.

(** A failed event is answered at once. *)
Lemma loop_failed fuel wid e :
  (Event.current_action e < length (Event.actions e))%nat ->
  Event.result_code e <> Success -> Event.result_code e <> None_ ->
  RoomWorker.process_loop (S fuel) wid e = RoomWorker.send_response e.
Proof.
  intros Hlt H1 H2. cbn [RoomWorker.process_loop]. by rewrite decide_True, decide_True.
Qed.

Lemma after_success e cmd k : Event.result_code e = Success -> RoomWorker.after_action e cmd k = k e.
Proof. intros He. unfold RoomWorker.after_action. rewrite decide_False; [done |]. by intros [H _]. Qed.

Lemma after_failure e cmd k a :
  Event.result_code e <> Success -> cmd <> Event.SEND_RESPONSE -> Event.actions e !! 0%nat = Some a ->
  Event.command a <> Event.CREATE_ROOM ->
  RoomWorker.after_action e cmd k = RoomWorker.send_response e.
Proof.
  intros Hr Hc Ha Hcr. unfold RoomWorker.after_action. rewrite decide_True, Ha by done.
  cbn [deref]. rewrite bind_ret. by rewrite decide_False.
Qed.

(** ** The operations on an event *)

(** The room of the action that was fetched last. *)
Definition at_room (e : Event.RoomEvent) (k : Z) : Prop :=
  Event.action_room <$> (Event.actions e !! pred (Event.current_action e)) = Some k.

Lemma wp_at_room e k Q w : at_room e k -> Q k w -> wp (RoomWorker.current_room e) F Q w.
Proof.
  unfold at_room, RoomWorker.current_room. intros H HQ. apply fmap_Some in H as (a & -> & ->).
  by apply wp_bind, wp_ret, wp_ret.
Qed.

Lemma wp_join_ok wid e k sid o r room Q w :
  at_room e k -> Event.session e = Some sid -> room_workers w !! wid = Some r ->
  heap w !! sid = Some o -> rooms_ r !! k = Some room -> ~ is_full room ->
  is_Some (user_of w (Session.fd o)) ->
  Q Success (with_user_room (Session.fd o) k
               (with_rooms wid r (<[k := joined (Session.fd o) sid room]> (rooms_ r)) w)) ->
  wp (RoomWorker.join_room wid e) F Q w.
Proof.
  intros Hk Hs Hr Ho Hroom Hnf [u Hu] HQ. unfold RoomWorker.join_room. apply wp_bind.
  eapply wp_at_room; [done |]. rewrite Hs. eapply wp_join_session; [done | done | congruence |].
  intros room' E. rewrite Hroom in E. injection E as <-. split; [done |]. intros _ w1.
  split; [congruence | done].
Qed.

Lemma wp_join_full wid e k sid o r room Q w :
  at_room e k -> Event.session e = Some sid -> room_workers w !! wid = Some r ->
  heap w !! sid = Some o -> rooms_ r !! k = Some room -> is_full room ->
  Q RoomFull w -> wp (RoomWorker.join_room wid e) F Q w.
Proof.
  intros Hk Hs Hr Ho Hroom Hf HQ. unfold RoomWorker.join_room. apply wp_bind.
  eapply wp_at_room; [done |]. rewrite Hs. eapply wp_join_session; [done | done | congruence |].
  intros room' E. rewrite Hroom in E. by injection E as <-.
Qed.

(** Leaving a room that stays: the lobby, or one with others in it. *)
Lemma wp_leave_stay wid e k sid o r room Q w :
  at_room e k -> Event.session e = Some sid -> room_workers w !! wid = Some r ->
  heap w !! sid = Some o -> rooms_ r !! k = Some room ->
  is_Some (Room.sessions_ room !! Session.fd o) ->
  (Room.current_sessions_ room > 1 \/ type_ r = WLobby) ->
  Q Success (with_rooms wid r (<[k := left_ (Session.fd o) room]> (rooms_ r)) w) ->
  wp (RoomWorker.leave_room wid e) F Q w.
Proof.
  intros Hk Hs Hr Ho Hroom [s Hin] Hstay HQ. unfold RoomWorker.leave_room. apply wp_bind.
  rewrite Hs. eapply wp_session_fd; [done |]. apply wp_bind. eapply wp_at_room; [done |].
  eapply wp_leave_fd; [done | congruence |]. intros room' E. rewrite Hroom in E. injection E as <-.
  split; [congruence |]. intros _. split; [done |].
  intros [H1 H2]. destruct Hstay as [? | E]; [lia | by rewrite E in H2].
Qed.

Lemma wp_leave_last wid e k sid o r room Q w :
  at_room e k -> Event.session e = Some sid -> room_workers w !! wid = Some r ->
  heap w !! sid = Some o -> rooms_ r !! k = Some room -> Room.room_id_ room = k ->
  is_Some (Room.sessions_ room !! Session.fd o) ->
  Room.current_sessions_ room <= 1 -> type_ r = WRoom ->
  Q Success (with_rooms wid r (delete k (rooms_ r))
               (set_room_to_worker (delete k (room_to_worker w)) w)) ->
  wp (RoomWorker.leave_room wid e) F Q w.
Proof.
  intros Hk Hs Hr Ho Hroom Hid [s Hin] H1 H2 HQ. unfold RoomWorker.leave_room. apply wp_bind.
  rewrite Hs. eapply wp_session_fd; [done |]. apply wp_bind. eapply wp_at_room; [done |].
  eapply wp_leave_fd; [done | congruence |]. intros room' E. rewrite Hroom in E. injection E as <-.
  split; [congruence |]. intros _. split; [by intros [] |]. intros _.
  by rewrite Hid, delete_insert_eq.
Qed.

Lemma wp_create_ok wid e k r Q w :
  at_room e k -> room_workers w !! wid = Some r -> rooms_ r !! k = None ->
  Q Success (with_rooms wid r (<[k := Room.new_room k 5]> (rooms_ r)) w) ->
  wp (RoomWorker.create_room wid e 5) F Q w.
Proof.
  intros Hk Hr Hnone HQ. unfold RoomWorker.create_room. apply wp_bind. eapply wp_at_room; [done |].
  apply wp_bind. eapply RoomWorkerSafe.wp_get_rooms; [done |]. rewrite Hnone.
  apply wp_bind. eapply RoomWorkerSafe.wp_put_rooms; [done |]. by apply wp_ret.
Qed.

Lemma wp_request_load e k Q w :
  at_room e k ->
  Q tt (set_jobs (job_queue w ++ [Event.mkDBJob Event.LoadHistory
          [Decimal.to_string k; Decimal.to_string (RoomWorker.load_cursor (Event.request_data e))]
          (Event.DbLoadMessagesOnResult e)]) w) ->
  wp (RoomWorker.request_db_load_message e) F Q w.
Proof.
  intros Hk HQ. unfold RoomWorker.request_db_load_message. apply wp_bind.
  eapply wp_at_room; [done |]. by apply wp_modify.
Qed.

(** An event whose next action is the response is answered, failed or not. *)
Lemma wp_answer fuel wid e a sid o Q w :
  Event.actions e !! Event.current_action e = Some a -> Event.command a = Event.SEND_RESPONSE ->
  Event.session e = Some sid -> heap w !! sid = Some o -> Session.sending_ o = false ->
  (forall o' evs pad, Session.fd o' = Session.fd o -> Session.sending_ o' = false ->
     length pad = npad Response ->
     Session.sent_stream o' = Session.sent_stream o ++
       response_packet pad (Event.initial_command e) (Event.result_code e) (Event.response_data e) ->
     Q tt (set_main (main_events w ++ evs) (set_heap (<[sid := o']> (heap w)) w))) ->
  wp (RoomWorker.process_loop (S fuel) wid e) F Q w.
Proof.
  intros Ha Hc Hs Ho Hsd HQ.
  destruct (decide (Event.result_code e = Success \/ Event.result_code e = None_)) as [Hr | Hr].
  - rewrite (loop_fetch _ _ _ a) by done. unfold run_action. rewrite Hc. by eapply wp_send_response.
  - rewrite loop_failed; [by eapply wp_send_response | by eapply lookup_lt_Some | tauto | tauto].
Qed.

(** The database thread runs the callback of a finished history query. *)
Lemma wp_db_load t ps e js k wid r st data draws Q w :
  job_queue w = Event.mkDBJob t ps (Event.DbLoadMessagesOnResult e) :: js -> at_room e k ->
  room_to_worker w !! k = Some wid -> wid <> 0 -> room_workers w !! wid = Some r ->
  Q tt (set_workers (<[wid := set_queue (event_queue_ r ++
          [Event.set_target k (Event.set_response (load_body st data (Event.response_data e))
             (Event.set_result (load_result st) e))]) r]> (room_workers w)) (set_jobs js w)) ->
  wp (Server.db_step st data draws) F Q w.
Proof.
  intros Hj Hk Hrt Hnz Hr HQ. unfold Server.db_step. apply wp_bind, wp_gets. rewrite Hj.
  apply wp_bind, wp_modify. unfold RoomWorker.run_callback, RoomWorker.db_load_messages_on_result.
  cbn [Event.on_result]. set (e' := match st with Event.DBSuccess => _ | _ => _ end).
  assert (He' : e' = Event.set_response (load_body st data (Event.response_data e))
                       (Event.set_result (load_result st) e)) by (destruct e; by destruct st).
  clearbody e'. subst e'. apply wp_bind. eapply wp_at_room; [done |].
  apply wp_bind. eapply wp_route; [cbn; by rewrite Hrt | done | done |]. by apply wp_ret.
Qed.

(** The data of a successful room creation starts with the id issued. *)
Definition issued (data : bytes) (kid : Z) : Prop := exists extra, data = i64_enc kid ++ extra.

(** The same for a finished room creation: the id issued by the database
    replaces the pending one, and the event goes to the worker chosen. *)
Lemma wp_db_create t ps e js kid data draws Q w :
  issued data kid ->
  job_queue w = Event.mkDBJob t ps (Event.DbCreateRoomOnResult e) :: js -> is_i64 kid ->
  (forall wid, 2 <= wid <= room_worker_num w -> is_Some (room_workers w !! wid)) ->
  RoomWorkerSafe.draws_ok (room_worker_num w) draws -> room_to_worker w !! kid = None ->
  (forall wid r, 2 <= wid <= room_worker_num w -> room_workers w !! wid = Some r ->
     Q tt (set_workers (<[wid := set_queue (event_queue_ r ++
             [Event.set_response data
                (Event.resolve_room_id kid (Event.set_result Success e))]) r]> (room_workers w))
           (set_room_to_worker (<[kid := wid]> (room_to_worker w)) (set_jobs js w)))) ->
  wp (Server.db_step Event.DBSuccess data draws) F Q w.
Proof.
  intros [extra ->] Hj Hkid Hids Hd Hnone HQ. unfold Server.db_step. apply wp_bind, wp_gets. rewrite Hj.
  apply wp_bind, wp_modify. unfold RoomWorker.run_callback, RoomWorker.db_create_room_on_result.
  cbn [Event.on_result].
  assert (Htake : exists rd, Codec.take 8 (Codec.reader (i64_enc kid ++ extra)) = (Some (i64_enc kid), rd)).
  { unfold Codec.take. cbn [Codec.off_ Codec.buf_ Codec.reader]. rewrite (wrap_small 64) by lia.
    unfold size_of. rewrite length_app, length_i64_enc, decide_False by lia. eexists. by f_equal. }
  destruct Htake as [rd ->].
  rewrite decide_False by done. rewrite i64_dec_enc by done.
  destruct (bind_worker_ok (set_jobs js w) kid draws Hids Hd)
    as (wid & (c1 & c2 & r1 & r2 & Hhd & Hin & Hc1 & Hc2 & Hne & Hr1 & Hr2 & Hwid) & E).
  assert (Hr : 2 <= wid <= room_worker_num w /\ exists r, room_workers w !! wid = Some r).
  { rewrite Hwid. case_decide; eauto. }
  clear Hwid. destruct Hr as [Hn [r Hr]]. apply wp_bind. eapply wp_ok; [exact E |].
  apply wp_bind. eapply wp_route; [by rewrite decide_False by lia | lia | exact Hr |]. apply wp_ret.
  cbn [set_jobs room_to_worker set_room_to_worker room_workers]. rewrite emplace_fresh by done.
  by apply HQ.
Qed.

(** ** Planned events *)

Definition planned (actions : list Event.RoomAction) (target : Z) (p : Packet)
    (sid : Room.Sid) : Event.RoomEvent :=
  Event.mkRoomEvent actions 0 target
    (rq_command (request p)) (-1) (Some sid) (body p) [] None_.

Definition packet_plan (p : Packet) : option (list Event.RoomAction * Z) :=
  let k := rq_room_id (request p) in
  match to_command (rq_command (request p)) with
  | Some CMD_CREATE_ROOM =>
      Some ([act Event.REQUEST_DB_CREATE_ROOM 1; act Event.CREATE_ROOM Event.PENDING_ROOM_ID;
             act Event.JOIN_ROOM Event.PENDING_ROOM_ID; act Event.REQUEST_LEAVE_ROOM 1;
             act Event.LEAVE_ROOM 1; act Event.SEND_RESPONSE 0], 1)
  | Some CMD_JOIN_ROOM =>
      Some ([act Event.JOIN_ROOM k; act Event.REQUEST_LEAVE_ROOM 1; act Event.LEAVE_ROOM 1;
             act Event.REQUEST_DB_LOAD_MESSAGE k; act Event.SEND_RESPONSE 0], k)
  | Some CMD_LEAVE_ROOM =>
      Some ([act Event.JOIN_ROOM 1; act Event.REQUEST_LEAVE_ROOM k; act Event.LEAVE_ROOM k;
             act Event.SEND_RESPONSE 0], 1)
  | Some CMD_SEND_MESSAGE =>
      Some ([act Event.SEND_MESSAGE k; act Event.SAVE_MESSAGE k; act Event.SEND_RESPONSE 0], k)
  | Some CMD_LOAD_MESSAGE => Some ([act Event.REQUEST_DB_LOAD_MESSAGE k; act Event.SEND_RESPONSE 0], k)
  | None => None
  end.

Lemma plan_planned p sid l t :
  packet_plan p = Some (l, t) -> RoomManager.plan (RoomManager.packet_event p sid) = planned l t p sid.
Proof.
  unfold packet_plan, RoomManager.plan. cbn [Event.initial_command RoomManager.packet_event
    Event.set_target Event.set_session Event.set_request Event.new_event].
  destruct (to_command _) as [[] |]; intros [= <- <-]; reflexivity.
Qed.

(** A packet whose room is routed becomes one event in that worker's queue. *)
Lemma wp_dispatch p sid l t wid r Q w :
  packet_plan p = Some (l, t) -> room_to_worker w !! t = Some wid -> wid <> 0 ->
  room_workers w !! wid = Some r ->
  Q tt (set_workers (<[wid := set_queue (event_queue_ r ++ [planned l t p sid]) r]> (room_workers w)) w) ->
  wp (RoomManager.dispatch_packet p sid) F Q w.
Proof.
  intros Hp Ht Hnz Hr HQ. unfold RoomManager.dispatch_packet. rewrite (plan_planned p sid l t Hp).
  apply wp_bind. eapply wp_route; [| done | done |]; [cbn; by rewrite Ht |]. by apply wp_ret.
Qed.

End Flow.

(** ** Automation: symbolic execution of a flow *)

(** Events and worlds in constructor form. *)
Ltac norm :=
  cbv beta iota delta [planned fst snd pred
       Event.set_current Event.set_target Event.set_result Event.set_response
       Event.command Event.action_room Event.actions Event.current_action Event.target_room_id
       Event.initial_command Event.event_fd Event.session Event.request_data Event.response_data
       Event.result_code Event.on_result
       room_workers room_to_worker heap sessions user_manager job_queue main_events total_users
       epoll_calls room_worker_num set_heap set_sessions set_users set_workers set_room_to_worker
       set_jobs set_main set_total set_epoll with_rooms with_user_room
       event_queue_ rooms_ World.type_ set_queue set_rooms] in *;
  rewrite ?insert_insert_eq in *.

(** Lookups in updated tables. *)
Ltac look := norm; simplify_map_eq; done.

(** Fetch the next action. *)
Ltac fetch :=
  unfold RoomWorker.process_event;
  try match goal with
      | |- context [RoomWorker.process_loop (length ?l)] =>
          let n := eval compute in (length l) in change (length l) with n
      | |- context [RoomWorker.process_loop (S (length ?l))] =>
          let n := eval compute in (length l) in change (length l) with n
      end;
  erewrite loop_fetch; [| reflexivity | first [by left | by right]];
  norm; unfold run_action; norm.

(** Start a worker on its queue; name its action list. *)
Ltac work :=
  first [eapply wp_worker_step | apply wp_bind; eapply wp_worker_step]; [look | reflexivity |]; norm;
  try match goal with
      | |- context [RoomWorker.process_event _ (Event.mkRoomEvent (?a :: ?l) _ _ _ _ _ _ _ _)] =>
          let acts := fresh "acts" in set (acts := a :: l)
      end.

(** Hand the event over to another worker. *)
Ltac hand_over :=
  apply wp_bind; eapply wp_route; [look | done | look |]; norm; apply wp_ret.

(** Run a room operation that succeeds, and continue the loop. *)
Tactic Notation "op" uconstr(lem) :=
  apply wp_bind; eapply lem; [reflexivity | reflexivity | look | look | look | .. |];
  [.. | norm; rewrite after_success by reflexivity].

(** ** Situations *)

(** A connected client: its session object and its user. *)
Definition client (w : World) (sid : Room.Sid) (o : Session.Session) (u : User.User) : Prop :=
  heap w !! sid = Some o /\ user_of w (Session.fd o) = Some u.

(** An idle worker. *)
Definition idle (w : World) (wid : Z) : Prop := queue w wid = Some [].

(** The lobby is where the routing table says, and the client is in it. *)
Definition in_lobby (w : World) (fd : Z) (lobby : Room.Room) : Prop :=
  room_to_worker w !! 1 = Some 1 /\ room_in w 1 1 = Some lobby /\
  is_Some (Room.sessions_ lobby !! fd).

Lemma idle_worker w wid : idle w wid -> exists r, room_workers w !! wid = Some r /\ event_queue_ r = [].
Proof. unfold idle, queue. intros H. apply fmap_Some in H as (r & -> & E). eauto. Qed.

(** The responses a flow may end with. *)
Definition answered (w' : World) (sid : Room.Sid) (o : Session.Session) (command : byte)
    (res : Result) (body : bytes) : Prop :=
  exists pad, length pad = npad Response /\
  out w' sid = Some (Session.sent_stream o ++ response_packet pad command res body).

(** Read a view of the final world. *)
Ltac view := unfold room_in, idle, queue, out, user_of; norm; simplify_map_eq; try done.

(** A flow that cannot fault and returns [v]. *)
Lemma wp_value {A} (m : M A) (v : A) (Q : World -> Prop) w :
  wp m no_fault (fun a w' => a = v /\ Q w') w -> exists w', m w = Ok v w' /\ Q w'.
Proof. intros H. apply wp_no_fault_ok in H as (a & w' & E & -> & HQ). eauto. Qed.

(** The plan of a packet whose command is known. *)
Ltac plan_from Hc Hp :=
  match type of Hc with
  | rq_command (request ?p) = _ =>
      pose proof (eq_refl (packet_plan p)) as Hp; unfold packet_plan at 2 in Hp;
      rewrite Hc in Hp; cbn [to_command command_byte] in Hp
  end.

(** Opening a world and the idle workers a flow runs on: what the invariant
    says of them becomes facts about their fields. *)
Ltac open_world :=
  match goal with
  | Hw : inv ?w |- _ =>
      pose proof (i_users _ Hw) as Husers; pose proof (i_sending _ Hw) as Hsending;
      pose proof (i_workers _ Hw) as Hworkers; destruct w; unfold room_in, user_of in *; norm
  end.

Ltac open_worker H :=
  let Hr := fresh "Hr" in let Hq := fresh "Hq" in let t := fresh "t" in
  apply idle_worker in H as ([t ? ?] & Hr & Hq); norm; subst;
  match goal with Hworkers : map_Forall _ _ |- _ =>
    let Ht := fresh "Ht" in destruct (Hworkers _ _ Hr) as [Ht _]; norm; subst
  end;
  repeat match goal with Hv : (_ ← _; _) = Some _ |- _ => rewrite Hr in Hv; cbn in Hv end.

(** Name the postcondition and run. *)
Ltac begin :=
  apply wp_value; match goal with |- wp _ _ ?Q0 _ => set (Q := Q0) end;
  first [apply wp_bind | idtac].

Section Flows.
Context {Indet : Indeterminate} {SService : IServerService}.

(** Joining a room, from the packet to the response. A client in the lobby
    who asks for a room that exists, is not full and whose worker, like the
    lobby's, is idle, ends up in the room and out of the lobby; the user's
    current room is the new one; whatever the database answers to the history
    query, the client receives exactly one response, with the corresponding
    result and the history as its body; and nothing is left in flight. *)
Theorem join_flow w sid o u p wk room lobby st data draws :
  inv w -> client w sid o u -> rq_command (request p) = command_byte CMD_JOIN_ROOM ->
  let k := rq_room_id (request p) in
  room_to_worker w !! k = Some wk -> wk <> 1 -> room_in w wk k = Some room -> ~ is_full room ->
  in_lobby w (Session.fd o) lobby -> idle w wk -> idle w 1 -> job_queue w = [] ->
  exists w',
    (RoomManager.dispatch_packet p sid ;;; RoomWorker.worker_step wk ;;; RoomWorker.worker_step 1 ;;;
     Server.db_step st data draws ;;; RoomWorker.worker_step wk) w = Ok true w' /\
    room_in w' wk k = Some (joined (Session.fd o) sid room) /\
    room_in w' 1 1 = Some (left_ (Session.fd o) lobby) /\
    user_of w' (Session.fd o) = Some (User.set_current_room k u) /\
    answered w' sid o (command_byte CMD_JOIN_ROOM) (load_result st) (load_body st data []) /\
    idle w' wk /\ idle w' 1 /\ job_queue w' = [].
Proof.
  intros Hw [Ho Hu] Hc k Hrt Hwk Hroom Hnf (Hl1 & Hl & Hs) Hidk Hid1 Hjobs.
  plan_from Hc Hp. fold k in Hp. clearbody k.
  destruct (i_route _ Hw _ _ Hrt) as (Hnz & _). open_world. open_worker Hidk. open_worker Hid1.
  begin. eapply wp_dispatch; [exact Hp | done | done | done |]. norm.
  work. fetch. op wp_join_ok; [done | eauto |]. fetch. hand_over.
  work. fetch. op wp_leave_stay; [eauto | by right |]. fetch.
  eapply wp_request_load; [reflexivity |]. norm.
  apply wp_bind. eapply wp_db_load; [reflexivity | reflexivity | look | done | look |]. norm.
  work. eapply wp_answer; [reflexivity | reflexivity | reflexivity | look | by eapply Hsending |].
  intros o' evs pad _ _ Hpad Hst. norm. unfold Q.
  split_and!; [done | by view | by view | | | by view | by view | done].
  - unfold user_of. norm. by rewrite User.get_user_set_room, decide_True, Hu.
  - exists pad. split; [done |]. view. by rewrite Hst, Hc.
Qed.

(** Joining a full room. The client receives exactly one response, RoomFull
    with an empty body, and no room, user or queue has changed. *)
Theorem join_full_flow w sid o u p wk room :
  inv w -> client w sid o u -> rq_command (request p) = command_byte CMD_JOIN_ROOM ->
  let k := rq_room_id (request p) in
  room_to_worker w !! k = Some wk -> room_in w wk k = Some room -> is_full room -> idle w wk ->
  exists w',
    (RoomManager.dispatch_packet p sid ;;; RoomWorker.worker_step wk) w = Ok true w' /\
    room_workers w' = room_workers w /\ user_manager w' = user_manager w /\
    room_to_worker w' = room_to_worker w /\ job_queue w' = job_queue w /\
    answered w' sid o (command_byte CMD_JOIN_ROOM) RoomFull [].
Proof.
  intros Hw [Ho Hu] Hc k Hrt Hroom Hf Hidk. plan_from Hc Hp. fold k in Hp. clearbody k.
  destruct (i_route _ Hw _ _ Hrt) as (Hnz & _). open_world. open_worker Hidk.
  begin. eapply wp_dispatch; [exact Hp | done | done | done |]. norm.
  work. fetch. apply wp_bind. eapply wp_join_full; [reflexivity | reflexivity | look.. | done |]. norm.
  rewrite (after_failure _ _ _ (act Event.JOIN_ROOM k)) by done.
  eapply wp_send_response; [reflexivity | look | by eapply Hsending |].
  intros o' evs pad _ _ Hpad Hst. norm. unfold Q. split_and!; try done.
  - norm. by apply insert_id.
  - exists pad. split; [done |]. view. by rewrite Hst, Hc.
Qed.

(** Leaving a room for the lobby, from the packet to the response. The
    client ends up in the lobby and out of the room, its user's current room
    is the lobby; the room is deleted, with its routing entry, when nobody is
    counted in it any more; exactly one response, Success, is sent. *)
Theorem leave_flow w sid o u p wk room lobby :
  inv w -> client w sid o u -> rq_command (request p) = command_byte CMD_LEAVE_ROOM ->
  let k := rq_room_id (request p) in
  room_to_worker w !! k = Some wk -> wk <> 1 -> room_in w wk k = Some room ->
  is_Some (Room.sessions_ room !! Session.fd o) ->
  room_to_worker w !! 1 = Some 1 -> room_in w 1 1 = Some lobby -> ~ is_full lobby ->
  idle w wk -> idle w 1 ->
  exists w',
    (RoomManager.dispatch_packet p sid ;;; RoomWorker.worker_step 1 ;;; RoomWorker.worker_step wk) w
      = Ok true w' /\
    room_in w' 1 1 = Some (joined (Session.fd o) sid lobby) /\
    user_of w' (Session.fd o) = Some (User.set_current_room 1 u) /\
    (if decide (Room.current_sessions_ room <= 1)
     then room_in w' wk k = None /\ room_to_worker w' !! k = None
     else room_in w' wk k = Some (left_ (Session.fd o) room) /\ room_to_worker w' = room_to_worker w) /\
    answered w' sid o (command_byte CMD_LEAVE_ROOM) Success [] /\
    idle w' wk /\ idle w' 1 /\ job_queue w' = job_queue w.
Proof.
  intros Hw [Ho Hu] Hc k Hrt Hwk Hroom Hs Hl1 Hl Hnf Hidk Hid1.
  plan_from Hc Hp. fold k in Hp. clearbody k.
  destruct (i_route _ Hw _ _ Hrt) as (Hnz & _). open_world. open_worker Hidk. open_worker Hid1.
  assert (Hid : Room.room_id_ room = k) by (by destruct (Hworkers _ _ Hr) as (_ & H & _); apply H).
  assert (Hty : worker_type wk = WRoom) by (unfold worker_type; by rewrite decide_False).
  begin. eapply wp_dispatch; [exact Hp | done | done | done |]. norm.
  work. fetch. op wp_join_ok; [done | eauto |]. fetch. hand_over. work. fetch.
  destruct (decide (Room.current_sessions_ room <= 1)).
  - op wp_leave_last; [done | done | done | done |].
    eapply wp_answer; [reflexivity | reflexivity | reflexivity | look | by eapply Hsending |].
    intros o' evs pad _ _ Hpad Hst. norm. unfold Q.
    split_and!; [done | by view | | by view | by view | | by view | by view | done].
    + unfold user_of. norm. by rewrite User.get_user_set_room, decide_True, Hu.
    + exists pad. split; [done |]. view. by rewrite Hst, Hc.
  - op wp_leave_stay; [done | left; lia |].
    eapply wp_answer; [reflexivity | reflexivity | reflexivity | look | by eapply Hsending |].
    intros o' evs pad _ _ Hpad Hst. norm. unfold Q.
    split_and!; [done | by view | | by view | by view | | by view | by view | done].
    + unfold user_of. norm. by rewrite User.get_user_set_room, decide_True, Hu.
    + exists pad. split; [done |]. view. by rewrite Hst, Hc.
Qed.

(** Leaving a room that does not exist is never answered. The session
    joins the lobby a second time, the hand-over to the unknown room fails and
    its result is ignored: no byte is sent, nothing is left in any queue, and
    the lobby's head count has grown although nobody came. *)
Theorem leave_unknown_unanswered w sid o u p lobby :
  inv w -> client w sid o u -> rq_command (request p) = command_byte CMD_LEAVE_ROOM ->
  let k := rq_room_id (request p) in
  room_to_worker w !! k = None -> in_lobby w (Session.fd o) lobby -> ~ is_full lobby -> idle w 1 ->
  exists w',
    (RoomManager.dispatch_packet p sid ;;; RoomWorker.worker_step 1) w = Ok true w' /\
    heap w' = heap w /\ job_queue w' = job_queue w /\ (forall wid, queue w' wid = queue w wid) /\
    exists lobby', room_in w' 1 1 = Some lobby' /\
      Room.sessions_ lobby' = Room.sessions_ lobby /\
      Room.current_sessions_ lobby' = Room.current_sessions_ lobby + 1.
Proof.
  intros Hw [Ho Hu] Hc k Hrt (Hl1 & Hl & Hs) Hnf Hid1. plan_from Hc Hp. fold k in Hp. clearbody k.
  open_world. open_worker Hid1.
  begin. eapply wp_dispatch; [exact Hp | done | done | done |]. norm.
  work. fetch. op wp_join_ok; [done | eauto |]. fetch.
  apply wp_bind. eapply wp_ok; [by apply RoomManager.route_event_unrouted |]. apply wp_ret.
  unfold Q. split_and!; try done.
  - intros wid. unfold queue. norm. destruct (decide (wid = 1)) as [-> |]; by simplify_map_eq.
  - exists (joined (Session.fd o) sid lobby). split; [by view |].
    unfold joined, Room.join_session. unfold is_full in Hnf. rewrite decide_False by done.
    split; [by apply emplace_present | done].
Qed.

(** The create flow's event once the database has issued [kid]. *)
Definition created_actions (kid : Z) : list Event.RoomAction :=
  [act Event.REQUEST_DB_CREATE_ROOM 1; act Event.CREATE_ROOM kid; act Event.JOIN_ROOM kid;
   act Event.REQUEST_LEAVE_ROOM 1; act Event.LEAVE_ROOM 1; act Event.SEND_RESPONSE 0].

(** What creating a room needs: the lobby is routed and idle, the database is
    idle, the ordinary workers exist and are idle, and the id the database is
    about to issue is new. *)
Record ready_to_create (w : World) (kid : Z) (draws : list Z) : Prop := {
  rc_kid : is_i64 kid;
  rc_fresh : room_to_worker w !! kid = None;
  rc_lobby : room_to_worker w !! 1 = Some 1;
  rc_idle : idle w 1;
  rc_jobs : job_queue w = [];
  rc_draws : RoomWorkerSafe.draws_ok (room_worker_num w) draws;
  rc_workers : forall wid, 2 <= wid <= room_worker_num w -> idle w wid /\ room_in w wid kid = None }.

(** From the request to the new room's worker with the lobby next, whoever
    [sid] is and wherever it was. *)
Lemma create_prefix w sid o u p kid data draws Q lobby :
  issued data kid ->
  inv w -> client w sid o u -> rq_command (request p) = command_byte CMD_CREATE_ROOM ->
  ready_to_create w kid draws -> room_in w 1 1 = Some lobby ->
  (forall wid r r1, 2 <= wid <= room_worker_num w ->
     room_workers w !! wid = Some r -> event_queue_ r = [] -> room_workers w !! 1 = Some r1 ->
     event_queue_ r1 = [] ->
     let e := Event.mkRoomEvent (created_actions kid) 4 1 (command_byte CMD_CREATE_ROOM) (-1) (Some sid)
                (body p) data Success in
     wp (RoomWorker.worker_step 1) no_fault Q
       (with_user_room (Session.fd o) kid
         (set_workers (<[1 := set_queue [e] r1]> (<[wid := set_rooms
            (<[kid := Room.mkRoom kid {[Session.fd o := sid]} 5 1]> (rooms_ r)) r]> (room_workers w)))
           (set_room_to_worker (<[kid := wid]> (room_to_worker w)) w)))) ->
  wp (RoomManager.dispatch_packet p sid ;;; RoomWorker.worker_step 1 ;;;
      Server.db_step Event.DBSuccess data draws ;;;
      let* wid := RoomManager.find_worker kid in RoomWorker.worker_step wid ;;;
      RoomWorker.worker_step 1) no_fault Q w.
Proof.
  intros Hdata Hw [Ho Hu] Hc [Hkid Hfresh Hl1 Hid1 Hjobs Hdraws Hids] Hl HQ.
  assert (Hne : kid <> 1) by congruence.
  plan_from Hc Hp. open_world. open_worker Hid1.
  apply wp_bind. eapply wp_dispatch; [exact Hp | done | done | done |]. norm.
  work. fetch. apply wp_modify. norm. apply wp_bind.
  eapply wp_db_create; [exact Hdata | reflexivity | done | | done | done |]. 
  { intros wid Hwid. norm. destruct (Hids wid Hwid) as [Hi _].
    apply idle_worker in Hi as (r & Hr' & _). norm. rewrite lookup_insert_ne by lia. eauto. }
  intros wid r Hwid Hwr. norm. rewrite lookup_insert_ne in Hwr by lia.
  destruct (Hids wid Hwid) as [Hi Hnk]. open_worker Hi.
  rewrite Hr0 in Hwr, Hnk. injection Hwr as <-. cbn in Hnk.
  assert (Hres : forall c b, Event.resolve_room_id kid
      (Event.mkRoomEvent acts 1 1 c (-1) (Some sid) b [] Success) =
    Event.mkRoomEvent (created_actions kid) 1 kid c (-1) (Some sid) b [] Success) by done.
  norm. rewrite Hres. norm. apply wp_bind, wp_gets. norm. rewrite lookup_insert_eq.
  assert (Hjoin : joined (Session.fd o) sid (Room.new_room kid 5) =
    Room.mkRoom kid {[Session.fd o := sid]} 5 1) by by apply (Room.first_join kid 5).
  work. fetch. apply wp_bind. eapply wp_create_ok; [reflexivity | look | look |]. norm.
  rewrite after_success by reflexivity.
  fetch. op wp_join_ok; [unfold is_full; cbn; lia | eauto |]. fetch. rewrite Hjoin.
  assert (Hw1 : wid <> 1) by lia. hand_over.
  rewrite (insert_insert_ne room_workers0 wid 1), insert_insert_eq by done.
  specialize (HQ wid _ _ Hwid Hr0 eq_refl Hr eq_refl). cbv zeta in HQ. norm. rewrite Hc. exact HQ.
Qed.

(** Creating a room, from the packet to the response. The client in the
    lobby ends up alone in a new room of capacity 5, under the id the database
    issued, on an ordinary worker that the routing table records, and out of
    the lobby; the user's current room is the new one; exactly one response,
    Success with the id in its body, is sent; nothing is left in flight. *)
Theorem create_flow w sid o u p kid data draws lobby :
  issued data kid ->
  inv w -> client w sid o u -> rq_command (request p) = command_byte CMD_CREATE_ROOM ->
  ready_to_create w kid draws -> in_lobby w (Session.fd o) lobby ->
  exists w',
    (RoomManager.dispatch_packet p sid ;;; RoomWorker.worker_step 1 ;;;
     Server.db_step Event.DBSuccess data draws ;;;
     let* wid := RoomManager.find_worker kid in RoomWorker.worker_step wid ;;;
     RoomWorker.worker_step 1) w = Ok true w' /\
    (exists wk, 2 <= wk <= room_worker_num w /\ room_to_worker w' = <[kid := wk]> (room_to_worker w) /\
       room_in w' wk kid = Some (Room.mkRoom kid {[Session.fd o := sid]} 5 1) /\ idle w' wk) /\
    room_in w' 1 1 = Some (left_ (Session.fd o) lobby) /\
    user_of w' (Session.fd o) = Some (User.set_current_room kid u) /\
    answered w' sid o (command_byte CMD_CREATE_ROOM) Success data /\
    idle w' 1 /\ job_queue w' = [].
Proof.
  intros Hdata Hw Hcl Hc Hready (Hl1 & Hl & Hs).
  apply wp_value. eapply create_prefix; try done.
  destruct Hcl as [Ho Hu], Hready as [_ _ _ _ Hjobs _ _].
  intros wid r r1 Hwid Hwr Hq Hr1 Hq1. assert (wid <> 1) by lia.
  open_world. destruct r as [t rs q], r1 as [t1 rs1 q1]. norm. subst.
  rewrite Hr1 in Hl. cbn in Hl. destruct (Hworkers _ _ Hr1) as [Ht1 _]. norm. subst t1.
  work. fetch. op wp_leave_stay; [done | by right |].
  eapply wp_answer; [reflexivity | reflexivity | reflexivity | look | by eapply Hsending |].
  intros o' evs pad _ _ Hpad Hst. norm. split_and!; [done | | by view | | | by view | done].
  - exists wid. split_and!; [lia | lia | done | by view | by view].
  - unfold user_of. norm. by rewrite User.get_user_set_room, decide_True, Hu.
  - exists pad. split; [done |]. view. by rewrite Hst.
Qed.

(** Creating a room from inside another room. The room is created, the
    client is in it and the user's current room is the new one, yet the answer
    is UserNotFound - because the plan ends by leaving the lobby, where the
    client is not - and this failed response has the new room's id as its
    body. The client also stays in the room it was in. *)
Theorem create_outside_lobby w sid o u p kid data draws lobby :
  issued data kid ->
  inv w -> client w sid o u -> rq_command (request p) = command_byte CMD_CREATE_ROOM ->
  ready_to_create w kid draws -> room_in w 1 1 = Some lobby ->
  Room.sessions_ lobby !! Session.fd o = None ->
  exists w',
    (RoomManager.dispatch_packet p sid ;;; RoomWorker.worker_step 1 ;;;
     Server.db_step Event.DBSuccess data draws ;;;
     let* wid := RoomManager.find_worker kid in RoomWorker.worker_step wid ;;;
     RoomWorker.worker_step 1) w = Ok true w' /\
    (exists wk, room_in w' wk kid = Some (Room.mkRoom kid {[Session.fd o := sid]} 5 1)) /\
    user_of w' (Session.fd o) = Some (User.set_current_room kid u) /\
    (forall wid k, k <> kid -> room_in w' wid k = room_in w wid k) /\
    answered w' sid o (command_byte CMD_CREATE_ROOM) UserNotFound data.
Proof.
  intros Hdata Hw Hcl Hc Hready Hl Hs.
  apply wp_value. eapply create_prefix; try done.
  destruct Hcl as [Ho Hu].
  intros wid r r1 Hwid Hwr Hq Hr1 Hq1. assert (wid <> 1) by lia.
  open_world. destruct r as [t rs q], r1 as [t1 rs1 q1]. norm. subst.
  rewrite Hr1 in Hl. cbn in Hl.
  work. fetch. apply wp_bind. unfold RoomWorker.leave_room. norm.
  apply wp_bind. eapply wp_session_fd; [done |]. apply wp_bind. eapply wp_at_room; [reflexivity |].
  norm. eapply wp_leave_fd; [look | norm; congruence |]. norm. intros room E.
  rewrite Hl in E. injection E as <-. split; [intros _ | intros [? ?]; congruence].
  rewrite (after_failure _ _ _ (act Event.REQUEST_DB_CREATE_ROOM 1)) by done.
  eapply wp_send_response; [reflexivity | look | by eapply Hsending |].
  intros o' evs pad _ _ Hpad Hst. norm. split_and!; [done | | | |].
  - exists wid. by simplify_map_eq.
  - by rewrite User.get_user_set_room, decide_True, Hu.
  - intros wid' k Hk. destruct (decide (wid' = 1)) as [-> |]; [by simplify_map_eq |].
    destruct (decide (wid' = wid)) as [-> |]; by simplify_map_eq.
  - exists pad. split; [done |]. view. by rewrite Hst.
Qed.

(** Sending a message, from the packet to the response. In a room that
    exists, the sender gets exactly one response, Success; the other sessions
    of the room whose users are there get the broadcast and nobody else gets
    a byte; one job that saves the message with its room, its sender's id and
    its text is queued; users and routing are untouched. *)
Theorem send_flow w sid o u p wk room :
  inv w -> client w sid o u -> rq_command (request p) = command_byte CMD_SEND_MESSAGE ->
  let k := rq_room_id (request p) in
  room_to_worker w !! k = Some wk -> room_in w wk k = Some room -> idle w wk ->
  exists w',
    (RoomManager.dispatch_packet p sid ;;; RoomWorker.worker_step wk) w = Ok true w' /\
    (exists pad1 pad2, length pad1 = npad Broadcast /\ length pad2 = npad Response /\
     forall s os, heap w !! s = Some os ->
       out w' s = Some (Session.sent_stream os ++
         broadcast_to_sessions w k (Session.fd o) room
           (broadcast_packet pad1 (User.get_user_id (Session.fd o) (user_manager w)) k (body p)) s ++
         if decide (s = sid) then response_packet pad2 (command_byte CMD_SEND_MESSAGE) Success []
         else [])) /\
    job_queue w' = job_queue w ++ [Event.mkDBJob Event.SaveMessage
      [Decimal.to_string k; Decimal.to_string (User.get_user_id (Session.fd o) (user_manager w));
       RoomWorker.tempnick; body p] Event.NoCallback] /\
    user_manager w' = user_manager w /\ room_to_worker w' = room_to_worker w /\
    room_workers w' = room_workers w.
Proof.
  intros Hw [Ho Hu] Hc k Hrt Hroom Hidk. plan_from Hc Hp. fold k in Hp. clearbody k.
  destruct (i_route _ Hw _ _ Hrt) as (Hnz & _).
  open_world. open_worker Hidk. begin. eapply wp_dispatch; [exact Hp | done | done | done |]. norm.
  work. rewrite (insert_id room_workers0) by exact Hr. fetch.
  match type of Hw with inv ?w0 => set (w := w0) in * end.
  apply wp_bind. eapply wp_mono.
  { eapply (wp_send_message w wk _ k sid o); [done | exact Hr | done | | reflexivity | done | done].
    split; [split_and! | split]; norm; try done; try (cbn; lia); by intros a [= <-]. }
  norm. intros res w1 (-> & Hw1 & Hev1 & pad1 & Hpad1 & Hum1 & Hrw1 & Hrt1 & Hj1 & Happ).
  rewrite after_success by reflexivity. fetch.
  destruct (Happ _ _ Ho) as (o1 & Ho1 & Hfd1 & Hs1 & Hst1).
  unfold RoomWorker.save_message. norm. apply wp_bind, wp_bind. eapply wp_at_room; [reflexivity |].
  apply wp_bind. eapply wp_session_fd; [done |]. apply wp_bind, wp_gets, wp_modify.
  rewrite after_success by reflexivity. fetch.
  eapply wp_send_response; [reflexivity | exact Ho1 | by rewrite Hs1; apply (Hsending _ _ Ho) |].
  intros o' evs pad2 _ _ Hpad2 Hst2. norm. unfold Q. rewrite Hc in Hst2.
  split_and!; [done | | | done..].
  - exists pad1, pad2. split_and!; [done | done |]. intros s os Hos. unfold out. norm.
    destruct (Happ _ _ Hos) as (os1 & Hos1 & _ & _ & Hsts). destruct (decide (s = sid)) as [-> | Hne].
    + rewrite lookup_insert_eq. cbn. f_equal. assert (os1 = o1) as -> by congruence.
      by rewrite Hst2, Hsts, <- app_assoc.
    + rewrite lookup_insert_ne, Hos1 by done. cbn. f_equal. by rewrite Hsts, app_nil_r.
  - rewrite Hj1, Hum1, Hfd1. done.
Qed.

(** Loading history, from the packet to the response. The query is asked
    for the room and for messages before the cursor in the request (from the
    newest on when there is none or it is not positive); the client gets
    exactly one response with the query's result, and its rows on success. *)
Theorem load_flow w sid o u p wk st data draws :
  inv w -> client w sid o u -> rq_command (request p) = command_byte CMD_LOAD_MESSAGE ->
  let k := rq_room_id (request p) in
  room_to_worker w !! k = Some wk -> idle w wk -> job_queue w = [] ->
  exists w1,
    (RoomManager.dispatch_packet p sid ;;; RoomWorker.worker_step wk) w = Ok true w1 /\
    (Event.job_type <$> job_queue w1 = [Event.LoadHistory] /\
     Event.params <$> job_queue w1 =
       [[Decimal.to_string k; Decimal.to_string (RoomWorker.load_cursor (body p))]]) /\
    exists w', (Server.db_step st data draws ;;; RoomWorker.worker_step wk) w1 = Ok true w' /\
      answered w' sid o (command_byte CMD_LOAD_MESSAGE) (load_result st) (load_body st data []) /\
      room_workers w' = room_workers w /\ user_manager w' = user_manager w /\ job_queue w' = [].
Proof.
  intros Hw [Ho Hu] Hc k Hrt Hidk Hjobs. plan_from Hc Hp. fold k in Hp. clearbody k.
  destruct (i_route _ Hw _ _ Hrt) as (Hnz & _). open_world. open_worker Hidk.
  begin. eapply wp_dispatch; [exact Hp | done | done | done |]. norm.
  work. fetch. eapply wp_request_load; [reflexivity |]. norm. unfold Q. clear Q.
  split_and!; [done | done | done |]. begin.
  eapply wp_db_load; [reflexivity | reflexivity | look | done | look |]. norm.
  work. eapply wp_answer; [reflexivity | reflexivity | reflexivity | look | by eapply Hsending |].
  intros o' evs pad _ _ Hpad Hst. norm. unfold Q. split_and!; [done | | by apply insert_id | done | done].
  exists pad. split; [done |]. view. by rewrite Hst, Hc.
Qed.

(** A request that names a room nobody owns (to join it, write in it or
    read it, and any command the server does not know) is answered with
    exactly one RoomNotFound, sent by the lobby's worker, and changes nothing
    else. *)
Theorem unrouted_answered w sid o u p :
  inv w -> client w sid o u ->
  to_command (rq_command (request p)) <> Some CMD_CREATE_ROOM ->
  to_command (rq_command (request p)) <> Some CMD_LEAVE_ROOM ->
  room_to_worker w !! rq_room_id (request p) = None -> idle w 1 ->
  exists w',
    (RoomManager.dispatch_packet p sid ;;; RoomWorker.worker_step 1) w = Ok true w' /\
    answered w' sid o (rq_command (request p)) RoomNotFound [] /\
    room_workers w' = room_workers w /\ user_manager w' = user_manager w /\
    room_to_worker w' = room_to_worker w /\ job_queue w' = job_queue w.
Proof.
  intros Hw [Ho Hu] Hc1 Hc2 Hrt Hid1. open_world. open_worker Hid1.
  begin. unfold RoomManager.dispatch_packet. apply wp_bind. eapply wp_ok.
  { apply RoomManager.route_event_unrouted. norm.
    assert (Ht : Event.target_room_id (RoomManager.plan (RoomManager.packet_event p sid))
                 = rq_room_id (request p)); [| by unfold Event.target_room_id in Ht; rewrite Ht].
    unfold RoomManager.plan. cbn [Event.initial_command RoomManager.packet_event Event.set_target
      Event.set_session Event.set_request Event.new_event].
    by destruct (to_command _) as [[] |]. }
  rewrite decide_True by done. apply wp_bind. eapply wp_route; [done | done | exact Hr |]. apply wp_ret.
  norm. work. unfold RoomWorker.process_event. rewrite loop_failed; [| by apply Nat.ltb_lt | done | done].
  eapply wp_send_response; [reflexivity | look | by eapply Hsending |].
  intros o' evs pad _ _ Hpad Hst. norm. unfold Q. split_and!; [done | | by apply insert_id | done..].
  exists pad. split; [done |]. view. by rewrite Hst.
Qed.

(** An unknown command for a room that exists is not answered: its event
    has no actions, and once it has been processed the world is exactly what
    it was before the packet. *)
Theorem unknown_command_ignored w sid p wk :
  inv w -> to_command (rq_command (request p)) = None ->
  room_to_worker w !! rq_room_id (request p) = Some wk -> idle w wk ->
  (RoomManager.dispatch_packet p sid ;;; RoomWorker.worker_step wk) w = Ok true w.
Proof.
  intros Hw Hc Hrt Hidk. destruct (i_route _ Hw _ _ Hrt) as (Hnz & _).
  apply idle_worker in Hidk as (r & Hr & Hq).
  assert (Hx : wp (RoomManager.dispatch_packet p sid ;;; RoomWorker.worker_step wk) no_fault
                 (fun b w' => b = true /\ w' = w) w).
  { unfold RoomManager.dispatch_packet, RoomManager.plan. cbn [Event.initial_command
      RoomManager.packet_event Event.set_target Event.set_session Event.set_request Event.new_event].
    rewrite Hc. apply wp_bind, wp_bind. eapply wp_route; [cbn; by rewrite Hrt | done | done |].
    apply wp_ret. eapply wp_worker_step; [apply lookup_insert_eq | cbn; by rewrite Hq |].
    apply wp_ret. split; [done |]. cbn. rewrite insert_insert_eq.
    destruct w as [h ss um ws rt n jobs main total ep], r as [t rs q]. cbn in *. subst q.
    unfold set_workers, set_queue. cbn. by rewrite insert_id. }
  apply wp_no_fault_ok in Hx as (a & w' & E & -> & ->). exact E.
Qed.

(** A history query whose room has disappeared in the meantime is not
    answered: the callback's event finds no worker, the result of routing is
    ignored, and the job leaves no trace - although the client who asked may
    well be connected (it need not be in the room). *)
Theorem load_answer_dropped w t ps e js k st data draws :
  job_queue w = Event.mkDBJob t ps (Event.DbLoadMessagesOnResult e) :: js ->
  at_room e k -> room_to_worker w !! k = None ->
  Server.db_step st data draws w = Ok tt (set_jobs js w).
Proof.
  intros Hj Hk Hrt.
  assert (Hx : wp (Server.db_step st data draws) no_fault (fun a w' => w' = set_jobs js w) w).
  { unfold Server.db_step. apply wp_bind, wp_gets. rewrite Hj. apply wp_bind, wp_modify.
    unfold RoomWorker.run_callback, RoomWorker.db_load_messages_on_result. cbn [Event.on_result].
    apply wp_bind. eapply wp_at_room; [destruct st; exact Hk |].
    apply wp_bind. eapply wp_ok; [by apply RoomManager.route_event_unrouted |]. by apply wp_ret. }
  apply wp_no_fault_ok in Hx as ([] & w' & E & ->). exact E.
Qed.

End Flows.

(** ** Witnesses: two clients, the first of which has created room 100 *)

Definition request_frame (c : Command) (room_id : Z) : bytes :=
  Session.frame (replicate 3 x00, mkHeader x00, mkRequest room_id 0 (command_byte c), []).

Definition sends (fd : Z) (c : Command) (room_id : Z) : Server.Label :=
  Server.LReady fd (Some [Session.RecvData (request_frame c room_id); Session.RecvAgain]) false false.

(** Clients 5 (session 0) and 6 (session 1) in the lobby. *)
Definition two_clients : list Server.Label :=
  [Server.LAccept 5; Server.LWorker 1; Server.LAccept 6; Server.LWorker 1].

(** Client 5 creates room 100 on worker 2. *)
Definition creates : list Server.Label :=
  [sends 5 CMD_CREATE_ROOM 0; Server.LWorker 1;
   Server.LDb Event.DBSuccess (i64_enc 100) [2; 2]; Server.LWorker 2; Server.LWorker 1].

Definition lobby_world : World := System.after two_clients.
Definition room_world : World := System.after (two_clients ++ creates).

Definition packet_of (c : Command) (room_id : Z) : Packet :=
  mkPacket (mkHeader x00) (mkRequest room_id 0 (command_byte c)) [].

Definition sess (w : World) (sid : Room.Sid) : Session.Session :=
  default (Session.new_session 0) (heap w !! sid).
Definition user (w : World) (fd : Z) : User.User := default (User.new_user 0 0 []) (user_of w fd).
Definition room_of (w : World) (wid k : Z) : Room.Room :=
  default (Room.new_room 0 0) (room_in w wid k).

(** Every hypothesis of a flow is decided by running it. *)
Ltac by_computation :=
  repeat match goal with
         | |- client _ _ _ _ => split
         | |- in_lobby _ _ _ => split
         | |- _ /\ _ => split
         end;
  first [ vm_compute; reflexivity
        | apply (bool_decide_unpack _); vm_compute; exact I ].

Lemma join_flow_witness :
  exists w', (RoomManager.dispatch_packet (packet_of CMD_JOIN_ROOM 100) 1%nat ;;;
    RoomWorker.worker_step 2 ;;; RoomWorker.worker_step 1 ;;;
    Server.db_step Event.DBSuccess [x00; x00; x00; x00] [] ;;; RoomWorker.worker_step 2) room_world
    = Ok true w'.
Proof.
  destruct (join_flow room_world 1%nat (sess room_world 1%nat) (user room_world 6)
    (packet_of CMD_JOIN_ROOM 100) 2 (room_of room_world 2 100) (room_of room_world 1 1)
    Event.DBSuccess [x00; x00; x00; x00] [] (System.after_inv _)) as (w' & E & _);
    [by_computation.. | exists w'; exact E].
Defined.

(** Client 5 joins the room it is in four more times: it counts as full. *)
Definition rejoins : list Server.Label :=
  mjoin (replicate 4 [sends 5 CMD_JOIN_ROOM 100; Server.LWorker 2; Server.LWorker 1]).
Definition full_world : World := System.after (two_clients ++ creates ++ rejoins).

Lemma join_full_flow_witness :
  exists w', (RoomManager.dispatch_packet (packet_of CMD_JOIN_ROOM 100) 1%nat ;;;
    RoomWorker.worker_step 2) full_world = Ok true w'.
Proof.
  destruct (join_full_flow full_world 1%nat (sess full_world 1%nat) (user full_world 6)
    (packet_of CMD_JOIN_ROOM 100) 2 (room_of full_world 2 100) (System.after_inv _))
    as (w' & E & _); [by_computation.. | exists w'; exact E].
Defined.

Lemma leave_flow_witness :
  exists w', (RoomManager.dispatch_packet (packet_of CMD_LEAVE_ROOM 100) 0%nat ;;;
    RoomWorker.worker_step 1 ;;; RoomWorker.worker_step 2) room_world = Ok true w'.
Proof.
  destruct (leave_flow room_world 0%nat (sess room_world 0%nat) (user room_world 5)
    (packet_of CMD_LEAVE_ROOM 100) 2 (room_of room_world 2 100) (room_of room_world 1 1)
    (System.after_inv _)) as (w' & E & _); [by_computation.. | exists w'; exact E].
Defined.

Lemma leave_unknown_unanswered_witness :
  exists w', (RoomManager.dispatch_packet (packet_of CMD_LEAVE_ROOM 7) 0%nat ;;;
    RoomWorker.worker_step 1) lobby_world = Ok true w'.
Proof.
  destruct (leave_unknown_unanswered lobby_world 0%nat (sess lobby_world 0%nat) (user lobby_world 5)
    (packet_of CMD_LEAVE_ROOM 7) (room_of lobby_world 1 1) (System.after_inv _))
    as (w' & E & _); [by_computation.. | exists w'; exact E].
Defined.

Lemma ready_example w kid :
  RoomWorkerSafe.draws_ok (room_worker_num w) [2; 2] -> room_worker_num w = 2 -> is_i64 kid ->
  room_to_worker w !! kid = None -> room_to_worker w !! 1 = Some 1 -> idle w 1 -> job_queue w = [] ->
  idle w 2 -> room_in w 2 kid = None -> ready_to_create w kid [2; 2].
Proof.
  intros Hd Hn **. split; try done. intros wid Hwid. by assert (wid = 2) as -> by lia.
Qed.

Lemma create_flow_witness :
  exists w', (RoomManager.dispatch_packet (packet_of CMD_CREATE_ROOM 0) 0%nat ;;;
    RoomWorker.worker_step 1 ;;; Server.db_step Event.DBSuccess (i64_enc 100 ++ []) [2; 2] ;;;
    let* wid := RoomManager.find_worker 100 in RoomWorker.worker_step wid ;;;
    RoomWorker.worker_step 1) lobby_world = Ok true w'.
Proof.
  destruct (create_flow lobby_world 0%nat (sess lobby_world 0%nat) (user lobby_world 5)
    (packet_of CMD_CREATE_ROOM 0) 100 (i64_enc 100 ++ []) [2; 2] (room_of lobby_world 1 1)
    (ex_intro _ [] eq_refl) (System.after_inv _)) as (w' & E & _);
    [by_computation | reflexivity | apply ready_example; [by_computation | by_computation |
     unfold is_i64; lia | by_computation..] | by_computation.. | exists w'; exact E].
Defined.

Lemma create_outside_lobby_witness :
  exists w', (RoomManager.dispatch_packet (packet_of CMD_CREATE_ROOM 0) 0%nat ;;;
    RoomWorker.worker_step 1 ;;; Server.db_step Event.DBSuccess (i64_enc 101 ++ []) [2; 2] ;;;
    let* wid := RoomManager.find_worker 101 in RoomWorker.worker_step wid ;;;
    RoomWorker.worker_step 1) room_world = Ok true w'.
Proof.
  destruct (create_outside_lobby room_world 0%nat (sess room_world 0%nat) (user room_world 5)
    (packet_of CMD_CREATE_ROOM 0) 101 (i64_enc 101 ++ []) [2; 2] (room_of room_world 1 1)
    (ex_intro _ [] eq_refl) (System.after_inv _)) as (w' & E & _);
    [by_computation | reflexivity | apply ready_example; [by_computation | by_computation |
     unfold is_i64; lia | by_computation..] | by_computation.. | exists w'; exact E].
Defined.

Lemma send_flow_witness :
  exists w', (RoomManager.dispatch_packet (packet_of CMD_SEND_MESSAGE 100) 0%nat ;;;
    RoomWorker.worker_step 2) room_world = Ok true w'.
Proof.
  destruct (send_flow room_world 0%nat (sess room_world 0%nat) (user room_world 5)
    (packet_of CMD_SEND_MESSAGE 100) 2 (room_of room_world 2 100) (System.after_inv _))
    as (w' & E & _); [by_computation.. | exists w'; exact E].
Defined.

Lemma load_flow_witness :
  exists w', (RoomManager.dispatch_packet (packet_of CMD_LOAD_MESSAGE 100) 0%nat ;;;
    RoomWorker.worker_step 2) room_world = Ok true w'.
Proof.
  destruct (load_flow room_world 0%nat (sess room_world 0%nat) (user room_world 5)
    (packet_of CMD_LOAD_MESSAGE 100) 2 Event.DBSuccess [] [] (System.after_inv _))
    as (w' & E & _); [by_computation.. | exists w'; exact E].
Defined.

Lemma unrouted_answered_witness :
  exists w', (RoomManager.dispatch_packet (packet_of CMD_SEND_MESSAGE 7) 0%nat ;;;
    RoomWorker.worker_step 1) lobby_world = Ok true w'.
Proof.
  destruct (unrouted_answered lobby_world 0%nat (sess lobby_world 0%nat) (user lobby_world 5)
    (packet_of CMD_SEND_MESSAGE 7) (System.after_inv _)) as (w' & E & _);
    [by_computation.. | exists w'; exact E].
Defined.

(** 77 is no command. *)
Definition unknown_packet : Packet := mkPacket (mkHeader x00) (mkRequest 100 0 x4d) [].

Lemma unknown_command_ignored_witness :
  (RoomManager.dispatch_packet unknown_packet 0%nat ;;; RoomWorker.worker_step 2) room_world
  = Ok true room_world.
Proof.
  exact (unknown_command_ignored room_world 0%nat unknown_packet 2 (System.after_inv _)
    ltac:(by_computation) ltac:(by_computation) ltac:(by_computation)).
Defined.

(** Client 6, in the lobby, asks for room 100's history; client 5 leaves it. *)
Definition vanished_world : World :=
  System.after (two_clients ++ creates ++
    [sends 6 CMD_LOAD_MESSAGE 100; Server.LWorker 2;
     sends 5 CMD_LEAVE_ROOM 100; Server.LWorker 1; Server.LWorker 2]).

Definition vanished_event : Event.RoomEvent :=
  Event.mkRoomEvent [act Event.REQUEST_DB_LOAD_MESSAGE 100; act Event.SEND_RESPONSE 0] 1 100
    (command_byte CMD_LOAD_MESSAGE) (-1) (Some 1%nat) [] [] None_.

Lemma load_answer_dropped_witness :
  Server.db_step Event.DBSuccess [] [] vanished_world = Ok tt (set_jobs [] vanished_world).
Proof.
  exact (load_answer_dropped vanished_world Event.LoadHistory
    [Decimal.to_string 100; Decimal.to_string INT64_MAX] vanished_event [] 100 Event.DBSuccess [] []
    ltac:(by_computation) ltac:(by_computation) ltac:(by_computation)).
Defined.

End Flow.
