(* ===== verification/Lifecycle.v ===== *)
(** * Lifecycle: connections from accept to close

    What accepting a client and closing a connection do to the whole server,
    including the events the main thread leaves for the workers, and what the
    server does with a request whose connection closes while it is in flight. *)

From S2P Require Import Prelude Wire Session User Room Event World RoomManager RoomWorker.
From S2P Require Import Invariant RoomWorkerSafe Server System RoomWorkerSpec Flow.

Module Lifecycle.
Import Protocol World Invariant Server RoomWorkerSpec Flow.

Section Lifecycle.
Context {Indet : Indeterminate} {Kernel : EpollKernel}.

(** ** Accepting *)

(** What an accepted descriptor meets: it is not open here, the kernel takes
    the registration, and the user counter has not run out. *)
Record acceptable (w : World) (fd : Z) : Prop := {
  ac_fd : 0 <= fd;
  ac_new : sessions w !! fd = None;
  ac_epoll : epoll_ctl_ok (epoll_calls w) (EpAdd fd) = true;
  ac_total : 0 <= total_users w < 2 ^ 63 - 1 }.

(** The event that takes a new session to the lobby. *)
Definition entry_event (junk : byte) (sid : Room.Sid) : Event.RoomEvent :=
  Event.mkRoomEvent [act Event.JOIN_ROOM 1] 0 1 junk (-1) (Some sid) [] [] None_.

(** Accepting creates the session, its table entry and its user, and queues
    one event for the lobby's worker. *)
Lemma wp_accept {F} fd r1 Q w :
  inv w -> acceptable w fd -> room_workers w !! 1 = Some r1 ->
  (forall sid junk, heap w !! sid = None ->
     Q tt (set_workers (<[1 := set_queue (event_queue_ r1 ++ [entry_event junk sid]) r1]> (room_workers w))
       (set_users (User.add_user (User.new_user fd (total_users w + 1) temp_name) (user_manager w))
       (set_total (total_users w + 1) (set_sessions (<[fd := sid]> (sessions w))
       (set_heap (<[sid := Session.new_session fd]> (heap w))
       (set_epoll (EpAdd fd :: epoll_calls w) w))))))) ->
  wp (accept_client fd) F Q w.
Proof.
  intros Hw [Hfd Hnew Hep Ht] Hr1 HQ. unfold accept_client. rewrite decide_False by lia.
  apply wp_bind. unfold epoll_add, epoll_ctl. apply wp_bind, wp_gets. rewrite Hep. apply wp_modify.
  unfold add_session. apply wp_bind, wp_bind, wp_gets, wp_bind, wp_modify, wp_modify.
  apply wp_bind, wp_modify, wp_bind, wp_gets, wp_bind, wp_modify.
  cbn [total_users set_total set_sessions set_heap set_epoll user_manager sessions heap].
  rewrite wrap_small by lia. rewrite (sgn_small 64) by (simpl; lia). rewrite emplace_fresh by done.
  apply wp_bind, wp_gets, wp_bind, wp_gets. cbn [sessions set_users set_total set_sessions].
  rewrite lookup_insert_eq. apply wp_bind. eapply wp_route; [done | done | exact Hr1 |]. apply wp_ret.
  apply HQ. apply not_elem_of_dom, (is_fresh (dom (heap w))).
Qed.

(** The number of the next user and the descriptor are both free. *)
Lemma new_user_fresh w fd name :
  inv w -> sessions w !! fd = None ->
  let u := User.new_user fd (total_users w + 1) name in
  User.um_wf (User.add_user u (user_manager w)) /\
  forall fd', User.get_user fd' (User.add_user u (user_manager w)) =
    if decide (fd' = fd) then Some u else user_of w fd'.
Proof.
  intros Hw Hfd u.
  assert (H1 : User.fd_to_user_id_ (user_manager w) !! fd = None).
  { apply eq_None_not_Some. rewrite <- (i_coherent _ Hw fd), Hfd. by intros []. }
  assert (H2 : User.users_ (user_manager w) !! (total_users w + 1) = None).
  { apply eq_None_not_Some. intros H. apply (i_total _ Hw) in H. lia. }
  pose proof (i_users _ Hw). split; [by apply User.um_wf_add |].
  intros fd'. by apply User.get_user_add.
Qed.

(** ** Closing *)

(** The event that takes a closed descriptor out of a room. *)
Definition exit_event (junk : byte) (fd room_id : Z) : Event.RoomEvent :=
  Event.mkRoomEvent [act Event.DISCONNECT_SESSION room_id] 0 room_id junk fd None [] [] None_.

(** Its effect on the queues: one event, if the room is routed. *)
Definition told (w : World) (junk : byte) (fd room_id : Z) : World :=
  match room_to_worker w !! room_id with
  | Some wid => set_workers (alter (fun r => set_queue (event_queue_ r ++ [exit_event junk fd room_id]) r)
                               wid (room_workers w)) w
  | None => w
  end.

(** Routing never leads to a missing worker. *)
Definition routes_ok (w : World) : Prop :=
  map_Forall (fun _ wid => wid <> 0 /\ is_Some (room_workers w !! wid)) (room_to_worker w).

Lemma disconnect_told fd room_id w :
  routes_ok w ->
  RoomManager.disconnect_session fd room_id w = Ok tt (told w (junk_command w) fd room_id).
Proof.
  intros Hw. unfold RoomManager.disconnect_session, bind at 1, gets. unfold told.
  destruct (room_to_worker w !! room_id) as [wid |] eqn:Ert.
  - destruct (Hw _ _ Ert) as [Hnz [r Hr]]. unfold bind.
    rewrite (RoomManager.route_event_ok _ 0 w wid r); [| | done | done].
    + unfold ret. by rewrite (alter_alt_Some _ _ _ r).
    + rewrite decide_True by done. change (Event.target_room_id _) with room_id. by rewrite Ert.
  - unfold bind. by rewrite RoomManager.route_event_unrouted.
Qed.

(** A worker's queue once it has been told about two rooms. *)
Definition exits (w : World) (j1 j2 : byte) (fd room_id wid : Z) : list Event.RoomEvent :=
  (if decide (room_to_worker w !! room_id = Some wid) then [exit_event j1 fd room_id] else []) ++
  (if decide (room_id <> 1 /\ room_to_worker w !! 1 = Some wid) then [exit_event j2 fd 1] else []).

Lemma queue_told w junk fd room_id wid :
  queue (told w junk fd room_id) wid =
  (fun q => q ++ if decide (room_to_worker w !! room_id = Some wid) then [exit_event junk fd room_id]
                 else []) <$> queue w wid.
Proof.
  unfold told, queue. destruct (room_to_worker w !! room_id) as [wid' |]; cbn.
  - destruct (decide (wid' = wid)) as [-> | Hne].
    + rewrite lookup_alter_eq. rewrite decide_True by done. by destruct (room_workers w !! wid).
    + rewrite lookup_alter_ne by done. rewrite decide_False by congruence.
      destruct (room_workers w !! wid) as [r |]; [| done]. cbn. by rewrite app_nil_r.
  - rewrite decide_False by done. destruct (room_workers w !! wid) as [r |]; [| done]. cbn.
    by rewrite app_nil_r.
Qed.

Lemma room_in_told w junk fd room_id wid k :
  room_in (told w junk fd room_id) wid k = room_in w wid k.
Proof.
  unfold told, room_in. destruct (room_to_worker w !! room_id) as [wid' |]; [| done]. cbn.
  destruct (decide (wid' = wid)) as [-> | Hne]; [| by rewrite lookup_alter_ne].
  rewrite lookup_alter_eq. by destruct (room_workers w !! wid).
Qed.

Lemma told_frame w junk fd room_id : exists ws, told w junk fd room_id = set_workers ws w.
Proof.
  unfold told. destruct (room_to_worker w !! room_id); [eauto |]. exists (room_workers w). by destruct w.
Qed.

Lemma routes_told w junk fd room_id : routes_ok w -> routes_ok (told w junk fd room_id).
Proof.
  unfold told. destruct (room_to_worker w !! room_id) as [wid |]; [| done]. intros Hw k wid' Hk.
  destruct (Hw _ _ Hk) as [Hnz Hs]. split; [done |]. cbn. by apply lookup_alter_is_Some.
Qed.

(** The user a session in the table always has. *)
Lemma session_user w fd sid :
  inv w -> sessions w !! fd = Some sid ->
  exists o u, heap w !! sid = Some o /\ Session.fd o = fd /\ user_of w fd = Some u /\
    User.fd_ u = fd /\ User.fd_to_user_id_ (user_manager w) !! fd = Some (User.user_id_ u).
Proof.
  intros Hw Hs. destruct (i_sessions _ Hw _ _ Hs) as (o & Ho & Hfd).
  destruct (proj1 (i_coherent _ Hw fd) ltac:(eauto)) as [uid Huid].
  destruct (User.um_wf_get_user _ _ _ (i_users _ Hw) Huid) as (u & Hu & Hf & Hid).
  exists o, u. rewrite Hid. done.
Qed.

End Lifecycle.

(** ** Properties *)

Section Properties.
Context {Indet : Indeterminate} {Kernel : EpollKernel}.

(** The second of the two events: after the first, for the user's room, the
    lobby's worker is told too unless that was the lobby. *)
Lemma second_exit w fd room :
  routes_ok w -> exists j2,
  wp (if decide (room <> RoomManager.LOBBY_ROOM_ID)
      then RoomManager.disconnect_session fd RoomManager.LOBBY_ROOM_ID else ret tt) no_fault
    (fun _ w' => (exists ws, w' = set_workers ws w) /\
       (forall wid k, room_in w' wid k = room_in w wid k) /\
       forall wid, queue w' wid =
         (fun q => q ++ exits w (junk_command w) j2 fd room wid) <$> queue w wid)
    (told w (junk_command w) fd room).
Proof.
  intros Hrt. set (w3 := told w _ fd room). unfold exits. exists (junk_command w3).
  destruct (told_frame w (junk_command w) fd room) as [ws Ews].
  pose proof (fun wid => queue_told w (junk_command w) fd room wid) as Hq3.
  fold w3 in Ews, Hq3. case_decide as Hroom.
  - eapply wp_ok; [by apply disconnect_told, routes_told |]. split_and!.
    + destruct (told_frame w3 (junk_command w3) fd RoomManager.LOBBY_ROOM_ID) as [ws' ->].
      exists ws'. by rewrite Ews.
    + intros. unfold w3. by rewrite !room_in_told.
    + intros wid. rewrite queue_told, Hq3, <- option_fmap_compose.
      destruct (queue w wid); [| done]. cbn. f_equal.
      rewrite <- app_assoc. do 2 f_equal. rewrite Ews. cbn. apply decide_ext.
      unfold RoomManager.LOBBY_ROOM_ID in *. naive_solver.
  - apply wp_ret. split_and!; [by exists ws | by intros; unfold w3; rewrite room_in_told |].
    intros wid. rewrite Hq3. destruct (queue w wid); [| done]. cbn. f_equal. f_equal.
    rewrite (decide_False (P := _ /\ _)) by (unfold RoomManager.LOBBY_ROOM_ID in *; naive_solver).
    by rewrite app_nil_r.
Qed.

(** Closing an open descriptor in the one-step model: it is unregistered from
    epoll, its session is marked, its table entry and its user and nobody
    else's are removed, every room is as it was, and exactly one event is left
    with the worker of the user's current room and, when that is not the lobby,
    one with the lobby's. *)
Lemma close_session_spec w fd sid u :
  inv w -> sessions w !! fd = Some sid -> user_of w fd = Some u ->
  exists w', close_session fd w = Ok tt w' /\
    (exists o, heap w !! sid = Some o /\ heap w' = <[sid := Session.mark_disconnecting o]> (heap w)) /\
    sessions w' = delete fd (sessions w) /\ epoll_calls w' = EpDel fd :: epoll_calls w /\
    (forall fd', user_of w' fd' = if decide (fd' = fd) then None else user_of w fd') /\
    (forall wid k, room_in w' wid k = room_in w wid k) /\ room_to_worker w' = room_to_worker w /\
    (exists j1 j2, forall wid,
       queue w' wid = (fun q => q ++ exits w j1 j2 fd (User.current_room_ u) wid) <$> queue w wid) /\
    job_queue w' = job_queue w /\ main_events w' = main_events w.
Proof.
  intros Hw Hs Hu. destruct (session_user w fd sid Hw Hs) as (o & u' & Ho & Hfd & Hu' & Hfu & Hid).
  assert (u' = u) as -> by congruence. apply wp_value.
  unfold close_session, find_session. apply wp_bind, wp_gets. rewrite Hs.
  apply wp_bind, wp_modify, wp_bind, wp_gets. cbn [user_manager set_epoll]. unfold user_of in Hu.
  rewrite Hu. apply wp_bind, wp_ret, wp_bind, wp_modify, wp_bind.
  eapply wp_get_session; [exact Ho |]. apply wp_bind, wp_modify.
  match goal with |- wp _ _ _ ?w0 => set (w2 := w0) end.
  assert (Hrt : routes_ok w2) by apply (i_route _ Hw).
  apply wp_bind. eapply wp_ok; [by apply disconnect_told |].
  destruct (second_exit w2 fd (User.current_room_ u) Hrt) as [j2 H3].
  apply wp_bind. eapply wp_mono; [exact H3 |]. cbv beta.
  intros x w4 ([ws Ew4] & Hrooms & Hqueues). apply wp_bind, wp_modify, wp_modify.
  split_and!; try done; try by rewrite Ew4.
  - exists o. split; [done |]. by rewrite Ew4.
  - intros fd'. rewrite Ew4. unfold user_of. cbn.
    destruct (User.get_user_Some_fd _ _ _ (i_users _ Hw) Hu) as (_ & _ & Hget).
    rewrite (User.get_user_remove _ _ (User.mark_diconnecting u)).
    + cbn. rewrite Hfu. destruct (decide (fd' = fd)) as [-> | Hne]; [done |]. rewrite User.get_user_mark by apply (i_users _ Hw).
      by rewrite decide_False.
    + apply User.um_wf_mark, (i_users _ Hw).
    + unfold User.user_mark_disconnecting. rewrite Hid. cbn. by rewrite lookup_alter_eq, Hget.
  - by exists (junk_command w2), j2.
Qed.

(** [fd] has no session in room [k] of worker [wid]. *)
Definition absent (w : World) (wid k fd : Z) : Prop :=
  forall room, room_in w wid k = Some room -> Room.sessions_ room !! fd = None.

(** Leaving any room never brings a session into one. *)
Lemma wp_leave_absent {F} wid fd k' w :
  inv w -> is_Some (room_workers w !! wid) ->
  wp (RoomWorker.leave_room_fd wid fd k') F
    (fun res w' => (res <> Success -> w' = w) /\ absent w' wid k' fd /\
       (forall k, absent w wid k fd -> absent w' wid k fd)) w.
Proof.
  intros Hw [r Hr]. destruct (i_workers _ Hw _ _ Hr) as (_ & Hrooms & _).
  eapply wp_leave_fd; [exact Hr | |].
  - intros Hk. split_and!; [done | | done]. intros room. rewrite (room_in_worker _ _ _ _ Hr). congruence.
  - intros room Hk. destruct (Hrooms _ _ Hk) as (Hid & _). split.
    + intros Hn. split_and!; [done | | done]. intros room'. rewrite (room_in_worker _ _ _ _ Hr). congruence.
    + intros [s Hs]. unfold left_, Room.exit_session. rewrite Hs. cbn [snd].
      assert (Hput : forall rs w1, room_workers w1 = room_workers w ->
        (forall k room', rs !! k = Some room' -> Room.sessions_ room' !! fd = None \/
           (k <> k' /\ rooms_ r !! k = Some room')) ->
        absent (with_rooms wid r rs w1) wid k' fd /\
        forall k, absent w wid k fd -> absent (with_rooms wid r rs w1) wid k fd).
      { intros rs w1 _ Hrs.
        assert (Ha : forall k, absent w wid k fd \/ k = k' -> absent (with_rooms wid r rs w1) wid k fd).
        { intros k Hk0 room'. rewrite room_in_with_rooms, decide_True by done. intros E.
          destruct (Hrs _ _ E) as [? | [Hne E']]; [done |]. destruct Hk0 as [Ha | ->]; [| done].
          apply Ha. by rewrite (room_in_worker _ _ _ _ Hr). }
        split; [apply Ha; by right |]. intros k Hka. apply Ha. by left. }
      split; intros _; (split; [done |]); apply Hput; try done; intros k room' E.
      * destruct (decide (k = k')) as [-> | Hne].
        -- rewrite lookup_insert_eq in E. injection E as <-. left. apply lookup_delete_eq.
        -- rewrite lookup_insert_ne in E by done. by right.
      * rewrite Hid in E. apply lookup_delete_Some in E as [Hne E].
        rewrite lookup_insert_ne in E by done. by right.
Qed.

(** The event left by a closed connection takes it out of its room. When
    the worker has processed it, the descriptor is not in that room, and in no
    room of this worker that it was not in before. *)
Theorem exit_event_removes w wid fd room_id junk :
  inv w -> is_Some (room_workers w !! wid) ->
  exists w', RoomWorker.process_event wid (exit_event junk fd room_id) w = Ok tt w' /\
    inv w' /\ absent w' wid room_id fd /\ (forall k, absent w wid k fd -> absent w' wid k fd).
Proof.
  intros Hw Hwid. apply wp_value.
  unfold RoomWorker.process_event, exit_event. rewrite (loop_fetch _ _ _ (act Event.DISCONNECT_SESSION room_id))
    by (done || by right).
  unfold run_action. cbn [Event.command Event.event_fd Event.target_room_id Event.set_current].
  apply wp_bind. eapply (wp_mono _ (fun (_ : bool) w' => inv w' /\ absent w' wid room_id fd /\
    (forall k, absent w wid k fd -> absent w' wid k fd))); [| intros b w' H; by apply wp_ret].
  unfold RoomWorker.diconnect_session. apply wp_bind. eapply wp_mono.
  { apply wp_conj; [by apply RoomWorkerSafe.leave_room_fd_safe | by apply wp_leave_absent]. }
  cbv beta. intros res w1 [[Hw1 Hev1] (Hsame & Hab & Hkeep)]. case_decide as Hres; [by apply wp_ret |].
  assert (Hwid1 : is_Some (room_workers w1 !! wid)) by (by rewrite (Hsame Hres)).
  destruct Hwid1 as [r1 Hr1]. apply wp_bind. eapply RoomWorkerSafe.wp_get_rooms; [done |].
  clear Hsame Hres Hev1. generalize ((fun p : Z * Room.Room => Room.room_id_ p.2) <$> map_to_list (rooms_ r1)).
  intros ids. revert w1 r1 Hw1 Hab Hkeep Hr1. induction ids as [| k ids IH]; intros w1 r1 Hw1 Hab Hkeep Hr1;
    cbn [RoomWorker.leave_first]; [by apply wp_ret |]. apply wp_bind. eapply wp_mono.
  { apply wp_conj; [apply RoomWorkerSafe.leave_room_fd_safe | apply wp_leave_absent]; try done; by eexists. }
  cbv beta. intros res' w2 [[Hw2 (_ & Hev2 & _)] (_ & Hab' & Hkeep')].
  destruct (Hev2 wid) as [r2 Hr2]; [eauto |]. case_decide; [apply wp_ret; split_and! | eapply IH]; eauto.
Qed.

(** Accepting a client, up to its arrival in the lobby. The new descriptor
    is registered with epoll, has a fresh session and a new user numbered
    after the count of users so far, and, the lobby being open, ends up in the
    lobby with nothing sent to it. *)
Theorem accept_flow w fd lobby :
  inv w -> acceptable w fd -> idle w 1 -> room_in w 1 1 = Some lobby -> ~ is_full lobby ->
  exists w', (accept_client fd ;;; RoomWorker.worker_step 1) w = Ok true w' /\
    epoll_calls w' = EpAdd fd :: epoll_calls w /\ idle w' 1 /\
    user_of w' fd = Some (User.new_user fd (total_users w + 1) temp_name) /\
    (forall fd', fd' <> fd -> user_of w' fd' = user_of w fd') /\
    exists sid, heap w !! sid = None /\ sessions w' = <[fd := sid]> (sessions w) /\
      room_in w' 1 1 = Some (joined fd sid lobby) /\ out w' sid = Some [].
Proof.
  intros Hw Hac Hid1 Hl Hnf.
  assert (Hum : User.um_wf (User.add_user (User.new_user fd (total_users w + 1) temp_name) (user_manager w)) /\
    forall fd', User.get_user fd' (User.add_user (User.new_user fd (total_users w + 1) temp_name)
      (user_manager w)) = if decide (fd' = fd) then Some (User.new_user fd (total_users w + 1) temp_name)
                          else user_of w fd') by (apply new_user_fresh; [done | apply Hac]).
  destruct Hum as [Hum Hget]. open_world. open_worker Hid1. begin.
  eapply wp_accept; [exact Hw | exact Hac | exact Hr |]. intros sid junk Hsid. norm. unfold entry_event. work.
  fetch. op wp_join_ok; [done | unfold user_of; cbn; rewrite Hget; rewrite decide_True by done; eauto |].
  apply wp_ret. unfold Q. clear Q. cbn [Session.fd Session.new_session] in *.
  split_and!; [done | done | by view | | |].
  - rewrite User.get_user_set_room, decide_True, Hget by done. by rewrite decide_True.
  - intros fd' Hne. rewrite User.get_user_set_room, decide_False, Hget by done. by rewrite decide_False.
  - exists sid. split_and!; [done | done | by view | by view].
Qed.


(** The thousandth visitor. When the lobby is full the new client is told
    RoomFull in a response it never asked for, whose command is the
    uninitialised [initial_command] of the entry event; it stays connected,
    with a user whose current room is the lobby it is not in. *)
Theorem accept_lobby_full w fd lobby :
  inv w -> acceptable w fd -> idle w 1 -> room_in w 1 1 = Some lobby -> is_full lobby ->
  exists w', (accept_client fd ;;; RoomWorker.worker_step 1) w = Ok true w' /\
    room_in w' 1 1 = Some lobby /\
    user_of w' fd = Some (User.new_user fd (total_users w + 1) temp_name) /\
    exists sid junk, sessions w' !! fd = Some sid /\
      answered w' sid (Session.new_session fd) junk RoomFull [].
Proof.
  intros Hw Hac Hid1 Hl Hf.
  assert (Hget := new_user_fresh w fd temp_name Hw (ac_new _ _ Hac)). destruct Hget as [_ Hget].
  open_world. open_worker Hid1. begin.
  eapply wp_accept; [exact Hw | exact Hac | exact Hr |]. intros sid junk Hsid. norm. unfold entry_event. work.
  fetch. apply wp_bind. eapply wp_join_full; [reflexivity | reflexivity | look | look | look | done |]. norm.
  rewrite (after_failure _ _ _ (act Event.JOIN_ROOM 1)) by done.
  eapply wp_send_response; [reflexivity | look | done |].
  intros o' evs pad _ _ Hpad Hst. norm. unfold Q. split_and!; [done | by view | |].
  - rewrite Hget. by rewrite decide_True.
  - exists sid, junk. split; [apply lookup_insert_eq |]. exists pad. split; [done |]. view. by rewrite Hst.
Qed.

End Properties.

(** ** Witnesses and a schedule *)

Lemma close_session_spec_witness :
  exists w', close_session 5 room_world = Ok tt w' /\ sessions w' = delete 5 (sessions room_world).
Proof.
  destruct (close_session_spec room_world 5 0%nat (user room_world 5) (System.after_inv _))
    as (w' & E & _ & H & _); [by_computation | by_computation | exists w'; exact (conj E H)].
Defined.

Lemma exit_event_removes_witness :
  exists w', RoomWorker.process_event 2 (exit_event x00 5 100) room_world = Ok tt w' /\ absent w' 2 100 5.
Proof.
  destruct (exit_event_removes room_world 2 5 100 x00 (System.after_inv _)) as (w' & E & _ & H & _);
    [by_computation | exists w'; exact (conj E H)].
Defined.

Lemma accept_flow_witness :
  exists w', (accept_client 7 ;;; RoomWorker.worker_step 1) lobby_world = Ok true w'.
Proof.
  destruct (accept_flow lobby_world 7 (room_of lobby_world 1 1) (System.after_inv _))
    as (w' & E & _); [split; by_computation | by_computation.. | exists w'; exact E].
Defined.

(** A lobby that counts 999 heads. *)
Definition packed_lobby : Room.Room := Room.mkRoom 1 ∅ 999 999.
Definition packed_world : World :=
  with_rooms 1 (RoomManager.new_worker WLobby) {[1 := packed_lobby]} (RoomManager.init_world 2).

Lemma packed_inv : inv packed_world.
Proof.
  apply inv_put_rooms; [apply System.init_inv | done | |].
  - intros k room H. apply lookup_singleton_Some in H as [<- <-].
    split_and!; [done | done | by right | done].
  - intros _. by eexists.
Qed.

Lemma accept_lobby_full_witness :
  exists w', (accept_client 5 ;;; RoomWorker.worker_step 1) packed_world = Ok true w'.
Proof.
  destruct (accept_lobby_full packed_world 5 packed_lobby packed_inv)
    as (w' & E & _); [split; by_computation | by_computation.. | exists w'; exact E].
Defined.

(** Client 6 asks to join room 100 and hangs up before worker 2 sees the request. *)
Definition ghost_world : World :=
  System.after (two_clients ++
    [LKernel 0%nat [Session.SendN 100]; LKernel 1%nat [Session.SendN 100]] ++ creates ++
    [sends 6 CMD_JOIN_ROOM 100; LReady 6 None false true; LWorker 1; LWorker 2]).

(** A request that is in flight when its connection closes leaves a ghost.
    The server reaches a world with no event, job or main event left anywhere
    in which a room holds the session of a descriptor that has neither a
    table entry nor a user: no event can remove it any more, its place in the
    room is taken and (the room's [shared_ptr] keeping the [Session] and its
    [Socket] alive) its descriptor stays open. *)
Theorem ghost_member_reachable :
  exists w room, reachable 2 w /\ room_in w 2 100 = Some room /\
    Room.sessions_ room !! 6 = Some 1%nat /\ Room.get_sessions_num room = 2 /\
    sessions w !! 6 = None /\ user_of w 6 = None /\
    idle w 1 /\ idle w 2 /\ job_queue w = [] /\ main_events w = [].
Proof.
  exists ghost_world, (room_of ghost_world 2 100). split; [apply System.after_reachable |]. by_computation.
Qed.
End Lifecycle.
