(* ===== verification/Database.v ===== *)
(** * Database: server/src/db/

    The database thread: connection, query execution with its single retry,
    the reading of results, and [process_job], which turns a queued job into
    the call of its callback. libpq is not part of the repository: it is the
    parameter [LibPQ], with the functions the code calls and nothing assumed
    about them. [db::account::serialize] is declared and called but defined
    nowhere in the repository; it is a parameter too. *)

From Stdlib Require Import String.
From S2P Require Import Prelude Codec Message Wire Decimal Session User Room Event World RoomManager.
From S2P Require Import RoomWorker Invariant RoomWorkerSafe Server System RoomWorkerSpec Flow.

Module Database.
Import World Invariant Flow.

(** ** libpq *)

Class LibPQ := {
  PGconn : Type;
  PGresult : Type;
  PQstatus_ok : PGconn -> bool;                       (* PQstatus(c) == CONNECTION_OK *)
  PQreset : PGconn -> PGconn;
  PQexecParams : PGconn -> string -> list bytes -> option PGresult * PGconn;
  PQconnectdb : string -> PGconn;
  PQresult_ok : PGresult -> bool;                     (* TUPLES_OK or COMMAND_OK *)
  PQresStatus : PGresult -> bytes;                    (* PQresStatus(PQresultStatus(r)) *)
  PQresultErrorMessage : PGresult -> bytes;
  PQsqlstate : PGresult -> option bytes;              (* PQresultErrorField(r, SQLSTATE) *)
  PQntuples : PGresult -> Z;
  PQnfields : PGresult -> Z;
  PQcmdTuples : PGresult -> bytes;
  PQfnumber : PGresult -> string -> Z;
  PQgetisnull : PGresult -> Z -> Z -> bool;
  PQgetvalue : PGresult -> Z -> Z -> bytes }.         (* the characters before the NUL *)

Section Database.
Context {PQ : LibPQ} (account_serialize : option PGresult -> bytes).

(** ** DBResult: a possibly null [PGresult] *)

Definition DBResult : Type := option PGresult.

Definition ok (r : DBResult) : bool := match r with Some res => PQresult_ok res | None => false end.
Definition sqlstate (r : DBResult) : bytes :=
  match r with
  | None => []
  | Some res => match PQsqlstate res with Some s => s | None => [] end
  end.
Definition rows (r : DBResult) : Z := match r with Some res => PQntuples res | None => 0 end.

Definition cols (r : DBResult) : Z := match r with Some res => PQnfields res | None => 0 end.

Definition status_name (r : DBResult) : bytes :=
  match r with Some res => PQresStatus res | None => list_byte_of_string "NULL_RESULT" end.
Definition error (r : DBResult) : bytes :=
  match r with Some res => PQresultErrorMessage res | None => list_byte_of_string "result it null" end.

(** [atoi], for a count that fits an [int]. *)
Definition affected_rows (r : DBResult) : Z :=
  match r with
  | None => 0
  | Some res => match PQcmdTuples res with [] => 0 | n => default 0 (Decimal.stoll n) end
  end.

(** libpq takes every field of a null result, and one out of range, for null. *)
Definition is_null (row : Z) (col : string) (r : DBResult) : bool :=
  match r with Some res => PQgetisnull res row (PQfnumber res col) | None => true end.

(** libpq answers -1 for the column of a null result. *)
Definition get_string (row : Z) (col : string) (r : DBResult) : bytes :=
  match r with
  | None => []
  | Some res =>
      let f := PQfnumber res col in
      if decide (f < 0) then [] else
      if PQgetisnull res row f then [] else PQgetvalue res row f
  end.

Definition get_int64 (row : Z) (col : string) (r : DBResult) : Z :=
  let v := get_string row col r in
  if decide (v = []) then 0
  else match Decimal.stoll v with Some n => n | None => 0 end.

(** ** DBConnection: a possibly null [PGconn] *)

(** What a [char*] made by [c_str()] means to a C library. *)
Fixpoint c_str (s : bytes) : bytes :=
  match s with
  | [] => []
  | b :: s' => if decide (b = x00) then [] else b :: c_str s'
  end.

Definition exec_once (sql : string) (params : list bytes) (c : PGconn) : DBResult * PGconn :=
  PQexecParams c sql (c_str <$> params).

Definition is_alive (c : PGconn) : bool := PQstatus_ok c.

(** The constructor keeps a connection that failed, and complains. *)
Definition DBConnection_construct (conninfo : string) : PGconn * bool :=
  let c := PQconnectdb conninfo in (c, negb (PQstatus_ok c)).

Definition reconnect (c : PGconn) : bool * PGconn :=
  let c := PQreset c in (PQstatus_ok c, c).

Definition exec (sql : string) (params : list bytes) (c : PGconn) : DBResult * PGconn :=
  let '(res, c) := exec_once sql params c in
  if negb (ok res) && negb (is_alive c) then
    let '(up, c) := reconnect c in
    if up then exec_once sql params c else (res, c)
  else (res, c).

(** ** Repositories *)

Definition message_kInsert : string :=
  "INSERT INTO messages(room_id, sender_id, sender_nick, content) VALUES($1, $2, $3, $4)".
Definition message_kSelectRecent : string :=
  "SELECT id, sender_id, sender_nick, content,    EXTRACT(EPOCH FROM created_at)::bigint AS created_epoch FROM messages WHERE room_id = $1 AND id < $2 ORDER BY id DESC LIMIT 50".
Definition room_kInsert : string := "INSERT INTO room DEFAULT VALUES RETURNING room_id".
Definition account_kFindByLoginId : string :=
  "SELECT user_id, pass_hash, nickname FROM account WHERE login_id = $1".
Definition account_kInsert : string :=
  "INSERT INTO account(login_id, pass_hash, nickname) VALUES($1, $2, $3) RETURNING user_id".

Definition save := exec message_kInsert.
Definition load_recent := exec message_kSelectRecent.
Definition room_create := exec room_kInsert.
Definition account_find := exec account_kFindByLoginId.
Definition account_create := exec account_kInsert.

Definition to_message (r : DBResult) (i : Z) : Msg.Message :=
  Msg.mkMessage (get_int64 i "id" r) (get_int64 i "sender_id" r) (get_int64 i "created_epoch" r)
    (get_string i "sender_nick" r) (get_string i "content" r).

Definition to_messages (r : DBResult) : list Msg.Message := to_message r <$> seqZ 0 (rows r).

Definition room_serialize (r : DBResult) : bytes :=
  if decide (rows r = 0) then [] else Codec.put [] (i64_enc (get_int64 0 "room_id" r)).

Definition account_params_for_find (login_id : bytes) : list bytes := [login_id].
Definition account_params_for_create (login_id pass_hash nickname : bytes) : list bytes :=
  [login_id; pass_hash; nickname].

(** ** DBWorker *)

Definition DBWorker_connection : PGconn * bool :=
  DBConnection_construct "application_name=chatserver connect_timeout=5".

(** ["23505"] *)
Definition unique_violation : bytes := [x32; x33; x35; x30; x35].

Definition status_of (type : Event.DBJobType) (r : DBResult) : Event.DBStatus :=
  if negb (ok r) then
    if decide (sqlstate r = unique_violation) then Event.DBStDuplicate else Event.DBStError
  else
    match type with
    | Event.FindAccount => if decide (rows r = 0) then Event.DBStNotFound else Event.DBSuccess
    | Event.SaveMessage | Event.LoadHistory | Event.CreateAccount | Event.CreateRoom => Event.DBSuccess
    end.

(** The [switch] of [process_job]: the query and the bytes made of its result. *)
Definition run_query (j : Event.DBJob) (c : PGconn) : DBResult * bytes * PGconn :=
  match Event.job_type j with
  | Event.SaveMessage =>
      let '(res, c) := save (Event.params j) c in (res, [], c)
  | Event.LoadHistory =>
      let '(res, c) := load_recent (Event.params j) c in (res, Msg.serialize (to_messages res), c)
  | Event.CreateAccount =>
      let '(res, c) := account_create (Event.params j) c in (res, account_serialize res, c)
  | Event.CreateRoom =>
      let '(res, c) := room_create (Event.params j) c in (res, room_serialize res, c)
  | Event.FindAccount =>
      let '(res, c) := account_find (Event.params j) c in (res, account_serialize res, c)
  end.

Section World.
Context {Indet : Indeterminate} {SService : IServerService}.

Definition process_job (j : Event.DBJob) (draws : list Z) (c : PGconn) : M PGconn :=
  let '(res, data, c) := run_query j c in
  RoomWorker.run_callback (Event.on_result j) (status_of (Event.job_type j) res) data draws ;;;
  ret c.

(** One iteration of the inner loop of [thread_main]. *)
Definition worker_step (draws : list Z) (c : PGconn) : M PGconn :=
  let* jobs := gets job_queue in
  match jobs with
  | [] => ret c
  | j :: jobs' => modify (set_jobs jobs') ;;; process_job j draws c
  end.

(** The end of [DBWorker::stop]: every job still queued is failed. *)
Fixpoint stop_loop (fuel : nat) : M unit :=
  match fuel with
  | O => ret tt
  | S fuel' =>
      let* jobs := gets job_queue in
      match jobs with
      | [] => ret tt
      | j :: jobs' =>
          modify (set_jobs jobs') ;;;
          RoomWorker.run_callback (Event.on_result j) Event.DBStError [] [] ;;;
          stop_loop fuel'
      end
  end.

Definition stop : M unit :=
  let* n := gets (fun w => length (job_queue w)) in stop_loop n.
End World.

(** ** Results that mean something *)

(** Row [i] of a result holds the columns of [m], as text. *)
Definition row_holds (r : DBResult) (i : Z) (m : Msg.Message) : Prop :=
  get_string i "id" r = Decimal.to_string (Msg.id m) /\
  get_string i "sender_id" r = Decimal.to_string (Msg.sender_id m) /\
  get_string i "created_epoch" r = Decimal.to_string (Msg.created_epoch m) /\
  get_string i "sender_nick" r = Msg.sender_nick m /\ get_string i "content" r = Msg.content m.

Definition holds (r : DBResult) (ms : list Msg.Message) : Prop :=
  rows r = size_of ms /\ forall i m, ms !! i = Some m -> row_holds r (Z.of_nat i) m.

Lemma get_int64_to_string row col r z :
  is_i64 z -> get_string row col r = Decimal.to_string z -> get_int64 row col r = z.
Proof.
  intros Hz E. unfold get_int64. rewrite E. rewrite Decimal.stoll_to_string_gen by done.
  rewrite decide_False; [done |]. intros En. pose proof (Decimal.stoll_to_string_gen z Hz) as H.
  by rewrite En in H.
Qed.

Lemma to_messages_holds r ms : holds r ms -> Forall Msg.msg_valid ms -> to_messages r = ms.
Proof.
  intros [Hn Hrow] Hv. apply list_eq. intros i. unfold to_messages. rewrite list_lookup_fmap, Hn.
  destruct (ms !! i) as [m |] eqn:E.
  - pose proof (lookup_lt_Some _ _ _ E) as Hlt.
    rewrite lookup_seqZ_lt, Z.add_0_l by (unfold size_of; lia). cbn. f_equal.
    destruct (Hrow _ _ E) as (H1 & H2 & H3 & H4 & H5).
    destruct (proj1 (Forall_lookup _ _) Hv _ _ E) as (V1 & V2 & V3 & _).
    unfold to_message. rewrite (get_int64_to_string _ _ _ _ V1 H1), (get_int64_to_string _ _ _ _ V2 H2),
      (get_int64_to_string _ _ _ _ V3 H3), H4, H5. by destruct m.
  - apply lookup_ge_None in E. rewrite lookup_seqZ_ge by (unfold size_of; lia). done.
Qed.

Lemma c_str_id s : x00 ∉ s -> c_str s = s.
Proof.
  induction s as [| b s IH]; [done |]. rewrite not_elem_of_cons. intros [Hb Hs]. cbn.
  rewrite decide_False by done. by rewrite IH.
Qed.

Lemma c_str_prefix s : exists rest, s = c_str s ++ rest /\ (rest = [] \/ head rest = Some x00).
Proof.
  induction s as [| b s (rest & E & H)]; [exists []; auto |]. cbn. case_decide as Hb.
  - exists (b :: s). subst. auto.
  - exists rest. rewrite E at 1. auto.
Qed.

(** ** What a job's callback is to be told *)

(** The text a job's query has. *)
Definition query_of (type : Event.DBJobType) : string :=
  match type with
  | Event.SaveMessage => message_kInsert
  | Event.LoadHistory => message_kSelectRecent
  | Event.CreateRoom => room_kInsert
  | Event.FindAccount => account_kFindByLoginId
  | Event.CreateAccount => account_kInsert
  end.

(** A query is asked once; when it fails on a connection that is down, the
    connection is reset, and if that brings it up the query is asked again. *)
Inductive asked (sql : string) (params : list bytes) (c : PGconn) : DBResult -> PGconn -> Prop :=
  | asked_once r c1 :
      PQexecParams c sql (c_str <$> params) = (r, c1) -> ok r = true \/ PQstatus_ok c1 = true ->
      asked sql params c r c1
  | asked_lost r c1 :
      PQexecParams c sql (c_str <$> params) = (r, c1) -> ok r = false -> PQstatus_ok c1 = false ->
      PQstatus_ok (PQreset c1) = false -> asked sql params c r (PQreset c1)
  | asked_again r1 c1 r c2 :
      PQexecParams c sql (c_str <$> params) = (r1, c1) -> ok r1 = false -> PQstatus_ok c1 = false ->
      PQstatus_ok (PQreset c1) = true -> PQexecParams (PQreset c1) sql (c_str <$> params) = (r, c2) ->
      asked sql params c r c2.

(** The status and the bytes that report the result [r] of a job's query: a
    failure is never a success, and a success is one (an account that does not
    exist apart); history bytes are what the client's parser reads back as the
    rows; a new room's bytes are its number, and nothing without one; a saved
    message has none. *)
Record reports (type : Event.DBJobType) (r : DBResult) (st : Event.DBStatus) (data : bytes) : Prop := {
  rp_failed : ok r = false ->
    (st = Event.DBStDuplicate /\ sqlstate r = unique_violation) \/
    (st = Event.DBStError /\ sqlstate r <> unique_violation);
  rp_done : ok r = true ->
    (st = Event.DBStNotFound /\ type = Event.FindAccount /\ rows r = 0) \/
    (st = Event.DBSuccess /\ (type = Event.FindAccount -> rows r <> 0));
  rp_saved : type = Event.SaveMessage -> data = [];
  rp_history : type = Event.LoadHistory -> forall ms tail out,
    holds r ms -> Forall Msg.msg_valid ms -> is_u32 (size_of ms) -> size_of (Msg.serialize ms ++ tail) < 2 ^ 63 ->
    Msg.parse (data ++ tail) out = (true, ms);
  rp_room : type = Event.CreateRoom ->
    (rows r = 0 -> data = []) /\
    forall kid, rows r <> 0 -> get_string 0 "room_id" r = Decimal.to_string kid -> is_i64 kid -> data = i64_enc kid }.

Lemma exec_asked sql params c r c' : exec sql params c = (r, c') -> asked sql params c r c'.
Proof.
  unfold exec, exec_once. destruct (PQexecParams c sql _) as [r1 c1] eqn:E.
  unfold is_alive, reconnect. destruct (ok r1) eqn:E1; cbn; [intros [= <- <-]; apply asked_once; auto |].
  destruct (PQstatus_ok c1) eqn:E2; cbn; [intros [= <- <-]; apply asked_once; auto |].
  destruct (PQstatus_ok (PQreset c1)) eqn:E3; [| intros [= <- <-]; by apply asked_lost].
  intros E4. by eapply asked_again.
Qed.

Lemma run_query_asked j c r data c' :
  run_query j c = (r, data, c') -> asked (query_of (Event.job_type j)) (Event.params j) c r c'.
Proof.
  unfold run_query, save, load_recent, room_create, account_find, account_create, query_of. intros H. apply exec_asked.
  destruct (Event.job_type j); destruct (exec _ _ c) as [r1 c1]; by injection H as <- _ <-.
Qed.

Lemma status_of_reports type r :
  (ok r = false -> (status_of type r = Event.DBStDuplicate /\ sqlstate r = unique_violation) \/
                   (status_of type r = Event.DBStError /\ sqlstate r <> unique_violation)) /\
  (ok r = true -> (status_of type r = Event.DBStNotFound /\ type = Event.FindAccount /\ rows r = 0) \/
                  (status_of type r = Event.DBSuccess /\ (type = Event.FindAccount -> rows r <> 0))).
Proof.
  unfold status_of. split; intros ->; cbn.
  - case_decide; auto.
  - destruct type; try (right; by split). case_decide; auto.
Qed.

Lemma run_query_reports j c r data c' :
  run_query j c = (r, data, c') -> reports (Event.job_type j) r (status_of (Event.job_type j) r) data.
Proof.
  intros H. pose proof (status_of_reports (Event.job_type j) r) as [H1 H2].
  split; [exact H1 | exact H2 | | |]; intros Et; unfold run_query in H; rewrite Et in H.
  - destruct (save _ c). by injection H as _ <- _.
  - intros ms tail out Hh Hv Hn Hsz. destruct (load_recent _ c) as [r1 c1]. injection H as -> <- _.
    rewrite (to_messages_holds r ms) by done. by apply Msg.parse_serialize_gen.
  - destruct (room_create _ c) as [r1 c1]. injection H as -> <- _. unfold room_serialize. split.
    + intros ->. by rewrite decide_True.
    + intros kid Hr Hs Hk. rewrite decide_False by done. by rewrite (get_int64_to_string _ _ _ kid).
Qed.

Section Safety.
Context {Indet : Indeterminate} {Kernel : Server.EpollKernel} {F : Fault -> Prop}.

(** A failed job's callback only routes its event. *)
Lemma callback_error_frame c w w' :
  RoomWorker.run_callback c Event.DBStError [] [] w = Ok tt w' -> job_queue w' = job_queue w.
Proof.
  assert (Hroute : forall e t, (RoomManager.route_event e t ;;; ret tt) w = Ok tt w' ->
    job_queue w' = job_queue w).
  { intros e t H. unfold bind in H. destruct (RoomManager.route_event e t w) as [r w1 |] eqn:E; [| done].
    injection H as <-. apply RoomManager.route_event_frame in E. by rewrite E. }
  destruct c as [| e | e]; cbn [RoomWorker.run_callback].
  - by intros [= <-].
  - unfold RoomWorker.db_create_room_on_result. destruct (Codec.take 8 _) as [t r]. apply Hroute.
  - unfold RoomWorker.db_load_messages_on_result, RoomWorker.current_room.
    cbn [Event.actions Event.current_action Event.set_result].
    destruct (Event.actions e !! _) as [a |]; [| done]. cbn [deref]. rewrite !bind_ret. apply Hroute.
Qed.

Lemma stop_loop_safe n w :
  inv w -> length (job_queue w) = n ->
  wp (stop_loop n) F (fun _ w' => inv w' /\ job_queue w' = []) w.
Proof.
  revert w. induction n as [| n IH]; intros w Hw Hn; cbn [stop_loop].
  - apply wp_ret. split; [done |]. by apply nil_length_inv.
  - apply wp_bind, wp_gets. destruct (job_queue w) as [| j js] eqn:Ej; [done |].
    pose proof (i_jobs _ Hw) as Hj. rewrite Ej in Hj. inversion Hj as [| ? ? Hj1 Hj2]; subst.
    apply wp_bind, wp_modify. destruct (inv_set_jobs w js Hw Hj2) as [Hw' Hev].
    apply wp_bind. eapply (wp_mono _ (fun _ w' => (inv w' /\ evolves (set_jobs js w) w') /\ job_queue w' = js)).
    + apply wp_and; [apply RoomWorkerSafe.run_callback_safe; [done |]; split; [done | by intros [? _]] |].
      intros [] w' E. by apply callback_error_frame in E.
    + intros [] w' [[Hw1 _] Hjobs]. apply IH; [done |]. rewrite Hjobs. by injection Hn.
Qed.
End Safety.

(** ** Properties *)

(** C35: history from the table to the client. When the query of a LoadHistory
    job comes back with rows that hold the messages [ms], the job's callback is
    given [DBSuccess] and bytes from which the client's parser recovers exactly
    [ms], whatever follows them: the text columns, the binary format of the
    server and the parser of the client agree. *)
Theorem history_roundtrip j c r c' ms tail out :
  Event.job_type j = Event.LoadHistory -> load_recent (Event.params j) c = (r, c') -> ok r = true ->
  holds r ms -> Forall Msg.msg_valid ms -> is_u32 (size_of ms) ->
  size_of (Msg.serialize ms ++ tail) < 2 ^ 63 ->
  exists data, run_query j c = (r, data, c') /\ status_of (Event.job_type j) r = Event.DBSuccess /\
    Msg.parse (data ++ tail) out = (true, ms).
Proof.
  intros Hj Hr Hok Hh Hv Hn Hsz. unfold run_query, status_of. rewrite Hj, Hr, Hok.
  rewrite (to_messages_holds r ms) by done. eexists. split_and!; [done | done |].
  by apply Msg.parse_serialize_gen.
Qed.

(** A room from the table to its worker. When the insertion comes back
    with one row whose room_id is [kid], the data given to the callback of the
    CreateRoom job start with [kid], and the status is [DBSuccess]. *)
Theorem create_room_issued j c r c' kid :
  Event.job_type j = Event.CreateRoom -> room_create (Event.params j) c = (r, c') -> ok r = true ->
  rows r = 1 -> get_string 0 "room_id" r = Decimal.to_string kid -> is_i64 kid ->
  exists data, run_query j c = (r, data, c') /\ issued data kid /\
    status_of (Event.job_type j) r = Event.DBSuccess.
Proof.
  intros Hj Hr Hok Hrows Hs Hkid. unfold run_query, status_of. rewrite Hj, Hr, Hok.
  eexists. split_and!; [done | | done]. exists []. unfold room_serialize. rewrite Hrows.
  rewrite decide_False by done. rewrite (get_int64_to_string _ _ _ kid) by done.
  by rewrite app_nil_r.
Qed.

(** A query is sent once, or twice. For any way of counting the queries a
    connection has carried, [exec] adds one or two to it; it adds two only
    when the first answer was a failure on a dead connection that came back
    up, and then the second answer is the one returned. *)
Theorem exec_at_most_twice (count : PGconn -> Z) sql params c :
  (forall c sql ps, count (PQexecParams c sql ps).2 = count c + 1) ->
  (forall c, count (PQreset c) = count c) ->
  let '(first, c1) := exec_once sql params c in
  let '(r, c') := exec sql params c in
  (count c' = count c + 1 /\ r = first) \/
  (count c' = count c + 2 /\ ok first = false /\ PQstatus_ok c1 = false /\
   PQstatus_ok (PQreset c1) = true /\ r = (exec_once sql params (PQreset c1)).1).
Proof.
  intros Hq Hr. unfold exec, exec_once. pose proof (Hq c sql (c_str <$> params)) as H1.
  destruct (PQexecParams c sql _) as [first c1]. cbn in H1.
  unfold is_alive, reconnect. destruct (ok first) eqn:E1; cbn; [by left |].
  destruct (PQstatus_ok c1) eqn:E2; cbn; [by left |].
  pose proof (Hq (PQreset c1) sql (c_str <$> params)) as H2. rewrite Hr in H2.
  destruct (PQstatus_ok (PQreset c1)) eqn:E3; cbn.
  - destruct (PQexecParams (PQreset c1) sql _) as [r2 c2]. cbn in *. right. split_and!; try done. lia.
  - left. by rewrite Hr.
Qed.

(** What reaches the database of a message. The text given to libpq is the
    message up to its first zero byte: all of it exactly when it has none, so
    a message with a zero byte is stored cut short although it is broadcast
    in full. *)
Theorem saved_text_is_c_string content :
  (c_str content = content <-> x00 ∉ content) /\
  exists rest, content = c_str content ++ rest /\ (rest = [] \/ head rest = Some x00).
Proof.
  split; [| apply c_str_prefix]. split; [| apply c_str_id].
  intros E Hin. assert (Hno : x00 ∉ c_str content); [| by rewrite E in Hno].
  clear E Hin. induction content as [| b s IH]; cbn; [by apply not_elem_of_nil |].
  case_decide; [by apply not_elem_of_nil |]. by apply not_elem_of_cons.
Qed.

(** C36: the database thread does what its job asks. For the job at the front
    of the queue, whatever libpq answers: the job's query is asked with the
    job's parameters, once, or twice if the connection had died and came back
    ([asked]); the result is reported faithfully ([reports]), a failure as a
    failure, rows as bytes the client's parser reads back; and the job's
    callback, given this status and these bytes, is one transition of the
    server with them. It completes in a well-formed world, unless there are
    fewer than two workers and a new room is to be placed. *)
Theorem worker_step_refines {Indet : Indeterminate} {Kernel : Server.EpollKernel} w draws c j js :
  inv w -> job_queue w = j :: js -> RoomWorkerSafe.drawable (room_worker_num w) draws ->
  exists r st data c',
    asked (query_of (Event.job_type j)) (Event.params j) c r c' /\
    reports (Event.job_type j) r st data /\
    match worker_step draws c w with
    | Ok c1 w' => c1 = c' /\ Server.exec (Server.LDb st data draws) w = Ok tt w' /\ inv w'
    | Stop f => f = BadDistribution /\ room_worker_num w < 2 /\ System.placing w st /\
        Server.exec (Server.LDb st data draws) w = Stop f
    end.
Proof.
  intros Hw Ej Hd. destruct (run_query j c) as [[r data] c'] eqn:Eq.
  exists r, (status_of (Event.job_type j) r), data, c'.
  split; [by eapply run_query_asked | split; [by eapply run_query_reports |]].
  set (st := status_of _ r). pose proof (System.exec_safe (Server.LDb st data draws) w Hw Hd) as Hsafe.
  assert (Hx : worker_step draws c w = match Server.exec (Server.LDb st data draws) w with
    | Ok _ w' => Ok c' w' | Stop f => Stop f end).
  { unfold worker_step, process_job, Server.exec, Server.db_step, bind, gets, modify, ret. rewrite Ej, Eq. done. }
  rewrite Hx. unfold wp in Hsafe. destruct (Server.exec _ w) as [[] w' | f].
  - by destruct Hsafe as [? _].
  - by destruct Hsafe as (-> & ? & ?).
Qed.

(** Stopping the database thread terminates and leaves no job behind. *)
Theorem stop_drains {Indet : Indeterminate} {Kernel : Server.EpollKernel} w :
  inv w -> exists w', stop w = Ok tt w' /\ job_queue w' = [] /\ inv w'.
Proof.
  intros Hw. assert (H : wp stop no_fault (fun _ w' => inv w' /\ job_queue w' = []) w).
  { unfold stop. apply wp_bind, wp_gets. by apply stop_loop_safe. }
  apply wp_no_fault_ok in H as ([] & w' & E & H1 & H2). by exists w'.
Qed.

End Database.

(** ** A small database for the witnesses

    A connection knows whether it is up, the answers it is going to give and
    how many questions it has had; a result is a table of texts. *)
Record Table := mkTable { t_ok : bool; t_state : option bytes; t_cols : list string; t_rows : list (list bytes) }.

Fixpoint column (col : string) (cols : list string) (i : Z) : Z :=
  match cols with
  | [] => -1
  | c :: cols' => if decide (c = col) then i else column col cols' (i + 1)
  end.

#[global] Instance table_db : LibPQ := {|
  PGconn := bool * list (option Table) * Z;
  PGresult := Table;
  PQstatus_ok := fun c => c.1.1;
  PQreset := fun c => (true, c.1.2, c.2);
  PQexecParams := fun c _ _ => (mjoin (head c.1.2), (c.1.1, tail c.1.2, c.2 + 1));
  PQconnectdb := fun _ => (true, [], 0);
  PQresult_ok := t_ok;
  PQresStatus := fun _ => [];
  PQresultErrorMessage := fun _ => [];
  PQsqlstate := t_state;
  PQntuples := fun t => size_of (t_rows t);
  PQnfields := fun t => size_of (t_cols t);
  PQcmdTuples := fun _ => [];
  PQfnumber := fun t col => column col (t_cols t) 0;
  PQgetisnull := fun _ _ _ => false;
  PQgetvalue := fun t i f => default [] (t_rows t !! Z.to_nat i ≫= fun row => row !! Z.to_nat f) |}.

Definition db (up : bool) (answers : list (option Table)) (asked : Z) : @PGconn table_db :=
  (up, answers, asked).
Definition res (t : Table) : @DBResult table_db := Some t.

Definition history_table : Table :=
  mkTable true None ["id"; "sender_id"; "sender_nick"; "content"; "created_epoch"]%string
    [[Decimal.to_string 7; Decimal.to_string 3; [x61; x62]; [x68; x69; x21];
      Decimal.to_string 1785542400]].

Lemma history_roundtrip_witness :
  exists data, run_query (fun _ => []) (Event.mkDBJob Event.LoadHistory [] Event.NoCallback)
      (db true [Some history_table] 0) = (res history_table, data, (db true [] 1)) /\
    Msg.parse (data ++ []) [] = (true, [Msg.sample]).
Proof.
  destruct (history_roundtrip (fun _ => []) (Event.mkDBJob Event.LoadHistory [] Event.NoCallback)
    (db true [Some history_table] 0) (res history_table) (db true [] 1) [Msg.sample] [] [])
    as (data & E & _ & P).
  - done.
  - done.
  - done.
  - split; [done |]. intros [| i] m H; [| done]. injection H as <-. by split_and!.
  - apply Msg.sample_valid.
  - by compute.
  - done.
  - exists data. exact (conj E P).
Defined.

Definition room_table : Table := mkTable true None ["room_id"]%string [[Decimal.to_string 100]].

Lemma create_room_issued_witness :
  exists data, run_query (fun _ => []) (Event.mkDBJob Event.CreateRoom [] Event.NoCallback)
      (db true [Some room_table] 0) = (res room_table, data, (db true [] 1)) /\ issued data 100.
Proof.
  destruct (create_room_issued (fun _ => []) (Event.mkDBJob Event.CreateRoom [] Event.NoCallback)
    (db true [Some room_table] 0) (res room_table) (db true [] 1) 100) as (data & E & H & _);
    [done.. | unfold is_i64; lia | exists data; exact (conj E H)].
Defined.

(** A dead connection that comes back up: two questions. *)
Lemma exec_at_most_twice_witness :
  (exec "q" [] (db false [None; Some room_table] 0)).2 = (db true [] 2) /\
  let '(first, c1) := exec_once "q" [] (db false [None; Some room_table] 0) in
  let '(r, c') := exec "q" [] (db false [None; Some room_table] 0) in
  (c'.2 = 1 /\ r = first) \/
  (c'.2 = 2 /\ ok first = false /\ PQstatus_ok c1 = false /\
   PQstatus_ok (PQreset c1) = true /\ r = (exec_once "q" [] (PQreset c1)).1).
Proof.
  split; [done |].
  exact (exec_at_most_twice (fun c => c.2) "q" [] (db false [None; Some room_table] 0)
    (fun _ _ _ => eq_refl) (fun _ => eq_refl)).
Defined.

(** The room creation of client 5 in Flow.v, with this database. *)
Definition creating_world : World :=
  System.after (two_clients ++ [sends 5 Protocol.CMD_CREATE_ROOM 0; Server.LWorker 1]).

Lemma worker_step_refines_witness :
  exists r st data c' j,
    job_queue creating_world = [j] /\
    asked (query_of (Event.job_type j)) (Event.params j) (db true [Some room_table] 0) r c' /\
    reports (Event.job_type j) r st data /\
    match worker_step (fun _ => []) [2; 2] (db true [Some room_table] 0) creating_world with
    | Ok c1 w' => c1 = c' /\ Server.exec (Server.LDb st data [2; 2]) creating_world = Ok tt w' /\ inv w'
    | Stop f => f = BadDistribution /\ room_worker_num creating_world < 2 /\ System.placing creating_world st /\
        Server.exec (Server.LDb st data [2; 2]) creating_world = Stop f
    end.
Proof.
  assert (Ej : exists j, job_queue creating_world = [j]) by (eexists; by vm_compute). destruct Ej as [j Ej].
  destruct (worker_step_refines (fun _ => []) creating_world [2; 2] (db true [Some room_table] 0) j []
    (System.after_inv _) Ej) as (r & st & data & c' & H); [by apply (bool_decide_unpack _); vm_compute |].
  exists r, st, data, c', j. exact (conj Ej H).
Defined.

Lemma stop_drains_witness : exists w', stop creating_world = Ok tt w' /\ job_queue w' = [].
Proof.
  destruct (stop_drains creating_world (System.after_inv _)) as (w' & E & H & _).
  exists w'. exact (conj E H).
Defined.

End Database.
