(* ===== verification/Client.v ===== *)
(** * Client: client/src/Client.{h,cpp}, client/src/Socket.{h,cpp}

    The terminal client: one request at a time, blocking reads of whole
    structures, and the small state machine LOBBY / IN_ROOM. What the terminal
    shows is a list of [Line]s, one constructor per message of the source. The
    socket is blocking: its input is the list of outcomes of the coming
    [::recv] calls (an exhausted list is a call that has not returned), its
    output is the bytes accepted so far. *)

From S2P Require Import Prelude Codec Message Wire Decimal Session User Room Event World RoomManager.
From S2P Require Import RoomWorker.

Module Client.
Import Protocol.

Inductive ClientState := LOBBY | IN_ROOM.

#[global] Instance client_state_eq_decision : EqDecision ClientState.
Proof. solve_decision. Defined.

Record Pending := mkPending { pending_command : Command; pending_room : Z }.

(** The lines written to the terminal. *)
Inductive Line :=
  | ErrRoomNumber | ErrLobbyNumber | ErrSend | ErrUsage | InfoExit | ErrLobbyCommands | ErrSendMessage
  | InfoWaiting (c : Command) | ErrPacketType (t : byte) | ErrUnrequested
  | ErrMismatch (requested : Command) (got : byte) | Failed (c : Command) (status : byte)
  | ErrNoRoomNumber | Created (room_id : Z) | Joined (room_id : Z) | Left (room_id : Z)
  | History (oldest_first : list Msg.Message) | ErrJoinHistory | ErrLoadHistory | InfoNoMore
  | Prompt (state : ClientState) (room_id : Z)
  | Chat (sender : Z) (text : bytes) | UserJoined (sender : Z) | UserLeft (sender : Z)
  | InfoDisconnected.

Record Client := mkClient {
  state_ : ClientState;
  room_id_ : Z;
  oldest_message_id_ : Z;
  running_ : bool;
  pending_ : option Pending;
  send_buf_ : bytes;
  ins : list Session.RecvOut;
  outs : list Session.SendOut;
  wire : bytes;
  screen : list Line }.

Definition set_place (st : ClientState) (room oldest : Z) (c : Client) : Client :=
  mkClient st room oldest (running_ c) (pending_ c) (send_buf_ c) (ins c) (outs c) (wire c) (screen c).
Definition set_running (b : bool) (c : Client) : Client :=
  mkClient (state_ c) (room_id_ c) (oldest_message_id_ c) b (pending_ c) (send_buf_ c) (ins c) (outs c)
    (wire c) (screen c).
Definition set_pending (p : option Pending) (c : Client) : Client :=
  mkClient (state_ c) (room_id_ c) (oldest_message_id_ c) (running_ c) p (send_buf_ c) (ins c) (outs c)
    (wire c) (screen c).
Definition set_out (buf : bytes) (os : list Session.SendOut) (w : bytes) (c : Client) : Client :=
  mkClient (state_ c) (room_id_ c) (oldest_message_id_ c) (running_ c) (pending_ c) buf (ins c) os w
    (screen c).
Definition set_ins (i : list Session.RecvOut) (c : Client) : Client :=
  mkClient (state_ c) (room_id_ c) (oldest_message_id_ c) (running_ c) (pending_ c) (send_buf_ c) i
    (outs c) (wire c) (screen c).
Definition print (l : Line) (c : Client) : Client :=
  mkClient (state_ c) (room_id_ c) (oldest_message_id_ c) (running_ c) (pending_ c) (send_buf_ c) (ins c)
    (outs c) (wire c) (screen c ++ [l]).

(** The client once it is connected. *)
Definition new_client : Client := mkClient LOBBY 0 0 false None [] [] [] [] [].

(** ** Socket *)

(** [send_all]: an exhausted outcome list is a call that takes everything. *)
Fixpoint send_all (os : list Session.SendOut) (data w : bytes) : bool * list Session.SendOut * bytes :=
  if decide (data = []) then (true, os, w) else
  match os with
  | [] => (true, [], w ++ data)
  | Session.SendN n :: os' =>
      if decide (n = 0%nat) then (false, os', w) else send_all os' (drop n data) (w ++ take n data)
  | Session.SendIntr :: os' => send_all os' data w
  | Session.SendAgain :: os' | Session.SendErr :: os' => (false, os', w)
  end.

Definition pack (data : bytes) (c : Client) : Client :=
  set_out (send_buf_ c ++ data) (outs c) (wire c) c.

Definition flush (c : Client) : bool * Client :=
  if decide (send_buf_ c = []) then (true, c) else
  let '(ok, os, w) := send_all (outs c) (send_buf_ c) (wire c) in
  (ok, set_out [] os w c).

Inductive Received := Got (b : bytes) | Lost | Waiting.

(** [recv_all]: what was read is [acc]; a chunk longer than what is needed
    stays in the kernel's buffer. *)
Fixpoint recv_all (inp : list Session.RecvOut) (remaining : nat) (acc : bytes)
    : Received * list Session.RecvOut :=
  match remaining with
  | O => (Got acc, inp)
  | S _ =>
      match inp with
      | [] => (Waiting, [])
      | Session.RecvData b :: inp' =>
          if decide (b = []) then (Lost, inp')
          else if decide (length b <= remaining)%nat
          then recv_all inp' (remaining - length b) (acc ++ b)
          else (Got (acc ++ take remaining b), Session.RecvData (drop remaining b) :: inp')
      | Session.RecvIntr :: inp' => recv_all inp' remaining acc
      | Session.RecvEof :: inp' | Session.RecvAgain :: inp' | Session.RecvErr :: inp' => (Lost, inp')
      end
  end.

(** ** Requests *)

Definition validate_room_id (room_id : Z) (c : Client) : bool * Client :=
  if decide (room_id = 0) then (false, print ErrRoomNumber c)
  else if decide (room_id = 1) then (false, print ErrLobbyNumber c)
  else (true, c).

(** [Request req{};] zero-initialises the structure, its padding included. *)
Definition send_request (cmd : Command) (room_id : Z) (body : bytes) (c : Client) : bool * Client :=
  let header := mkHeader (packet_type_byte PKT_REQUEST) in
  let req := mkRequest room_id (wrap 32 (size_of body)) (command_byte cmd) in
  let c := pack (header_rep header) c in
  let c := pack (request_rep (replicate (npad Request) x00) req) c in
  let c := if decide (body = []) then c else pack body c in
  match flush c with
  | (false, c) => (false, c)
  | (true, c) => (true, set_pending (Some (mkPending cmd room_id)) c)
  end.

Definition send_or (l : Line) (r : bool * Client) : Client :=
  match r with (true, c) => c | (false, c) => print l c end.

(** ** Keyboard *)

(** [read_line] on the bytes one [::read] returned (none on error or EOF). *)
Fixpoint strip_newlines (reversed : bytes) : bytes :=
  match reversed with
  | b :: r => if decide (b = x0a \/ b = x0d) then strip_newlines r else reversed
  | [] => []
  end.
Definition read_line (raw : bytes) : bytes := reverse (strip_newlines (reverse raw)).

(** [stream >> cmd]: the first word, and what follows it. *)
Fixpoint word (s : bytes) : bytes * bytes :=
  match s with
  | b :: s' => if Decimal.is_space b then ([], s) else let '(w, rest) := word s' in (b :: w, rest)
  | [] => ([], [])
  end.
Definition first_word (s : bytes) : bytes * bytes := word (Decimal.skip_spaces s).

(** "/create", "/join", "/exit", "/load", "/leave" *)
Definition w_create : bytes := [x2f; x63; x72; x65; x61; x74; x65].
Definition w_join : bytes := [x2f; x6a; x6f; x69; x6e].
Definition w_exit : bytes := [x2f; x65; x78; x69; x74].
Definition w_load : bytes := [x2f; x6c; x6f; x61; x64].
Definition w_leave : bytes := [x2f; x6c; x65; x61; x76; x65].

Definition cmd_exit (c : Client) : Client := set_running false (print InfoExit c).

(** [args >> room_id] reads a decimal [int64_t] as [std::stoll] does. *)
Definition cmd_join (args : bytes) (c : Client) : Client :=
  match Decimal.stoll args with
  | None => print ErrUsage c
  | Some room_id =>
      match validate_room_id room_id c with
      | (false, c) => c
      | (true, c) => send_or ErrSend (send_request CMD_JOIN_ROOM room_id [] c)
      end
  end.

Definition handle_input (raw : bytes) (c : Client) : bool * Client :=
  let input := read_line raw in
  match pending_ c with
  | Some p => (false, print (InfoWaiting (pending_command p)) c)
  | None =>
      if decide (input = []) then (true, c) else
      let '(cmd, args) := first_word input in
      (true,
       match state_ c with
       | LOBBY =>
           if decide (cmd = w_create) then send_or ErrSend (send_request CMD_CREATE_ROOM 0 [] c)
           else if decide (cmd = w_join) then cmd_join args c
           else if decide (cmd = w_exit) then cmd_exit c
           else print ErrLobbyCommands c
       | IN_ROOM =>
           if decide (cmd = w_load) then
             send_or ErrSend (send_request CMD_LOAD_MESSAGE (room_id_ c) (i64_enc (oldest_message_id_ c)) c)
           else if decide (cmd = w_leave) then
             send_or ErrSend (send_request CMD_LEAVE_ROOM (room_id_ c) [] c)
           else if decide (cmd = w_exit) then cmd_exit c
           else send_or ErrSendMessage (send_request CMD_SEND_MESSAGE (room_id_ c) input c)
       end)
  end.

(** ** Packets *)

Definition print_prompt (c : Client) : Client := print (Prompt (state_ c) (room_id_ c)) c.

(** The count of messages printed, or [None] when the body does not parse. *)
Definition print_history (body : bytes) (c : Client) : option nat * Client :=
  match Msg.parse body [] with
  | (false, _) => (None, c)
  | (true, msgs) =>
      match last msgs with
      | None => (Some 0%nat, c)
      | Some oldest =>
          (Some (length msgs),
           set_place (state_ c) (room_id_ c) (Msg.id oldest) (print (History (reverse msgs)) c))
      end
  end.

(** The [switch] on a successful response. *)
Definition apply_response (cmd : Command) (requested_room : Z) (body : bytes) (c : Client) : Client :=
  match cmd with
  | CMD_CREATE_ROOM =>
      if decide (size_of body < 8) then print ErrNoRoomNumber c
      else let created := i64_dec (take 8 body) in
           print (Created created) (set_place IN_ROOM created 0 c)
  | CMD_JOIN_ROOM =>
      let c := print (Joined requested_room) (set_place IN_ROOM requested_room 0 c) in
      match print_history body c with
      | (None, c) => print ErrJoinHistory c
      | (Some _, c) => c
      end
  | CMD_LEAVE_ROOM => let c := print (Left (room_id_ c)) c in set_place LOBBY 0 0 c
  | CMD_SEND_MESSAGE => c
  | CMD_LOAD_MESSAGE =>
      match print_history body c with
      | (None, c) => print ErrLoadHistory c
      | (Some O, c) => print InfoNoMore c
      | (Some (S _), c) => c
      end
  end.

(** What follows the reading of a response and its body. *)
Definition process_response (res : Response) (body : bytes) (c : Client) : Client :=
  match pending_ c with
  | None => print ErrUnrequested c
  | Some p =>
      let cmd := pending_command p in
      if decide (command_byte cmd <> rs_command res) then
        set_pending None (print (ErrMismatch cmd (rs_command res)) c)
      else
        let c := set_pending None c in
        if decide (rs_status res <> status_byte RSuccess) then
          print_prompt (print (Failed cmd (rs_status res)) c)
        else print_prompt (apply_response cmd (pending_room p) body c)
  end.

Definition process_broadcast (bc : Broadcast) (body : bytes) (c : Client) : Client :=
  if decide (state_ c <> IN_ROOM \/ bc_room_id bc <> room_id_ c) then c
  else match to_event (bc_event bc) with
       | Some EVT_MESSAGE => print (Chat (bc_sender_id bc) body) c
       | Some EVT_USER_JOIN => print (UserJoined (bc_sender_id bc)) c
       | Some EVT_USER_LEAVE => print (UserLeft (bc_sender_id bc)) c
       | None => c
       end.

(** Read a structure, then a body of the length it announces. The result is
    [None] while the data have not arrived. *)
Definition read_with_body `{Layout T} (len : T -> Z) (k : T -> bytes -> Client -> Client) (c : Client)
    : option (bool * Client) :=
  match recv_all (ins c) (sizeof T) [] with
  | (Waiting, _) => None
  | (Lost, inp) => Some (false, set_ins inp c)
  | (Got b, inp) =>
      let t := of_rep b in
      match recv_all inp (Z.to_nat (len t)) [] with
      | (Waiting, _) => None
      | (Lost, inp) => Some (false, set_ins inp c)
      | (Got body, inp) => Some (true, k t body (set_ins inp c))
      end
  end.

Definition handle_response : Client -> option (bool * Client) :=
  read_with_body rs_body_len process_response.
Definition handle_broadcast : Client -> option (bool * Client) :=
  read_with_body bc_body_len process_broadcast.

Definition handle_packet (c : Client) : option (bool * Client) :=
  match recv_all (ins c) (sizeof Header) [] with
  | (Waiting, _) => None
  | (Lost, inp) => Some (false, set_ins inp c)
  | (Got b, inp) =>
      let header := header_of b in
      let c := set_ins inp c in
      match to_packet_type (type_ header) with
      | Some PKT_RESPONSE => handle_response c
      | Some PKT_BROADCAST => handle_broadcast c
      | _ => Some (false, print (ErrPacketType (type_ header)) c)
      end
  end.

(** ** The main loop *)

Inductive Ready := Stdin (raw : bytes) | Sock.

(** One event of [run]'s inner loop; [None] when a read has not returned. *)
Definition on_ready (e : Ready) (c : Client) : option Client :=
  if running_ c then
    match e with
    | Stdin raw => Some (handle_input raw c).2
    | Sock =>
        match handle_packet c with
        | None => None
        | Some (true, c) => Some c
        | Some (false, c) => Some (set_running false (print InfoDisconnected c))
        end
    end
  else Some c.

Fixpoint run_loop (es : list Ready) (c : Client) : option Client :=
  match es with
  | [] => Some c
  | e :: es' => c' ← on_ready e c; run_loop es' c'
  end.

Definition run (es : list Ready) (c : Client) : option Client :=
  run_loop es (print_prompt (set_running true c)).

(** ** The input as a stream *)

(** A connection that is up: chunks of bytes and interrupted calls. *)
Definition clean (i : Session.RecvOut) : Prop :=
  match i with Session.RecvData b => b <> [] | Session.RecvIntr => True | _ => False end.

Definition chunk (i : Session.RecvOut) : bytes :=
  match i with Session.RecvData b => b | _ => [] end.

Definition stream (l : list Session.RecvOut) : bytes := mjoin (chunk <$> l).

(** [recv_all] reads exactly the bytes asked for, however they are cut. *)
Lemma recv_all_stream inp n acc :
  Forall clean inp -> (n <= length (stream inp))%nat ->
  exists inp', recv_all inp n acc = (Got (acc ++ take n (stream inp)), inp') /\
    Forall clean inp' /\ stream inp' = drop n (stream inp).
Proof.
  intros Hc. revert n acc. induction Hc as [| i inp Hi Hc IH]; intros n acc Hn.
  - cbn in Hn. assert (n = 0%nat) as -> by lia. exists []. cbn. by rewrite app_nil_r.
  - destruct n as [| n]; [exists (i :: inp); rewrite take_0, app_nil_r, drop_0; by repeat constructor |].
    destruct i as [b | | | |]; cbn in Hi; try done.
    + change (stream (Session.RecvData b :: inp)) with (b ++ stream inp) in *.
      rewrite length_app in Hn. cbn [recv_all]. rewrite decide_False by done. case_decide as Hle.
      * destruct (IH (S n - length b)%nat (acc ++ b)) as (inp' & -> & Hc' & Hs); [lia |].
        exists inp'. rewrite <- app_assoc, take_app_ge, drop_app_ge by done. done.
      * exists (Session.RecvData (drop (S n) b) :: inp). rewrite take_app_le, drop_app_le by lia.
        split_and!; [done | | done]. constructor; [| done]. intros E.
        apply (f_equal length) in E. rewrite length_drop in E. cbn in E. lia.
    + apply (IH (S n) acc). exact Hn.
Qed.

(** ** What the server sends *)

Inductive ServerPacket :=
  | SrvResponse (pad : bytes) (res : Response) (body : bytes)
  | SrvBroadcast (pad : bytes) (bc : Broadcast) (body : bytes).

Definition encode (p : ServerPacket) : bytes :=
  match p with
  | SrvResponse pad res body =>
      serialize_packet pad (mkHeader (packet_type_byte PKT_RESPONSE)) res body
  | SrvBroadcast pad bc body =>
      serialize_packet pad (mkHeader (packet_type_byte PKT_BROADCAST)) bc body
  end.

Definition packet_valid (p : ServerPacket) : Prop :=
  match p with
  | SrvResponse pad res body =>
      length pad = npad Response /\ response_valid res /\ rs_body_len res = size_of body
  | SrvBroadcast pad bc body =>
      length pad = npad Broadcast /\ broadcast_valid bc /\ bc_body_len bc = size_of body
  end.

Definition process (c : Client) (p : ServerPacket) : Client :=
  match p with
  | SrvResponse _ res body => process_response res body c
  | SrvBroadcast _ bc body => process_broadcast bc body c
  end.

(** Processing looks at no input. *)
Lemma print_history_set_ins body i c :
  print_history body (set_ins i c) =
  ((print_history body c).1, set_ins i (print_history body c).2).
Proof. unfold print_history. by repeat case_match. Qed.

Lemma apply_response_set_ins cmd r body i c :
  apply_response cmd r body (set_ins i c) = set_ins i (apply_response cmd r body c).
Proof.
  destruct cmd; cbn [apply_response]; try done.
  - by case_decide.
  - change (print (Joined r) (set_place IN_ROOM r 0 (set_ins i c)))
      with (set_ins i (print (Joined r) (set_place IN_ROOM r 0 c))).
    rewrite print_history_set_ins. by destruct (print_history body _) as [[] ?].
  - rewrite print_history_set_ins. by destruct (print_history body c) as [[[]|] ?].
Qed.

Lemma process_set_ins p i c : process (set_ins i c) p = set_ins i (process c p).
Proof.
  destruct p as [pad res body | pad bc body]; cbn [process].
  - unfold process_response. cbn [pending_ set_ins]. destruct (pending_ c) as [p |]; [| done].
    case_decide; [done |]. case_decide; [done |].
    change (set_pending None (set_ins i c)) with (set_ins i (set_pending None c)).
    by rewrite apply_response_set_ins.
  - unfold process_broadcast. cbn [state_ room_id_ set_ins]. case_decide; [done |].
    by destruct (to_event (bc_event bc)) as [[] |].
Qed.

Lemma read_with_body_stream `{Layout T} (len : T -> Z) k c pad (t : T) body rest :
  Forall clean (ins c) -> stream (ins c) = to_rep pad t ++ body ++ rest ->
  length pad = npad T -> rep_valid t -> len t = size_of body ->
  exists inp, read_with_body len k c = Some (true, k t body (set_ins inp c)) /\
    Forall clean inp /\ stream inp = rest.
Proof.
  intros Hc Hs Hp Hv Hl. pose proof (length_to_rep pad t Hp) as Hn. unfold read_with_body.
  destruct (recv_all_stream (ins c) (sizeof T) [] Hc) as (inp1 & -> & Hc1 & Hs1).
  { rewrite Hs, length_app. lia. }
  rewrite Hs, drop_app_length' in Hs1 by done. cbn [app].
  rewrite Hs, take_app_length', of_to_rep by done. rewrite Hl, to_nat_size_of.
  destruct (recv_all_stream inp1 (length body) [] Hc1) as (inp2 & -> & Hc2 & Hs2).
  { rewrite Hs1, length_app. lia. }
  rewrite Hs1, drop_app_length in Hs2. cbn [app]. rewrite Hs1, take_app_length. eauto.
Qed.

Lemma handle_packet_stream p c rest :
  Forall clean (ins c) -> packet_valid p -> stream (ins c) = encode p ++ rest ->
  exists inp, handle_packet c = Some (true, process (set_ins inp c) p) /\
    Forall clean inp /\ stream inp = rest.
Proof.
  intros Hc Hv Hs. unfold handle_packet.
  assert (Hh : exists h tl, encode p = header_rep h ++ tl /\
    (match p with SrvResponse pad res body => h = mkHeader x02 /\ tl = to_rep pad res ++ body
     | SrvBroadcast pad bc body => h = mkHeader x03 /\ tl = to_rep pad bc ++ body end)).
  { destruct p; destruct Hv as [Hp _]; cbn [encode]; rewrite serialize_packet_concat by done; eauto. }
  destruct Hh as (h & tl & Eh & Hh). rewrite Eh, <- app_assoc in Hs.
  destruct (recv_all_stream (ins c) 1 [] Hc) as (inp1 & E1 & Hc1 & Hs1); [rewrite Hs; cbn; lia |].
  change (sizeof Header) with 1%nat. rewrite E1. rewrite Hs in *. cbn [app take header_rep] in *.
  change (drop 1 ?l) with (tail l) in Hs1. cbn [tail] in Hs1.
  destruct p as [pad res body | pad bc body]; destruct Hh as [-> ->], Hv as (Hp & Hv & Hl);
    cbn [header_of type_ field1 to_packet_type] in *; rewrite <- app_assoc in Hs1.
  - destruct (read_with_body_stream rs_body_len process_response (set_ins inp1 c) pad res body rest)
      as (inp & E & H1 & H2); [done.. |]. exists inp. split; [exact E | done].
  - destruct (read_with_body_stream bc_body_len process_broadcast (set_ins inp1 c) pad bc body rest)
      as (inp & E & H1 & H2); [done.. |]. exists inp. split; [exact E | done].
Qed.

(** As many calls of [handle_packet] as packets. *)
Fixpoint handle_packets (n : nat) (c : Client) : option Client :=
  match n with
  | O => Some c
  | S n' => match handle_packet c with
            | Some (true, c') => handle_packets n' c'
            | _ => None
            end
  end.

Lemma foldl_process_set_ins ps i c : foldl process (set_ins i c) ps = set_ins i (foldl process c ps).
Proof. revert c. induction ps as [| p ps IH]; intros c; [done |]. cbn. by rewrite process_set_ins, IH. Qed.

(** A request on a connection that takes everything. *)
Lemma send_request_all cmd room_id body c :
  send_buf_ c = [] -> outs c = [] ->
  send_request cmd room_id body c =
  (true, set_pending (Some (mkPending cmd room_id))
           (set_out [] [] (wire c ++ Session.frame (replicate 3 x00, mkHeader (packet_type_byte PKT_REQUEST),
              mkRequest room_id (wrap 32 (size_of body)) (command_byte cmd), body)) c)).
Proof.
  intros Hb Ho. unfold send_request, flush, pack. cbn [send_buf_ set_out outs wire]. rewrite Hb, Ho.
  set (req := mkRequest _ _ _). cbn [app]. change (npad Request) with 3%nat.
  destruct (decide (body = [])) as [-> | Hd]; cbn [send_buf_ outs wire set_out].
  - rewrite decide_False by done. unfold send_all. rewrite decide_False by done.
    unfold Session.frame. by rewrite app_nil_r.
  - rewrite decide_False by (intros E; by apply app_eq_nil in E as [E _]).
    unfold send_all. rewrite decide_False by (intros E; by apply app_eq_nil in E as [E _]).
    unfold Session.frame. by rewrite <- app_assoc.
Qed.

(** Nothing that is typed can change a client that waits for a response. *)
Lemma input_while_pending raw c p :
  pending_ c = Some p ->
  handle_input raw c = (false, print (InfoWaiting (pending_command p)) c).
Proof. intros Hp. unfold handle_input. by rewrite Hp. Qed.

(** *** What a step does to the output and to the pending request *)

(** [send_all] returns [true] only after taking everything. *)
Lemma send_all_ok os data w os' w' : send_all os data w = (true, os', w') -> w' = w ++ data.
Proof.
  revert data w. induction os as [| o os IH]; intros data w H; cbn [send_all] in H;
    destruct (decide (data = [])) as [-> | Hne]; try (injection H as _ <-; by rewrite ?app_nil_r).
  destruct o as [n | | |]; try done; [| by apply IH in H].
  destruct (decide (n = 0%nat)); [done |]. apply IH in H as ->. by rewrite <- app_assoc, take_drop.
Qed.

Lemma send_all_failed os data w os' w' :
  send_all os data w = (false, os', w') -> exists k, (k < length data)%nat /\ w' = w ++ take k data.
Proof.
  revert data w. induction os as [| o os IH]; intros data w H; cbn [send_all] in H;
    destruct (decide (data = [])) as [-> | Hne]; try done.
  assert (Hnow : exists k, (k < length data)%nat /\ w = w ++ take k data).
  { exists 0%nat. rewrite take_0, app_nil_r. split; [| done]. destruct data; [done | cbn; lia]. }
  destruct o as [n | | |]; [| first [by apply IH in H | by injection H as _ <-].. ].
  destruct (decide (n = 0%nat)); [by injection H as _ <- |]. apply IH in H as (k & Hk & ->).
  rewrite length_drop in Hk. exists (n + k)%nat. split; [lia |].
  by rewrite <- app_assoc, take_take_drop.
Qed.

(** The bytes of a request. *)
Definition request_bytes (cmd : Command) (room_id : Z) (body : bytes) : bytes :=
  Session.frame (replicate 3 x00, mkHeader (packet_type_byte PKT_REQUEST),
    mkRequest room_id (wrap 32 (size_of body)) (command_byte cmd), body).

(** A request goes out whole and is pending from then on, or it does not go out
    whole and nothing is pending. *)
Definition sent_or_not (c c' : Client) : Prop :=
  (wire c' = wire c /\ pending_ c' = None) \/
  exists cmd r body,
    (wire c' = wire c ++ request_bytes cmd r body /\ pending_ c' = Some (mkPending cmd r)) \/
    (exists k, (k < length (request_bytes cmd r body))%nat /\
       wire c' = wire c ++ take k (request_bytes cmd r body) /\ pending_ c' = None /\
       (last (screen c') = Some ErrSend \/ last (screen c') = Some ErrSendMessage)).

Lemma send_or_effect l cmd r body c :
  (l = ErrSend \/ l = ErrSendMessage) -> pending_ c = None -> send_buf_ c = [] ->
  let c' := send_or l (send_request cmd r body c) in send_buf_ c' = [] /\ sent_or_not c c'.
Proof.
  intros Hl Hp Hb. unfold send_request. set (c2 := if decide (body = []) then _ else _).
  assert (Hc2 : pending_ c2 = None /\ wire c2 = wire c /\ send_buf_ c2 = request_bytes cmd r body).
  { unfold c2, request_bytes, Session.frame. case_decide; cbn; rewrite Hb; split_and!; try done.
    subst body. by rewrite app_nil_r. }
  clearbody c2. destruct Hc2 as (Hp2 & Hw & Hb2). unfold flush.
  rewrite decide_False by (rewrite Hb2; unfold request_bytes, Session.frame; intros E; by apply app_eq_nil in E as [E _]).
  destruct (send_all (outs c2) (send_buf_ c2) (wire c2)) as [[[] os] w] eqn:E; cbn; (split; [done |]); right;
    exists cmd, r, body.
  - left. apply send_all_ok in E as ->. by rewrite Hw, Hb2.
  - right. apply send_all_failed in E as (k & Hk & ->). rewrite Hb2 in Hk. exists k. rewrite Hw, Hb2.
    split_and!; [done.. |]. cbn. rewrite last_snoc. destruct Hl as [-> | ->]; auto.
Qed.

(** [recv_all] hands over the next bytes of the stream and no others. *)
Lemma recv_all_got inp n acc r inp' :
  recv_all inp n acc = (Got r, inp') ->
  exists d, r = acc ++ d /\ length d = n /\ stream inp = d ++ stream inp'.
Proof.
  revert n acc. induction inp as [| i inp IH]; intros [| n] acc H; cbn [recv_all] in H; try done;
    try (injection H as <- <-; exists []; by rewrite app_nil_r).
  destruct i as [b | | | |]; try done; [| by apply IH in H].
  change (stream (Session.RecvData b :: inp)) with (b ++ stream inp).
  case_decide; [done |]. case_decide as Hle.
  - apply IH in H as (d & -> & Hd & ->). exists (b ++ d). rewrite length_app, <- !app_assoc.
    split_and!; [done | lia | done].
  - injection H as <- <-. exists (take (S n) b). split_and!; [done | rewrite length_take; lia |].
    change (stream (Session.RecvData (drop (S n) b) :: inp)) with (drop (S n) b ++ stream inp).
    by rewrite app_assoc, take_drop.
Qed.

(** A whole response has been taken from the input. *)
Definition response_read (inp inp' : list Session.RecvOut) : Prop :=
  exists h b body, length h = sizeof Header /\ length b = sizeof Response /\
    to_packet_type (type_ (header_of h)) = Some PKT_RESPONSE /\
    length body = Z.to_nat (rs_body_len (of_rep b)) /\ stream inp = h ++ b ++ body ++ stream inp'.

(** Processing a packet leaves the output alone and can only clear the wait. *)
Definition receives_only (c c' : Client) : Prop :=
  wire c' = wire c /\ send_buf_ c' = send_buf_ c /\ (pending_ c' = pending_ c \/ pending_ c' = None).

Lemma print_history_frame body c :
  let c' := (print_history body c).2 in
  wire c' = wire c /\ send_buf_ c' = send_buf_ c /\ pending_ c' = pending_ c.
Proof. unfold print_history. by repeat case_match. Qed.

Lemma apply_response_frame cmd r body c :
  let c' := apply_response cmd r body c in
  wire c' = wire c /\ send_buf_ c' = send_buf_ c /\ pending_ c' = pending_ c.
Proof.
  destruct cmd; cbn [apply_response]; try done.
  - by case_decide.
  - pose proof (print_history_frame body (print (Joined r) (set_place IN_ROOM r 0 c))) as H.
    by destruct (print_history body _) as [[] ?].
  - pose proof (print_history_frame body c) as H. by destruct (print_history body c) as [[[] |] ?].
Qed.

Lemma process_response_frame res body c : receives_only c (process_response res body c).
Proof.
  unfold process_response, receives_only. destruct (pending_ c) as [p |] eqn:Hp; [| by auto].
  case_decide; [by auto |]. case_decide; [by auto |].
  destruct (apply_response_frame (pending_command p) (pending_room p) body (set_pending None c))
    as (H1 & H2 & H3). cbn. split_and!; [exact H1 | exact H2 | right; exact H3].
Qed.

(** A response, whatever it says, ends the wait. *)
Lemma process_response_ends res body c : pending_ (process_response res body c) = None.
Proof.
  unfold process_response. destruct (pending_ c) as [p |] eqn:Hp; [| done].
  case_decide; [done |]. case_decide; [done |].
  exact (proj2 (proj2 (apply_response_frame (pending_command p) (pending_room p) body (set_pending None c)))).
Qed.

(** A broadcast does not touch it. *)
Lemma process_broadcast_frame bc body c :
  let c' := process_broadcast bc body c in
  wire c' = wire c /\ send_buf_ c' = send_buf_ c /\ pending_ c' = pending_ c.
Proof.
  unfold process_broadcast. case_decide; [done |]. by destruct (to_event (bc_event bc)) as [[] |].
Qed.

(** Reading a structure and its body: nothing was handled, or [k] was. *)
Lemma read_with_body_cases `{Layout T} (len : T -> Z) k c ok c' :
  read_with_body len k c = Some (ok, c') ->
  (exists inp, c' = set_ins inp c) \/
  exists b body inp, length b = sizeof T /\ length body = Z.to_nat (len (of_rep b)) /\
    stream (ins c) = b ++ body ++ stream inp /\ c' = k (of_rep b) body (set_ins inp c).
Proof.
  unfold read_with_body. destruct (recv_all (ins c) _ _) as [[b | |] inp] eqn:E1; try done.
  - destruct (recv_all inp _ _) as [[body | |] inp'] eqn:E2; try done; intros [= <- <-]; [right | by left; eauto].
    apply recv_all_got in E1 as (d & -> & Hd & ->), E2 as (d' & -> & Hd' & ->).
    exists d, d', inp'. done.
  - intros [= <- <-]. left. eauto.
Qed.

Lemma ins_process_response res body c : ins (process_response res body c) = ins c.
Proof.
  pose proof (process_set_ins (SrvResponse [] res body) (ins c) c) as E. cbn [process] in E.
  replace (set_ins (ins c) c) with c in E by by destruct c. by rewrite E.
Qed.

(** A call of [handle_packet] sends nothing, and ends the wait exactly when it
    has taken a whole response. *)
Lemma handle_packet_frame c ok c' :
  handle_packet c = Some (ok, c') ->
  wire c' = wire c /\ send_buf_ c' = send_buf_ c /\
  (pending_ c' = pending_ c \/ (pending_ c' = None /\ response_read (ins c) (ins c'))).
Proof.
  unfold handle_packet. destruct (recv_all (ins c) _ _) as [[h | |] inp] eqn:E1; try done.
  - apply recv_all_got in E1 as (d & -> & Hd & Hs). cbn [app].
    destruct (to_packet_type _) as [[] |] eqn:Ht; try (intros [= <- <-]; by split_and!; auto).
    + intros H. apply read_with_body_cases in H as [[i ->] | (b & body & i & Hb & Hl & Hs' & ->)]; [by auto |].
      destruct (process_response_frame (of_rep b) body (set_ins i (set_ins inp c))) as (H1 & H2 & _).
      split_and!; [exact H1 | exact H2 |]. right. split; [apply process_response_ends |].
      rewrite ins_process_response. exists d, b, body. split_and!; [done.. |].
      rewrite Hs. cbn [ins set_ins] in *. by rewrite Hs'.
    + intros H. apply read_with_body_cases in H as [[i ->] | (b & body & i & _ & _ & _ & ->)]; [by auto |].
      destruct (process_broadcast_frame (of_rep b) body (set_ins i (set_ins inp c))) as (H1 & H2 & H3).
      split_and!; [exact H1 | exact H2 | left; exact H3].
  - intros [= <- <-]. by split_and!; auto.
Qed.

(** A whole response that has arrived is taken. *)
Lemma response_arrived c pad res body rest :
  Forall clean (ins c) -> packet_valid (SrvResponse pad res body) ->
  stream (ins c) = encode (SrvResponse pad res body) ++ rest ->
  exists c', handle_packet c = Some (true, c') /\ pending_ c' = None /\ stream (ins c') = rest.
Proof.
  intros Hc Hv Hs. destruct (handle_packet_stream _ c rest Hc Hv Hs) as (inp & E & _ & Hr).
  eexists. split; [exact E |]. cbn [process]. by rewrite process_response_ends, ins_process_response.
Qed.

(** A step that only prints sends nothing. *)
Lemma nothing_sent c c' :
  send_buf_ c = [] -> pending_ c = None -> send_buf_ c' = send_buf_ c -> wire c' = wire c ->
  pending_ c' = pending_ c -> send_buf_ c' = [] /\ sent_or_not c c'.
Proof. intros Hb Hp E1 E2 E3. split; [congruence |]. left. split; congruence. Qed.

(** ** Properties *)

(** Stream alignment. However the server's packets are cut by the network,
    and whatever the client was doing, each call of [handle_packet] consumes
    exactly one of them: after as many calls as packets, all have returned
    [true], the client's state is what processing the packets one after the
    other gives, and the input stands exactly at what follows. *)
Theorem server_stream_alignment ps c rest :
  Forall clean (ins c) -> Forall packet_valid ps ->
  stream (ins c) = mjoin (encode <$> ps) ++ rest ->
  exists c', handle_packets (length ps) c = Some c' /\
    Forall clean (ins c') /\ stream (ins c') = rest /\
    set_ins [] c' = foldl process (set_ins [] c) ps.
Proof.
  intros Hc Hv. revert c Hc. induction Hv as [| p ps Hp Hv IH]; intros c Hc Hs; [by exists c |].
  change (mjoin (encode <$> p :: ps)) with (encode p ++ mjoin (encode <$> ps)) in Hs.
  rewrite <- app_assoc in Hs. cbn [length handle_packets].
  destruct (handle_packet_stream p c _ Hc Hp Hs) as (inp & -> & Hc' & Hs').
  rewrite process_set_ins. destruct (IH (set_ins inp (process c p))) as (c' & E & H1 & H2 & H3); [done.. |].
  exists c'. split_and!; [done.. |]. rewrite H3. cbn [foldl]. by rewrite process_set_ins.
Qed.

(** What the client sends the server reads. A request accepted by the
    socket is, at the end of the client's output, one frame that the server's
    [extract_packet] turns back into the command, the room and the body. *)
Theorem request_reaches_server cmd room_id body c more :
  send_buf_ c = [] -> outs c = [] -> is_i64 room_id -> is_u32 (size_of body) ->
  exists c' sent, send_request cmd room_id body c = (true, c') /\ wire c' = wire c ++ sent /\
    pending_ c' = Some (mkPending cmd room_id) /\
    Session.next_frame (sent ++ more) =
      Some (mkPacket (mkHeader (packet_type_byte PKT_REQUEST))
              (mkRequest room_id (size_of body) (command_byte cmd)) body, more).
Proof.
  intros Hb Ho Hr Hs. rewrite send_request_all, wrap_u32_small by done. eexists _, _.
  split_and!; [done | done | done |]. by rewrite Session.next_frame_frame.
Qed.

(** C37: one request at a time. Of a running client whose send buffer is empty
    (as it is between any two steps): a line typed while a request is pending
    sends nothing and leaves the request pending; a line typed with nothing
    pending either sends nothing and leaves nothing pending, or puts one whole
    request on the wire, which is pending from then on, or puts a strict prefix
    of one on the wire, prints that sending failed and leaves nothing pending.
    A packet from the server sends nothing; it ends the wait only when a whole
    response has been taken from the input (a broadcast, a packet of an unknown
    type and a lost connection leave the request pending), and a whole response
    that has arrived, whatever it answers, always ends it. *)
Theorem one_request_at_a_time e c c' :
  running_ c = true -> send_buf_ c = [] -> on_ready e c = Some c' ->
  send_buf_ c' = [] /\
  match e, pending_ c with
  | Stdin _, Some p => wire c' = wire c /\ pending_ c' = Some p /\ running_ c' = true
  | Stdin _, None => sent_or_not c c'
  | Sock, _ =>
      wire c' = wire c /\
      (pending_ c' = pending_ c \/ (pending_ c' = None /\ response_read (ins c) (ins c'))) /\
      (forall pad res body rest, Forall clean (ins c) -> packet_valid (SrvResponse pad res body) ->
         stream (ins c) = encode (SrvResponse pad res body) ++ rest ->
         pending_ c' = None /\ stream (ins c') = rest)
  end.
Proof.
  intros Hr Hb. unfold on_ready. rewrite Hr. destruct e as [raw |].
  - intros [= <-]. destruct (pending_ c) as [p |] eqn:Hp; [by rewrite (input_while_pending raw c p Hp) |].
    unfold handle_input. rewrite Hp.
    destruct (decide (read_line raw = [])); [by apply nothing_sent |].
    destruct (first_word (read_line raw)) as [w args]. cbn [snd].
    destruct (state_ c); repeat case_decide; try (by apply nothing_sent); try (by apply send_or_effect; auto).
    unfold cmd_join, validate_room_id. destruct (Decimal.stoll args) as [k |]; [| by apply nothing_sent].
    repeat case_decide; try (by apply nothing_sent). by apply send_or_effect; auto.
  - destruct (handle_packet c) as [[ok c1] |] eqn:E; [| done]. intros H.
    assert (Hc' : wire c' = wire c1 /\ send_buf_ c' = send_buf_ c1 /\ pending_ c' = pending_ c1 /\
                  ins c' = ins c1) by (destruct ok; by simplify_eq).
    destruct Hc' as (-> & -> & -> & ->). destruct (handle_packet_frame _ _ _ E) as (-> & -> & H3).
    split_and!; [done.. |]. intros pad res body rest Hcl Hv Hs.
    destruct (response_arrived c pad res body rest Hcl Hv Hs) as (c2 & E2 & Hp2 & Hs2).
    rewrite E in E2. by simplify_eq.
Qed.

(** A client whose request is never answered cannot be stopped. Whatever
    is typed, [/exit] included, it stays running, sends nothing and goes on
    waiting. (The server leaves requests unanswered: see Flow.v.) *)
Theorem waiting_client_ignores_keyboard raws c p :
  running_ c = true -> pending_ c = Some p ->
  exists c', run_loop (Stdin <$> raws) c = Some c' /\
    running_ c' = true /\ pending_ c' = Some p /\ wire c' = wire c /\ state_ c' = state_ c.
Proof.
  intros Hr Hp. revert c Hr Hp. induction raws as [| raw raws IH]; intros c Hr Hp; [by exists c |].
  cbn [fmap list_fmap run_loop]. unfold on_ready at 1. rewrite Hr, (input_while_pending raw c p Hp). cbn.
  destruct (IH (print (InfoWaiting (pending_command p)) c)) as (c' & E & H); [done.. |]. by exists c'.
Qed.

(** The room number check. [validate_room_id] refuses exactly 0 and the
    lobby's number; its message asks for a number of at least 1, but negative
    numbers pass. *)
Theorem validate_room_id_spec room_id c :
  ((validate_room_id room_id c).1 = true <-> room_id <> 0 /\ room_id <> 1) /\
  (room_id < 0 -> validate_room_id room_id c = (true, c)).
Proof.
  unfold validate_room_id. split.
  - repeat case_decide; cbn; naive_solver.
  - intros H. by rewrite !decide_False by lia.
Qed.

(** Paging through history. When a page of messages (newest first) has
    been shown, the next [/load] asks for the same room with, as its body, the
    cursor that the server understands as the id of the page's last, oldest
    message. *)
Theorem load_pages_backwards ms m c :
  state_ c = IN_ROOM -> pending_ c = None -> send_buf_ c = [] -> outs c = [] ->
  is_i64 (room_id_ c) -> Forall Msg.msg_valid (ms ++ [m]) -> is_u32 (size_of (ms ++ [m])) ->
  size_of (Msg.serialize (ms ++ [m])) < 2 ^ 63 -> 0 < Msg.id m ->
  let c1 := (print_history (Msg.serialize (ms ++ [m])) c).2 in
  exists c2 sent cursor, handle_input w_load c1 = (true, c2) /\ wire c2 = wire c ++ sent /\
    Session.next_frame sent =
      Some (mkPacket (mkHeader (packet_type_byte PKT_REQUEST))
              (mkRequest (room_id_ c) 8 (command_byte CMD_LOAD_MESSAGE)) cursor, []) /\
    RoomWorker.load_cursor cursor = Msg.id m.
Proof.
  intros Hst Hp Hb Ho Hr Hv Hn Hsz Hm. cbv zeta. unfold print_history.
  pose proof (Msg.parse_serialize_gen (ms ++ [m]) [] []) as P. rewrite app_nil_r in P. rewrite P by done.
  rewrite last_snoc. cbn [snd].
  assert (Hid : is_i64 (Msg.id m)).
  { apply Forall_app in Hv as [_ Hv]. inversion Hv as [| ? ? (H & _)]; subst. exact H. }
  unfold handle_input. cbn [pending_ set_place print state_]. rewrite Hp.
  change (read_line w_load) with w_load. rewrite decide_False by done.
  change (first_word w_load) with (w_load, @nil byte). cbv iota beta. rewrite Hst, decide_True by done.
  rewrite send_request_all by done. cbn [send_or room_id_ set_place print oldest_message_id_ wire].
  eexists _, _, (i64_enc (Msg.id m)). split_and!; [done | done | |].
  - rewrite <- (app_nil_r (Session.frame _)). change (wrap 32 (size_of (i64_enc (Msg.id m)))) with 8.
    rewrite Session.next_frame_frame; [done |]. by split_and!.
  - unfold RoomWorker.load_cursor. change (size_of (i64_enc (Msg.id m))) with 8.
    cbv zeta. rewrite !(decide_True (P := 8 <= 8)) by lia. rewrite take_ge by (by rewrite length_i64_enc).
    rewrite i64_dec_enc by done. by rewrite decide_False by lia.
Qed.

(** A room that was created is entered. The Success response of the
    server, carrying the issued id, takes a client that asked for a new room
    into that room with a fresh cursor, and ends its wait. *)
Theorem created_room_entered c p kid extra pad :
  pending_ c = Some p -> pending_command p = CMD_CREATE_ROOM -> is_i64 kid ->
  is_u32 (size_of (i64_enc kid ++ extra)) -> length pad = npad Response -> Forall clean (ins c) ->
  let res := mkResponse (wrap 32 (size_of (i64_enc kid ++ extra))) (command_byte CMD_CREATE_ROOM)
               (status_byte (result_to_resresultcode Success)) in
  stream (ins c) = serialize_packet pad (mkHeader (packet_type_byte PKT_RESPONSE)) res (i64_enc kid ++ extra) ->
  exists c', handle_packet c = Some (true, c') /\ state_ c' = IN_ROOM /\ room_id_ c' = kid /\
    oldest_message_id_ c' = 0 /\ pending_ c' = None /\ stream (ins c') = [].
Proof.
  intros Hp Hcmd Hkid Hsz Hpad Hc res Hs. set (body := i64_enc kid ++ extra) in *.
  destruct (handle_packet_stream (SrvResponse pad res body) c []) as (inp & E & _ & Hin); [done | | |].
  - split_and!; [done | |]; unfold res, response_valid; cbn [rs_body_len]; by rewrite wrap_u32_small.
  - by rewrite app_nil_r.
  - rewrite E. eexists. split; [done |]. unfold process, process_response.
    cbn [pending_ set_ins]. rewrite Hp, Hcmd. unfold res. cbn [rs_command rs_status].
    rewrite decide_False by (intros H; by apply H). rewrite decide_False by (intros H; by apply H).
    cbn [apply_response]. rewrite decide_False.
    + cbn. split_and!; try done. unfold body. rewrite take_app_length' by (by rewrite length_i64_enc).
      by rewrite i64_dec_enc.
    + unfold body, size_of. rewrite length_app, length_i64_enc. lia.
Qed.

(** ** Witnesses *)

Definition demo_body : bytes := [x68; x69].
Definition demo_response : ServerPacket :=
  SrvResponse (replicate 2 x00) (mkResponse 0 (command_byte CMD_LEAVE_ROOM) (status_byte RSuccess)) [].
Definition demo_broadcast : ServerPacket :=
  SrvBroadcast (replicate (npad Broadcast) x00)
    (mkBroadcast 7 42 2 (event_byte EVT_MESSAGE)) demo_body.

(** A client inside room 7 that has asked to leave, and whose connection holds
    a chat line and the answer, cut after three bytes. *)
Definition demo_stream : bytes := encode demo_broadcast ++ encode demo_response ++ [x03].
Definition demo_client : Client :=
  set_ins [Session.RecvData (take 3 demo_stream); Session.RecvIntr; Session.RecvData (drop 3 demo_stream)]
    (set_running true (set_pending (Some (mkPending CMD_LEAVE_ROOM 7)) (set_place IN_ROOM 7 0 new_client))).
Definition room_client : Client := set_running true (set_place IN_ROOM 7 0 new_client).
Definition demo_message : Msg.Message := Msg.mkMessage 31 5 1700000000 [x61] demo_body.

Lemma server_stream_alignment_witness :
  exists c', handle_packets 2 demo_client = Some c' /\
    Forall clean (ins c') /\ stream (ins c') = [x03] /\
    set_ins [] c' = foldl process (set_ins [] demo_client) [demo_broadcast; demo_response].
Proof.
  apply (server_stream_alignment [demo_broadcast; demo_response] demo_client [x03]).
  - by repeat constructor.
  - repeat constructor; cbn; by compute.
  - reflexivity.
Defined.

Lemma request_reaches_server_witness :
  exists c' sent, send_request CMD_SEND_MESSAGE 7 demo_body room_client = (true, c') /\
    wire c' = wire room_client ++ sent /\ pending_ c' = Some (mkPending CMD_SEND_MESSAGE 7) /\
    Session.next_frame (sent ++ [x01]) =
      Some (mkPacket (mkHeader (packet_type_byte PKT_REQUEST))
              (mkRequest 7 (size_of demo_body) (command_byte CMD_SEND_MESSAGE)) demo_body, [x01]).
Proof.
  apply (request_reaches_server CMD_SEND_MESSAGE 7 demo_body room_client [x01]); by compute.
Defined.

Definition answered_client : Client :=
  set_ins [Session.RecvData (encode demo_response)] demo_client.

Lemma one_request_at_a_time_witness :
  (exists c', on_ready (Stdin w_leave) room_client = Some c' /\ send_buf_ c' = [] /\
     sent_or_not room_client c' /\ pending_ c' = Some (mkPending CMD_LEAVE_ROOM 7)) /\
  (exists c', on_ready (Stdin w_exit) demo_client = Some c' /\ wire c' = wire demo_client /\
     pending_ c' = Some (mkPending CMD_LEAVE_ROOM 7)) /\
  (exists c', on_ready Sock answered_client = Some c' /\ wire c' = wire answered_client /\
     pending_ c' = None).
Proof.
  split_and!; (eexists; split; [reflexivity |]).
  - destruct (one_request_at_a_time (Stdin w_leave) room_client _ eq_refl eq_refl eq_refl) as [H1 H2].
    split_and!; [exact H1 | exact H2 | reflexivity].
  - destruct (one_request_at_a_time (Stdin w_exit) demo_client _ eq_refl eq_refl eq_refl) as (_ & H1 & H2 & _).
    split; [exact H1 | exact H2].
  - destruct (one_request_at_a_time Sock answered_client _ eq_refl eq_refl eq_refl) as (_ & H1 & _ & H2).
    split; [exact H1 |]. refine (proj1 (H2 (replicate 2 x00)
      (mkResponse 0 (command_byte CMD_LEAVE_ROOM) (status_byte RSuccess)) [] [] _ _ _)).
    + constructor; [by vm_compute | constructor].
    + repeat constructor; cbn; by compute.
    + by vm_compute.
Defined.

Lemma waiting_client_ignores_keyboard_witness :
  exists c', run_loop (Stdin <$> [w_exit; w_leave]) demo_client = Some c' /\
    running_ c' = true /\ pending_ c' = Some (mkPending CMD_LEAVE_ROOM 7) /\
    wire c' = wire demo_client /\ state_ c' = state_ demo_client.
Proof. exact (waiting_client_ignores_keyboard [w_exit; w_leave] demo_client _ eq_refl eq_refl). Defined.

Lemma load_pages_backwards_witness :
  let c1 := (print_history (Msg.serialize ([] ++ [demo_message])) room_client).2 in
  exists c2 sent cursor, handle_input w_load c1 = (true, c2) /\ wire c2 = wire room_client ++ sent /\
    Session.next_frame sent =
      Some (mkPacket (mkHeader (packet_type_byte PKT_REQUEST))
              (mkRequest 7 8 (command_byte CMD_LOAD_MESSAGE)) cursor, []) /\
    RoomWorker.load_cursor cursor = 31.
Proof.
  apply (load_pages_backwards [] demo_message room_client); try reflexivity.
  - by vm_compute.
  - constructor; [| constructor]. by repeat split; vm_compute.
  - by vm_compute.
Defined.

Lemma created_room_entered_witness :
  let c := set_ins [Session.RecvData (serialize_packet [x00; x00] (mkHeader x02)
               (mkResponse 8 (command_byte CMD_CREATE_ROOM) (status_byte RSuccess)) (i64_enc 42))]
             (set_pending (Some (mkPending CMD_CREATE_ROOM 0)) (set_running true new_client)) in
  exists c', handle_packet c = Some (true, c') /\ state_ c' = IN_ROOM /\ room_id_ c' = 42 /\
    oldest_message_id_ c' = 0 /\ pending_ c' = None /\ stream (ins c') = [].
Proof.
  intros c.
  apply (created_room_entered c (mkPending CMD_CREATE_ROOM 0) 42 [] [x00; x00]); try reflexivity.
  - by vm_compute.
  - by vm_compute.
  - by repeat constructor.
Defined.

End Client.
