(* ===== verification/Terminal.v ===== *)
(** * Terminal: the texts of client/src/Client.cpp that name a command or a result

    [status_text] and [command_text] with the three lines built from them: a
    refusal, a response to another command, and a request while one is pending.
    Texts are the UTF-8 bytes of the source's literals. *)

From Stdlib Require Import String.
From S2P Require Import Prelude Wire Client.

Module Terminal.
Import Protocol.

(** The byte is the value of the enumerator that was received. *)
Definition status_text (s : byte) : string :=
  match to_status s with
  | Some RSuccess => "성공"
  | Some RRoomNotFound => "존재하지 않는 방입니다"
  | Some RRoomAlreadyExists => "이미 존재하는 방 번호입니다"
  | Some RRoomFull => "방이 가득 찼습니다"
  | Some RUserNotFound => "해당 방에서 유저를 찾을 수 없습니다"
  | Some RDBNotFound => "데이터를 찾을 수 없습니다"
  | Some RDBError => "데이터베이스 오류가 발생했습니다"
  | Some RDBDuplicate => "이미 존재하는 데이터입니다"
  | Some RNone => "처리 결과 없음"
  | None => "알 수 없는 결과"
  end%string.

Definition command_text (c : byte) : string :=
  match to_command c with
  | Some CMD_CREATE_ROOM => "방 생성"
  | Some CMD_JOIN_ROOM => "방 입장"
  | Some CMD_LEAVE_ROOM => "방 퇴장"
  | Some CMD_SEND_MESSAGE => "메시지 전송"
  | Some CMD_LOAD_MESSAGE => "과거 메시지 요청"
  | None => "알 수 없는 명령"
  end%string.

(** The lines that contain them, without the line end. *)
Definition line_text (l : Client.Line) : option string :=
  match l with
  | Client.InfoWaiting c =>
      Some ("[info] 이전 요청(" ++ command_text (command_byte c) ++ ")의 응답을 기다리는 중입니다")%string
  | Client.ErrMismatch requested got =>
      Some ("[error] 응답 명령 불일치 (요청=" ++ command_text (command_byte requested) ++
            ", 응답=" ++ command_text got ++ ")")%string
  | Client.Failed c status =>
      Some ("[실패] " ++ command_text (command_byte c) ++ ": " ++ status_text status)%string
  | _ => None
  end.

(** A user can tell every refusal from every other: two refusal lines with the
    same text are about the same command and the same result, as long as the
    server sends results it knows. *)
Lemma refusals_distinct c1 c2 s1 s2 :
  line_text (Client.Failed c1 (status_byte s1)) = line_text (Client.Failed c2 (status_byte s2)) ->
  c1 = c2 /\ s1 = s2.
Proof. destruct c1, c2; try discriminate; destruct s1, s2; (done || discriminate). Qed.

(** The texts of unknown values differ from those of the known ones. *)
Lemma unknown_texts s c :
  (status_text s = status_text xff -> to_status s = None) /\
  (command_text c = command_text xff -> to_command c = None).
Proof.
  unfold status_text, command_text. split.
  - destruct (to_status s) as [[] |]; done.
  - destruct (to_command c) as [[] |]; done.
Qed.

End Terminal.
