(* ===== verification/EndToEnd.v ===== *)
(** * EndToEnd: a line typed at one terminal, up to what the terminals show

    The composition of the client (Client.v), the byte streams between it and
    its session (Session.v, Server.v) and the request flows of the server
    (Flow.v): what is typed becomes bytes, the network cuts them anyhow, the
    server's threads execute the request, and the bytes of the answer, cut
    anyhow again, move the client to its next state. *)

From S2P Require Import Prelude Codec Message Wire Decimal Session User Room Event World RoomManager.
From S2P Require Import RoomWorker Invariant RoomWorkerSafe Server System RoomWorkerSpec Loops Flow Client.

Module EndToEnd.
Import Protocol World Server System Invariant RoomWorkerSpec Flow.

(** ** The network *)

(** A way of cutting [data] into the chunks that successive [::recv] return. *)
Definition cut (chunks : list bytes) (data : bytes) : Prop :=
  Forall (fun b => b <> []) chunks /\ mjoin chunks = data.

(** The client reads [reply] as one packet, however it arrives, and ends in a
    state that satisfies [Q], with nothing left to read. *)
Definition delivered (c : Client.Client) (reply : bytes) (Q : Client.Client -> Prop) : Prop :=
  forall inp, Forall Client.clean inp -> Client.stream inp = reply ->
  exists c', Client.handle_packet (Client.set_ins inp c) = Some (true, c') /\
    Client.stream (Client.ins c') = [] /\ Q c'.

(** The session has been given [reply] for its client on top of what it had. *)
Definition replied (w' : World) (sid : Room.Sid) (o : Session.Session) (reply : bytes) : Prop :=
  out w' sid = Some (Session.sent_stream o ++ reply).

(** ** The client's side *)

Lemma delivered_response c pad cmd res data (Q : Client.Client -> Prop) :
  length pad = npad Response -> is_u32 (size_of data) ->
  (forall inp, Q (Client.process_response
     (mkResponse (size_of data) (command_byte cmd) (status_byte (result_to_resresultcode res))) data
     (Client.set_ins inp c))) ->
  delivered c (response_packet pad (command_byte cmd) res data) Q.
Proof.
  intros Hpad Hsz HQ inp Hc Hs. unfold response_packet in Hs. rewrite wrap_u32_small in Hs by done.
  set (r := mkResponse _ _ _) in Hs.
  destruct (Client.handle_packet_stream (Client.SrvResponse pad r data) (Client.set_ins inp c) [])
    as (inp' & E & _ & Hin); [done | by split_and! | by rewrite app_nil_r |].
  cbn [Client.process] in E. eexists. split; [exact E |].
  change (Client.set_ins inp' (Client.set_ins inp c)) with (Client.set_ins inp' c). split; [| apply HQ].
  pose proof (Client.process_set_ins (Client.SrvResponse pad r data) inp' c) as H.
  cbn [Client.process] in H. by rewrite H.
Qed.

(** The client that has just sent a request, and what it makes of the answer. *)
Definition asked (cmd : Command) (k : Z) (data : bytes) (c : Client.Client) : Client.Client :=
  Client.set_pending (Some (Client.mkPending cmd k))
    (Client.set_out [] [] (Client.wire c ++ Session.frame (replicate 3 x00,
       mkHeader (packet_type_byte PKT_REQUEST), mkRequest k (wrap 32 (size_of data)) (command_byte cmd), data)) c).

Lemma delivered_success c cmd k asked_data pad data (Q : Client.Client -> Prop) :
  length pad = npad Response -> is_u32 (size_of data) ->
  (forall inp, Q (Client.print_prompt (Client.apply_response cmd k data
     (Client.set_pending None (Client.set_ins inp (asked cmd k asked_data c)))))) ->
  delivered (asked cmd k asked_data c) (response_packet pad (command_byte cmd) Success data) Q.
Proof.
  intros Hpad Hsz HQ. apply delivered_response; [done | done |]. intros inp.
  unfold Client.process_response. cbn [Client.pending_ Client.set_ins asked Client.set_pending].
  cbn [Client.pending_command rs_command rs_status Client.pending_room].
  rewrite decide_False by (intros H; by apply H). rewrite decide_False by (intros H; by apply H).
  apply HQ.
Qed.

Lemma delivered_failure c cmd k asked_data pad res data (Q : Client.Client -> Prop) :
  length pad = npad Response -> is_u32 (size_of data) -> result_to_resresultcode res <> RSuccess ->
  (forall inp, Q (Client.print_prompt (Client.print
     (Client.Failed cmd (status_byte (result_to_resresultcode res)))
     (Client.set_pending None (Client.set_ins inp (asked cmd k asked_data c)))))) ->
  delivered (asked cmd k asked_data c) (response_packet pad (command_byte cmd) res data) Q.
Proof.
  intros Hpad Hsz Hres HQ. apply delivered_response; [done | done |]. intros inp.
  unfold Client.process_response. cbn [Client.pending_ Client.set_ins asked Client.set_pending].
  cbn [Client.pending_command rs_command rs_status Client.pending_room].
  rewrite decide_False by (intros H; by apply H). rewrite decide_True; [apply HQ |].
  by destruct (result_to_resresultcode res).
Qed.

Lemma delivered_broadcast c pad sender k text (Q : Client.Client -> Prop) :
  length pad = npad Broadcast -> is_i64 sender -> is_i64 k -> is_u32 (size_of text) ->
  (forall inp, Q (Client.process_broadcast (mkBroadcast sender k (size_of text) (event_byte EVT_MESSAGE))
                    text (Client.set_ins inp c))) ->
  delivered c (broadcast_packet pad sender k text) Q.
Proof.
  intros Hpad Hs1 Hk Hsz HQ inp Hc Hs. unfold broadcast_packet in Hs. rewrite wrap_u32_small in Hs by done.
  set (r := mkBroadcast _ _ _ _) in Hs.
  destruct (Client.handle_packet_stream (Client.SrvBroadcast pad r text) (Client.set_ins inp c) [])
    as (inp' & E & _ & Hin); [done | by split_and! | by rewrite app_nil_r |].
  cbn [Client.process] in E. eexists. split; [exact E |].
  change (Client.set_ins inp' (Client.set_ins inp c)) with (Client.set_ins inp' c). split; [| apply HQ].
  pose proof (Client.process_set_ins (Client.SrvBroadcast pad r text) inp' c) as H.
  cbn [Client.process] in H. by rewrite H.
Qed.

(** *** Typed lines *)

Definition no_newline (b : byte) : Prop := b <> x0a /\ b <> x0d.

#[global] Instance no_newline_dec b : Decision (no_newline b).
Proof. unfold no_newline. apply _. Defined.

Lemma strip_newlines_id l : Forall no_newline l -> Client.strip_newlines l = l.
Proof.
  destruct l as [| b l]; [done |]. intros H. inversion H as [| ? ? [H1 H2]]; subst.
  cbn. rewrite decide_False by tauto. done.
Qed.

Lemma read_line_typed l : Forall no_newline l -> Client.read_line (l ++ [x0a]) = l.
Proof.
  intros H. unfold Client.read_line. rewrite reverse_snoc. cbn. rewrite strip_newlines_id.
  - apply reverse_involutive.
  - by apply Forall_reverse.
Qed.

Lemma digit_no_newline d : 0 <= d < 10 -> no_newline (Decimal.digit d).
Proof.
  intros H. assert (d = 0 \/ d = 1 \/ d = 2 \/ d = 3 \/ d = 4 \/ d = 5 \/ d = 6 \/ d = 7 \/ d = 8 \/ d = 9)
    as Hd by lia. by repeat (destruct Hd as [-> | Hd] || subst d).
Qed.

Lemma digits_no_newline fuel n acc :
  0 <= n -> Forall no_newline acc -> Forall no_newline (Decimal.digits fuel n acc).
Proof.
  revert n acc. induction fuel as [| fuel IH]; intros n acc Hn Ha; cbn [Decimal.digits]; [done |].
  case_decide as Hlt.
  - constructor; [by apply digit_no_newline | done].
  - apply IH; [by apply Z.div_pos; lia |]. constructor; [| done]. apply digit_no_newline.
    by apply Z.mod_pos_bound.
Qed.

Lemma to_string_no_newline z : Forall no_newline (Decimal.to_string z).
Proof.
  unfold Decimal.to_string. case_decide; [constructor; [done |] |]; apply digits_no_newline; (done || lia).
Qed.

(** "/join k", "/create", "/leave", "/load", each with its newline. *)
Definition typed_join (k : Z) : bytes := (Client.w_join ++ x20 :: Decimal.to_string k) ++ [x0a].
Definition typed (word : bytes) : bytes := word ++ [x0a].

Lemma read_typed_join k : Client.read_line (typed_join k) = Client.w_join ++ x20 :: Decimal.to_string k.
Proof.
  apply read_line_typed. apply Forall_app. split; [by repeat constructor |].
  constructor; [done | apply to_string_no_newline].
Qed.

(** A client that can send: nothing buffered, nothing asked, a socket that
    takes what it is given. *)
Record ready (c : Client.Client) : Prop := {
  rd_pending : Client.pending_ c = None;
  rd_buf : Client.send_buf_ c = [];
  rd_outs : Client.outs c = [] }.

Lemma send_asked cmd k data c : ready c -> Client.send_request cmd k data c = (true, asked cmd k data c).
Proof. intros [_ Hb Ho]. by apply Client.send_request_all. Qed.

Lemma input_join k c :
  ready c -> Client.state_ c = Client.LOBBY -> k <> 0 -> k <> 1 -> is_i64 k ->
  Client.handle_input (typed_join k) c = (true, asked CMD_JOIN_ROOM k [] c).
Proof.
  intros Hr Hst H0 H1 Hk. unfold Client.handle_input. rewrite read_typed_join, (rd_pending _ Hr).
  rewrite decide_False by done.
  change (Client.first_word (Client.w_join ++ x20 :: Decimal.to_string k))
    with (Client.w_join, x20 :: Decimal.to_string k).
  cbv iota beta. rewrite Hst, decide_False, decide_True by done. unfold Client.cmd_join.
  assert (E : Decimal.stoll (x20 :: Decimal.to_string k) = Some k).
  { rewrite <- (Decimal.stoll_to_string_gen k Hk). unfold Decimal.stoll. done. }
  rewrite E. unfold Client.validate_room_id. rewrite !decide_False by done. by rewrite send_asked.
Qed.

Lemma input_create c :
  ready c -> Client.state_ c = Client.LOBBY ->
  Client.handle_input (typed Client.w_create) c = (true, asked CMD_CREATE_ROOM 0 [] c).
Proof.
  intros Hr Hst. unfold Client.handle_input. rewrite (rd_pending _ Hr).
  change (Client.read_line (typed Client.w_create)) with Client.w_create.
  rewrite decide_False by done. change (Client.first_word Client.w_create) with (Client.w_create, @nil byte).
  cbv iota beta. rewrite Hst, decide_True by done. by rewrite send_asked.
Qed.

Lemma input_leave c :
  ready c -> Client.state_ c = Client.IN_ROOM ->
  Client.handle_input (typed Client.w_leave) c = (true, asked CMD_LEAVE_ROOM (Client.room_id_ c) [] c).
Proof.
  intros Hr Hst. unfold Client.handle_input. rewrite (rd_pending _ Hr).
  change (Client.read_line (typed Client.w_leave)) with Client.w_leave.
  rewrite decide_False by done. change (Client.first_word Client.w_leave) with (Client.w_leave, @nil byte).
  cbv iota beta. rewrite Hst, decide_False, decide_True by done. by rewrite send_asked.
Qed.

Lemma input_load c :
  ready c -> Client.state_ c = Client.IN_ROOM ->
  Client.handle_input (typed Client.w_load) c =
  (true, asked CMD_LOAD_MESSAGE (Client.room_id_ c) (i64_enc (Client.oldest_message_id_ c)) c).
Proof.
  intros Hr Hst. unfold Client.handle_input. rewrite (rd_pending _ Hr).
  change (Client.read_line (typed Client.w_load)) with Client.w_load.
  rewrite decide_False by done. change (Client.first_word Client.w_load) with (Client.w_load, @nil byte).
  cbv iota beta. rewrite Hst, decide_True by done. by rewrite send_asked.
Qed.

(** A line that is sent as a chat message. *)
Definition is_chat (text : bytes) : Prop :=
  text <> [] /\ Forall no_newline text /\
  (Client.first_word text).1 ∉ [Client.w_load; Client.w_leave; Client.w_exit].

#[global] Instance is_chat_dec text : Decision (is_chat text).
Proof. unfold is_chat. apply _. Defined.

Lemma input_chat text c :
  ready c -> Client.state_ c = Client.IN_ROOM -> is_chat text ->
  Client.handle_input (typed text) c = (true, asked CMD_SEND_MESSAGE (Client.room_id_ c) text c).
Proof.
  intros Hr Hst (Hne & Hnl & Hw). unfold Client.handle_input, typed. rewrite (rd_pending _ Hr).
  rewrite read_line_typed, decide_False by done.
  destruct (Client.first_word text) as [cmd args]. cbn [fst] in Hw.
  rewrite Hst, !decide_False by (intros ->; apply Hw; set_solver). by rewrite send_asked.
Qed.

(** ** The server's side *)

(** A client's connection as the server has it: registered, with its session
    and its user, and nothing half received. *)
Record connected (w : World) (sid : Room.Sid) (o : Session.Session) (u : User.User) : Prop := {
  cn_client : client w sid o u;
  cn_session : sessions w !! Session.fd o = Some sid;
  cn_buffer : Session.recv_buffer_ o = [] }.

(** One readable event. *)
Definition arrives {Indet : Indeterminate} {Kernel : EpollKernel} (fd : Z) (chunks : list bytes) : M unit :=
  handle_request fd ((Session.RecvData <$> chunks) ++ [Session.RecvAgain]).

Lemma on_readable_chunks chunks s :
  Forall (fun b => b <> []) chunks ->
  Session.on_readable ((Session.RecvData <$> chunks) ++ [Session.RecvAgain]) s =
  (true, Session.set_recv (Session.recv_buffer_ s ++ mjoin chunks) s).
Proof.
  intros H. revert s. induction H as [| b chunks Hb _ IH]; intros s; cbn.
  - rewrite app_nil_r. by destruct s.
  - rewrite decide_False by done. rewrite IH. cbn. by rewrite <- app_assoc.
Qed.

Section Server.
Context {Indet : Indeterminate} {Kernel : EpollKernel}.

Lemma heapless_id {A} (m : M A) w : Loops.heapless m ->
  match m w with Ok a w' => Ok a (set_heap (heap w) w') | Stop f => Stop f end = m w.
Proof. intros H. rewrite <- H. by destruct w. Qed.

(** A request that arrives alone is dispatched, and leaves no other trace. *)
Lemma request_dispatched w sid o u f chunks :
  connected w sid o u -> Session.frame_valid f -> cut chunks (Session.frame f) ->
  arrives (Session.fd o) chunks w = RoomManager.dispatch_packet (Session.frame_packet f) sid w.
Proof.
  intros [[Ho _] Hs Hb] Hf [Hne Hc]. unfold arrives, handle_request, find_session, bind at 1, gets.
  rewrite Hs. unfold bind at 1, get_session. rewrite Ho, on_readable_chunks, Hb, Hc by done.
  unfold bind, put_session, modify. set (s1 := Session.set_recv _ o).
  rewrite (Loops.handle_packets_run _ sid s1) by (cbn; by rewrite lookup_insert_eq).
  assert (E : Session.all_frames (Session.recv_buffer_ s1) = ([Session.frame_packet f], [])).
  { change ([Session.frame_packet f], @nil byte) with (Session.frame_packet <$> [f], @nil byte).
    rewrite <- (Session.all_frames_concat [f] []) by (done || by repeat constructor).
    change (Session.recv_buffer_ s1) with (Session.frame f). cbn [fmap list_fmap mjoin list_join].
    by rewrite !app_nil_r. }
  rewrite Session.drain_frames. fold (Session.all_frames (Session.recv_buffer_ s1)). rewrite E.
  cbn [fst snd for_each]. unfold s1.
  assert (Hid : Session.set_recv [] o = o) by (rewrite <- Hb; apply Session.set_recv_id).
  rewrite Session.set_recv_recv, Hid. cbn [heap set_heap]. rewrite insert_insert_eq, (insert_id _ _ o) by done.
  pose proof (heapless_id _ w (Loops.heapless_dispatch sid (Session.frame_packet f))) as H.
  unfold bind, ret. rewrite Loops.heapless_dispatch.
  by destruct (RoomManager.dispatch_packet (Session.frame_packet f) sid w) as [[] w' |].
Qed.

(** What a client has asked for, dispatched. *)
Lemma asked_dispatched {A} w sid o u cmd k data chunks (m : M A) :
  connected w sid o u -> is_i64 k -> is_u32 (size_of data) ->
  cut chunks (Session.frame (replicate 3 x00, mkHeader (packet_type_byte PKT_REQUEST),
    mkRequest k (wrap 32 (size_of data)) (command_byte cmd), data)) ->
  (arrives (Session.fd o) chunks ;;; m) w =
  (RoomManager.dispatch_packet (mkPacket (mkHeader (packet_type_byte PKT_REQUEST))
     (mkRequest k (size_of data) (command_byte cmd)) data) sid ;;; m) w.
Proof.
  intros Hcn Hk Hsz Hcut. unfold bind at 1. rewrite wrap_u32_small in Hcut by done.
  erewrite (request_dispatched w sid o u); [| exact Hcn | | exact Hcut]; [done |].
  split; [done |]. split; [by split | done].
Qed.

End Server.

(** ** Histories on the terminal *)

(** A history that fits the length fields of the wire. *)
Definition history (ms : list Msg.Message) : Prop :=
  Forall Msg.msg_valid ms /\ is_u32 (size_of ms) /\ is_u32 (size_of (Msg.serialize ms)).

(** What is printed of a page (newest first), and the cursor it leaves. *)
Definition shown (ms : list Msg.Message) : list Client.Line :=
  match ms with [] => [] | _ => [Client.History (reverse ms)] end.
Definition cursor_after (ms : list Msg.Message) (before : Z) : Z :=
  match last ms with None => before | Some m => Msg.id m end.

Definition with_lines (ls : list Client.Line) (c : Client.Client) : Client.Client :=
  Client.mkClient (Client.state_ c) (Client.room_id_ c) (Client.oldest_message_id_ c) (Client.running_ c)
    (Client.pending_ c) (Client.send_buf_ c) (Client.ins c) (Client.outs c) (Client.wire c)
    (Client.screen c ++ ls).

Lemma parse_history ms : history ms -> Msg.parse (Msg.serialize ms) [] = (true, ms).
Proof.
  intros (Hv & Hn & Hs). rewrite <- (app_nil_r (Msg.serialize ms)).
  apply Msg.parse_serialize_gen; [done | done |]. rewrite app_nil_r. unfold is_u32 in Hs. lia.
Qed.

Lemma print_history_shows ms c :
  history ms ->
  Client.print_history (Msg.serialize ms) c =
  (Some (length ms), Client.set_place (Client.state_ c) (Client.room_id_ c)
     (cursor_after ms (Client.oldest_message_id_ c)) (with_lines (shown ms) c)).
Proof.
  intros H. unfold Client.print_history, cursor_after. rewrite parse_history by done.
  destruct ms as [| m ms]; [destruct c; cbn; unfold with_lines; cbn; by rewrite app_nil_r |].
  destruct (last (m :: ms)) as [x |] eqn:E; [done |]. by apply last_None in E.
Qed.

(** ** Requests *)

Section Requests.
Context {Indet : Indeterminate} {Kernel : EpollKernel}.

(** C14: joining a room, terminal to terminal. A user in the lobby types
    [/join k] for a room that exists and is not full. Whatever way the network
    cuts the request, the server moves the user from the lobby to the room,
    and whatever way it cuts the answer, the client enters room [k], prints
    the history the database had, keeps the oldest message's id as its cursor
    and stops waiting: client and server agree on where the user is. *)
Theorem join_end_to_end c w sid o u wk k room lobby ms draws :
  ready c -> Client.state_ c = Client.LOBBY -> k <> 0 -> k <> 1 -> is_i64 k ->
  inv w -> connected w sid o u ->
  room_to_worker w !! k = Some wk -> wk <> 1 -> room_in w wk k = Some room -> ~ is_full room ->
  in_lobby w (Session.fd o) lobby -> idle w wk -> idle w 1 -> job_queue w = [] -> history ms ->
  exists c1 sent,
    Client.handle_input (typed_join k) c = (true, c1) /\ Client.wire c1 = Client.wire c ++ sent /\
    forall chunks, cut chunks sent -> exists w' reply,
      (arrives (Session.fd o) chunks ;;; RoomWorker.worker_step wk ;;; RoomWorker.worker_step 1 ;;;
       db_step Event.DBSuccess (Msg.serialize ms) draws ;;; RoomWorker.worker_step wk) w = Ok true w' /\
      room_in w' wk k = Some (joined (Session.fd o) sid room) /\
      room_in w' 1 1 = Some (left_ (Session.fd o) lobby) /\
      user_of w' (Session.fd o) = Some (User.set_current_room k u) /\
      replied w' sid o reply /\
      delivered c1 reply (fun c2 =>
        Client.state_ c2 = Client.IN_ROOM /\ Client.room_id_ c2 = k /\ Client.pending_ c2 = None /\
        Client.oldest_message_id_ c2 = cursor_after ms 0 /\
        Client.screen c2 = Client.screen c ++ [Client.Joined k] ++ shown ms ++ [Client.Prompt Client.IN_ROOM k]).
Proof.
  intros Hr Hst H0 H1 Hk Hw Hcn Hrt Hwk Hroom Hnf Hlob Hidk Hid1 Hjobs Hms.
  eexists _, _. split; [by apply input_join |]. split; [done |]. intros chunks Hcut.
  destruct (join_flow w sid o u (mkPacket (mkHeader (packet_type_byte PKT_REQUEST))
     (mkRequest k 0 (command_byte CMD_JOIN_ROOM)) []) wk room lobby Event.DBSuccess (Msg.serialize ms) draws)
    as (w' & E & R1 & R2 & R3 & (pad & Hpad & Hout) & _); [done | apply Hcn | done.. |].
  eexists w', _. split_and!; [| done | done | done | exact Hout |].
  - rewrite (asked_dispatched w sid o u CMD_JOIN_ROOM k [] chunks _ Hcn Hk) by done. exact E.
  - apply delivered_success; [done | apply Hms |]. intros inp. cbn [Client.apply_response load_body].
    rewrite print_history_shows by done. cbn.
    split_and!; [done.. |]. by rewrite <- !app_assoc.
Qed.

(** C30: a join whose history cannot be read. The server has moved the user into
    the room before it asks the database, and does not move it back when the
    query fails: the answer is a failure, so the client stays in the lobby,
    while the server has its user in room [k] and out of the lobby. From here
    on the two disagree about where the user is. *)
Theorem join_failure_splits c w sid o u wk k room lobby st data draws :
  ready c -> Client.state_ c = Client.LOBBY -> k <> 0 -> k <> 1 -> is_i64 k ->
  inv w -> connected w sid o u ->
  room_to_worker w !! k = Some wk -> wk <> 1 -> room_in w wk k = Some room -> ~ is_full room ->
  in_lobby w (Session.fd o) lobby -> idle w wk -> idle w 1 -> job_queue w = [] -> st <> Event.DBSuccess ->
  exists c1 sent,
    Client.handle_input (typed_join k) c = (true, c1) /\ Client.wire c1 = Client.wire c ++ sent /\
    forall chunks, cut chunks sent -> exists w' reply,
      (arrives (Session.fd o) chunks ;;; RoomWorker.worker_step wk ;;; RoomWorker.worker_step 1 ;;;
       db_step st data draws ;;; RoomWorker.worker_step wk) w = Ok true w' /\
      user_of w' (Session.fd o) = Some (User.set_current_room k u) /\
      room_in w' wk k = Some (joined (Session.fd o) sid room) /\
      room_in w' 1 1 = Some (left_ (Session.fd o) lobby) /\
      replied w' sid o reply /\
      delivered c1 reply (fun c2 =>
        Client.state_ c2 = Client.LOBBY /\ Client.pending_ c2 = None /\
        Client.screen c2 = Client.screen c ++
          [Client.Failed CMD_JOIN_ROOM (status_byte (result_to_resresultcode (load_result st)));
           Client.Prompt Client.LOBBY (Client.room_id_ c)]).
Proof.
  intros Hr Hst H0 H1 Hk Hw Hcn Hrt Hwk Hroom Hnf Hlob Hidk Hid1 Hjobs Hdb.
  eexists _, _. split; [by apply input_join |]. split; [done |]. intros chunks Hcut.
  destruct (join_flow w sid o u (mkPacket (mkHeader (packet_type_byte PKT_REQUEST))
     (mkRequest k 0 (command_byte CMD_JOIN_ROOM)) []) wk room lobby st data draws)
    as (w' & E & R1 & R2 & R3 & (pad & Hpad & Hout) & _); [done | apply Hcn | done.. |].
  eexists w', _. split_and!; [| done | done | done | exact Hout |].
  - rewrite (asked_dispatched w sid o u CMD_JOIN_ROOM k [] chunks _ Hcn Hk) by done. exact E.
  - assert (Hb : load_body st data [] = []) by by destruct st. rewrite Hb.
    apply delivered_failure; [done | done | by destruct st |]. intros inp. cbn.
    split_and!; [done.. |]. by rewrite <- app_assoc, Hst.
Qed.

(** C15: creating a room, terminal to terminal. [/create] in the lobby, and the
    id the database issues becomes the room of the client, of its user and of
    the routing table; the client prints it and stops waiting. *)
Theorem create_end_to_end c w sid o u kid data draws lobby :
  ready c -> Client.state_ c = Client.LOBBY -> inv w -> connected w sid o u ->
  issued data kid -> is_u32 (size_of data) -> ready_to_create w kid draws ->
  in_lobby w (Session.fd o) lobby ->
  exists c1 sent,
    Client.handle_input (typed Client.w_create) c = (true, c1) /\ Client.wire c1 = Client.wire c ++ sent /\
    forall chunks, cut chunks sent -> exists w' reply wk,
      (arrives (Session.fd o) chunks ;;; RoomWorker.worker_step 1 ;;; db_step Event.DBSuccess data draws ;;;
       let* wid := RoomManager.find_worker kid in RoomWorker.worker_step wid ;;;
       RoomWorker.worker_step 1) w = Ok true w' /\
      room_to_worker w' = <[kid := wk]> (room_to_worker w) /\
      room_in w' wk kid = Some (Room.mkRoom kid {[Session.fd o := sid]} 5 1) /\
      room_in w' 1 1 = Some (left_ (Session.fd o) lobby) /\
      user_of w' (Session.fd o) = Some (User.set_current_room kid u) /\
      replied w' sid o reply /\
      delivered c1 reply (fun c2 =>
        Client.state_ c2 = Client.IN_ROOM /\ Client.room_id_ c2 = kid /\ Client.pending_ c2 = None /\
        Client.screen c2 = Client.screen c ++ [Client.Created kid; Client.Prompt Client.IN_ROOM kid]).
Proof.
  intros Hr Hst Hw Hcn Hdata Hsz Hready Hlob. pose proof (rc_kid _ _ _ Hready) as Hkid.
  eexists _, _. split; [by apply input_create |]. split; [done |]. intros chunks Hcut.
  destruct (create_flow w sid o u (mkPacket (mkHeader (packet_type_byte PKT_REQUEST))
     (mkRequest 0 0 (command_byte CMD_CREATE_ROOM)) []) kid data draws lobby)
    as (w' & E & (wk & _ & R1 & R2 & _) & R3 & R4 & (pad & Hpad & Hout) & _);
    [done | done | apply Hcn | done.. |].
  eexists w', _, wk. split_and!; [| done | done | done | done | exact Hout |].
  - rewrite (asked_dispatched w sid o u CMD_CREATE_ROOM 0 [] chunks _ Hcn) by done. exact E.
  - apply delivered_success; [done | done |]. intros inp. cbn [Client.apply_response].
    destruct Hdata as [extra ->].
    rewrite decide_False by (unfold size_of; rewrite length_app, length_i64_enc; lia).
    rewrite take_app_length' by (by rewrite length_i64_enc). rewrite i64_dec_enc by done. cbn.
    split_and!; [done.. |]. by rewrite <- app_assoc.
Qed.

(** C16: leaving a room, terminal to terminal. [/leave] in a room takes the user
    back to the lobby on the server, and the client to its lobby state with
    its room and its cursor cleared. *)
Theorem leave_end_to_end c w sid o u wk room lobby :
  ready c -> Client.state_ c = Client.IN_ROOM -> let k := Client.room_id_ c in is_i64 k ->
  inv w -> connected w sid o u ->
  room_to_worker w !! k = Some wk -> wk <> 1 -> room_in w wk k = Some room ->
  is_Some (Room.sessions_ room !! Session.fd o) ->
  room_to_worker w !! 1 = Some 1 -> room_in w 1 1 = Some lobby -> ~ is_full lobby ->
  idle w wk -> idle w 1 ->
  exists c1 sent,
    Client.handle_input (typed Client.w_leave) c = (true, c1) /\ Client.wire c1 = Client.wire c ++ sent /\
    forall chunks, cut chunks sent -> exists w' reply,
      (arrives (Session.fd o) chunks ;;; RoomWorker.worker_step 1 ;;; RoomWorker.worker_step wk) w
        = Ok true w' /\
      room_in w' 1 1 = Some (joined (Session.fd o) sid lobby) /\
      user_of w' (Session.fd o) = Some (User.set_current_room 1 u) /\
      (if decide (Room.current_sessions_ room <= 1)
       then room_in w' wk k = None /\ room_to_worker w' !! k = None
       else room_in w' wk k = Some (left_ (Session.fd o) room)) /\
      replied w' sid o reply /\
      delivered c1 reply (fun c2 =>
        Client.state_ c2 = Client.LOBBY /\ Client.room_id_ c2 = 0 /\ Client.oldest_message_id_ c2 = 0 /\
        Client.pending_ c2 = None /\
        Client.screen c2 = Client.screen c ++ [Client.Left k; Client.Prompt Client.LOBBY 0]).
Proof.
  intros Hr Hst k Hk Hw Hcn Hrt Hwk Hroom Hs Hl1 Hl Hnf Hidk Hid1.
  eexists _, _. split; [by apply input_leave |]. split; [done |]. intros chunks Hcut.
  destruct (leave_flow w sid o u (mkPacket (mkHeader (packet_type_byte PKT_REQUEST))
     (mkRequest k 0 (command_byte CMD_LEAVE_ROOM)) []) wk room lobby)
    as (w' & E & R1 & R2 & R3 & (pad & Hpad & Hout) & _); [done | apply Hcn | done.. |].
  eexists w', _. split_and!; [| done | done | | exact Hout |].
  - rewrite (asked_dispatched w sid o u CMD_LEAVE_ROOM k [] chunks _ Hcn Hk) by done. exact E.
  - cbn in R3. case_decide; by destruct R3.
  - apply delivered_success; [done | done |]. intros inp. cbn. split_and!; [done.. |].
    by rewrite <- app_assoc.
Qed.

(** Why a room cannot be joined, and which worker says so. *)
Definition refused (w : World) (k wid : Z) (res : Result) : Prop :=
  (room_to_worker w !! k = None /\ wid = 1 /\ res = RoomNotFound) \/
  (room_to_worker w !! k = Some wid /\ (exists room, room_in w wid k = Some room /\ is_full room) /\
   res = RoomFull).

(** C31: a refused join, terminal to terminal. When the room does not exist or
    is full, no room, user, route or queue of the server changes, and the
    client prints the reason, stays in the lobby and can go on. *)
Theorem refused_end_to_end c w sid o u k wid res :
  ready c -> Client.state_ c = Client.LOBBY -> k <> 0 -> k <> 1 -> is_i64 k ->
  inv w -> connected w sid o u -> refused w k wid res -> idle w wid ->
  exists c1 sent,
    Client.handle_input (typed_join k) c = (true, c1) /\ Client.wire c1 = Client.wire c ++ sent /\
    forall chunks, cut chunks sent -> exists w' reply,
      (arrives (Session.fd o) chunks ;;; RoomWorker.worker_step wid) w = Ok true w' /\
      room_workers w' = room_workers w /\ user_manager w' = user_manager w /\
      room_to_worker w' = room_to_worker w /\ job_queue w' = job_queue w /\
      replied w' sid o reply /\
      delivered c1 reply (fun c2 =>
        Client.state_ c2 = Client.LOBBY /\ Client.pending_ c2 = None /\
        Client.screen c2 = Client.screen c ++
          [Client.Failed CMD_JOIN_ROOM (status_byte (result_to_resresultcode res));
           Client.Prompt Client.LOBBY (Client.room_id_ c)]).
Proof.
  intros Hr Hst H0 H1 Hk Hw Hcn Href Hid.
  eexists _, _. split; [by apply input_join |]. split; [done |]. intros chunks Hcut.
  set (p := mkPacket (mkHeader (packet_type_byte PKT_REQUEST)) (mkRequest k 0 (command_byte CMD_JOIN_ROOM)) []).
  assert (H : exists w', (RoomManager.dispatch_packet p sid ;;; RoomWorker.worker_step wid) w = Ok true w' /\
    room_workers w' = room_workers w /\ user_manager w' = user_manager w /\
    room_to_worker w' = room_to_worker w /\ job_queue w' = job_queue w /\
    answered w' sid o (command_byte CMD_JOIN_ROOM) res [] /\
    result_to_resresultcode res <> RSuccess).
  { destruct Href as [(Hrt & -> & ->) | (Hrt & (room & Hroom & Hf) & ->)].
    - destruct (unrouted_answered w sid o u p) as (w' & E & R); [done | apply Hcn | done.. |].
      exists w'. naive_solver.
    - destruct (join_full_flow w sid o u p wid room) as (w' & E & R); [done | apply Hcn | done.. |].
      exists w'. naive_solver. }
  destruct H as (w' & E & R1 & R2 & R3 & R4 & (pad & Hpad & Hout) & Hres).
  eexists w', _. split_and!; [| done.. | exact Hout |].
  - rewrite (asked_dispatched w sid o u CMD_JOIN_ROOM k [] chunks _ Hcn Hk) by done. exact E.
  - apply delivered_failure; [done | done | done |]. intros inp. cbn.
    split_and!; [done.. |]. by rewrite <- app_assoc, Hst.
Qed.

(** C17: a chat message, from the sender's keyboard to another member's screen.
    Whatever the network does, a line typed in a room appears on the terminal
    of every other client in that room, with the sender's id and exactly the
    text typed; the sender only stops waiting; and the message is queued for
    the database. *)
Theorem chat_end_to_end c w sid o u wk room text sid2 o2 c2 :
  ready c -> Client.state_ c = Client.IN_ROOM -> is_chat text -> is_u32 (size_of text) ->
  let k := Client.room_id_ c in is_i64 k ->
  let sender := User.get_user_id (Session.fd o) (user_manager w) in is_i64 sender ->
  inv w -> connected w sid o u -> room_to_worker w !! k = Some wk -> room_in w wk k = Some room ->
  idle w wk ->
  heap w !! sid2 = Some o2 -> Room.sessions_ room !! Session.fd o2 = Some sid2 ->
  Session.fd o2 <> Session.fd o -> User.current_room_ <$> user_of w (Session.fd o2) = Some k ->
  Client.state_ c2 = Client.IN_ROOM -> Client.room_id_ c2 = k ->
  exists c1 sent,
    Client.handle_input (typed text) c = (true, c1) /\ Client.wire c1 = Client.wire c ++ sent /\
    forall chunks, cut chunks sent -> exists w' reply reply2,
      (arrives (Session.fd o) chunks ;;; RoomWorker.worker_step wk) w = Ok true w' /\
      replied w' sid o reply /\ replied w' sid2 o2 reply2 /\
      delivered c2 reply2 (fun c2' =>
        Client.screen c2' = Client.screen c2 ++ [Client.Chat sender text] /\
        Client.state_ c2' = Client.IN_ROOM /\ Client.room_id_ c2' = k) /\
      delivered c1 reply (fun c' =>
        Client.pending_ c' = None /\ Client.state_ c' = Client.IN_ROOM /\ Client.room_id_ c' = k /\
        Client.screen c' = Client.screen c ++ [Client.Prompt Client.IN_ROOM k]) /\
      job_queue w' = job_queue w ++ [Event.mkDBJob Event.SaveMessage
        [Decimal.to_string k; Decimal.to_string sender; RoomWorker.tempnick; text] Event.NoCallback].
Proof.
  intros Hr Hst Htext Hsz k Hk sender Hsender Hw Hcn Hrt Hroom Hid Ho2 Hs2 Hne Hu2 Hst2 Hk2.
  eexists _, _. split; [by apply input_chat |]. split; [done |]. intros chunks Hcut.
  destruct (send_flow w sid o u (mkPacket (mkHeader (packet_type_byte PKT_REQUEST))
     (mkRequest k (size_of text) (command_byte CMD_SEND_MESSAGE)) text) wk room)
    as (w' & E & (pad1 & pad2 & Hp1 & Hp2 & Hout) & Hjobs & _); [done | apply Hcn | done.. |].
  cbn [rq_room_id request body] in Hout. destruct (cn_client _ _ _ _ Hcn) as [Ho _].
  assert (Hns : sid2 <> sid) by congruence.
  pose proof (Hout _ _ Ho) as Hout1. pose proof (Hout _ _ Ho2) as Hout2. clear Hout.
  unfold broadcast_to_sessions in Hout1, Hout2. rewrite Ho in Hout1. rewrite Ho2 in Hout2.
  rewrite decide_False in Hout1 by (intros [_ [Hf _]]; by apply Hf). rewrite decide_True in Hout1 by done.
  rewrite decide_True in Hout2 by (split; [done | by split]). rewrite decide_False, app_nil_r in Hout2 by done.
  eexists w', _, _. split_and!; [| exact Hout1 | exact Hout2 | | | exact Hjobs].
  - rewrite (asked_dispatched w sid o u CMD_SEND_MESSAGE k text chunks _ Hcn Hk) by done. exact E.
  - apply delivered_broadcast; [done.. |]. intros inp. unfold Client.process_broadcast.
    cbn [Client.state_ Client.room_id_ Client.set_ins bc_room_id]. rewrite decide_False by (intros [?|?]; congruence).
    done.
  - apply delivered_success; [done | done |]. intros inp. cbn. by rewrite Hst.
Qed.

(** C18: paging through history, terminal to terminal. [/load] asks the database
    for the room's messages before the oldest one on the screen (for the newest
    ones when nothing is on the screen yet), prints the page that comes back,
    oldest first, and moves the cursor to its oldest message; an empty page is
    reported and leaves the cursor alone. *)
Theorem load_end_to_end c w sid o u wk ms draws :
  ready c -> Client.state_ c = Client.IN_ROOM -> let k := Client.room_id_ c in is_i64 k ->
  let oldest := Client.oldest_message_id_ c in is_i64 oldest ->
  inv w -> connected w sid o u -> room_to_worker w !! k = Some wk -> idle w wk -> job_queue w = [] ->
  history ms ->
  exists c1 sent,
    Client.handle_input (typed Client.w_load) c = (true, c1) /\ Client.wire c1 = Client.wire c ++ sent /\
    forall chunks, cut chunks sent -> exists w1 w' reply,
      (arrives (Session.fd o) chunks ;;; RoomWorker.worker_step wk) w = Ok true w1 /\
      Event.params <$> job_queue w1 =
        [[Decimal.to_string k; Decimal.to_string (if decide (oldest <= 0) then INT64_MAX else oldest)]] /\
      (db_step Event.DBSuccess (Msg.serialize ms) draws ;;; RoomWorker.worker_step wk) w1 = Ok true w' /\
      replied w' sid o reply /\
      delivered c1 reply (fun c2 =>
        Client.state_ c2 = Client.IN_ROOM /\ Client.room_id_ c2 = k /\ Client.pending_ c2 = None /\
        Client.oldest_message_id_ c2 = cursor_after ms oldest /\
        Client.screen c2 = Client.screen c ++
          (match ms with [] => [Client.InfoNoMore] | _ => shown ms end) ++ [Client.Prompt Client.IN_ROOM k]).
Proof.
  intros Hr Hst k Hk oldest Hold Hw Hcn Hrt Hid Hjobs Hms.
  eexists _, _. split; [by apply input_load |]. split; [done |]. intros chunks Hcut.
  destruct (load_flow w sid o u (mkPacket (mkHeader (packet_type_byte PKT_REQUEST))
     (mkRequest k 8 (command_byte CMD_LOAD_MESSAGE)) (i64_enc oldest)) wk Event.DBSuccess (Msg.serialize ms) draws)
    as (w1 & E1 & (_ & Hparams) & w' & E2 & (pad & Hpad & Hout) & _); [done | apply Hcn | done.. |].
  eexists w1, w', _. split_and!; [| | exact E2 | exact Hout |].
  - rewrite (asked_dispatched w sid o u CMD_LOAD_MESSAGE k (i64_enc oldest) chunks _ Hcn Hk) by done. exact E1.
  - rewrite Hparams. cbn [rq_room_id request body]. unfold RoomWorker.load_cursor.
    change (size_of (i64_enc oldest)) with 8. cbv zeta. rewrite (decide_True (P := 8 <= 8)) by lia.
    by rewrite take_ge, i64_dec_enc by (done || by rewrite length_i64_enc).
  - apply delivered_success; [done | apply Hms |]. intros inp. cbn [Client.apply_response load_body].
    rewrite print_history_shows by done. destruct ms as [| m ms]; cbn.
    + split_and!; [done.. |]. by rewrite app_nil_r, <- app_assoc, Hst.
    + split_and!; [done.. |]. by rewrite <- app_assoc, Hst.
Qed.

End Requests.

(** ** Witnesses: the worlds of Flow.v, and one with two clients in room 100 *)

Definition in_room_100 : Client.Client := Client.set_place Client.IN_ROOM 100 0 Client.new_client.
Definition chat_world : World :=
  System.after (two_clients ++ creates ++
    [sends 6 CMD_JOIN_ROOM 100; Server.LWorker 2; Server.LWorker 1;
     Server.LDb Event.DBSuccess [x00; x00; x00; x00] [2; 2]; Server.LWorker 2]).
Definition page : list Msg.Message := [Msg.sample].

Lemma new_client_ready : ready Client.new_client.
Proof. done. Qed.

Lemma in_room_ready : ready in_room_100.
Proof. done. Qed.

Lemma page_history : history page.
Proof. split; [apply Msg.sample_valid |]. split; by apply (bool_decide_unpack _); vm_compute. Qed.

Ltac concrete :=
  match goal with
  | |- ready Client.new_client => apply new_client_ready
  | |- ready in_room_100 => apply in_room_ready
  | |- inv _ => apply System.after_inv
  | |- connected _ _ _ _ => split; by_computation
  | |- history page => apply page_history
  | |- is_i64 _ => by apply (bool_decide_unpack _); vm_compute
  | |- is_u32 _ => by apply (bool_decide_unpack _); vm_compute
  | |- is_chat _ => by apply (bool_decide_unpack _); vm_compute
  | |- _ <> _ => first [by_computation | discriminate]
  | _ => by_computation
  end.

Lemma join_end_to_end_witness :
  exists c1 sent, Client.handle_input (typed_join 100) Client.new_client = (true, c1) /\
    forall chunks, cut chunks sent -> exists w',
    (arrives 6 chunks ;;; RoomWorker.worker_step 2 ;;; RoomWorker.worker_step 1 ;;;
     db_step Event.DBSuccess (Msg.serialize page) [] ;;; RoomWorker.worker_step 2) room_world = Ok true w'.
Proof.
  destruct (join_end_to_end Client.new_client room_world 1%nat (sess room_world 1%nat) (user room_world 6)
    2 100 (room_of room_world 2 100) (room_of room_world 1 1) page []) as (c1 & sent & H1 & _ & H);
    [concrete.. |].
  exists c1, sent. split; [exact H1 |]. intros chunks Hc. destruct (H chunks Hc) as (w' & reply & E & _).
  exists w'. exact E.
Defined.

Lemma join_failure_splits_witness :
  exists c1 sent, Client.handle_input (typed_join 100) Client.new_client = (true, c1) /\
    forall chunks, cut chunks sent -> exists w',
    (arrives 6 chunks ;;; RoomWorker.worker_step 2 ;;; RoomWorker.worker_step 1 ;;;
     db_step Event.DBStError [] [] ;;; RoomWorker.worker_step 2) room_world = Ok true w'.
Proof.
  destruct (join_failure_splits Client.new_client room_world 1%nat (sess room_world 1%nat) (user room_world 6)
    2 100 (room_of room_world 2 100) (room_of room_world 1 1) Event.DBStError [] [])
    as (c1 & sent & H1 & _ & H); [concrete.. |].
  exists c1, sent. split; [exact H1 |]. intros chunks Hc. destruct (H chunks Hc) as (w' & reply & E & _).
  exists w'. exact E.
Defined.

Lemma create_end_to_end_witness :
  exists c1 sent, Client.handle_input (typed Client.w_create) Client.new_client = (true, c1) /\
    forall chunks, cut chunks sent -> exists w',
    (arrives 5 chunks ;;; RoomWorker.worker_step 1 ;;;
     db_step Event.DBSuccess (i64_enc 100 ++ []) [2; 2] ;;;
     let* wid := RoomManager.find_worker 100 in RoomWorker.worker_step wid ;;;
     RoomWorker.worker_step 1) lobby_world = Ok true w'.
Proof.
  destruct (create_end_to_end Client.new_client lobby_world 0%nat (sess lobby_world 0%nat)
    (user lobby_world 5) 100 (i64_enc 100 ++ []) [2; 2] (room_of lobby_world 1 1))
    as (c1 & sent & H1 & _ & H);
    [concrete | concrete | concrete | concrete | by exists [] | concrete |
     apply ready_example; concrete | concrete |].
  exists c1, sent. split; [exact H1 |]. intros chunks Hc. destruct (H chunks Hc) as (w' & reply & wk & E & _).
  exists w'. exact E.
Defined.

Lemma leave_end_to_end_witness :
  exists c1 sent, Client.handle_input (typed Client.w_leave) in_room_100 = (true, c1) /\
    forall chunks, cut chunks sent -> exists w',
    (arrives 5 chunks ;;; RoomWorker.worker_step 1 ;;; RoomWorker.worker_step 2) room_world = Ok true w'.
Proof.
  destruct (leave_end_to_end in_room_100 room_world 0%nat (sess room_world 0%nat) (user room_world 5)
    2 (room_of room_world 2 100) (room_of room_world 1 1)) as (c1 & sent & H1 & _ & H); [concrete.. |].
  exists c1, sent. split; [exact H1 |]. intros chunks Hc. destruct (H chunks Hc) as (w' & reply & E & _).
  exists w'. exact E.
Defined.

Lemma refused_end_to_end_witness :
  exists c1 sent, Client.handle_input (typed_join 7) Client.new_client = (true, c1) /\
    forall chunks, cut chunks sent -> exists w',
    (arrives 5 chunks ;;; RoomWorker.worker_step 1) lobby_world = Ok true w'.
Proof.
  destruct (refused_end_to_end Client.new_client lobby_world 0%nat (sess lobby_world 0%nat)
    (user lobby_world 5) 7 1 RoomNotFound) as (c1 & sent & H1 & _ & H);
    [concrete | concrete | concrete | concrete | concrete | concrete | concrete | left; concrete | concrete |].
  exists c1, sent. split; [exact H1 |]. intros chunks Hc. destruct (H chunks Hc) as (w' & reply & E & _).
  exists w'. exact E.
Defined.

Lemma chat_end_to_end_witness :
  exists c1 sent, Client.handle_input (typed [x68; x69]) in_room_100 = (true, c1) /\
    forall chunks, cut chunks sent -> exists w' reply2,
    (arrives 5 chunks ;;; RoomWorker.worker_step 2) chat_world = Ok true w' /\
    delivered in_room_100 reply2 (fun c2' =>
      Client.screen c2' = [Client.Chat 1 [x68; x69]] /\ Client.state_ c2' = Client.IN_ROOM /\
      Client.room_id_ c2' = 100).
Proof.
  destruct (chat_end_to_end in_room_100 chat_world 0%nat (sess chat_world 0%nat) (user chat_world 5)
    2 (room_of chat_world 2 100) [x68; x69] 1%nat (sess chat_world 1%nat) in_room_100)
    as (c1 & sent & H1 & _ & H); [concrete.. |].
  exists c1, sent. split; [exact H1 |]. intros chunks Hc.
  destruct (H chunks Hc) as (w' & reply & reply2 & E & _ & _ & D & _).
  exists w', reply2. split; [exact E | exact D].
Defined.

Lemma load_end_to_end_witness :
  exists c1 sent, Client.handle_input (typed Client.w_load) in_room_100 = (true, c1) /\
    forall chunks, cut chunks sent -> exists w1,
    (arrives 5 chunks ;;; RoomWorker.worker_step 2) room_world = Ok true w1.
Proof.
  destruct (load_end_to_end in_room_100 room_world 0%nat (sess room_world 0%nat) (user room_world 5)
    2 page []) as (c1 & sent & H1 & _ & H); [concrete.. |].
  exists c1, sent. split; [exact H1 |]. intros chunks Hc. destruct (H chunks Hc) as (w1 & w' & reply & E & _).
  exists w1. exact E.
Defined.

End EndToEnd.
