(* ===== verification/Answers.v ===== *)
(** * Answers: what the server ever writes to a client

    Two promises of the server to a client, over every execution of the whole
    system: the byte stream of a session is at all times a concatenation of
    whole, well-formed packets (so the client's reader, Client.v, decodes
    exactly these), and it holds at most one response per request the session
    has sent, plus the one that refuses entry to a full lobby. The argument is
    a ledger: every event and database job in flight that can still be
    answered is a credit, a dispatched request adds one, an answer spends one,
    and no handler copies an event. *)

From S2P Require Import Prelude Codec Wire Decimal Session User Room Event World RoomManager.
From S2P Require Import RoomWorker Invariant RoomWorkerSafe Server System RoomWorkerSpec Loops Client.

Module Answers.
Import Protocol World Server System RoomWorkerSpec.

(** ** Packets in a stream *)

(** The stream is the concatenation of these packets, each of them one the
    client can read back. *)
Definition spoken (stream : option bytes) (ps : list Client.ServerPacket) : Prop :=
  default [] stream = mjoin (Client.encode <$> ps) /\ Forall Client.packet_valid ps.

(** A response counts one, a broadcast nothing. *)
Definition is_response (p : Client.ServerPacket) : nat :=
  match p with Client.SrvResponse _ _ _ => 1 | Client.SrvBroadcast _ _ _ => 0 end.
Definition responses (ps : list Client.ServerPacket) : nat := sum_list_with is_response ps.

Lemma spoken_snoc s ps p :
  spoken s ps -> Client.packet_valid p ->
  spoken (Some (default [] s ++ Client.encode p)) (ps ++ [p]) /\
  responses (ps ++ [p]) = (responses ps + is_response p)%nat.
Proof.
  intros [H1 H2] Hp. split; [split |].
  - cbn. rewrite H1, fmap_app, join_app. cbn. by rewrite app_nil_r.
  - apply Forall_app. split; [done |]. by constructor.
  - unfold responses. rewrite sum_list_with_app. cbn. lia.
Qed.

Lemma response_speaks pad c res body :
  length pad = npad Response -> is_u32 (size_of body) ->
  exists p, Client.packet_valid p /\ is_response p = 1%nat /\
    Client.encode p = response_packet pad c res body.
Proof.
  intros Hp Hb. eexists (Client.SrvResponse pad _ body). split_and!; [| done | done].
  cbn. unfold response_valid. cbn. rewrite wrap_u32_small by done. done.
Qed.

(** Identifiers are sent as the 64 bits they are stored in. *)
Lemma broadcast_speaks pad sender k body :
  length pad = npad Broadcast -> is_u32 (size_of body) ->
  exists p, Client.packet_valid p /\ is_response p = 0%nat /\
    Client.encode p = broadcast_packet pad sender k body.
Proof.
  intros Hp Hb.
  exists (Client.SrvBroadcast pad (mkBroadcast (i64_dec (i64_enc sender)) (i64_dec (i64_enc k))
    (size_of body) (event_byte EVT_MESSAGE)) body). split_and!; [| done |].
  - cbn. unfold broadcast_valid. cbn. split_and!; try done; apply i64_dec_range.
  - cbn [Client.encode]. unfold broadcast_packet. rewrite wrap_u32_small by done.
    rewrite !serialize_packet_concat by done. cbn [to_rep broadcast_layout]. unfold broadcast_rep. cbn.
    by rewrite !i64_enc_dec by apply length_i64_enc.
Qed.

(** ** The ledger *)

(** An event that is handled without answering anybody. *)
Definition answers_nobody (a : Event.RoomAction) : Prop :=
  Event.command a = Event.FLUSH \/ Event.command a = Event.DISCONNECT_SESSION.

#[global] Instance answers_nobody_dec a : Decision (answers_nobody a).
Proof. unfold answers_nobody. apply _. Defined.

Definition loud (e : Event.RoomEvent) : Prop := ~ Forall answers_nobody (Event.actions e).

#[global] Instance loud_dec e : Decision (loud e).
Proof. unfold loud. apply _. Defined.

(** The answer an event in flight may still produce, and for whom. *)
Definition credit (e : Event.RoomEvent) (sid : Room.Sid) : nat :=
  if decide (Event.session e = Some sid /\ loud e) then 1 else 0.

Definition job_credit (j : Event.DBJob) (sid : Room.Sid) : nat :=
  match Event.callback_event (Event.on_result j) with Some e => credit e sid | None => 0 end.

Definition queues (w : World) : gmap Z (list Event.RoomEvent) := event_queue_ <$> room_workers w.
Definition streams (w : World) : gmap Room.Sid bytes := Session.sent_stream <$> heap w.

(** Everything the ledger looks at. *)
Definition view (w : World) := (streams w, queues w, job_queue w).

Definition queue_credit (sid : Room.Sid) (q : list Event.RoomEvent) : nat :=
  sum_list_with (fun e => credit e sid) q.

(** The answers in flight to a session. *)
Definition pending (w : World) (sid : Room.Sid) : nat :=
  map_sum (queue_credit sid) (queues w) +
  sum_list_with (fun j => job_credit j sid) (job_queue w).

(** Events whose answer fits a packet, and whose failure has an addressee. *)
Definition fits (e : Event.RoomEvent) : Prop :=
  is_u32 (size_of (Event.request_data e)) /\ is_u32 (size_of (Event.response_data e)) /\
  (loud e \/ Event.result_code e = None_).

Definition job_fits (j : Event.DBJob) : Prop :=
  forall e, Event.callback_event (Event.on_result j) = Some e -> fits e /\ loud e.

(** [owes k w L]: every stream is well formed, and the responses a session got,
    those in flight, and [k] more are within its allowance [L]. *)
Record owes (k : Room.Sid -> nat) (w : World) (L : Room.Sid -> nat) : Prop := {
  ow_queues : map_Forall (fun _ q => Forall fits q) (queues w);
  ow_jobs : Forall job_fits (job_queue w);
  ow_spoken : forall sid, exists ps, spoken (streams w !! sid) ps /\
    (responses ps + pending w sid + k sid <= L sid)%nat }.

Definition plus (k1 k2 : Room.Sid -> nat) (sid : Room.Sid) : nat := (k1 sid + k2 sid)%nat.
Definition unit_for (sid : Room.Sid) (sid' : Room.Sid) : nat := if decide (sid = sid') then 1 else 0.

Lemma owes_mono k k' w L L' :
  owes k w L -> (forall sid, (k' sid + L sid <= k sid + L' sid)%nat) -> owes k' w L'.
Proof.
  intros [H1 H2 H3] Hk. split; [done | done |]. intros sid. destruct (H3 sid) as (ps & Hs & Hn).
  exists ps. split; [done |]. specialize (Hk sid). lia.
Qed.

Lemma owes_view k w w' L : view w' = view w -> owes k w L -> owes k w' L.
Proof.
  unfold view. intros [= E1 E2 E3] [H1 H2 H3]. split; [by rewrite E2 | by rewrite E3 |].
  intros sid. unfold pending. rewrite E1, E2, E3. apply H3.
Qed.

(** ** Updates of the ledger *)

(** One worker's queue changes. *)
Lemma owes_queue k k' w L wid r q :
  owes k w L -> room_workers w !! wid = Some r -> Forall fits q ->
  (forall sid, (queue_credit sid q + k' sid <= queue_credit sid (event_queue_ r) + k sid)%nat) ->
  owes k' (set_workers (<[wid := set_queue q r]> (room_workers w)) w) L.
Proof.
  intros [H1 H2 H3] Hr Hq Hk.
  assert (E : queues (set_workers (<[wid := set_queue q r]> (room_workers w)) w) = <[wid := q]> (queues w)).
  { unfold queues. cbn. by rewrite fmap_insert. }
  split; [rewrite E; by apply map_Forall_insert_2 | done |]. intros sid. unfold pending. rewrite E.
  destruct (H3 sid) as (ps & Hs & Hn). exists ps. split; [done |]. unfold pending in Hn. cbn [job_queue set_workers].
  rewrite map_sum_insert. rewrite (map_sum_lookup _ (queues w) wid (event_queue_ r)) in Hn.
  - specialize (Hk sid). lia.
  - unfold queues. by rewrite lookup_fmap, Hr.
Qed.

Lemma owes_queue_fits k w L wid r :
  owes k w L -> room_workers w !! wid = Some r -> Forall fits (event_queue_ r).
Proof. intros [H _ _] Hr. apply (H wid). unfold queues. by rewrite lookup_fmap, Hr. Qed.

Lemma queue_credit_snoc sid q e : queue_credit sid (q ++ [e]) = (queue_credit sid q + credit e sid)%nat.
Proof. unfold queue_credit. rewrite sum_list_with_app. cbn. lia. Qed.

(** The job queue changes. *)
Lemma owes_jobs k k' w L js :
  owes k w L -> Forall job_fits js ->
  (forall sid, (sum_list_with (fun j => job_credit j sid) js + k' sid <=
     sum_list_with (fun j => job_credit j sid) (job_queue w) + k sid)%nat) ->
  owes k' (set_jobs js w) L.
Proof.
  intros [H1 H2 H3] Hj Hk. split; [done | done |]. intros sid. destruct (H3 sid) as (ps & Hs & Hn).
  exists ps. split; [done |]. unfold pending in *. cbn [job_queue set_jobs].
  change (queues (set_jobs js w)) with (queues w). specialize (Hk sid). lia.
Qed.

(** A session is sent a packet. *)
Lemma owes_speak k w L sid o o' p :
  owes (plus k (fun sid' => (is_response p * unit_for sid sid')%nat)) w L -> Client.packet_valid p ->
  heap w !! sid = Some o -> Session.sent_stream o' = Session.sent_stream o ++ Client.encode p ->
  owes k (set_heap (<[sid := o']> (heap w)) w) L.
Proof.
  intros [H1 H2 H3] Hp Ho E. split; [done | done |]. intros sid'.
  destruct (H3 sid') as (ps & Hs & Hn). unfold plus, unit_for in Hn. unfold streams in *. cbn [heap set_heap].
  change (pending (set_heap _ w)) with (pending w). rewrite fmap_insert.
  destruct (decide (sid = sid')) as [<- | Hne].
  - rewrite lookup_insert_eq. rewrite lookup_fmap, Ho in Hs.
    destruct (spoken_snoc _ ps p Hs Hp) as [Hs' Hr]. exists (ps ++ [p]).
    rewrite E, Hr. split; [exact Hs' | lia].
  - rewrite lookup_insert_ne by done. exists ps. split; [done | lia].
Qed.

(** A session object changes without anything being sent. *)
Lemma view_heap w sid o o' :
  heap w !! sid = Some o -> Session.sent_stream o' = Session.sent_stream o ->
  view (set_heap (<[sid := o']> (heap w)) w) = view w.
Proof.
  intros Ho E. unfold view, streams. cbn [heap set_heap]. rewrite fmap_insert, E, insert_id; [done |].
  by rewrite lookup_fmap, Ho.
Qed.

Lemma view_rooms w wid r rs :
  room_workers w !! wid = Some r ->
  view (set_workers (<[wid := set_rooms rs r]> (room_workers w)) w) = view w.
Proof.
  intros Hr. unfold view, queues. cbn [room_workers set_workers]. rewrite fmap_insert. rewrite (insert_id (event_queue_ <$> room_workers w)); [reflexivity |].
  by rewrite lookup_fmap, Hr.
Qed.


(** ** Handlers *)

Definition any_fault (f : Fault) : Prop := True.

(** A handler that leaves the ledger's view of the world alone. *)
Definition quiet {A} (m : M A) : Prop := forall w, wp m any_fault (fun _ w' => view w' = view w) w.

(** A handler that starts with the credit [k] in hand and ends with [k']. *)
Definition pays {A} (k : Room.Sid -> nat) (m : M A) (k' : Room.Sid -> nat) : Prop :=
  forall w L, owes k w L -> wp m any_fault (fun _ w' => owes k' w' L) w.

Lemma quiet_ret {A} (a : A) : quiet (ret a).
Proof. done. Qed.

Lemma quiet_fault {A} f : quiet (fault (A := A) f).
Proof. done. Qed.

Lemma quiet_bind {A B} (m : M A) (f : A -> M B) : quiet m -> (forall a, quiet (f a)) -> quiet (bind m f).
Proof.
  intros Hm Hf w. apply wp_bind. eapply wp_mono; [apply Hm |]. intros a w' E. rewrite <- E. apply Hf.
Qed.

Lemma quiet_deref {A} e (o : option A) : quiet (deref e o).
Proof. by destruct o. Qed.

Lemma quiet_gets {A} (f : World -> A) : quiet (gets f).
Proof. done. Qed.

Lemma quiet_modify f : (forall w, view (f w) = view w) -> quiet (modify f).
Proof. intros H w. apply H. Qed.

Lemma quiet_get_session s : quiet (get_session s).
Proof. intros w. unfold wp, get_session. by destruct (_ !! _). Qed.

Lemma quiet_get_worker wid : quiet (get_worker wid).
Proof. intros w. unfold wp, get_worker. by destruct (_ !! _). Qed.

#[local] Hint Resolve quiet_ret quiet_fault quiet_deref quiet_gets quiet_get_session quiet_get_worker : quiet.

(** The structure of a handler, down to its updates. *)
Ltac quieten :=
  repeat first
    [ progress eauto with quiet
    | apply quiet_bind; [| intros ?]
    | case_decide
    | case_match ].

Lemma quiet_session_fd s : quiet (session_fd s).
Proof. unfold session_fd. quieten. Qed.

Lemma quiet_get_rooms wid : quiet (get_rooms wid).
Proof. unfold get_rooms. quieten. Qed.

Lemma quiet_put_rooms wid rs : quiet (put_rooms wid rs).
Proof.
  intros w. unfold put_rooms. apply wp_bind. unfold wp, get_worker.
  destruct (room_workers w !! wid) as [r |] eqn:Hr; [| done]. by apply view_rooms.
Qed.

Lemma quiet_set_users f : quiet (modify (fun w => set_users (f w) w)).
Proof. done. Qed.

Lemma quiet_erase k : quiet (RoomManager.erase_room_to_worker k).
Proof. done. Qed.

#[local] Hint Resolve quiet_session_fd quiet_get_rooms quiet_put_rooms quiet_set_users quiet_erase : quiet.

Lemma quiet_pays {A} (m : M A) k : quiet m -> pays k m k.
Proof. intros H w L Hk. eapply wp_mono; [apply H |]. intros a w' E. by apply (owes_view k w). Qed.

Lemma pays_mono {A} (m : M A) k1 k2 k1' k2' :
  (forall sid, (k1 sid <= k1' sid)%nat) -> (forall sid, (k2' sid <= k2 sid)%nat) ->
  pays k1 m k2 -> pays k1' m k2'.
Proof.
  intros H1 H2 Hm w L Hw. eapply wp_mono.
  - apply (Hm w L). eapply owes_mono; [exact Hw |]. intros sid. specialize (H1 sid). lia.
  - intros a w' Hw'. eapply owes_mono; [exact Hw' |]. intros sid. specialize (H2 sid). lia.
Qed.

Lemma pays_bind {A B} (m : M A) (f : A -> M B) k1 k2 k3 :
  pays k1 m k2 -> (forall a, pays k2 (f a) k3) -> pays k1 (bind m f) k3.
Proof.
  intros Hm Hf w L Hw. apply wp_bind. eapply wp_mono; [by apply Hm |]. intros a w' Hw'. by apply Hf.
Qed.

(** After a quiet step, with the same credit. *)
Lemma pays_after {A B} (m : M A) (f : A -> M B) k k' :
  quiet m -> (forall a, pays k (f a) k') -> pays k (bind m f) k'.
Proof. intros Hm. apply pays_bind. by apply quiet_pays. Qed.

(** Dropping credit: nobody has to be answered. *)
Lemma pays_ret {A} (a : A) k1 k2 : pays (plus k1 k2) (ret a) k1.
Proof.
  intros w L Hw. apply wp_ret. eapply owes_mono; [exact Hw |]. intros sid. unfold plus. lia.
Qed.

Lemma pays_quiet {A} (m : M A) k1 k2 : quiet m -> pays (plus k1 k2) m k1.
Proof.
  intros Hm. eapply pays_mono; [| | by apply quiet_pays]; [| by intros sid].
  intros sid. unfold plus. lia.
Qed.

Lemma pays_for_each {A} (l : list A) (f : A -> M unit) k :
  (forall a, pays k (f a) k) -> pays k (for_each l f) k.
Proof.
  intros Hf. induction l as [| a l IH]; cbn [for_each]; [by apply quiet_pays |].
  eapply pays_bind; [apply Hf | done].
Qed.

Section Handlers.
Context {Indet : Indeterminate} {SService : IServerService}.

Lemma quiet_enable fd : quiet (request_enable_epollout fd).
Proof. intros w. unfold wp. by rewrite enable_queues. Qed.
Lemma quiet_disable fd : quiet (request_disable_epollout fd).
Proof. intros w. unfold wp. by rewrite disable_queues. Qed.
Lemma quiet_close fd : quiet (request_close_session fd).
Proof. intros w. unfold wp. by rewrite close_queues. Qed.
#[local] Hint Resolve quiet_enable quiet_disable quiet_close : quiet.

Lemma flush_keeps_stream s r s' : Session.flush s = (r, s') -> Session.sent_stream s' = Session.sent_stream s.
Proof.
  intros H. destruct (Session.sending_ s) eqn:E; [| by eapply Session.flush_stream].
  unfold Session.flush in H. rewrite E in H. by injection H as _ <-.
Qed.

Lemma quiet_flush session : quiet (RoomWorker.flush session).
Proof.
  unfold RoomWorker.flush. destruct session as [sid |]; [| done]. intros w. apply wp_bind, wp_ret, wp_bind.
  unfold wp at 1, get_session. destruct (heap w !! sid) as [o |] eqn:Ho; [| done].
  destruct (Session.flush o) as [r o'] eqn:Ef. apply wp_bind, wp_modify.
  rewrite <- (view_heap w sid o o' Ho) by by eapply flush_keeps_stream.
  destruct r; quieten; apply quiet_disable || apply quiet_close || done.
Qed.

(** Sending a packet spends what the packet costs. *)
Lemma pays_send_packet k sid p :
  Client.packet_valid p ->
  pays (plus k (fun sid' => (is_response p * unit_for sid sid')%nat))
    (RoomWorker.send_packet (Some sid) (Client.encode p)) k.
Proof.
  intros Hp w L Hw. unfold RoomWorker.send_packet. apply wp_bind, wp_ret, wp_bind.
  unfold wp at 1, get_session. destruct (heap w !! sid) as [o |] eqn:Ho; [| done].
  destruct (Session.flush (Session.pack _ o)) as [r o'] eqn:Ef. apply wp_bind, wp_modify.
  assert (Hw' : owes k (set_heap (<[sid := o']> (heap w)) w) L).
  { eapply owes_speak; [done.. |]. by rewrite (flush_keeps_stream _ _ _ Ef), Session.pack_stream. }
  revert Hw'. generalize (set_heap (<[sid := o']> (heap w)) w). intros w1 Hw1.
  destruct r; apply (quiet_pays (A := unit)); eauto with quiet.
Qed.

(** *** Events and their credit *)

Lemma credit_unit e sid : Event.session e = Some sid -> loud e -> forall s, credit e s = unit_for sid s.
Proof.
  intros Hs Hl s. unfold credit, unit_for. rewrite Hs.
  destruct (decide (sid = s)) as [<- | Hne].
  - by rewrite decide_True.
  - rewrite decide_False; [done |]. intros [[= E] _]. done.
Qed.

Lemma credit_le e sid : Event.session e = Some sid -> forall s, (credit e s <= unit_for sid s)%nat.
Proof.
  intros Hs s. unfold credit, unit_for. rewrite Hs. case_decide as H; [| lia].
  destruct H as [[= ->] _]. by rewrite decide_True.
Qed.

Lemma fits_result r e : loud e -> fits e -> fits (Event.set_result r e).
Proof. intros Hl (H1 & H2 & _). split_and!; [done | done |]. by left. Qed.

Lemma fits_response d e : is_u32 (size_of d) -> fits e -> fits (Event.set_response d e).
Proof. intros Hd (H1 & H2 & H3). by split_and!. Qed.

Lemma loud_resolve k e : loud e -> loud (Event.resolve_room_id k e).
Proof.
  unfold loud. intros H Hf. apply H. unfold Event.resolve_room_id in Hf. simpl in Hf. rewrite Forall_fmap in Hf.
  eapply Forall_impl; [exact Hf |]. intros a. unfold answers_nobody, compose, Event.resolve_action.
  by case_decide.
Qed.

Lemma credit_resolve k e : loud e -> forall s, credit (Event.resolve_room_id k e) s = credit e s.
Proof.
  intros Hl s. unfold credit. cbn [Event.session Event.resolve_room_id Event.set_target Event.set_actions].
  destruct (decide (Event.session e = Some s)).
  - rewrite !decide_True; [done | done |]. split; [done | by apply loud_resolve].
  - by rewrite !decide_False by tauto.
Qed.

(** Routing hands the event's credit to a queue, or keeps it in hand. *)
Lemma wp_route_event k e t w L :
  fits e -> owes (plus k (credit e)) w L ->
  wp (RoomManager.route_event e t) any_fault
    (fun r w' => (r = Success -> owes k w' L) /\ (r <> Success -> owes (plus k (credit e)) w' L)) w.
Proof.
  intros He Hw. unfold RoomManager.route_event. apply wp_bind.
  apply (wp_mono _ (fun _ w' => w' = w)); [by case_decide |]. intros wid w' ->.
  case_decide; [by apply wp_ret |]. unfold post_event. apply wp_bind, wp_bind. unfold wp at 1, get_worker.
  destruct (room_workers w !! wid) as [r |] eqn:Hr; [| done]. apply wp_modify, wp_ret.
  split; [intros _ | by intros []].
  eapply owes_queue; [done.. | |].
  - apply Forall_app. split; [by eapply owes_queue_fits |]. by constructor.
  - intros sid. rewrite queue_credit_snoc. unfold plus. lia.
Qed.

Lemma pays_route k e t : fits e -> pays (plus k (credit e)) (RoomManager.route_event e t) k.
Proof.
  intros He w L Hw. eapply wp_mono; [by apply wp_route_event |]. intros r w' [H1 H2].
  destruct (decide (r = Success)); [by apply H1 |]. eapply owes_mono; [by apply H2 |].
  intros sid. unfold plus. lia.
Qed.

Lemma pays_route_then {A} k e t (a : A) :
  fits e -> pays (plus k (credit e)) (RoomManager.route_event e t ;;; ret a) k.
Proof. intros He. eapply pays_bind; [by apply pays_route |]. intros _. by apply quiet_pays. Qed.

Lemma pays_post_job k j :
  job_fits j -> pays (plus k (job_credit j)) (post_job j) k.
Proof.
  intros Hj w L Hw. apply wp_modify. eapply owes_jobs; [done | |].
  - apply Forall_app. split; [apply Hw |]. by constructor.
  - intros sid. rewrite sum_list_with_app. cbn. unfold plus. lia.
Qed.

Lemma pays_send_response k e :
  fits e -> loud e -> pays (plus k (credit e)) (RoomWorker.send_response e) k.
Proof.
  intros (_ & He & _) Hl w L Hw. unfold RoomWorker.send_response. apply wp_bind, wp_gets.
  destruct (Event.session e) as [sid |] eqn:Hs; [| done].
  destruct (response_speaks (padding w (npad Response)) (Event.initial_command e) (Event.result_code e)
    (Event.response_data e)) as (p & Hv & Hr & E); [apply length_padding | done |].
  unfold response_packet in E. rewrite <- E. apply pays_send_packet; [done |].
  eapply owes_mono; [exact Hw |]. intros s. unfold plus. rewrite Hr, (credit_unit e sid Hs Hl). lia.
Qed.

(** *** Room operations *)

Lemma quiet_current_room e : quiet (RoomWorker.current_room e).
Proof. unfold RoomWorker.current_room. quieten. Qed.
#[local] Hint Resolve quiet_current_room : quiet.

Lemma quiet_create_room wid e n : quiet (RoomWorker.create_room wid e n).
Proof. unfold RoomWorker.create_room. quieten. Qed.

Lemma quiet_join_room wid e : quiet (RoomWorker.join_room wid e).
Proof. unfold RoomWorker.join_room, RoomWorker.join_room_session. quieten. Qed.

Lemma quiet_leave_room_fd wid fd k : quiet (RoomWorker.leave_room_fd wid fd k).
Proof. unfold RoomWorker.leave_room_fd. quieten. Qed.
#[local] Hint Resolve quiet_create_room quiet_join_room quiet_leave_room_fd : quiet.

Lemma quiet_leave_room wid e : quiet (RoomWorker.leave_room wid e).
Proof. unfold RoomWorker.leave_room. quieten. Qed.

Lemma quiet_leave_first wid fd ks : quiet (RoomWorker.leave_first wid fd ks).
Proof. induction ks as [| k ks IH]; cbn [RoomWorker.leave_first]; quieten. Qed.
#[local] Hint Resolve quiet_leave_room quiet_leave_first : quiet.

Lemma quiet_diconnect wid fd k : quiet (RoomWorker.diconnect_session wid fd k).
Proof. unfold RoomWorker.diconnect_session. quieten. Qed.


Lemma pays_send_message k wid e : fits e -> pays k (RoomWorker.send_message wid e) k.
Proof.
  intros (He & _). unfold RoomWorker.send_message.
  apply pays_after; [eauto with quiet |]. intros room_id. apply pays_after; [eauto with quiet |].
  intros rooms. destruct (rooms !! room_id) as [room |]; [| by apply quiet_pays]. cbv zeta.
  apply pays_after; [eauto with quiet |]. intros sender_fd. apply pays_after; [done |]. intros um.
  intros w L Hw. apply wp_bind, wp_gets.
  destruct (broadcast_speaks (padding w (npad Broadcast)) (User.get_user_id sender_fd um) room_id
    (Event.request_data e)) as (p & Hv & Hr & E); [apply length_padding | done |].
  unfold broadcast_packet in E. rewrite <- E. clear E. revert w L Hw.
  change (pays k (for_each (map_to_list (Room.sessions_ room))
    (fun s => RoomWorker.broadcast_to e room_id (Client.encode p) s.2) ;;; ret Success) k).
  eapply pays_bind; [| intros; by apply quiet_pays]. apply pays_for_each. intros [fd s].
  unfold RoomWorker.broadcast_to. cbn [snd].
  apply pays_after; [eauto with quiet |]. intros fd'. apply pays_after; [eauto with quiet |]. intros fd''.
  case_decide; [by apply quiet_pays |]. apply pays_after; [done |]. intros um'.
  destruct (User.get_user fd' um'); [| by apply quiet_pays]. case_decide; [by apply quiet_pays |].
  eapply pays_mono; [| done | by apply (pays_send_packet k)]. intros sid. unfold plus. rewrite Hr. lia.
Qed.

Lemma pays_save_message k wid e : pays k (RoomWorker.save_message wid e) k.
Proof.
  unfold RoomWorker.save_message. apply pays_after; [eauto with quiet |]. intros r.
  apply pays_after; [eauto with quiet |]. intros fd. apply pays_after; [done |]. intros um.
  eapply pays_mono; [| done | apply (pays_post_job k); by intros e']. intros sid. unfold plus. cbn. lia.
Qed.

(** *** The interpreter *)

Lemma pays_after_action k e cmd cont :
  fits e -> loud e -> pays (plus k (credit e)) (cont e) k ->
  pays (plus k (credit e)) (RoomWorker.after_action e cmd cont) k.
Proof.
  intros He Hl Hc. unfold RoomWorker.after_action. case_decide; [| done].
  apply pays_after; [eauto with quiet |]. intros a.
  apply pays_after; [case_decide; eauto with quiet |]. intros _. by apply pays_send_response.
Qed.

(** The result of an operation goes into the event, and the event goes on. *)
Lemma pays_operation k e cmd cont (m : M Result) :
  (forall e', fits e' -> pays (plus k (credit e')) (cont e') k) -> fits e -> loud e -> 
  pays (plus k (credit e)) m (plus k (credit e)) ->
  pays (plus k (credit e))
    (let* r := m in RoomWorker.after_action (Event.set_result r e) cmd cont) k.
Proof.
  intros IH He Hl Hm. eapply pays_bind; [exact Hm |]. intros r.
  apply (pays_after_action k (Event.set_result r e)); [by apply fits_result | done |].
  by apply IH, fits_result.
Qed.

Lemma pays_process_loop fuel : forall wid k e,
  fits e -> pays (plus k (credit e)) (RoomWorker.process_loop fuel wid e) k.
Proof.
  induction fuel as [| fuel IH]; intros wid k e He; cbn [RoomWorker.process_loop]; [by apply pays_quiet |].
  case_decide as Hlt; [| by apply pays_quiet].
  destruct (decide (loud e)) as [Hl | Hl].
  - case_decide; [by apply pays_send_response |]. apply pays_after; [eauto with quiet |]. intros a.
    set (e1 := Event.set_current _ e). change (credit e) with (credit e1).
    assert (He1 : fits e1) by exact He. assert (Hl1 : loud e1) by exact Hl. clearbody e1.
    destruct (Event.command a);
      try by (apply pays_operation; [by intros; apply IH | done | done | apply quiet_pays; eauto with quiet]).
    + apply pays_operation; [by intros; apply IH | done | done | by apply pays_send_message].
    + eapply pays_mono; [| done | apply (pays_post_job k)].
      * intros s. unfold plus. cbn. lia.
      * by intros e' [= <-].
    + unfold RoomWorker.request_db_load_message. apply pays_after; [eauto with quiet |]. intros room_id.
      eapply pays_mono; [| done | apply (pays_post_job k)].
      * intros s. unfold plus. cbn. lia.
      * by intros e' [= <-].
    + eapply pays_bind; [apply pays_save_message |]. intros _.
      apply pays_after_action; [done | done |]. by apply IH.
    + by apply (pays_route_then k (Event.set_target (Event.action_room a) e1)).
    + by apply (pays_route_then k (Event.set_target (Event.action_room a) e1)).
    + by apply pays_send_response.
    + apply pays_quiet, quiet_flush.
    + apply pays_quiet. apply quiet_bind; [apply quiet_diconnect | by intros].
  - assert (Hf : Forall answers_nobody (Event.actions e)) by by apply dec_stable.
    assert (Hr : Event.result_code e = None_) by (destruct He as (_ & _ & [? | ?]); done).
    rewrite decide_False by (intros [_ Hn]; by apply Hn).
    destruct (Event.actions e !! Event.current_action e) as [a |] eqn:Ha; [| done].
    rewrite Forall_lookup in Hf. pose proof (Hf _ _ Ha) as Hq. cbn [deref]. rewrite bind_ret.
    apply pays_quiet. destruct Hq as [-> | ->]; [apply quiet_flush |].
    apply quiet_bind; [apply quiet_diconnect | by intros].
Qed.

Lemma pays_worker_step k wid : pays k (RoomWorker.worker_step wid) k.
Proof.
  intros w L Hw. unfold RoomWorker.worker_step. apply wp_bind. unfold wp at 1, get_worker.
  destruct (room_workers w !! wid) as [r |] eqn:Hr; [| done].
  destruct (event_queue_ r) as [| e q] eqn:Eq; [by apply wp_ret |].
  pose proof (owes_queue_fits _ _ _ _ _ Hw Hr) as Hf. rewrite Eq in Hf. inversion Hf as [| ? ? He Hq]; subst.
  apply wp_bind, wp_modify, wp_bind. eapply wp_mono; [apply (pays_process_loop _ wid k e He _ L) |].
  - eapply owes_queue; [exact Hw | done | done |]. intros sid. rewrite Eq. unfold plus, queue_credit. cbn. lia.
  - intros ? w' Hw'. by apply wp_ret.
Qed.

(** *** The database thread *)

Lemma quiet_bind_room_worker k draws : quiet (RoomManager.bind_room_worker k draws).
Proof. unfold RoomManager.bind_room_worker, RoomManager.get_rooms_num. quieten; by intros w. Qed.

Lemma pays_run_callback k j status data draws :
  job_fits j -> is_u32 (size_of data) ->
  pays (plus k (job_credit j)) (RoomWorker.run_callback (Event.on_result j) status data draws) k.
Proof.
  intros Hj Hd. unfold job_fits in Hj. unfold job_credit.
  destruct (Event.on_result j) as [| e | e]; cbn in *; [by apply pays_quiet | |];
    destruct (Hj e eq_refl) as [He Hl].
  - unfold RoomWorker.db_create_room_on_result. destruct (Codec.take 8 _) as [taken rd].
    destruct (if decide _ then None else taken) as [b |].
    + cbv zeta. set (e1 := Event.set_response data _).
      assert (Hl1 : loud e1) by by apply (loud_resolve (i64_dec b) (Event.set_result Success e)).
      assert (He1 : fits e1).
      { apply fits_response; [done |]. destruct He as (H1 & H2 & _). split_and!; [done | done | by left]. }
      apply (pays_mono _ (plus k (credit e1)) k); [| done |].
      { intros s. pose proof (credit_resolve (i64_dec b) (Event.set_result Success e) Hl s) as Hc.
        unfold plus. change (credit e1 s) with (credit (Event.resolve_room_id (i64_dec b)
          (Event.set_result Success e)) s). rewrite Hc. done. }
      apply pays_after; [apply quiet_bind_room_worker |]. intros wid. by apply pays_route_then.
    + apply (pays_route_then k (Event.set_result DBError e)). by apply fits_result.
  - unfold RoomWorker.db_load_messages_on_result. cbv zeta.
    set (e1 := match status with Event.DBSuccess => _ | _ => _ end).
    assert (H1 : fits e1 /\ credit e1 = credit e).
    { unfold e1. destruct status; (split; [| done]); try apply fits_response; try done; by apply fits_result. }
    destruct H1 as [He1 <-]. apply pays_after; [eauto with quiet |]. intros room_id.
    by apply (pays_route_then k (Event.set_target room_id e1)).
Qed.

(** *** Planning *)

Lemma empty_fits : is_u32 (size_of ([] : bytes)).
Proof. by split. Qed.

Lemma pays_dispatch k packet sid :
  is_u32 (size_of (body packet)) ->
  pays (plus k (unit_for sid)) (RoomManager.dispatch_packet packet sid) k.
Proof.
  intros Hb w L Hw. unfold RoomManager.dispatch_packet. set (e := RoomManager.plan _).
  destruct (RoomManager.plan_fields (RoomManager.packet_event packet sid)) as (_ & Hs & _ & Hq & Hr & Hc).
  assert (He : fits e) by (unfold fits, e; rewrite Hq, Hr, Hc; split_and!; [exact Hb | apply empty_fits | by right]).
  assert (Hk : forall s, (credit e s <= unit_for sid s)%nat) by by apply credit_le.
  apply wp_bind. eapply wp_mono.
  - apply (wp_route_event (plus k (fun s => unit_for sid s - credit e s)%nat) e 0 w L He).
    eapply owes_mono; [exact Hw |]. intros s. specialize (Hk s). unfold plus. lia.
  - intros r w' [H1 H2]. case_decide as Hok.
    + set (f := Event.add _ _ _).
      assert (Hlf : loud f) by (intros H; inversion H as [| ? ? [Hx | Hx] _]; done).
      assert (Hf : fits f) by (split_and!; [apply empty_fits | apply empty_fits | by left]).
      refine (pays_route_then k f _ tt Hf w' L _). eapply owes_mono; [by apply H2 |].
      intros s. unfold plus. rewrite (credit_unit f sid) by done. specialize (Hk s). lia.
    + apply wp_ret. eapply owes_mono; [apply H1; destruct (decide (r = Success)); [done | by destruct Hok] |]. intros s. unfold plus. lia.
Qed.

End Handlers.

(** ** The main thread *)

Lemma next_frame_body buf p r :
  Session.next_frame buf = Some (p, r) -> is_u32 (size_of (body p)).
Proof.
  intros H. apply Session.next_frame_Some in H as (H1 & H2 & -> & _). cbn [body].
  assert (Hv : request_valid (request_of (field 1 16 buf))).
  { apply (of_rep_valid (Layout := request_layout)), length_field. simpl. lia. }
  destruct Hv as [_ [Hl Hu]]. unfold is_u32, size_of. rewrite length_field by lia. lia.
Qed.

Section Main.
Context {Indet : Indeterminate} {Kernel : EpollKernel}.

Lemma dispatch_keeps_heap p sid w w' :
  RoomManager.dispatch_packet p sid w = Ok tt w' -> heap w' = heap w.
Proof.
  intros H. pose proof (Loops.heapless_dispatch sid p (heap w) w) as E.
  assert (Hid : set_heap (heap w) w = w) by by destruct w.
  rewrite Hid, H in E. injection E as ->. done.
Qed.

Lemma wp_handle_packets fuel k sid : forall o w L,
  heap w !! sid = Some o ->
  owes (plus k (fun s => length (Session.frames fuel (Session.recv_buffer_ o)).1 * unit_for sid s)%nat) w L ->
  wp (handle_packets fuel sid) any_fault (fun _ w' => owes k w' L) w.
Proof.
  induction fuel as [| fuel IH]; intros o w L Ho Hw; cbn [handle_packets Session.frames] in *.
  - apply wp_ret. eapply owes_mono; [exact Hw |]. intros s. unfold plus. lia.
  - apply wp_bind. eapply wp_get_session; [exact Ho |]. pose proof (Session.extract_next o) as He.
    destruct (Session.next_frame (Session.recv_buffer_ o)) as [[p r] |] eqn:En.
    + rewrite He. destruct (Session.frames fuel r) as [ps r'] eqn:Ef. cbn [fst length] in Hw.
      apply wp_bind, wp_modify. set (w1 := set_heap _ w).
      assert (Hv : view w1 = view w) by by apply (view_heap w sid o).
      apply wp_bind. eapply wp_mono.
      * apply (wp_and _ _ (fun _ w' => owes (plus k (fun s => length ps * unit_for sid s)%nat) w' L)
          (fun _ w' => heap w' = heap w1)).
        -- apply (pays_dispatch (plus k (fun s => length ps * unit_for sid s)%nat) p sid) with (L := L).
           { by eapply next_frame_body. }
           apply (owes_view _ w); [exact Hv |]. eapply owes_mono; [exact Hw |].
           intros s. unfold plus. lia.
        -- intros [] w' E. exact (dispatch_keeps_heap p sid w1 w' E).
      * intros [] w' [Hw' Hh]. apply (IH (Session.set_recv r o)).
        -- rewrite Hh. cbn. apply lookup_insert_eq.
        -- cbn [Session.recv_buffer_ Session.set_recv]. rewrite Ef. exact Hw'.
    + destruct He as [p He]. rewrite He. apply wp_modify. apply (owes_view _ w).
      * rewrite insert_id by done. by destruct w.
      * eapply owes_mono; [exact Hw |]. intros s. unfold plus. lia.
Qed.

Lemma pays_silent k e t :
  fits e -> ~ loud e -> pays k (RoomManager.route_event e t ;;; ret tt) k.
Proof.
  intros He Hl. eapply pays_mono; [| done | by apply (pays_route_then k e)].
  intros s. unfold plus, credit. rewrite decide_False by tauto. lia.
Qed.

Lemma silent_fits a e :
  Event.actions e = [a] -> Event.request_data e = [] -> Event.response_data e = [] ->
  Event.result_code e = None_ -> answers_nobody a -> fits e /\ ~ loud e.
Proof.
  intros Ha H1 H2 H3 Hn. split.
  - unfold fits. rewrite H1, H2. split_and!; [apply empty_fits | apply empty_fits | by right].
  - unfold loud. rewrite Ha. intros H. apply H. by constructor.
Qed.

Lemma pays_disconnect k fd room_id : pays k (RoomManager.disconnect_session fd room_id) k.
Proof.
  unfold RoomManager.disconnect_session. apply pays_after; [done |]. intros junk. cbv zeta.
  set (e := Event.add _ _ _).
  destruct (silent_fits (Event.mkAction Event.DISCONNECT_SESSION room_id) e) as [H1 H2];
    [done.. | by right |]. by apply pays_silent.
Qed.

Lemma pays_request_flush k sid : pays k (RoomManager.request_flush sid) k.
Proof.
  unfold RoomManager.request_flush. apply pays_after; [apply quiet_session_fd |]. intros fd.
  apply pays_after; [done |]. intros um. destruct (User.get_user fd um) as [u |]; [| by apply quiet_pays].
  apply pays_after; [done |]. intros junk. cbv zeta. set (e := Event.add _ _ _).
  destruct (silent_fits (Event.mkAction Event.FLUSH 0) e) as [H1 H2];
    [done.. | by left |]. by apply pays_silent.
Qed.

Lemma pays_close_session k fd : pays k (close_session fd) k.
Proof.
  unfold close_session. apply pays_after; [done |]. intros [sid |]; [| by apply quiet_pays].
  apply pays_after; [done |]. intros _. apply pays_after; [done |]. intros um.
  apply pays_after; [apply quiet_deref |]. intros u. apply pays_after; [done |]. intros _.
  assert (Hk : pays k (RoomManager.disconnect_session fd (User.current_room_ u) ;;;
    (if decide (User.current_room_ u <> RoomManager.LOBBY_ROOM_ID)
     then RoomManager.disconnect_session fd RoomManager.LOBBY_ROOM_ID else ret tt) ;;;
    remove_session fd ;;;
    modify (fun w => set_users (User.remove_user (User.user_id_ u) (user_manager w)) w)) k).
  { eapply pays_bind; [apply pays_disconnect |]. intros _. eapply pays_bind.
    - case_decide; [apply pays_disconnect | by apply quiet_pays].
    - intros _. by apply quiet_pays. }
  intros w L Hw. apply wp_bind. unfold wp at 1, get_session.
  destruct (heap w !! sid) as [o |] eqn:Ho; [| done]. apply wp_bind, wp_modify. apply Hk.
  apply (owes_view _ w); [by apply (view_heap w sid o) | exact Hw].
Qed.

(** The requests that one readable event completes. *)
Definition received (ins : list Session.RecvOut) (o : Session.Session) : list Packet :=
  let '(readable, o') := Session.on_readable ins o in
  if readable then (Session.all_frames (Session.recv_buffer_ o')).1 else [].

(** The answers a transition entitles each session to: one for its connection
    (a full lobby answers that), one for each request it completes. *)
Definition entitled (l : Label) (w : World) (sid : Room.Sid) : nat :=
  match l with
  | LAccept fd => if decide (fd < 0) then 0 else unit_for (fresh (dom (heap w) : gset Room.Sid)) sid
  | LReady fd (Some ins) _ _ =>
      match sessions w !! fd with
      | Some s => match heap w !! s with Some o => length (received ins o) * unit_for s sid | None => 0 end
      | None => 0
      end
  | _ => 0
  end.

(** Answers of the database fit a packet. *)
Definition answer_fits (l : Label) : Prop :=
  match l with LDb _ data _ => is_u32 (size_of data) | _ => True end.

#[global] Instance answer_fits_dec l : Decision (answer_fits l).
Proof. destruct l; unfold answer_fits, is_u32; apply _. Defined.

Lemma on_readable_stream ins o : Session.sent_stream (Session.on_readable ins o).2 = Session.sent_stream o.
Proof.
  revert o. induction ins as [| i ins IH]; intros o; [done |]. destruct i; cbn; try done; try apply IH.
  case_decide; [done |]. by rewrite IH.
Qed.

Lemma pays_handle_request fd ins w L :
  owes (fun _ => 0%nat) w L ->
  wp (handle_request fd ins) any_fault
    (fun _ w' => owes (fun _ => 0%nat) w' (plus L (entitled (LReady fd (Some ins) false false) w))) w.
Proof.
  intros Hw. unfold handle_request. apply wp_bind, wp_gets.
  destruct (sessions w !! fd) as [sid |] eqn:Hs.
  2: { eapply wp_mono; [by apply pays_close_session |]. intros a w' Hw'.
       eapply owes_mono; [exact Hw' |]. intros s. unfold plus. lia. }
  apply wp_bind. unfold wp at 1, get_session. destruct (heap w !! sid) as [o |] eqn:Ho; [| done].
  assert (He : forall s, entitled (LReady fd (Some ins) false false) w s =
                (length (received ins o) * unit_for sid s)%nat).
  { intros s. cbn [entitled]. by rewrite Hs, Ho. }
  unfold received in He. pose proof (on_readable_stream ins o) as Hst.
  destruct (Session.on_readable ins o) as [b o'] eqn:Er. cbn [snd] in Hst.
  apply wp_bind, wp_modify. pose proof (view_heap w sid o o' Ho Hst) as Hv. set (w1 := set_heap _ w) in *.
  assert (H1 : forall n, owes (fun s => n * unit_for sid s)%nat w1
                (plus L (fun s => n * unit_for sid s)%nat)).
  { intros n. apply (owes_view _ w); [exact Hv |]. eapply owes_mono; [exact Hw |]. intros s. unfold plus. lia. }
  destruct b.
  - apply (wp_handle_packets _ (fun _ => 0%nat) sid o'); [apply lookup_insert_eq |].
    eapply owes_mono; [apply (H1 (length (Session.all_frames (Session.recv_buffer_ o')).1)) |].
    intros s. unfold plus. rewrite He. unfold Session.all_frames. lia.
  - apply (pays_close_session (fun _ => 0%nat) fd w1). eapply owes_mono; [apply (H1 0%nat) |].
    intros s. unfold plus. rewrite He. cbn. lia.
Qed.

Lemma pays_handle_events k n : pays k (handle_events_loop n) k.
Proof.
  induction n as [| n IH]; cbn [handle_events_loop]; [by apply quiet_pays |].
  apply pays_after; [done |]. intros [| e q]; [by apply quiet_pays |].
  apply pays_after; [done |]. intros _. eapply pays_bind; [| done].
  assert (Hq : forall op, quiet (epoll_ctl op)).
  { intros op w. unfold epoll_ctl. apply wp_bind, wp_gets. by destruct (epoll_ctl_ok _ _). }
  unfold handle_main_event. destruct (Event.me_type e).
  - apply pays_close_session.
  - apply quiet_pays, Hq.
  - apply quiet_pays, Hq.
Qed.

Lemma owes_new_session k w L sid o :
  heap w !! sid = None -> Session.sent_stream o = [] -> owes k w L ->
  owes k (set_heap (<[sid := o]> (heap w)) w) L.
Proof.
  intros Hn Ho [H1 H2 H3]. split; [done | done |]. intros sid'. destruct (H3 sid') as (ps & Hs & Hp).
  exists ps. split; [| exact Hp]. unfold streams in *. cbn [heap set_heap]. rewrite fmap_insert.
  destruct (decide (sid = sid')) as [<- | Hne]; [| by rewrite lookup_insert_ne].
  rewrite lookup_insert_eq, Ho. rewrite lookup_fmap, Hn in Hs. exact Hs.
Qed.

Lemma pays_accept fd w L :
  sessions w !! fd = None -> owes (fun _ => 0%nat) w L ->
  wp (accept_client fd) any_fault
    (fun _ w' => owes (fun _ => 0%nat) w' (plus L (entitled (LAccept fd) w))) w.
Proof.
  intros Hfd Hw. unfold accept_client. case_decide as Hneg.
  { apply wp_ret. eapply owes_mono; [exact Hw |]. intros s. unfold plus. lia. }
  apply wp_bind. unfold epoll_add, epoll_ctl. apply wp_bind, wp_gets.
  destruct (epoll_ctl_ok _ _); [| done]. apply wp_modify, wp_bind.
  unfold add_session. apply wp_bind, wp_gets, wp_bind, wp_modify, wp_modify, wp_bind, wp_modify.
  apply wp_bind, wp_gets, wp_bind, wp_modify, wp_bind, wp_gets, wp_bind, wp_gets.
  cbn [total_users set_total set_sessions set_heap set_epoll set_users user_manager sessions heap].
  set (sid := fresh (dom (heap w) : gset Room.Sid)). rewrite emplace_fresh by done. rewrite lookup_insert_eq.
  match goal with |- wp _ _ _ ?x => set (w1 := x) end. set (ev := Event.add _ _ _).
  assert (Hn : heap w !! sid = None) by (apply not_elem_of_dom, is_fresh).
  assert (Hl : loud ev) by (intros H; inversion H as [| ? ? [Hx | Hx] _]; done).
  refine (pays_route_then (fun _ => 0%nat) ev _ tt _ w1 _ _).
  { split_and!; [apply empty_fits | apply empty_fits | by left]. }
  apply (owes_view _ (set_heap (<[sid := Session.new_session fd]> (heap w)) w)); [done |].
  apply owes_new_session; [done.. |]. eapply owes_mono; [exact Hw |].
  intros s. unfold plus. rewrite (credit_unit ev sid) by done. unfold entitled. rewrite decide_False by done.
  fold sid. lia.
Qed.

Lemma pays_exec l w L :
  enabled w l -> answer_fits l -> owes (fun _ => 0%nat) w L ->
  wp (exec l) any_fault (fun _ w' => owes (fun _ => 0%nat) w' (plus L (entitled l w))) w.
Proof.
  intros He Hf Hw.
  assert (Hplain : forall m : M unit, pays (fun _ => 0%nat) m (fun _ => 0%nat) ->
    wp m any_fault (fun _ w' => owes (fun _ => 0%nat) w' (plus L (fun _ => 0%nat))) w).
  { intros m Hm. apply Hm. eapply owes_mono; [exact Hw |]. intros s. unfold plus. lia. }
  destruct l as [fd | fd epollin epollout hangup | | wid | st data draws | sid outs]; cbn [exec].
  - apply pays_accept; [apply He | exact Hw].
  - unfold on_ready. apply wp_bind.
    assert (Hin : wp (match epollin with Some ins => handle_request fd ins | None => ret tt end) any_fault
      (fun _ w' => owes (fun _ => 0%nat) w' (plus L (entitled (LReady fd epollin epollout hangup) w))) w).
    { destruct epollin as [ins |]; [by apply pays_handle_request |]. apply Hplain. by apply quiet_pays. }
    eapply wp_mono; [exact Hin |]. intros ? w1 H1. revert w1 H1.
    assert (Hrest : pays (fun _ => 0%nat) ((if epollout then handle_epollout fd else ret tt) ;;;
      (if hangup then close_session fd else ret tt)) (fun _ => 0%nat)); [| intros w1 H1; by apply Hrest].
    apply (pays_bind _ _ _ (fun _ => 0%nat)).
    + destruct epollout; [| by apply quiet_pays]. unfold handle_epollout. apply pays_after; [done |].
      intros [sid |]; [apply pays_request_flush | apply pays_close_session].
    + intros _. destruct hangup; [apply pays_close_session | by apply quiet_pays].
  - apply Hplain. unfold handle_events. apply pays_after; [done |]. intros n. apply pays_handle_events.
  - apply Hplain. eapply pays_bind; [apply pays_worker_step |]. intros _. by apply quiet_pays.
  - apply (Hplain (db_step st data draws)). intros w0 L0 H0. unfold db_step. apply wp_bind, wp_gets.
    destruct (job_queue w0) as [| j js] eqn:Ej; [by apply wp_ret |]. apply wp_bind, wp_modify.
    pose proof (ow_jobs _ _ _ H0) as Hj. rewrite Ej in Hj. inversion Hj as [| ? ? Hj1 Hj2]; subst.
    refine (pays_run_callback (fun _ => 0%nat) j st data draws Hj1 Hf _ L0 _).
    eapply owes_jobs; [exact H0 | done |]. intros s. rewrite Ej. unfold plus. cbn. lia.
  - apply Hplain. apply quiet_pays. intros w0. unfold set_outs. apply wp_bind. unfold wp at 1, get_session.
    destruct (heap w0 !! sid) as [o |] eqn:Ho; [| done]. apply wp_modify. by apply (view_heap w0 sid o).
Qed.

(** ** Executions *)

(** What a schedule entitles each session to. *)
Fixpoint allowance (ls : list Label) (w : World) (sid : Room.Sid) : nat :=
  match ls with
  | [] => 0
  | l :: ls' => entitled l w sid + match exec l w with Ok _ w' => allowance ls' w' sid | Stop _ => 0 end
  end.

Lemma run_owes ls w w' L :
  Forall answer_fits ls -> owes (fun _ => 0%nat) w L -> System.run ls w = Some w' ->
  owes (fun _ => 0%nat) w' (plus L (allowance ls w)).
Proof.
  intros Hf. revert w L. induction Hf as [| l ls Hl _ IH]; intros w L Hw H; cbn in H.
  - injection H as <-. eapply owes_mono; [exact Hw |]. intros s. unfold plus. lia.
  - case_decide as He; [| done]. pose proof (pays_exec l w L He Hl Hw) as Hx. unfold wp in Hx.
    destruct (exec l w) as [[] w1 |] eqn:E; [| done]. eapply owes_mono; [by apply IH |].
    intros s. unfold plus. cbn [allowance]. rewrite E. lia.
Qed.

Lemma init_owes n : owes (fun _ => 0%nat) (RoomManager.init_world n) (fun _ => 0%nat).
Proof.
  assert (Hq : forall wid q, queues (RoomManager.init_world n) !! wid = Some q -> q = []).
  { intros wid q H. unfold queues in H. rewrite lookup_fmap in H.
    apply fmap_Some in H as (r & Hr & ->). cbn in Hr. by apply lookup_init_workers in Hr as ->. }
  split; [| constructor |].
  - intros wid q H. by rewrite (Hq _ _ H).
  - intros sid. exists []. split; [split; [| constructor] |].
    + unfold streams. cbn. by rewrite fmap_empty, lookup_empty.
    + unfold pending. cbn [job_queue RoomManager.init_world].
      rewrite map_sum_zero; [done |]. intros wid q Hin. by rewrite (Hq _ _ Hin).
Qed.

End Main.

(** ** Packets are told apart *)

Lemma body_cut `{Layout T} pad pad' (t t' : T) (len : T -> Z) body body' r r' :
  length pad = npad T -> length pad' = npad T -> rep_valid t -> rep_valid t' ->
  len t = size_of body -> len t' = size_of body' ->
  to_rep pad t ++ body ++ r = to_rep pad' t' ++ body' ++ r' -> r = r'.
Proof.
  intros Hp Hp' Hv Hv' Hl Hl' E. apply app_inj_1 in E as [E1 E2].
  - assert (t = t') as <- by by rewrite <- (of_to_rep pad t), <- (of_to_rep pad' t'), E1.
    apply app_inj_1 in E2 as [_ E2]; [done |]. unfold size_of in *. lia.
  - by rewrite !length_to_rep.
Qed.

Lemma encode_cut p q r r' :
  Client.packet_valid p -> Client.packet_valid q ->
  Client.encode p ++ r = Client.encode q ++ r' -> is_response p = is_response q /\ r = r'.
Proof.
  destruct p as [pad res body | pad bc body], q as [pad' res' body' | pad' bc' body'];
    intros (H1 & H2 & H3) (G1 & G2 & G3) E; cbn [Client.encode] in E;
    rewrite !serialize_packet_concat in E by done; cbn [header_rep type_] in E;
    rewrite <- !app_assoc in E; cbn [app] in E; pose proof (f_equal head E) as E1; apply (f_equal tail) in E; cbn [head tail type_] in E1, E; first [discriminate E1 | split; [done |]].
  - by apply (body_cut pad pad' res res' rs_body_len body body').
  - by apply (body_cut pad pad' bc bc' bc_body_len body body').
Qed.

(** However a stream is read as packets, it has the same number of responses. *)
Lemma responses_unique ps qs :
  Forall Client.packet_valid ps -> Forall Client.packet_valid qs ->
  mjoin (Client.encode <$> ps) = mjoin (Client.encode <$> qs) -> responses ps = responses qs.
Proof.
  assert (Hne : forall p, Client.packet_valid p -> Client.encode p <> []).
  { intros [] (H & _) E; cbn [Client.encode] in E; by rewrite serialize_packet_concat in E. }
  intros Hp. revert qs. induction Hp as [| p ps Hp _ IH]; intros qs Hq E.
  - destruct Hq as [| q qs Hq _]; [done |]. cbn in E. symmetry in E. apply app_eq_nil in E as [E _].
    by destruct (Hne q Hq).
  - destruct Hq as [| q qs Hq Hqs].
    + cbn in E. apply app_eq_nil in E as [E _]. by destruct (Hne p Hp).
    + apply (encode_cut p q) in E as [E1 E2]; [| done..]. unfold responses in *. cbn. rewrite E1.
      by rewrite (IH qs Hqs E2).
Qed.

(** ** Properties *)

Section Theorems.
Context {Indet : Indeterminate} {Kernel : EpollKernel}.

(** C12: what the server writes, the client understands. After any execution of
    the whole server, whatever its threads, the kernel and the clients do,
    provided every database answer is shorter than 2^32 bytes, everything
    ever accepted for a session, on the wire or still queued, is a
    concatenation of whole well-formed packets; and a client that receives
    these bytes, cut anyhow, decodes exactly those packets, one per
    [handle_packet], with nothing left over. *)
Theorem server_stream_understood ls n w sid o :
  Forall answer_fits ls -> System.run ls (RoomManager.init_world n) = Some w ->
  heap w !! sid = Some o ->
  exists ps, Session.sent_stream o = mjoin (Client.encode <$> ps) /\ Forall Client.packet_valid ps /\
    forall c, Forall Client.clean (Client.ins c) -> Client.stream (Client.ins c) = Session.sent_stream o ->
    exists c', Client.handle_packets (length ps) c = Some c' /\ Client.stream (Client.ins c') = [] /\
      Client.set_ins [] c' = foldl Client.process (Client.set_ins [] c) ps.
Proof.
  intros Hf Hr Ho. pose proof (run_owes _ _ _ _ Hf (init_owes n) Hr) as Hw.
  destruct (ow_spoken _ _ _ Hw sid) as (ps & [Hs Hv] & _). unfold streams in Hs. rewrite lookup_fmap, Ho in Hs.
  exists ps. split_and!; [exact Hs | done |]. intros c Hc Hst. cbn in Hs. rewrite Hs in Hst.
  rewrite <- (app_nil_r (mjoin _)) in Hst.
  destruct (Client.server_stream_alignment ps c [] Hc Hv Hst) as (c' & H1 & _ & H2 & H3). eauto.
Qed.

(** C11: at most one answer per request. After any execution in which every
    database answer is shorter than 2^32 bytes, however the stream of a session is read as packets, the responses in it, together with
    the events and database jobs still on their way to produce one, are at
    most as many as the requests the session's bytes completed, plus one for
    the connection itself (the refusal of a full lobby). No event is answered
    twice, by whatever thread, and no client gets another client's answer. *)
Theorem at_most_one_answer ls n w sid o ps :
  Forall answer_fits ls -> System.run ls (RoomManager.init_world n) = Some w ->
  heap w !! sid = Some o ->
  Session.sent_stream o = mjoin (Client.encode <$> ps) -> Forall Client.packet_valid ps ->
  (responses ps + pending w sid <= allowance ls (RoomManager.init_world n) sid)%nat.
Proof.
  intros Hf Hr Ho Hs Hv. pose proof (run_owes _ _ _ _ Hf (init_owes n) Hr) as Hw.
  destruct (ow_spoken _ _ _ Hw sid) as (qs & [Hs' Hv'] & Hn). unfold streams in Hs'. rewrite lookup_fmap, Ho in Hs'.
  cbn in Hs'. rewrite (responses_unique ps qs) by (done || congruence). unfold plus in Hn. lia.
Qed.

End Theorems.

(** ** Witnesses: a client joins a room that does not exist *)

Definition asking : list Label :=
  [LAccept 5; LWorker 1;
   LReady 5 (Some [Session.RecvData (join_frame 7); Session.RecvAgain]) false false; LWorker 1].

Definition asking_world : World := System.after asking.
Definition asking_answer : list Client.ServerPacket :=
  [Client.SrvResponse (replicate 2 x00) (mkResponse 0 (command_byte CMD_JOIN_ROOM)
     (status_byte (result_to_resresultcode RoomNotFound))) []].

Lemma asking_runs : System.run asking (RoomManager.init_world 2) = Some asking_world.
Proof. by vm_compute. Qed.

Lemma asking_fits : Forall answer_fits asking.
Proof. by repeat constructor. Qed.

Lemma server_stream_understood_witness :
  exists o ps, heap asking_world !! 0%nat = Some o /\ length ps = 1%nat /\
    Session.sent_stream o = mjoin (Client.encode <$> ps) /\ Forall Client.packet_valid ps.
Proof.
  eexists. destruct (server_stream_understood asking 2 asking_world 0%nat (default (Session.new_session 0)
    (heap asking_world !! 0%nat)) asking_fits asking_runs) as (ps & H1 & H2 & _); [by vm_compute |].
  exists ps. split_and!; [by vm_compute | | exact H1 | exact H2].
  assert (E : mjoin (Client.encode <$> ps) = mjoin (Client.encode <$> asking_answer)).
  { rewrite <- H1. by vm_compute. }
  destruct ps as [| p [| q ps]]; [by vm_compute in E | done |].
  inversion H2 as [| ? ? Hp H3]; subst. inversion H3 as [| ? ? Hq _]; subst.
  assert (Ha : Client.packet_valid (List.hd q asking_answer)) by by split_and!.
  destruct (encode_cut p (List.hd q asking_answer) (mjoin (Client.encode <$> q :: ps)) []) as [_ E2]; [done.. | exact E |].
  cbn in E2. apply app_eq_nil in E2 as [E2 _].
  destruct q; destruct Hq as [Hq _]; cbn [Client.encode] in E2; by rewrite serialize_packet_concat in E2.
Defined.

Lemma at_most_one_answer_witness :
  exists o, heap asking_world !! 0%nat = Some o /\
    Session.sent_stream o = mjoin (Client.encode <$> asking_answer) /\
    (responses asking_answer + pending asking_world 0 <= allowance asking (RoomManager.init_world 2) 0)%nat /\
    (responses asking_answer + pending asking_world 0 = 1)%nat.
Proof.
  eexists. split; [by vm_compute |]. split; [by vm_compute |]. split; [| by vm_compute].
  apply (at_most_one_answer asking 2 asking_world 0%nat (default (Session.new_session 0)
    (heap asking_world !! 0%nat)) asking_answer asking_fits asking_runs); [by vm_compute | by vm_compute |].
  constructor; [by split_and! | constructor].
Defined.

End Answers.
