(* ===== verification/Membership.v ===== *)
(** * Membership: who is in which room, and who can change it

    An abstract service keeps, for each worker, the members of its rooms: a
    room opens empty, a session enters while there is space, leaves, and a room
    that is not the lobby closes when nobody is in it. The server of Server.v
    refines it: only the steps of worker [wid] change the rooms of [wid] (so
    [rooms_] needs no lock), each such step is a sequence of abstract steps,
    and these concern the connection that the processed event names, no other. *)

From S2P Require Import Prelude Codec Wire Session User Room Event World RoomManager RoomWorker.
From S2P Require Import Invariant RoomWorkerSafe Server System Respects.

Module Membership.
Import Protocol World Invariant Server System Respects.

(** ** The abstract service *)

Abbreviation Hall := (gmap Z (gmap Z Room.Sid)).

Definition capacity (wid k : Z) : Z := if decide (wid = 1 /\ k = 1) then 999 else 5.

(** A step of worker [wid] on behalf of the descriptors that satisfy [who]. *)
Inductive astep (wid : Z) (who : Z -> Prop) : Hall -> Hall -> Prop :=
  | AOpen k h : h !! k = None -> astep wid who h (<[k := ∅]> h)
  | AEnter k fd sid members h :
      h !! k = Some members -> Z.of_nat (size members) < capacity wid k -> who fd ->
      astep wid who h (<[k := emplace fd sid members]> h)
  | ALeave k fd members h :
      h !! k = Some members -> is_Some (members !! fd) -> who fd ->
      astep wid who h (<[k := delete fd members]> h)
  | AClose k h : h !! k = Some ∅ -> wid <> 1 -> astep wid who h (delete k h).

(** The members of the rooms of a worker. *)
Definition hall_of (rooms : gmap Z Room.Room) : Hall := Room.sessions_ <$> rooms.
Definition shape (w : World) (wid : Z) : option (WorkerType * gmap Z Room.Room) :=
  (fun r => (type_ r, rooms_ r)) <$> room_workers w !! wid.
Definition hall (w : World) (wid : Z) : Hall :=
  match shape w wid with Some (_, rooms) => hall_of rooms | None => ∅ end.

(** The descriptors an event names. *)
Definition names (e : Event.RoomEvent) (w : World) (fd : Z) : Prop :=
  fd = Event.event_fd e \/
  exists sid o, Event.session e = Some sid /\ heap w !! sid = Some o /\ Session.get_fd o = fd.

(** Those of the event a worker is about to process. *)
Definition front_names (w : World) (wid : Z) (fd : Z) : Prop :=
  exists r e q, room_workers w !! wid = Some r /\ event_queue_ r = e :: q /\ names e w fd.

(** ** Relations between the worlds before and after *)

(** Nobody's rooms change. *)
Definition still (w w' : World) : Prop := forall wid, shape w' wid = shape w wid.

(** No session appears or changes its descriptor. *)
Definition same_fds (w w' : World) : Prop :=
  forall sid o', heap w' !! sid = Some o' ->
    exists o, heap w !! sid = Some o /\ Session.fd o = Session.fd o'.

Definition calm (w w' : World) : Prop := still w w' /\ same_fds w w'.

(** What the proofs need to know of a worker's rooms. *)
Definition good_room (wid k : Z) (room : Room.Room) : Prop :=
  Room.room_id_ room = k /\ Room.room_wf room /\ Room.max_sessions_ room <= capacity wid k.
Definition good (wid : Z) (w : World) : Prop :=
  forall t rooms, shape w wid = Some (t, rooms) -> t = worker_type wid /\ map_Forall (good_room wid) rooms.

(** Worker [wid] has taken abstract steps, the others' rooms are as they were. *)
Definition moved (wid : Z) (who : Z -> Prop) (w w' : World) : Prop :=
  same_fds w w' /\ (forall wid', wid' <> wid -> shape w' wid' = shape w wid') /\
  (good wid w -> good wid w' /\ rtc (astep wid who) (hall w wid) (hall w' wid)).

#[global] Instance still_preorder : PreOrder still.
Proof. split; [by intros w wid | intros w1 w2 w3 H1 H2 wid; by rewrite H2]. Qed.

#[global] Instance same_fds_preorder : PreOrder same_fds.
Proof.
  split; [intros w sid o H; eauto |]. intros w1 w2 w3 H1 H2 sid o3 H.
  destruct (H2 _ _ H) as (o2 & E2 & <-). destruct (H1 _ _ E2) as (o1 & E1 & <-). eauto.
Qed.

#[global] Instance calm_preorder : PreOrder calm.
Proof.
  split; [intros w; by split |]. intros w1 w2 w3 [A1 B1] [A2 B2]. split; by etransitivity.
Qed.

#[global] Instance moved_preorder wid who : PreOrder (moved wid who).
Proof.
  split; [intros w; by split_and!; [| | intros Hg; split; [| apply rtc_refl]] |].
  intros w1 w2 w3 (A1 & B1 & C1) (A2 & B2 & C2).
  split_and!; [by etransitivity | by intros wid' Hw; rewrite B2, B1 |].
  intros Hg. destruct (C1 Hg) as [Hg2 S1]. destruct (C2 Hg2) as [Hg3 S2]. split; [done | by etransitivity].
Qed.

Lemma calm_moved wid who w w' : calm w w' -> moved wid who w w'.
Proof.
  intros [Hs Hf]. split_and!; [done | intros wid' _; apply Hs |].
  unfold good, hall. rewrite Hs. intros Hg. split; [done | apply rtc_refl].
Qed.

(** The updates that leave the workers' rooms alone. *)
Lemma calm_same w f : room_workers (f w) = room_workers w -> heap (f w) = heap w -> calm w (f w).
Proof.
  intros Hr Hh. split; [intros wid; unfold shape; by rewrite Hr |]. intros sid o. rewrite Hh. eauto.
Qed.

Lemma calm_set_queue wid r q w :
  room_workers w !! wid = Some r ->
  calm w (set_workers (<[wid := set_queue q r]> (room_workers w)) w).
Proof.
  intros Hr. split; [| intros sid o; cbn; eauto]. intros wid'. unfold shape. cbn.
  destruct (decide (wid' = wid)) as [-> | Hne]; [by rewrite lookup_insert_eq, Hr | by rewrite lookup_insert_ne].
Qed.

Lemma calm_put_session sid o o' w :
  heap w !! sid = Some o -> Session.fd o' = Session.fd o -> calm w (set_heap (<[sid := o']> (heap w)) w).
Proof.
  intros Ho Hf. split; [by intros wid |]. intros sid' o1. cbn.
  destruct (decide (sid' = sid)) as [-> | Hne]; [rewrite lookup_insert_eq | rewrite lookup_insert_ne by done; eauto].
  intros [= <-]. eauto.
Qed.

Section Handlers.
Context {Indet : Indeterminate} {SService : IServerService}.

Abbreviation calmly m := (respects any calm m).

Lemma calm_set_users f : calmly (modify (fun w => set_users (f w) w)).
Proof. apply respects_modify. intros w _. by apply calm_same. Qed.

Lemma calm_post_job j : calmly (post_job j).
Proof. apply respects_modify. intros w _. by apply calm_same. Qed.

Lemma calm_erase k : calmly (RoomManager.erase_room_to_worker k).
Proof. apply respects_modify. intros w _. by apply calm_same. Qed.

Lemma calm_post_event wid e : calmly (post_event wid e).
Proof.
  intros w a w' _. unfold post_event, get_worker, put_worker, bind, modify.
  destruct (room_workers w !! wid) as [r |] eqn:E; [| done]. intros [= _ <-]. by apply calm_set_queue.
Qed.

Lemma calm_push ev w : calm w (push_main ev w).
Proof. by apply calm_same. Qed.

Lemma calm_enable fd : calmly (request_enable_epollout fd).
Proof. intros w a w' _. rewrite enable_queues. intros [= _ <-]. apply calm_push. Qed.
Lemma calm_disable fd : calmly (request_disable_epollout fd).
Proof. intros w a w' _. rewrite disable_queues. intros [= _ <-]. apply calm_push. Qed.
Lemma calm_close fd : calmly (request_close_session fd).
Proof. intros w a w' _. rewrite close_queues. intros [= _ <-]. apply calm_push. Qed.

#[local] Hint Resolve calm_set_users calm_post_job calm_erase calm_post_event calm_enable calm_disable calm_close : respects.

Lemma calm_session_fd s : calmly (session_fd s).
Proof. unfold session_fd. follow. Qed.

Lemma calm_get_rooms wid : calmly (get_rooms wid).
Proof. unfold get_rooms. follow. Qed.

Lemma calm_current_room e : calmly (RoomWorker.current_room e).
Proof. unfold RoomWorker.current_room. follow. Qed.

#[local] Hint Resolve calm_session_fd calm_get_rooms calm_current_room : respects.

(** Running a method of a session and storing the session. *)
Lemma calm_session_method {A B} sid (g : Session.Session -> A * Session.Session)
    (k : A -> Session.Session -> M B) :
  (forall o, Session.fd (g o).2 = Session.fd o) -> (forall r o, calmly (k r o)) ->
  calmly (let* s := get_session sid in let '(r, s') := g s in put_session sid s' ;;; k r s').
Proof.
  intros Hf Hk w a w' _. unfold get_session, put_session, modify, bind.
  destruct (heap w !! sid) as [o |] eqn:Ho; [| done]. specialize (Hf o).
  destruct (g o) as [r o']. intros H. etransitivity; [by apply (calm_put_session sid o o') |].
  by apply (Hk r o') in H.
Qed.

Lemma flush_fd o : Session.fd (Session.flush o).2 = Session.fd o.
Proof. destruct (Session.flush o) as [r o'] eqn:E. apply Session.flush_frame in E as (E & _). done. Qed.

Lemma calm_send_packet session data : calmly (RoomWorker.send_packet session data).
Proof.
  unfold RoomWorker.send_packet. apply respects_bind; [done | eauto with respects |]. intros sid.
  apply (calm_session_method sid (fun s => Session.flush (Session.pack data s))).
  - intros o. by rewrite flush_fd.
  - intros [] o; follow.
Qed.

Lemma calm_flush session : calmly (RoomWorker.flush session).
Proof.
  unfold RoomWorker.flush. apply respects_bind; [done | eauto with respects |]. intros sid.
  apply (calm_session_method sid Session.flush); [apply flush_fd | intros [] o; follow].
Qed.

Lemma calm_route_event e target : calmly (RoomManager.route_event e target).
Proof. unfold RoomManager.route_event, RoomManager.find_worker. follow. Qed.

#[local] Hint Resolve calm_send_packet calm_flush calm_route_event : respects.

Lemma calm_send_response e : calmly (RoomWorker.send_response e).
Proof. unfold RoomWorker.send_response. follow. Qed.

Lemma calm_broadcast_to e room_id data s : calmly (RoomWorker.broadcast_to e room_id data s).
Proof. unfold RoomWorker.broadcast_to. follow. Qed.

Lemma calm_send_message wid e : calmly (RoomWorker.send_message wid e).
Proof.
  unfold RoomWorker.send_message. follow. apply respects_for_each; [done |]. intros p. apply calm_broadcast_to.
Qed.

Lemma calm_save_message wid e : calmly (RoomWorker.save_message wid e).
Proof. unfold RoomWorker.save_message. follow. Qed.

Lemma calm_request_db_load e : calmly (RoomWorker.request_db_load_message e).
Proof. unfold RoomWorker.request_db_load_message. follow. Qed.

Lemma calm_bind_room_worker room_id draws : calmly (RoomManager.bind_room_worker room_id draws).
Proof.
  unfold RoomManager.bind_room_worker, RoomManager.get_rooms_num. follow.
  all: apply respects_modify; intros w _; by apply calm_same.
Qed.

#[local] Hint Resolve calm_send_response calm_send_message calm_save_message calm_request_db_load calm_bind_room_worker : respects.

Lemma calm_run_callback c status data draws : calmly (RoomWorker.run_callback c status data draws).
Proof.
  destruct c as [| e | e]; cbn [RoomWorker.run_callback].
  - follow.
  - unfold RoomWorker.db_create_room_on_result. destruct (Codec.take _ _). follow.
  - unfold RoomWorker.db_load_messages_on_result. follow.
Qed.

(** ** The worker's rooms *)

(** Replacing the rooms of worker [wid] by what abstract steps lead to. *)
Lemma moved_put_rooms wid who rooms' r w :
  room_workers w !! wid = Some r ->
  (type_ r = worker_type wid -> map_Forall (good_room wid) (rooms_ r) ->
   map_Forall (good_room wid) rooms' /\ rtc (astep wid who) (hall_of (rooms_ r)) (hall_of rooms')) ->
  moved wid who w (set_workers (<[wid := set_rooms rooms' r]> (room_workers w)) w).
Proof.
  intros Hr Hs. split_and!; [by intros sid o; cbn; eauto | |].
  - intros wid' Hne. unfold shape. cbn. by rewrite lookup_insert_ne.
  - assert (E1 : shape w wid = Some (type_ r, rooms_ r)) by (unfold shape; by rewrite Hr).
    set (w' := set_workers _ w). assert (E2 : shape w' wid = Some (type_ r, rooms')).
    { unfold shape, w'. cbn. by rewrite lookup_insert_eq. }
    intros Hg. destruct (Hg _ _ E1) as [Ht Hf]. destruct (Hs Ht Hf) as [Hf' Hst]. unfold hall. rewrite E1, E2.
    split; [| done]. intros t rooms Hsh. rewrite E2 in Hsh. by injection Hsh as <- <-.
Qed.

Lemma hall_of_lookup rooms k room : rooms !! k = Some room -> hall_of rooms !! k = Some (Room.sessions_ room).
Proof. intros H. unfold hall_of. by rewrite lookup_fmap, H. Qed.

Lemma create_room_moved wid who e : respects any (moved wid who) (RoomWorker.create_room wid e 5).
Proof.
  unfold RoomWorker.create_room. apply respects_bind; [done | |].
  { eapply respects_weaken; [done | apply calm_moved | apply calm_current_room]. }
  intros k w a w' _. unfold get_rooms, put_rooms, put_worker, get_worker, bind, ret, modify.
  destruct (room_workers w !! wid) as [r |] eqn:Hr; [| done].
  destruct (rooms_ r !! k) as [room |] eqn:Hk; [intros [= _ <-]; reflexivity |].
  rewrite Hr. intros [= _ <-]. apply moved_put_rooms; [done |]. intros Ht Hf. split.
  - apply map_Forall_insert_2; [| done]. split_and!; [done | by apply Room.new_room_wf |].
    unfold capacity. cbn. case_decide; lia.
  - unfold hall_of. rewrite fmap_insert. apply rtc_once, AOpen. by rewrite lookup_fmap, Hk.
Qed.

Lemma join_session_spec wid k fd sid room b room' :
  Room.join_session fd sid room = (b, room') -> good_room wid k room ->
  good_room wid k room' /\
  (b = true -> Z.of_nat (size (Room.sessions_ room)) < capacity wid k /\
               Room.sessions_ room' = emplace fd sid (Room.sessions_ room)).
Proof.
  intros E (H1 & H2 & H3). pose proof (Room.join_session_wf fd sid room H2) as Hw. rewrite E in Hw.
  destruct H2 as [H2 _]. unfold Room.join_session in E. case_decide; injection E as <- <-.
  - by split_and!.
  - split; [by split_and! |]. intros _. cbn. split; [lia | done].
Qed.

(** The descriptor of the session may only be one that [who] allows. *)
Definition session_allowed (who : Z -> Prop) (s : option Room.Sid) (w : World) : Prop :=
  forall sid o, s = Some sid -> heap w !! sid = Some o -> who (Session.get_fd o).

Lemma join_room_session_moved wid who s k :
  respects (session_allowed who s) (moved wid who) (RoomWorker.join_room_session wid s k).
Proof.
  intros w a w' Hs. unfold RoomWorker.join_room_session, get_rooms, get_worker, bind, ret.
  destruct (room_workers w !! wid) as [r |] eqn:Hr; [| done].
  destruct (rooms_ r !! k) as [room |] eqn:Hk; [| intros [= _ <-]; reflexivity].
  unfold session_fd, deref, get_session, bind, ret. destruct s as [sid |]; [| done].
  destruct (heap w !! sid) as [o |] eqn:Ho; [| done].
  destruct (Room.join_session _ _ _) as [b room'] eqn:Ej. destruct b; [| intros [= _ <-]; reflexivity].
  unfold put_rooms, get_worker, put_worker, bind, modify. rewrite Hr. intros H.
  etransitivity; [apply (moved_put_rooms wid who (<[k := room']> (rooms_ r)) r w Hr) |].
  - intros _ Hf. destruct (join_session_spec wid k _ _ _ _ _ Ej (Hf _ _ Hk)) as [Hg He].
    destruct (He eq_refl) as [Hc Hm]. split; [by apply map_Forall_insert_2 |].
    unfold hall_of. rewrite fmap_insert, Hm. apply rtc_once, AEnter; [by apply hall_of_lookup | done |].
    by apply (Hs sid o).
  - eapply calm_moved. revert H. generalize (set_workers (<[wid := set_rooms (<[k := room']> (rooms_ r)) r]> (room_workers w)) w).
    intros w1 H. unfold gets in H. destruct (User.get_user _ _); [| injection H as _ <-; reflexivity].
    injection H as _ <-. by apply calm_same.
Qed.

(** ** Leaving *)

Lemma exit_session_spec wid k fd room room' :
  Room.exit_session fd room = (true, room') -> good_room wid k room ->
  good_room wid k room' /\ is_Some (Room.sessions_ room !! fd) /\
  Room.sessions_ room' = delete fd (Room.sessions_ room).
Proof.
  intros E (H1 & H2 & H3). pose proof (Room.exit_session_wf fd room H2) as Hw. rewrite E in Hw.
  unfold Room.exit_session in E. destruct (Room.sessions_ room !! fd); [| done]. injection E as <-.
  by split_and!.
Qed.

(** A room that counts nobody is empty. *)
Lemma no_head_no_member wid k room :
  good_room wid k room -> Room.get_sessions_num room <= 0 -> Room.sessions_ room = ∅.
Proof. intros (_ & [H _] & _) Hn. unfold Room.get_sessions_num in Hn. apply map_size_empty_inv. lia. Qed.

Lemma leave_room_fd_moved wid (who : Z -> Prop) fd k :
  who fd -> respects any (moved wid who) (RoomWorker.leave_room_fd wid fd k).
Proof.
  intros Hwho w a w' _. unfold RoomWorker.leave_room_fd, get_rooms, get_worker, bind at 1, ret.
  unfold bind at 1. destruct (room_workers w !! wid) as [r |] eqn:Hr; [| done].
  destruct (rooms_ r !! k) as [room |] eqn:Hk; [| intros [= _ <-]; reflexivity].
  destruct (Room.exit_session fd room) as [b room'] eqn:Ex. destruct b; [| intros [= _ <-]; reflexivity].
  unfold put_rooms, get_worker, put_worker, bind, modify. rewrite Hr. intros H.
  etransitivity; [apply (moved_put_rooms wid who (<[k := room']> (rooms_ r)) r w Hr) |].
  { intros _ Hf. destruct (exit_session_spec wid k _ _ _ Ex (Hf _ _ Hk)) as (Hg & Hs & Hm).
    split; [by apply map_Forall_insert_2 |]. unfold hall_of. rewrite fmap_insert, Hm.
    by apply rtc_once, ALeave; [apply hall_of_lookup | | done]. }
  set (r1 := set_rooms (<[k := room']> (rooms_ r)) r) in *.
  set (w1 := set_workers (<[wid := r1]> (room_workers w)) w) in *.
  assert (Hr1 : room_workers w1 !! wid = Some r1) by apply lookup_insert_eq. rewrite Hr1 in H.
  case_decide as Hd; [| injection H as _ <-; reflexivity]. destruct Hd as [Hn Ht].
  unfold RoomManager.erase_room_to_worker, modify in H.
  set (w2 := set_room_to_worker _ w1) in *. assert (Hr2 : room_workers w2 !! wid = Some r1) by exact Hr1.
  rewrite Hr2 in H. injection H as _ <-. etransitivity; [by apply calm_moved, (calm_same w1 (fun _ => w2)) |].
  apply moved_put_rooms; [done |]. intros Ht' Hf.
  assert (Hg : good_room wid k room') by (apply (Hf k), lookup_insert_eq).
  pose proof Hg as (-> & _). split; [by apply map_Forall_delete |].
  unfold hall_of. rewrite fmap_delete. apply rtc_once, AClose.
  - rewrite <- (no_head_no_member wid k room' Hg Hn). apply hall_of_lookup, lookup_insert_eq.
  - intros ->. by rewrite Ht in Ht'.
Qed.

Lemma calmly_moved {A} wid who P (m : M A) : calmly m -> respects P (moved wid who) m.
Proof. apply respects_weaken; [done | apply calm_moved]. Qed.

Lemma leave_first_moved wid (who : Z -> Prop) fd ks :
  who fd -> respects any (moved wid who) (RoomWorker.leave_first wid fd ks).
Proof.
  intros Hw. induction ks as [| k ks IH]; cbn [RoomWorker.leave_first]; [apply respects_ret |].
  apply respects_bind; [done | by apply leave_room_fd_moved |]. intros r. case_decide; [apply respects_ret | done].
Qed.

Lemma diconnect_session_moved wid (who : Z -> Prop) fd k :
  who fd -> respects any (moved wid who) (RoomWorker.diconnect_session wid fd k).
Proof.
  intros Hw. unfold RoomWorker.diconnect_session.
  apply respects_bind; [done | by apply leave_room_fd_moved |]. intros r. case_decide; [apply respects_ret |].
  apply respects_bind; [done | apply calmly_moved, calm_get_rooms |]. intros rooms. by apply leave_first_moved.
Qed.

(** ** The action interpreter *)

(** [who] allows the descriptors an event names. *)
Definition covered (who : Z -> Prop) (e : Event.RoomEvent) (w : World) : Prop :=
  who (Event.event_fd e) /\ session_allowed who (Event.session e) w.

Lemma covered_kept wid who who' e w w' : moved wid who w w' -> covered who' e w -> covered who' e w'.
Proof.
  intros (Hf & _) [H1 H2]. split; [done |]. intros sid o' Es Ho.
  destruct (Hf _ _ Ho) as (o & Ho1 & E). unfold Session.get_fd. rewrite <- E. by apply (H2 sid o).
Qed.

#[local] Hint Resolve covered_kept : respects.

Lemma leave_room_moved wid who e : respects (covered who e) (moved wid who) (RoomWorker.leave_room wid e).
Proof.
  intros w a w' [_ Hs]. unfold RoomWorker.leave_room, session_fd, deref, get_session, bind, ret.
  destruct (Event.session e) as [sid |]; [| done]. destruct (heap w !! sid) as [o |] eqn:Ho; [| done].
  unfold RoomWorker.current_room, deref. destruct (Event.actions e !! _) as [act |]; [| done]. cbn.
  apply (leave_room_fd_moved wid who); [by apply (Hs sid o) | done].
Qed.

Lemma join_room_moved wid who e : respects (covered who e) (moved wid who) (RoomWorker.join_room wid e).
Proof.
  unfold RoomWorker.join_room. apply respects_bind; [eauto with respects | apply calmly_moved, calm_current_room |].
  intros k. eapply respects_weaken; [| done | apply join_room_session_moved]. by intros w [_ H].
Qed.

Lemma after_action_moved wid who e cmd k :
  respects (covered who e) (moved wid who) (k e) ->
  respects (covered who e) (moved wid who) (RoomWorker.after_action e cmd k).
Proof.
  intros Hk. unfold RoomWorker.after_action. case_decide; [| done].
  apply respects_bind; [eauto with respects | apply respects_deref |]. intros first.
  apply respects_bind; [eauto with respects | |].
  - case_decide; [apply calmly_moved, calm_erase | apply respects_ret].
  - intros _. apply calmly_moved, calm_send_response.
Qed.

(** An operation whose result is stored in the event, then the rest. *)
Lemma operation_moved wid who e e' cmd (m : M Result) k :
  Event.session e' = Event.session e -> Event.event_fd e' = Event.event_fd e ->
  respects (covered who e) (moved wid who) m ->
  (forall r, respects (covered who e) (moved wid who) (k (Event.set_result r e'))) ->
  respects (covered who e) (moved wid who)
    (let* r := m in RoomWorker.after_action (Event.set_result r e') cmd k).
Proof.
  intros E1 E2 Hm Hk. apply respects_bind; [eauto with respects | done |]. intros r.
  assert (E : covered who (Event.set_result r e') = covered who e).
  { unfold covered. cbn. by rewrite E1, E2. }
  specialize (Hk r). rewrite <- E in *. by apply after_action_moved.
Qed.

Lemma process_loop_moved fuel wid who e :
  respects (covered who e) (moved wid who) (RoomWorker.process_loop fuel wid e).
Proof.
  revert e. induction fuel as [| fuel IH]; intros e; cbn [RoomWorker.process_loop]; [apply respects_ret |].
  case_decide; [| apply respects_ret]. case_decide; [apply calmly_moved, calm_send_response |].
  apply respects_bind; [eauto with respects | apply respects_deref |]. intros act.
  set (e1 := Event.set_current _ e). change (covered who e) with (covered who e1). clearbody e1.
  destruct (Event.command act);
    try (apply operation_moved; [done | done | | intros r; apply (IH (Event.set_result r e1))]).
  - apply (respects_weaken any (covered who e1) (moved wid who)); [done | done | apply create_room_moved].
  - apply join_room_moved.
  - apply leave_room_moved.
  - apply calmly_moved, calm_send_message.
  - apply calmly_moved, calm_post_job.
  - apply calmly_moved, calm_request_db_load.
  - apply respects_bind; [eauto with respects | apply calmly_moved, calm_save_message |]. intros _.
    apply after_action_moved, IH.
  - apply respects_bind; [eauto with respects | apply calmly_moved, calm_route_event | intros; apply respects_ret].
  - apply respects_bind; [eauto with respects | apply calmly_moved, calm_route_event | intros; apply respects_ret].
  - apply calmly_moved, calm_send_response.
  - apply calmly_moved, calm_flush.
  - intros w a w' [Hw _] Hx. revert Hx. apply (respects_bind (P := any)); [done | by apply diconnect_session_moved | | done].
    intros b. apply respects_ret.
Qed.

(** One step of a worker: the event it takes off its queue names the only
    connections whose membership may change. *)
Lemma worker_step_moved wid w b w' :
  RoomWorker.worker_step wid w = Ok b w' -> moved wid (front_names w wid) w w'.
Proof.
  unfold RoomWorker.worker_step, get_worker, bind at 1. destruct (room_workers w !! wid) as [r |] eqn:Hr; [| done].
  destruct (event_queue_ r) as [| e q] eqn:Hq; [intros [= _ <-]; reflexivity |].
  unfold put_worker, modify, bind at 1. intros H. etransitivity; [by apply calm_moved, (calm_set_queue wid r q) |].
  revert H. apply (respects_bind (P := covered (front_names w wid) e)); [eauto with respects | | |].
  - unfold RoomWorker.process_event. apply process_loop_moved.
  - intros _. apply respects_ret.
  - assert (Hn : forall fd, names e w fd -> front_names w wid fd) by (intros fd Hfd; exists r, e, q; done).
    split; [apply Hn; by left |]. intros sid o Es Ho. apply Hn. right. by exists sid, o.
Qed.

(** ** Routing from outside the workers *)

Lemma calm_disconnect_session fd k : calmly (RoomManager.disconnect_session fd k).
Proof. unfold RoomManager.disconnect_session. follow. Qed.

Lemma calm_request_flush sid : calmly (RoomManager.request_flush sid).
Proof. unfold RoomManager.request_flush. follow. Qed.

Lemma calm_dispatch_packet packet sid : calmly (RoomManager.dispatch_packet packet sid).
Proof. unfold RoomManager.dispatch_packet. follow. Qed.

End Handlers.

(** ** The main thread and the database thread *)

Section Server.
Context {Indet : Indeterminate} {Kernel : EpollKernel}.

Abbreviation calmly m := (respects any calm m).

#[local] Hint Resolve calm_disconnect_session calm_request_flush calm_dispatch_packet calm_set_users : respects.

Lemma calm_epoll_ctl op : calmly (epoll_ctl op).
Proof. unfold epoll_ctl. follow. apply respects_modify. intros w _. by apply calm_same. Qed.

Lemma calm_session_update {A} sid (f : Session.Session -> Session.Session) (k : Session.Session -> M A) :
  (forall o, Session.fd (f o) = Session.fd o) -> (forall o, calmly (k o)) ->
  calmly (let* s := get_session sid in put_session sid (f s) ;;; k s).
Proof.
  intros Hf Hk w a w' _. unfold get_session, put_session, modify, bind.
  destruct (heap w !! sid) as [o |] eqn:Ho; [| done]. intros H.
  etransitivity; [by apply (calm_put_session sid o (f o)) |]. by apply (Hk o) in H.
Qed.

Lemma calm_close_session fd : calmly (close_session fd).
Proof.
  unfold close_session, find_session, epoll_remove, remove_session.
  apply respects_bind; [done | eauto with respects |]. intros [sid |]; [| eauto with respects].
  apply respects_bind; [done | apply respects_modify; intros w _; by apply calm_same | intros _].
  do 2 (apply respects_bind; [done | eauto with respects | intros ?]).
  apply respects_bind; [done | eauto with respects | intros _].
  apply calm_session_update; [done |]. intros o. follow.
  all: apply respects_modify; intros w _; by apply calm_same.
Qed.

#[local] Hint Resolve calm_epoll_ctl calm_close_session : respects.

Lemma calm_handle_packets fuel sid : calmly (handle_packets fuel sid).
Proof.
  induction fuel as [| fuel IH]; cbn [handle_packets]; [apply respects_ret |].
  intros w a w' _. unfold get_session, put_session, bind at 1.
  destruct (heap w !! sid) as [o |] eqn:Ho; [| done].
  destruct (extract_packet_fields empty_packet o) as [Hf _].
  destruct (Session.extract_packet empty_packet o) as [[b p] o']. cbn in Hf.
  assert (Hc : calm w (set_heap (<[sid := o']> (heap w)) w)) by by apply (calm_put_session sid o).
  destruct b; [| by intros [= _ <-]]. unfold modify, bind at 1. intros H. etransitivity; [exact Hc |].
  revert H. apply (respects_bind (P := any)); [done | apply calm_dispatch_packet | intros _; exact IH | done].
Qed.

Lemma calm_handle_request fd ins : calmly (handle_request fd ins).
Proof.
  unfold handle_request, find_session. apply respects_bind; [done | eauto with respects |].
  intros [sid |]; [| eauto with respects]. apply (calm_session_method sid (Session.on_readable ins)).
  - intros o. apply on_readable_fields.
  - intros [] o; [apply calm_handle_packets | eauto with respects].
Qed.

Lemma calm_handle_events : calmly handle_events.
Proof.
  unfold handle_events. apply respects_bind; [done | eauto with respects |]. intros n.
  induction n as [| n IH]; cbn [handle_events_loop]; [apply respects_ret |].
  apply respects_bind; [done | eauto with respects |]. intros [| e q]; [apply respects_ret |].
  apply respects_bind; [done | apply respects_modify; intros w _; by apply calm_same | intros _].
  apply respects_bind; [done | | intros _; exact IH].
  unfold handle_main_event, enable_epollout, disable_epollout. follow.
Qed.

Lemma calm_on_ready fd epollin epollout hangup : calmly (on_ready fd epollin epollout hangup).
Proof.
  unfold on_ready. apply respects_bind; [done | | intros _].
  - destruct epollin; [apply calm_handle_request | eauto with respects].
  - unfold handle_epollout, find_session. follow.
Qed.

(** Accepting brings a new session, but changes nobody's room. *)
Lemma accept_client_still fd : respects any still (accept_client fd).
Proof.
  unfold accept_client, epoll_add, add_session, put_session, find_session.
  repeat first
    [ eapply respects_weaken; [done | | solve [eauto with respects | apply calm_route_event]]; by intros ?? []
    | apply respects_bind; [done | | intros ?]
    | case_decide
    | apply respects_ret
    | apply respects_gets
    | apply respects_modify; by intros w _ wid ].
Qed.

Lemma set_outs_calm sid outs : calmly (set_outs sid outs).
Proof.
  apply (calm_session_update sid
    (fun s => Session.set_send (Session.send_queue_ s) (Session.sending_ s) outs (Session.sock_wire s) s)
    (fun _ => ret tt)); [done |]. intros _. apply respects_ret.
Qed.

Lemma db_step_calm status data draws : calmly (db_step status data draws).
Proof.
  unfold db_step. apply respects_bind; [done | eauto with respects |]. intros [| j q]; [apply respects_ret |].
  apply respects_bind; [done | apply respects_modify; intros w _; by apply calm_same |]. intros _. apply calm_run_callback.
Qed.

Lemma exec_still l w w' :
  exec l w = Ok tt w' -> match l with LWorker _ => True | _ => still w w' end.
Proof.
  assert (Hc : forall m : M unit, calmly m -> m w = Ok tt w' -> still w w').
  { intros m Hm H. by destruct (Hm w tt w' I H). }
  destruct l as [fd | fd i o h | | wid | status data draws | sid outs]; cbn [exec].
  - by apply accept_client_still.
  - apply Hc, calm_on_ready.
  - apply Hc, calm_handle_events.
  - done.
  - apply Hc, db_step_calm.
  - apply Hc, set_outs_calm.
Qed.

Lemma still_hall w w' wid : still w w' -> hall w' wid = hall w wid.
Proof. intros H. unfold hall. by rewrite H. Qed.

Lemma inv_good w wid : inv w -> good wid w.
Proof.
  intros Hw t rooms Hs. unfold shape in Hs. destruct (room_workers w !! wid) as [r |] eqn:Hr; [| done].
  injection Hs as <- <-. destruct (i_workers _ Hw _ _ Hr) as (Ht & Hf & _). split; [done |].
  intros k room Hk. destruct (Hf _ _ Hk) as (H1 & H2 & H3 & _). split_and!; [done | done |].
  unfold capacity, RoomManager.MAX_LOBBY_SESSIONS in *. case_decide; lia.
Qed.

Lemma astep_weaken wid (who who' : Z -> Prop) h h' :
  (forall fd, who fd -> who' fd) -> astep wid who h h' -> astep wid who' h h'.
Proof. intros H []; econstructor; eauto. Qed.

(** What one transition does to the rooms of worker [wid]. *)
Lemma exec_membership n w l w' wid :
  reachable n w -> exec l w = Ok tt w' ->
  match l with
  | LWorker wid' => if decide (wid = wid') then rtc (astep wid (front_names w wid)) (hall w wid) (hall w' wid)
                    else hall w' wid = hall w wid
  | _ => hall w' wid = hall w wid
  end.
Proof.
  intros Hr H. pose proof (exec_still l w w' H) as Hs. destruct l as [| | | wid' | |]; try by apply still_hall.
  cbn [exec] in H. unfold bind in H. destruct (RoomWorker.worker_step wid' w) as [b w1 |] eqn:E; [| done].
  injection H as <-. apply worker_step_moved in E as (_ & Ho & Hm). case_decide as Hd; [subst wid' |].
  - apply Hm, inv_good. by eapply reachable_inv.
  - unfold hall. by rewrite Ho.
Qed.

(** C7: the rooms of the server refine the abstract service. In every world
    the server can reach, only a step of worker [wid] changes the rooms of
    worker [wid]: no other worker, nor the main thread, nor the database
    thread does. Such a step is a sequence of abstract ones: rooms open empty,
    are entered only below their capacity, and an ordinary room is closed only
    when nobody is in it, the lobby never; and every entry and every departure
    concerns a descriptor that the event being processed names (its session's,
    or that of the closed connection), so no client's request changes where
    another client is. Hence every worker's rooms are reached from the initial
    ones by abstract steps. *)
Theorem membership_refines n w wid :
  reachable n w ->
  rtc (astep wid (fun _ => True)) (hall (RoomManager.init_world n) wid) (hall w wid) /\
  forall l w', enabled w l -> exec l w = Ok tt w' ->
    match l with
    | LWorker wid' =>
        if decide (wid = wid') then rtc (astep wid (front_names w wid)) (hall w wid) (hall w' wid)
        else hall w' wid = hall w wid
    | _ => hall w' wid = hall w wid
    end.
Proof.
  intros Hr. split; [| intros l w' _; by apply exec_membership with (n := n)].
  revert w Hr. apply rtc_ind_r; [apply rtc_refl |]. intros w1 w2 Hr (l & He & Hx) IH.
  etransitivity; [exact IH |]. pose proof (exec_membership n w1 l w2 wid Hr Hx) as H.
  destruct l as [| | | wid' | |]; try (rewrite H; apply rtc_refl). case_decide; [| rewrite H; apply rtc_refl].
  eapply rtc_subrel; [| exact H]. intros h h'. by apply astep_weaken.
Qed.

End Server.

(** ** Witness: a client has joined the lobby *)

Lemma membership_refines_witness :
  hall one_client 1 = {[1 := {[5 := 0%nat]}]} /\
  rtc (astep 1 (fun _ => True)) (hall (RoomManager.init_world 2) 1) (hall one_client 1) /\
  (let w := System.after [LAccept 5] in
   exists w', exec (LWorker 1) w = Ok tt w' /\ rtc (astep 1 (front_names w 1)) (hall w 1) (hall w' 1)).
Proof.
  split; [by vm_compute |]. split; [apply (membership_refines 2 one_client 1), after_reachable |].
  intros w. destruct (exec (LWorker 1) w) as [[] w' |] eqn:Ex; [| by vm_compute in Ex]. exists w'. split; [done |].
  apply (proj2 (membership_refines 2 w 1 (after_reachable _)) (LWorker 1) w'); [eexists; vm_compute; reflexivity | exact Ex].
Defined.

End Membership.
