(* ===== verification/Quiescence.v ===== *)
(** * Quiescence: left alone, the server comes to rest

    An event carries a finite program and every handler that takes an event off
    a queue sends on at most one event or job, with less of the program left;
    a database job brings back at most one event; a main event closes a
    connection or sends nothing. So the work in flight runs out: events do not
    travel between the workers, the database thread and the main thread for
    ever. The measure is lexicographic: open connections, then the weight of
    the queued events and jobs, then the number of main events. *)

From S2P Require Import Prelude Codec Wire Session User Room Event World RoomManager RoomWorker.
From S2P Require Import Invariant RoomWorkerSafe Server System Respects.

Module Quiescence.
Import Protocol World Invariant Server System Respects.

(** ** The work in flight *)

(** The actions an event has left. *)
Definition actions_left (e : Event.RoomEvent) : nat := length (Event.actions e) - Event.current_action e.

Definition event_weight (e : Event.RoomEvent) : nat := 1 + 4 * actions_left e.

Definition job_weight (j : Event.DBJob) : nat :=
  match Event.callback_event (Event.on_result j) with Some e => 2 + event_weight e | None => 1 end.

Definition load (w : World) : nat :=
  map_sum (sum_list_with event_weight) (queues w) + sum_list_with job_weight (job_queue w).

(** ** What handlers add to it *)

Definition same_queues (w w' : World) : Prop :=
  queues w' = queues w /\ job_queue w' = job_queue w /\ sessions w' = sessions w.

#[global] Instance same_queues_preorder : PreOrder same_queues.
Proof.
  split; [by intros w | intros w1 w2 w3 (A1 & B1 & C1) (A2 & B2 & C2); split_and!; congruence].
Qed.

Lemma traffic_queues w w' : same_traffic w w' -> same_queues w w'.
Proof. unfold same_traffic, traffic. intros [= E1 E2 E3 E4 E5]. by split_and!. Qed.

(** What a handler sends on: events to workers, jobs to the database thread. *)
Definition Item : Type := Event.RoomEvent + Event.DBJob.

Definition item_weight (i : Item) : nat := match i with inl e => event_weight e | inr j => job_weight j end.

Definition DB_THREAD : Z := -1.

Definition events_to (wid : Z) (ys : list (Z * Item)) : list Event.RoomEvent :=
  omap (fun y => match y.2 with inl e => if decide (y.1 = wid) then Some e else None | inr _ => None end) ys.
Definition jobs_in (ys : list (Z * Item)) : list Event.DBJob :=
  omap (fun y => match y.2 with inl _ => None | inr j => Some j end) ys.

Definition addressed (w : World) (y : Z * Item) : Prop :=
  match y.2 with inl _ => is_Some (queues w !! y.1) | inr _ => y.1 = DB_THREAD end.

(** The queues have grown by [ys], in this order, and by nothing else. *)
Record emitted (w w' : World) (ys : list (Z * Item)) : Prop := {
  em_events : forall wid, queues w' !! wid = (fun q => q ++ events_to wid ys) <$> queues w !! wid;
  em_jobs : job_queue w' = job_queue w ++ jobs_in ys;
  em_addressed : Forall (addressed w) ys }.

(** What they weigh, each with its own delivery. *)
Definition bulk (ys : list (Z * Item)) : nat := sum_list_with (fun y => S (item_weight y.2)) ys.

(** [m] sends on at most [c], adds no more to the work in flight, and opens or
    closes nothing. *)
Definition costs {A} (c : nat) (m : M A) : Prop :=
  forall w a w', m w = Ok a w' ->
    sessions w' = sessions w /\ (load w' <= load w + c)%nat /\ exists ys, emitted w w' ys /\ (bulk ys <= c)%nat.

Lemma emitted_nothing w w' : queues w' = queues w -> job_queue w' = job_queue w -> emitted w w' [].
Proof.
  intros Hq Hj. split; [| by rewrite Hj, app_nil_r | constructor].
  intros wid. rewrite Hq. destruct (queues w !! wid); [cbn; by rewrite app_nil_r | done].
Qed.

Lemma emitted_app w1 w2 w3 ys ys' : emitted w1 w2 ys -> emitted w2 w3 ys' -> emitted w1 w3 (ys ++ ys').
Proof.
  intros [E1 J1 A1] [E2 J2 A2]. split.
  - intros wid. rewrite E2, E1. unfold events_to. destruct (queues w1 !! wid); [| done]. cbn.
    by rewrite omap_app, app_assoc.
  - rewrite J2, J1. unfold jobs_in. by rewrite omap_app, app_assoc.
  - apply Forall_app. split; [done |]. eapply Forall_impl; [exact A2 |]. intros y. unfold addressed.
    destruct (y.2); [| done]. rewrite E1. by destruct (queues w1 !! y.1).
Qed.

Lemma costs_bind {A B} c1 c2 c (m : M A) (f : A -> M B) :
  (c1 + c2 <= c)%nat -> costs c1 m -> (forall a, costs c2 (f a)) -> costs c (bind m f).
Proof.
  intros Hc Hm Hf w b w' H. unfold bind in H. destruct (m w) as [a w1 |] eqn:E; [| done].
  destruct (Hm _ _ _ E) as (S1 & L1 & ys1 & E1 & B1). destruct (Hf _ _ _ _ H) as (S2 & L2 & ys2 & E2 & B2).
  split_and!; [congruence | lia |]. exists (ys1 ++ ys2). split; [by eapply emitted_app |].
  unfold bulk in *. rewrite sum_list_with_app. lia.
Qed.

Lemma costs_free {A} c (m : M A) : respects any same_queues m -> costs c m.
Proof.
  intros H w a w' E. destruct (H w a w' I E) as (Eq & Ej & Es). split_and!; [done | unfold load; rewrite Eq, Ej; lia |].
  exists []. split; [by apply emitted_nothing | cbn; lia].
Qed.

Lemma costs_more {A} c c' (m : M A) : (c <= c')%nat -> costs c m -> costs c' m.
Proof.
  intros Hc Hm w a w' E. destruct (Hm w a w' E) as (H1 & H2 & ys & H3 & H4).
  split_and!; [done | lia |]. exists ys. split; [done | lia].
Qed.

Lemma costs_idle {A} c (m : M A) : respects any same_traffic m -> costs c m.
Proof. intros H. apply costs_free. eapply respects_weaken; [done | apply traffic_queues | exact H]. Qed.

Lemma costs_ret {A} c (a : A) : costs c (ret a).
Proof. apply costs_idle, respects_ret. Qed.

Lemma costs_then {A B} c (m : M A) (f : A -> M B) :
  costs 0 m -> (forall a, costs c (f a)) -> costs c (bind m f).
Proof. apply costs_bind. lia. Qed.

Lemma load_set_queue wid r q w :
  room_workers w !! wid = Some r ->
  (load (set_workers (<[wid := set_queue q r]> (room_workers w)) w) + sum_list_with event_weight (event_queue_ r) =
   load w + sum_list_with event_weight q)%nat.
Proof.
  intros Hr. unfold load. rewrite (queues_set_queue wid r q w Hr), map_sum_insert. cbn.
  rewrite (map_sum_lookup _ (queues w) wid (event_queue_ r)) by by apply queues_lookup. lia.
Qed.

Section Handlers.
Context {Indet : Indeterminate} {SService : IServerService}.

Lemma costs_post_event wid e : costs (S (event_weight e)) (post_event wid e).
Proof.
  intros w a w'. unfold post_event, get_worker, put_worker, bind, modify.
  destruct (room_workers w !! wid) as [r |] eqn:Hr; [| done]. intros [= _ <-].
  pose proof (load_set_queue wid r (event_queue_ r ++ [e]) w Hr) as H.
  rewrite sum_list_with_app in H. cbn [sum_list_with] in H. split_and!; [done | lia |].
  exists [(wid, inl e)]. split; [| cbn; lia]. pose proof (queues_lookup w wid r Hr) as Hq.
  split; [| by rewrite app_nil_r | constructor; [by exists (event_queue_ r) | constructor]].
  intros wid'. rewrite (queues_set_queue wid r _ w Hr). cbn. case_decide as Hd.
  - subst. by rewrite lookup_insert_eq, Hq.
  - rewrite lookup_insert_ne by done. destruct (queues w !! wid'); [cbn; by rewrite app_nil_r | done].
Qed.

Lemma costs_route e target : costs (S (event_weight e)) (RoomManager.route_event e target).
Proof.
  unfold RoomManager.route_event. apply costs_then.
  - apply costs_idle. unfold RoomManager.find_worker. follow.
  - intros wid. case_decide; [apply costs_ret |].
    eapply (costs_bind _ 0); [| apply costs_post_event | intros; apply costs_ret]. lia.
Qed.

Lemma costs_route_ignored e target c :
  (event_weight e < c)%nat -> costs c (RoomManager.route_event e target ;;; ret tt).
Proof. intros H. eapply (costs_bind _ 0); [| apply costs_route | intros; apply costs_ret]. lia. Qed.

Lemma costs_post_job j : costs (S (job_weight j)) (post_job j).
Proof.
  intros w a w' [= _ <-]. split_and!; [done | |].
  - unfold load. cbn [job_queue set_jobs]. rewrite sum_list_with_app. cbn [sum_list_with].
    change (queues (set_jobs (job_queue w ++ [j]) w)) with (queues w). lia.
  - exists [(DB_THREAD, inr j)]. split; [| cbn; lia]. split; [| done | by repeat constructor].
    intros wid. change (queues (set_jobs (job_queue w ++ [j]) w)) with (queues w). cbn.
    destruct (queues w !! wid); [cbn; by rewrite app_nil_r | done].
Qed.

Lemma costs_erase c k : costs c (RoomManager.erase_room_to_worker k).
Proof. apply costs_free. by apply respects_modify. Qed.

Lemma same_queues_put_rooms wid rs : respects any same_queues (put_rooms wid rs).
Proof.
  intros w a w' _. unfold put_rooms, get_worker, put_worker, bind, modify.
  destruct (room_workers w !! wid) as [r |] eqn:Hr; [| done]. intros [= _ <-].
  split_and!; [by apply queues_set_rooms | done | done].
Qed.

Lemma idle_queues {A} (m : M A) : respects any same_traffic m -> respects any same_queues m.
Proof. apply respects_weaken; [done | apply traffic_queues]. Qed.

#[local] Hint Resolve same_queues_put_rooms : respects.

Lemma costs_create_room c wid e : costs c (RoomWorker.create_room wid e 5).
Proof.
  apply costs_free. unfold RoomWorker.create_room.
  apply respects_bind; [done | apply idle_queues, idle_current_room | intros k].
  apply respects_bind; [done | apply idle_queues, idle_get_rooms | intros rooms]. follow.
Qed.

Lemma queues_leave_room_fd wid fd k : respects any same_queues (RoomWorker.leave_room_fd wid fd k).
Proof.
  unfold RoomWorker.leave_room_fd.
  apply respects_bind; [done | apply idle_queues, idle_get_rooms | intros rooms].
  destruct (rooms !! k); [| apply respects_ret]. destruct (Room.exit_session _ _) as [[] room']; [| apply respects_ret].
  follow. by apply respects_modify.
Qed.

Lemma costs_leave_room c wid e : costs c (RoomWorker.leave_room wid e).
Proof.
  apply costs_free. unfold RoomWorker.leave_room.
  apply respects_bind; [done | apply idle_queues, idle_session_fd | intros fd].
  apply respects_bind; [done | apply idle_queues, idle_current_room | intros k]. apply queues_leave_room_fd.
Qed.

Lemma costs_diconnect c wid fd k : costs c (RoomWorker.diconnect_session wid fd k).
Proof.
  apply costs_free. unfold RoomWorker.diconnect_session.
  apply respects_bind; [done | apply queues_leave_room_fd | intros r]. case_decide; [apply respects_ret |].
  apply respects_bind; [done | apply idle_queues, idle_get_rooms | intros rooms].
  induction ((fun p => Room.room_id_ p.2) <$> map_to_list rooms) as [| k' ks IH];
    cbn [RoomWorker.leave_first]; [apply respects_ret |].
  apply respects_bind; [done | apply queues_leave_room_fd | intros r']. case_decide; [apply respects_ret | done].
Qed.

(** ** Running an event *)

Lemma costs_after_action c e cmd k :
  costs c (k e) -> costs c (RoomWorker.after_action e cmd k).
Proof.
  intros Hk. unfold RoomWorker.after_action. case_decide; [| done].
  apply costs_then; [apply costs_idle, respects_deref; apply _ |]. intros first.
  apply costs_then; [case_decide; [apply costs_erase | apply costs_ret] |].
  intros _. apply costs_idle, idle_send_response.
Qed.

Lemma costs_operation c e cmd (m : M Result) k :
  costs 0 m -> (forall r, costs c (k (Event.set_result r e))) ->
  costs c (let* r := m in RoomWorker.after_action (Event.set_result r e) cmd k).
Proof. intros Hm Hk. apply costs_then; [done |]. intros r. by apply costs_after_action. Qed.

(** An event costs less than it weighs: four per action it has left. *)
Lemma costs_process_loop fuel wid e : costs (4 * actions_left e) (RoomWorker.process_loop fuel wid e).
Proof.
  revert e. induction fuel as [| fuel IH]; intros e; cbn [RoomWorker.process_loop]; [apply costs_ret |].
  case_decide as Hlen; [| apply costs_ret]. case_decide; [apply costs_idle, idle_send_response |].
  apply costs_then; [apply costs_idle, respects_deref; apply _ |]. intros act.
  set (e1 := Event.set_current _ e).
  assert (Hl : (4 * actions_left e = 4 + 4 * actions_left e1)%nat) by (unfold actions_left, e1; cbn; lia).
  rewrite Hl. clearbody e1. clear Hl Hlen.
  assert (Hk : forall r, costs (4 + 4 * actions_left e1) (RoomWorker.process_loop fuel wid (Event.set_result r e1))).
  { intros r. apply (costs_more (4 * actions_left (Event.set_result r e1))); [unfold actions_left; cbn; lia | apply IH]. }
  assert (Hj : forall d, Event.callback_event (Event.on_result d) = Some e1 -> costs (4 + 4 * actions_left e1) (post_job d)).
  { intros d Hd. apply (costs_more (S (job_weight d))); [| apply costs_post_job].
    unfold job_weight, event_weight. rewrite Hd. lia. }
  destruct (Event.command act).
  - apply costs_operation; [apply costs_create_room | exact Hk].
  - apply costs_operation; [apply costs_idle, idle_join_room | exact Hk].
  - apply costs_operation; [apply costs_leave_room | exact Hk].
  - apply costs_operation; [apply costs_idle, idle_send_message | exact Hk].
  - by apply Hj.
  - apply costs_then; [apply costs_idle, idle_current_room | intros k; by apply Hj].
  - apply (costs_bind 2 (4 * actions_left e1)); [lia | |].
    + unfold RoomWorker.save_message. do 2 (apply costs_then; [apply costs_idle; follow | intros ?]).
      apply costs_then; [apply costs_idle, respects_gets; apply _ | intros um].
      exact (costs_post_job (Event.mkDBJob _ _ _)).
    + intros _. apply costs_after_action, IH.
  - apply costs_route_ignored. unfold event_weight, actions_left. cbn. lia.
  - apply costs_route_ignored. unfold event_weight, actions_left. cbn. lia.
  - apply costs_idle, idle_send_response.
  - apply costs_idle, idle_flush.
  - apply costs_then; [apply costs_diconnect | intros; apply costs_ret].
Qed.

(** A worker that takes an event off its queue has less to do afterwards. *)
Lemma worker_step_less wid r e q w b w' :
  room_workers w !! wid = Some r -> event_queue_ r = e :: q -> RoomWorker.worker_step wid w = Ok b w' ->
  sessions w' = sessions w /\ (load w' < load w)%nat.
Proof.
  intros Hr Hq. unfold RoomWorker.worker_step, get_worker, bind at 1. rewrite Hr, Hq.
  unfold put_worker, modify, bind at 1. intros H.
  pose proof (load_set_queue wid r q w Hr) as Hl. rewrite Hq in Hl. cbn [sum_list_with] in Hl.
  assert (Hc : costs (4 * actions_left e) (RoomWorker.process_event wid e ;;; ret true)).
  { eapply (costs_bind _ 0); [| apply costs_process_loop | intros; apply costs_ret]. lia. }
  destruct (Hc _ _ _ H) as (Hs & Hw & _). unfold event_weight in Hl. split; [exact Hs | lia].
Qed.

(** ** The database thread *)

Lemma same_queues_bind_room_worker k draws :
  respects any same_queues (RoomManager.bind_room_worker k draws).
Proof. unfold RoomManager.bind_room_worker, RoomManager.get_rooms_num. follow. all: by apply respects_modify. Qed.

Lemma costs_run_callback c status data draws :
  costs (match Event.callback_event c with Some e => S (event_weight e) | None => 0 end)
    (RoomWorker.run_callback c status data draws).
Proof.
  destruct c as [| e | e]; cbn [RoomWorker.run_callback Event.callback_event]; [apply costs_ret | |].
  - unfold RoomWorker.db_create_room_on_result. destruct (Codec.take _ _). case_match.
    + apply costs_then; [apply costs_free, same_queues_bind_room_worker |]. intros wid.
      apply costs_route_ignored. unfold event_weight, actions_left. cbn. rewrite length_fmap. lia.
    + apply costs_route_ignored. unfold event_weight, actions_left. cbn. lia.
  - unfold RoomWorker.db_load_messages_on_result. apply costs_then.
    + destruct status; apply costs_idle, idle_current_room.
    + intros k. apply costs_route_ignored. unfold event_weight, actions_left. destruct status; cbn; lia.
Qed.

End Handlers.

(** ** The main thread *)

Section Server.
Context {Indet : Indeterminate} {Kernel : EpollKernel}.

(** The connections and the main events stay as they are. *)
Definition same_outside (w w' : World) : Prop := sessions w' = sessions w /\ main_events w' = main_events w.

#[local] Instance same_outside_preorder : PreOrder same_outside.
Proof. split; [by intros w | intros w1 w2 w3 (A1 & B1) (A2 & B2); split; congruence]. Qed.

Lemma outside_disconnect fd k : respects any same_outside (RoomManager.disconnect_session fd k).
Proof. intros w [] w' _ H. apply RoomManager.disconnect_session_frame in H as ->. by split. Qed.

Lemma outside_modify f :
  (forall w, sessions (f w) = sessions w) -> (forall w, main_events (f w) = main_events w) ->
  respects any same_outside (modify f).
Proof. intros H1 H2. by apply respects_modify. Qed.

#[local] Hint Resolve outside_disconnect outside_modify : respects.

(** One step of a handler that does not matter outside. *)
Ltac walk w := eapply (until_bind same_outside w);
  [first [done | eassumption] | solve [eauto with respects | case_decide; eauto with respects] | done | intros ? ? ?].

(** Closing a connection that is open removes it and nothing else; main
    events are neither added nor taken. *)
Lemma close_session_delete fd w w' :
  close_session fd w = Ok tt w' ->
  main_events w' = main_events w /\
  (w' = w \/ is_Some (sessions w !! fd) /\ sessions w' = delete fd (sessions w)).
Proof.
  intros H. assert (Hw : wp (close_session fd) (fun _ => True) (fun _ w' => main_events w' = main_events w /\
    (w' = w \/ is_Some (sessions w !! fd) /\ sessions w' = delete fd (sessions w))) w);
    [| unfold wp in Hw; by rewrite H in Hw].
  unfold close_session, find_session. apply wp_bind, wp_gets.
  destruct (sessions w !! fd) as [sid |] eqn:Es; [| apply wp_ret; split; [done | by left]].
  unfold epoll_remove, put_session, remove_session.
  do 7 walk w. eapply (until_bind same_outside w);
    [eassumption | case_decide; eauto with respects | done | intros _ w7 [E1 E2]].
  apply wp_bind, wp_modify, wp_modify. cbn. split; [exact E2 | right; rewrite E1; eauto].
Qed.

(** ** The measure *)

Definition measure (w : World) : nat * nat * nat := (size (sessions w), load w, length (main_events w)).

(** Lexicographic order. *)
Definition less (x y : nat * nat * nat) : Prop :=
  let '(a, b, c) := x in let '(a', b', c') := y in
  (a < a' \/ a = a' /\ (b < b' \/ b = b' /\ c < c'))%nat.

Lemma less_wf : well_founded less.
Proof.
  intros [[a b] c]. revert b c. induction a as [a IHa] using lt_wf_ind. intros b.
  induction b as [b IHb] using lt_wf_ind. intros c. induction c as [c IHc] using lt_wf_ind.
  constructor. intros [[a' b'] c'] [Ha | [-> [Hb | [-> Hc]]]]; [by apply IHa | by apply IHb | by apply IHc].
Qed.

#[global] Instance less_trans : Transitive less.
Proof. intros [[? ?] ?] [[? ?] ?] [[? ?] ?]. cbn. lia. Qed.

(** One main event: a connection is closed, or the event is gone. *)
Lemma handle_main_event_less e q w w' :
  main_events w = e :: q -> handle_main_event e (set_main q w) = Ok tt w' -> less (measure w') (measure w).
Proof.
  intros Hq H. unfold measure. rewrite Hq.
  assert (Hg : forall calls, less (measure (set_epoll calls (set_main q w))) (size (sessions w), load w, length (e :: q))).
  { intros calls. unfold measure. change (load (set_epoll calls (set_main q w))) with (load w). cbn. lia. }
  assert (Hctl : forall op, epoll_ctl op (set_main q w) = Ok tt w' ->
    less (measure w') (size (sessions w), load w, length (e :: q))).
  { intros op. unfold epoll_ctl, gets, bind, modify, fault. destruct (epoll_ctl_ok _ _); [| done].
    intros [= <-]. apply Hg. }
  unfold handle_main_event in H. destruct (Event.me_type e); [| by apply Hctl in H..].
  apply close_session_delete in H as [Hm [-> | [Hs Hd]]].
  { change (load (set_main q w)) with (load w). cbn. lia. }
  cbn [less]. left. rewrite Hd. cbn [sessions set_main] in Hs |- *. rewrite size_delete_lookup by done.
  apply map_size_ne_0_lookup_2 in Hs. lia.
Qed.

Lemma handle_events_less w w' :
  main_events w <> [] -> handle_events w = Ok tt w' -> less (measure w') (measure w).
Proof.
  assert (Hloop : forall fuel w w', handle_events_loop fuel w = Ok tt w' ->
    (fuel = 0%nat \/ main_events w = []) /\ w' = w \/ less (measure w') (measure w)).
  { clear. induction fuel as [| fuel IH]; intros w w'; cbn [handle_events_loop].
    - intros [= <-]. left. by split; [left |].
    - unfold gets, bind at 1. destruct (main_events w) as [| e q] eqn:Hq.
      + intros [= <-]. left. by split; [right |].
      + unfold modify, bind at 1. unfold bind at 1. intros H. right.
        destruct (handle_main_event e (set_main q w)) as [[] w1 |] eqn:E; [| done].
        apply (handle_main_event_less e q) in E; [| done].
        apply IH in H as [[_ ->] | H]; [done | by etransitivity]. }
  unfold handle_events, gets, bind at 1. intros Hn H. apply Hloop in H as [[[H | H] _] | H]; [| done..].
  by destruct (main_events w).
Qed.

(** ** Internal steps *)

(** There is something to do: a worker has an event, the database thread a
    job, the main thread a main event. Connecting, sending and hanging up are
    the clients'. *)
Definition has_work (w : World) (l : Label) : Prop :=
  match l with
  | LWorker wid => exists e q, queues w !! wid = Some (e :: q)
  | LDb _ _ _ => job_queue w <> []
  | LMainEvents => main_events w <> []
  | LAccept _ | LReady _ _ _ _ | LKernel _ _ => False
  end.

Definition internal (w w' : World) : Prop :=
  exists l, has_work w l /\ enabled w l /\ exec l w = Ok tt w'.

(** Nothing is queued anywhere. *)
Definition at_rest (w : World) : Prop :=
  map_Forall (fun _ q => q = []) (queues w) /\ job_queue w = [] /\ main_events w = [].

Lemma internal_less w w' : internal w w' -> less (measure w') (measure w).
Proof.
  intros (l & Hl & _ & H). destruct l as [| | | wid | status data draws |]; try done; cbn [has_work exec] in *.
  - by apply handle_events_less.
  - destruct Hl as (e & q & Hq). unfold queues in Hq. rewrite lookup_fmap in Hq.
    destruct (room_workers w !! wid) as [r |] eqn:Hr; [| done]. injection Hq as Hq.
    unfold bind in H. destruct (RoomWorker.worker_step wid w) as [b w1 |] eqn:E; [| done]. injection H as <-.
    destruct (worker_step_less wid r e q w b w1 Hr Hq E) as [Hs Hw]. cbn. rewrite Hs. lia.
  - unfold db_step, gets, bind at 1 in H. destruct (job_queue w) as [| j js] eqn:Hj; [done |].
    unfold modify, bind at 1 in H. destruct (costs_run_callback (Event.on_result j) status data draws _ _ _ H) as (Hs & Hw & _).
    assert (Hp : (load (set_jobs js w) + job_weight j = load w)%nat).
    { unfold load. rewrite Hj. cbn [sum_list_with job_queue set_jobs].
      change (queues (set_jobs js w)) with (queues w). lia. }
    unfold job_weight in Hp. cbn. rewrite Hs. cbn [sessions set_jobs].
    destruct (Event.callback_event (Event.on_result j)); lia.
Qed.

(** Draws that the distribution can give. *)
Definition some_draws (n : Z) : list Z := if decide (n = 2) then [2; 2] else [2; 3].
Lemma some_draws_ok n : RoomWorkerSafe.drawable n (some_draws n).
Proof.
  intros Hn. unfold some_draws. case_decide; split_and!; try lia; try (repeat constructor; lia); try done.
Qed.

(** Whoever has work can do it, unless [epoll_ctl] fails: a query, for example,
    may fail. *)
Lemma work_enabled n w l :
  reachable n w -> has_work w l -> (exists w', internal w w') \/ exec LMainEvents w = Stop EpollCtlFailed.
Proof.
  intros Hr Hl. assert (Hi : inv w) by by eapply reachable_inv.
  assert (Hgo : forall l, has_work w l -> enabled w l ->
    (forall f, may_throw w l f -> l = LMainEvents /\ f = EpollCtlFailed) ->
    (exists w', internal w w') \/ exec LMainEvents w = Stop EpollCtlFailed).
  { intros l' Hl' He Hf. pose proof (exec_safe l' w Hi He) as H. unfold wp in H.
    destruct (exec l' w) as [[] w' | f] eqn:E; [left; by exists w', l' |]. destruct (Hf f H) as [-> ->]. by right. }
  destruct l as [| | | wid | status data draws |]; try done.
  - by apply (Hgo LMainEvents).
  - apply (Hgo (LWorker wid)); [done | | done]. destruct Hl as (e & q & Hq). unfold queues in Hq.
    rewrite lookup_fmap in Hq. cbn. by destruct (room_workers w !! wid).
  - apply (Hgo (LDb Event.DBStError [] (some_draws n))); [done | | by intros f (_ & _ & j & _ & Hs & _)].
    cbn. rewrite (reachable_worker_num n w Hr). apply some_draws_ok.
Qed.

Lemma rest_or_work w : at_rest w \/ exists l, has_work w l.
Proof.
  destruct (job_queue w) as [| j js] eqn:Hj; [| right; exists (LDb Event.DBStError [] []); cbn; congruence].
  destruct (main_events w) as [| e es] eqn:Hm; [| right; exists LMainEvents; cbn; congruence].
  destruct (decide (map_Forall (fun _ q => q = []) (queues w))) as [Hq | Hq]; [by left |]. right.
  apply map_not_Forall in Hq as (wid & q & Hq & Hne); [| apply _]. exists (LWorker wid). cbn.
  destruct q as [| e q]; [done |]. eauto.
Qed.

(** C9: left alone, the server comes to rest. From every reachable world, with
    any number of workers, when no client connects, sends or hangs up: every
    sequence of completed steps of the workers, the database thread and the main
    thread is finite, whatever their order and whatever the queries answer, so
    events do not go round for ever; and where it can go no further, nothing is
    queued anywhere (no event, no job, no main event), unless the main thread
    has been stopped by a failing [epoll_ctl]. (With fewer than two workers the
    step that places a new room does not complete, see [server_safe].) *)
Theorem server_comes_to_rest n w :
  reachable n w ->
  Acc (fun w2 w1 => internal w1 w2) w /\
  forall w', rtc internal w w' -> (forall w'', ~ internal w' w'') ->
    at_rest w' \/ exec LMainEvents w' = Stop EpollCtlFailed.
Proof.
  intros Hr. split.
  - clear Hr. remember (measure w) as m eqn:E. revert w E. induction (less_wf m) as [m _ IH].
    intros w ->. constructor. intros w2 H2. by apply (IH (measure w2)); [apply internal_less |].
  - intros w' Hs Hstuck. assert (Hr' : reachable n w').
    { unfold reachable in *. etransitivity; [exact Hr |]. eapply rtc_subrel; [| exact Hs].
      intros w1 w2 (l & _ & He & Hx). by exists l. }
    destruct (rest_or_work w') as [? | [l Hl]]; [by left |].
    destruct (work_enabled n w' l Hr' Hl) as [[w'' H] | H]; [by apply Hstuck in H | by right].
Qed.

End Server.

(** ** Witness: a client has just asked for a room that does not exist *)

Definition asking : list Label :=
  [LAccept 5; LWorker 1; LReady 5 (Some [Session.RecvData (join_frame 7); Session.RecvAgain]) false false].

Lemma server_comes_to_rest_witness :
  ~ at_rest (after asking) /\ Acc (fun w2 w1 => internal w1 w2) (after asking) /\
  internal (after asking) (after (asking ++ [LWorker 1])) /\
  internal (after (asking ++ [LWorker 1])) (after (asking ++ [LWorker 1; LMainEvents])) /\
  at_rest (after (asking ++ [LWorker 1; LMainEvents])).
Proof.
  split_and!.
  - intros (H & _). apply (map_Forall_lookup_1 _ _ 1 (default [] (queues (after asking) !! 1))) in H; by vm_compute in H.
  - apply (server_comes_to_rest 2), after_reachable.
  - exists (LWorker 1). split; [do 2 eexists; by vm_compute |].
    split; [by apply (bool_decide_unpack _); vm_compute | by vm_compute].
  - exists LMainEvents. split; [by vm_compute | split; [done | by vm_compute]].
  - split_and!; [apply (bool_decide_unpack _) | |]; by vm_compute.
Defined.

End Quiescence.
