(* ===== verification/Routing.v ===== *)
(** * Routing: the table says where each room is

    [room_to_worker_] is written by the database thread (a room is placed
    before it exists) and by the workers (a room is unplaced when it goes),
    while its readers route requests by it. This file proves the exact relation
    between the table and the workers' rooms that makes this work, for every
    interleaving: a room exists on a worker, or one event that will create it
    is in that worker's queue, exactly if the table names that worker. *)

From S2P Require Import Prelude Codec Wire Session User Room Event World RoomManager RoomWorker.
From S2P Require Import Invariant RoomWorkerSafe Server System Respects Flow.

Module Routing.
Import Protocol World Invariant Server System Respects.

(** ** Events that create rooms *)

(** The actions an event has still to run. *)
Definition rest (e : Event.RoomEvent) : list Event.RoomAction := drop (Event.current_action e) (Event.actions e).

(** A worker will run them: the result so far is no failure. *)
Definition live (e : Event.RoomEvent) : Prop := Event.result_code e = Success \/ Event.result_code e = None_.

#[global] Instance live_dec e : Decision (live e).
Proof. unfold live. apply _. Defined.

Definition creates_none (a : Event.RoomAction) : Prop :=
  Event.command a <> Event.CREATE_ROOM /\ Event.command a <> Event.REQUEST_DB_CREATE_ROOM.

Definition no_create (l : list Event.RoomAction) : Prop := Forall creates_none l.

(** What is left starts with the creation of room [k]. *)
Definition creating (l : list Event.RoomAction) (k : Z) : Prop :=
  exists l', l = Event.mkAction Event.CREATE_ROOM k :: l' /\ no_create l'.

(** What is left asks the database for a room first. *)
Definition asking (l : list Event.RoomAction) : Prop :=
  exists a l', l = a :: l' /\ Event.command a = Event.REQUEST_DB_CREATE_ROOM /\ creating l' Event.PENDING_ROOM_ID.

Definition headless (e : Event.RoomEvent) : Prop :=
  forall a, Event.actions e !! 0%nat = Some a -> Event.command a <> Event.CREATE_ROOM.

Definition event_fine (e : Event.RoomEvent) : Prop :=
  headless e /\ (~ live e \/ no_create (rest e) \/ asking (rest e) \/ exists k, creating (rest e) k).

Definition job_fine (j : Event.DBJob) : Prop :=
  match Event.on_result j with
  | Event.NoCallback => True
  | Event.DbCreateRoomOnResult e => headless e /\ creating (rest e) Event.PENDING_ROOM_ID
  | Event.DbLoadMessagesOnResult e => headless e /\ no_create (rest e)
  end.

(** Whether the next thing the event does is to create room [k]. *)
Definition creates (e : Event.RoomEvent) (k : Z) : nat :=
  match rest e with
  | a :: _ => if decide (live e /\ Event.command a = Event.CREATE_ROOM /\ Event.action_room a = k) then 1 else 0
  | [] => 0
  end.

(** ** The exact relation *)

(** The creations of room [k] queued with worker [wid]. *)
Definition creations (w : World) (wid k : Z) : nat :=
  sum_list_with (fun e => creates e k) (default [] (queues w !! wid)).

(** Whether room [k] exists on worker [wid]. *)
Definition exists_at (w : World) (wid k : Z) : nat :=
  match default ∅ (room_ids w !! wid) !! k with Some _ => 1 | None => 0 end.

Definition routed (w : World) (wid k : Z) : nat :=
  if decide (room_to_worker w !! k = Some wid) then 1 else 0.

Section Known.
(** The ids of the rooms there have been so far. *)
Variable ids : list Z.

(** With [x wid k] creations of [k] in the hands of worker [wid]. *)
Record exact (x : Z -> Z -> nat) (w : World) : Prop := {
  x_known : forall k, is_Some (room_to_worker w !! k) -> k ∈ ids;
  x_count : forall wid k, (creations w wid k + exists_at w wid k + x wid k = routed w wid k)%nat;
  x_events : map_Forall (fun _ q => Forall event_fine q) (queues w);
  x_jobs : Forall job_fine (job_queue w);
  x_ids : forall wid m k i, room_ids w !! wid = Some m -> m !! k = Some i -> i = k }.

Definition nothing (wid k : Z) : nat := 0.
Definition one (wid0 k0 wid k : Z) : nat := if decide (wid = wid0 /\ k = k0) then 1 else 0.
Definition held (wid0 : Z) (e : Event.RoomEvent) (wid k : Z) : nat := if decide (wid = wid0) then creates e k else 0.

(** What the relation looks at. *)
Definition same_routing (w w' : World) : Prop :=
  (queues w', job_queue w', room_to_worker w', room_ids w') = (queues w, job_queue w, room_to_worker w, room_ids w).

#[global] Instance same_routing_preorder : PreOrder same_routing.
Proof. split; [by intros w | intros w1 w2 w3 H1 H2; unfold same_routing in *; congruence]. Qed.

Lemma traffic_routing w w' : same_traffic w w' -> same_routing w w'.
Proof. unfold same_traffic, traffic, same_routing. by intros [= -> -> -> -> _]. Qed.

Lemma exact_same x w w' : same_routing w w' -> exact x w -> exact x w'.
Proof.
  intros [= E1 E2 E3 E4] [H0 H1 H2 H3 H4].
  split; [by rewrite E3 | | by rewrite E1 | by rewrite E2 | by intros wid m k i; rewrite E4; apply H4].
  intros wid k. specialize (H1 wid k). unfold creations, exists_at, routed in *. by rewrite E1, E3, E4.
Qed.

Lemma exact_ext x y w : (forall wid k, x wid k = y wid k) -> exact x w -> exact y w.
Proof. intros Hx [H0 H1 H2 H3 H4]. split; try done. intros wid k. by rewrite <- Hx. Qed.

(** ** Handlers *)

(** From the relation with [x] in hand to the relation with [y]. *)
Definition turns {A} (x : Z -> Z -> nat) (m : M A) (y : Z -> Z -> nat) : Prop :=
  forall w a w', exact x w -> m w = Ok a w' -> exact y w'.

Lemma turns_bind {A B} x y z (m : M A) (f : A -> M B) :
  turns x m y -> (forall a, turns y (f a) z) -> turns x (bind m f) z.
Proof.
  intros Hm Hf w b w' Hw H. unfold bind in H. destruct (m w) as [a w1 |] eqn:E; [| done].
  by apply (Hf a w1 b w'); [apply (Hm w a w1) |].
Qed.

Lemma turns_routing {A} x (m : M A) : respects any same_routing m -> turns x m x.
Proof. intros H w a w' Hw E. by apply (exact_same x w w'), Hw; apply (H w a w'). Qed.

Lemma turns_idle {A} x (m : M A) : respects any same_traffic m -> turns x m x.
Proof. intros H. apply turns_routing. eapply respects_weaken; [done | apply traffic_routing | exact H]. Qed.

Lemma turns_ret {A} x (a : A) : turns x (ret a) x.
Proof. apply turns_idle, respects_ret. Qed.

Lemma turns_then {A B} x y (m : M A) (f : A -> M B) :
  turns x m x -> (forall a, turns x (f a) y) -> turns x (bind m f) y.
Proof. apply turns_bind. Qed.

(** An event that creates nothing next, wherever it is put. *)
Lemma creates_no_create e k : no_create (rest e) -> creates e k = 0%nat.
Proof.
  unfold creates. intros H. destruct (rest e) as [| a l]; [done |]. apply Forall_cons in H as [[H _] _].
  case_decide as Hd; [by destruct Hd as (_ & ? & _) | done].
Qed.

Lemma creates_dead e k : ~ live e -> creates e k = 0%nat.
Proof. unfold creates. intros H. destruct (rest e); [done |]. case_decide as Hd; [by destruct Hd | done]. Qed.

Lemma creates_asking e k : asking (rest e) -> creates e k = 0%nat.
Proof.
  unfold creates. intros (a & l & -> & E & _). case_decide as Hd; [| done]. destruct Hd as (_ & Ec & _). congruence.
Qed.

Lemma creates_creating e k0 k :
  live e -> creating (rest e) k0 -> creates e k = if decide (k = k0) then 1%nat else 0%nat.
Proof.
  unfold creates. intros Hl (l & -> & _). cbn.
  destruct (decide (k = k0)) as [-> | Hne]; [by rewrite decide_True | by rewrite decide_False by naive_solver].
Qed.

(** Posting an event hands over what it creates. *)
Lemma exact_post x wid r e w :
  room_workers w !! wid = Some r -> event_fine e ->
  exact (fun wid' k => x wid' k + held wid e wid' k)%nat w ->
  exact x (set_workers (<[wid := set_queue (event_queue_ r ++ [e]) r]> (room_workers w)) w).
Proof.
  intros Hr He [H0 H1 H2 H3 H4]. set (w' := set_workers _ w).
  assert (Eq : queues w' = <[wid := event_queue_ r ++ [e]]> (queues w)) by by apply queues_set_queue.
  assert (Ei : room_ids w' = room_ids w) by by apply room_ids_set_queue.
  pose proof (queues_lookup w wid r Hr) as Hq. split; [exact H0 | ..].
  - intros wid' k. specialize (H1 wid' k). unfold creations, exists_at, held in *. rewrite Eq, Ei.
    change (routed w' wid' k) with (routed w wid' k). case_decide as Hd.
    + subst wid'. rewrite Hq in H1. rewrite lookup_insert_eq. unfold default, from_option, id in *.
      rewrite sum_list_with_app. cbn [sum_list_with]. lia.
    + rewrite lookup_insert_ne by done. lia.
  - rewrite Eq. apply map_Forall_insert_2; [| done]. apply Forall_app. split; [by apply (H2 wid) | by constructor].
  - exact H3.
  - intros wid' m k i. rewrite Ei. apply H4.
Qed.

Section Handlers.
Context {Indet : Indeterminate} {SService : IServerService}.

(** Routing an event that creates nothing next. *)
Lemma turns_route x e target :
  event_fine e -> (forall k, creates e k = 0%nat) -> turns x (RoomManager.route_event e target) x.
Proof.
  intros He Hc. unfold RoomManager.route_event. apply turns_then.
  { apply turns_idle. unfold RoomManager.find_worker. follow. }
  intros wid. case_decide; [apply turns_ret |]. apply (turns_bind _ x); [| intros; apply turns_ret].
  intros w a w' Hw. unfold post_event, get_worker, put_worker, bind, modify.
  destruct (room_workers w !! wid) as [r |] eqn:Hr; [| done]. intros [= _ <-]. apply exact_post; [done | done |].
  eapply exact_ext; [| exact Hw]. intros wid' k. unfold held. rewrite Hc. case_decide; lia.
Qed.

Lemma turns_route_ignored x e target :
  event_fine e -> (forall k, creates e k = 0%nat) -> turns x (RoomManager.route_event e target ;;; ret tt) x.
Proof. intros He Hc. apply (turns_bind _ x); [by apply turns_route | intros; apply turns_ret]. Qed.

Lemma turns_post_job x j : job_fine j -> turns x (post_job j) x.
Proof.
  intros Hj w a w' [H0 H1 H2 H3 H4] [= _ <-]. split; try done. apply Forall_app. by split; [| constructor].
Qed.

(** ** Creating and deleting a room *)

(** The one place where a creation becomes a room. *)
Lemma create_room_exact wid e k w a w' :
  exact (one wid k) w -> Event.actions e !! pred (Event.current_action e) = Some (Event.mkAction Event.CREATE_ROOM k) ->
  RoomWorker.create_room wid e 5 w = Ok a w' -> a = Success /\ exact nothing w'.
Proof.
  intros [H0 H1 H2 H3 H4] Ha. unfold RoomWorker.create_room, RoomWorker.current_room. rewrite Ha.
  unfold get_rooms, put_rooms, put_worker, get_worker, deref, bind, ret, modify. cbn [Event.action_room].
  destruct (room_workers w !! wid) as [r |] eqn:Hr; [| done].
  pose proof (room_ids_lookup w wid r Hr) as Hi. pose proof (H1 wid k) as Hk.
  unfold one in Hk. rewrite decide_True in Hk by done.
  assert (Hn : rooms_ r !! k = None).
  { unfold exists_at, routed in Hk. rewrite Hi in Hk. unfold default, from_option, id in Hk.
    rewrite lookup_fmap in Hk. destruct (rooms_ r !! k); [cbn in Hk; case_decide; lia | done]. }
  rewrite Hn, Hr. intros [= <- <-]. split; [done |]. set (w' := set_workers _ w).
  assert (Eq : queues w' = queues w) by by apply queues_set_rooms.
  assert (Ei : room_ids w' = <[wid := <[k := k]> (Room.room_id_ <$> rooms_ r)]> (room_ids w)).
  { unfold w'. rewrite room_ids_set_rooms. by rewrite fmap_insert. }
  split; [exact H0 | | by rewrite Eq | exact H3 |].
  - intros wid' k'. specialize (H1 wid' k'). unfold creations, exists_at, nothing, one in *. rewrite Eq, Ei.
    change (routed w' wid' k') with (routed w wid' k').
    destruct (decide (wid' = wid)) as [-> | Hne].
    + rewrite lookup_insert_eq. rewrite Hi in H1. unfold default, from_option, id in *.
      destruct (decide (k' = k)) as [-> | Hk'].
      * rewrite lookup_insert_eq. rewrite lookup_fmap, Hn, decide_True in H1 by done. cbn in H1. lia.
      * rewrite lookup_insert_ne by done. rewrite decide_False in H1 by naive_solver. lia.
    + rewrite lookup_insert_ne by done. rewrite decide_False in H1 by naive_solver. lia.
  - intros wid' m k' i. rewrite Ei. destruct (decide (wid' = wid)) as [-> | Hne].
    + rewrite lookup_insert_eq. intros [= <-]. destruct (decide (k' = k)) as [-> | Hk'].
      * rewrite lookup_insert_eq. by intros [= <-].
      * rewrite lookup_insert_ne by done. by apply (H4 wid).
    + rewrite lookup_insert_ne by done. apply H4.
Qed.

(** The one place where a room goes: its route goes with it. *)
Lemma exact_delete wid r k w :
  exact nothing w -> room_workers w !! wid = Some r -> is_Some (rooms_ r !! k) ->
  exact nothing (set_workers (<[wid := set_rooms (delete k (rooms_ r)) r]> (room_workers w))
                   (set_room_to_worker (delete k (room_to_worker w)) w)).
Proof.
  intros [H0 H1 H2 H3 H4] Hr Hk. set (w1 := set_room_to_worker _ w).
  change (room_workers w) with (room_workers w1). set (w' := set_workers _ w1).
  assert (Eq : queues w' = queues w) by by apply (queues_set_rooms wid r _ w1).
  assert (Ei : room_ids w' = <[wid := delete k (Room.room_id_ <$> rooms_ r)]> (room_ids w)).
  { unfold w'. rewrite room_ids_set_rooms. by rewrite fmap_delete. }
  pose proof (room_ids_lookup w wid r Hr) as Hi.
  assert (Hroute : room_to_worker w !! k = Some wid).
  { specialize (H1 wid k). unfold exists_at, routed in H1. rewrite Hi in H1. unfold default, from_option, id in H1.
    rewrite lookup_fmap in H1. destruct Hk as [room Hk]. rewrite Hk in H1. cbn in H1.
    case_decide; [done | lia]. }
  split; [| | by rewrite Eq | exact H3 |].
  { intros k' Hs. change (is_Some (delete k (room_to_worker w) !! k')) in Hs. by apply lookup_delete_is_Some in Hs as [_ Hs]; apply H0. }
  - intros wid' k'. specialize (H1 wid' k'). unfold creations, exists_at, nothing, routed in *. rewrite Eq, Ei.
    change (room_to_worker w') with (delete k (room_to_worker w)).
    destruct (decide (k' = k)) as [-> | Hk'].
    + rewrite lookup_delete_eq, decide_False by done.
      destruct (decide (wid' = wid)) as [-> | Hne].
      * rewrite lookup_insert_eq. unfold default, from_option, id in *. rewrite lookup_delete_eq.
        rewrite Hi, lookup_fmap in H1. destruct Hk as [room Hk]. rewrite Hk, decide_True in H1 by done. cbn in H1. lia.
      * rewrite lookup_insert_ne by done. rewrite decide_False in H1 by congruence. lia.
    + rewrite lookup_delete_ne by done. destruct (decide (wid' = wid)) as [-> | Hne].
      * rewrite lookup_insert_eq. unfold default, from_option, id in *. by rewrite lookup_delete_ne, <- H1, Hi by done.
      * by rewrite lookup_insert_ne by done.
  - intros wid' m k' i. rewrite Ei. destruct (decide (wid' = wid)) as [-> | Hne].
    + rewrite lookup_insert_eq. intros [= <-] Hd. apply lookup_delete_Some in Hd as [_ Hd]. by apply (H4 wid _ _ _ Hi).
    + rewrite lookup_insert_ne by done. apply H4.
Qed.

Lemma turns_leave_room_fd wid fd k : turns nothing (RoomWorker.leave_room_fd wid fd k) nothing.
Proof.
  intros w a w' Hw. unfold RoomWorker.leave_room_fd, get_rooms, get_worker, bind at 1, ret.
  unfold bind at 1. destruct (room_workers w !! wid) as [r |] eqn:Hr; [| done].
  destruct (rooms_ r !! k) as [room |] eqn:Hk; [| by intros [= _ <-]].
  destruct (Room.exit_session fd room) as [b room'] eqn:Ex. destruct b; [| by intros [= _ <-]].
  assert (Eid : Room.room_id_ room' = Room.room_id_ room).
  { unfold Room.exit_session in Ex. by destruct (Room.sessions_ room !! fd); [injection Ex as <- | done]. }
  unfold put_rooms, get_worker, put_worker, bind, modify. rewrite Hr.
  set (r1 := set_rooms (<[k := room']> (rooms_ r)) r).
  set (w1 := set_workers (<[wid := r1]> (room_workers w)) w).
  assert (Hw1 : exact nothing w1).
  { eapply exact_same; [| exact Hw]. by apply traffic_routing, (traffic_same_rooms wid r k room). }
  assert (Hr1 : room_workers w1 !! wid = Some r1) by apply lookup_insert_eq. rewrite Hr1.
  case_decide; [| by intros [= _ <-]]. unfold RoomManager.erase_room_to_worker, modify.
  assert (Ek : Room.room_id_ room' = k).
  { rewrite Eid. apply (x_ids _ _ Hw wid _ k _ (room_ids_lookup w wid r Hr)). by rewrite lookup_fmap, Hk. }
  rewrite Ek. cbn [room_workers set_room_to_worker]. rewrite Hr1. intros [= _ <-].
  apply (exact_delete wid r1 k w1 Hw1 Hr1). exists room'. apply lookup_insert_eq.
Qed.

Lemma turns_leave_room wid e : turns nothing (RoomWorker.leave_room wid e) nothing.
Proof.
  unfold RoomWorker.leave_room. apply turns_then; [apply turns_idle, idle_session_fd |]. intros fd.
  apply turns_then; [apply turns_idle, idle_current_room |]. intros k. apply turns_leave_room_fd.
Qed.

Lemma turns_diconnect wid fd k : turns nothing (RoomWorker.diconnect_session wid fd k) nothing.
Proof.
  unfold RoomWorker.diconnect_session. apply turns_then; [apply turns_leave_room_fd |]. intros r.
  case_decide; [apply turns_ret |]. apply turns_then; [apply turns_idle, idle_get_rooms |]. intros rooms.
  induction ((fun p => Room.room_id_ p.2) <$> map_to_list rooms) as [| k' ks IH];
    cbn [RoomWorker.leave_first]; [apply turns_ret |].
  apply turns_then; [apply turns_leave_room_fd |]. intros r'. case_decide; [apply turns_ret | exact IH].
Qed.

(** ** The action interpreter *)

(** A failing action: no route is erased, as no event begins with CREATE_ROOM. *)
Lemma turns_after_action x e cmd k :
  headless e -> turns x (k e) x -> turns x (RoomWorker.after_action e cmd k) x.
Proof.
  intros He Hk. unfold RoomWorker.after_action. case_decide; [| done].
  intros w a w' Hw. unfold deref. destruct (Event.actions e !! 0%nat) as [first |] eqn:Ea; [| done].
  unfold bind at 1, ret. rewrite decide_False by by apply He. unfold bind, ret.
  apply turns_idle; [apply idle_send_response | done].
Qed.

Lemma turns_operation x e cmd (m : M Result) k :
  headless e -> turns x m x -> (forall r, turns x (k (Event.set_result r e)) x) ->
  turns x (let* r := m in RoomWorker.after_action (Event.set_result r e) cmd k) x.
Proof. intros He Hm Hk. apply turns_then; [done |]. intros r. by apply turns_after_action. Qed.

(** Fetching the next action. *)
Lemma rest_fetch e act :
  Event.actions e !! Event.current_action e = Some act ->
  rest e = act :: rest (Event.set_current (S (Event.current_action e)) e).
Proof. intros H. unfold rest. cbn. by apply drop_S. Qed.

Lemma fine_no_create e : headless e -> no_create (rest e) -> event_fine e.
Proof. intros H1 H2. split; [done |]. right. by left. Qed.

(** An event that creates nothing keeps the relation. *)
Lemma turns_loop_no_create fuel wid e :
  headless e -> no_create (rest e) -> turns nothing (RoomWorker.process_loop fuel wid e) nothing.
Proof.
  revert e. induction fuel as [| fuel IH]; intros e He Hc; cbn [RoomWorker.process_loop]; [apply turns_ret |].
  case_decide; [| apply turns_ret]. case_decide; [apply turns_idle, idle_send_response |].
  unfold deref. destruct (Event.actions e !! _) as [act |] eqn:Ea; [| done].
  rewrite bind_ret. pose proof (rest_fetch e act Ea) as Er. set (e1 := Event.set_current _ e) in *.
  assert (He1 : headless e1) by exact He. rewrite Er in Hc. apply Forall_cons in Hc as [[Hcc Hcd] Hc].
  assert (Hf : forall t, event_fine (Event.set_target t e1) /\ forall k, creates (Event.set_target t e1) k = 0%nat).
  { intros t. split; [by apply fine_no_create |]. intros k. by apply creates_no_create. }
  assert (Hk : forall r, turns nothing (RoomWorker.process_loop fuel wid (Event.set_result r e1)) nothing).
  { intros r. by apply IH. }
  destruct (Event.command act); try done.
  - apply turns_operation; [done | apply turns_idle, idle_join_room | exact Hk].
  - apply turns_operation; [done | apply turns_leave_room | exact Hk].
  - apply turns_operation; [done | apply turns_idle, idle_send_message | exact Hk].
  - apply turns_then; [apply turns_idle, idle_current_room | intros k; by apply turns_post_job].
  - apply turns_then; [| intros _; apply turns_after_action; [done | by apply IH]].
    unfold RoomWorker.save_message. do 2 (apply turns_then; [apply turns_idle; follow | intros ?]).
    apply turns_then; [apply turns_idle, respects_gets; apply _ | intros um]. by apply turns_post_job.
  - apply turns_route_ignored; apply Hf.
  - apply turns_route_ignored; apply Hf.
  - apply turns_idle, idle_send_response.
  - apply turns_idle, idle_flush.
  - apply turns_then; [apply turns_diconnect | intros; apply turns_ret].
Qed.

(** A failed event is answered; one that asks for a room becomes a job. *)
Lemma turns_loop_quiet fuel wid e :
  headless e -> ~ live e \/ no_create (rest e) \/ asking (rest e) ->
  turns nothing (RoomWorker.process_loop fuel wid e) nothing.
Proof.
  intros He [Hl | [Hc | Hq]]; [| by apply turns_loop_no_create |].
  - destruct fuel; cbn [RoomWorker.process_loop]; [apply turns_ret |].
    case_decide; [| apply turns_ret]. rewrite decide_True by (unfold live in Hl; tauto).
    apply turns_idle, idle_send_response.
  - destruct Hq as (a & l & Er & Ec & Hl). destruct fuel; cbn [RoomWorker.process_loop]; [apply turns_ret |].
    case_decide; [| apply turns_ret]. case_decide; [apply turns_idle, idle_send_response |].
    unfold deref. destruct (Event.actions e !! _) as [act |] eqn:Ea; [| done]. rewrite bind_ret.
    pose proof (rest_fetch e act Ea) as Ef. rewrite Er in Ef. injection Ef as -> Ef. rewrite Ec.
    apply turns_post_job. cbn. split; [exact He | by rewrite Ef in Hl].
Qed.

(** The creating event makes its room, which then exists in its place. *)
Lemma turns_loop_creating fuel wid e k :
  headless e -> live e -> creating (rest e) k ->
  turns (one wid k) (RoomWorker.process_loop (S fuel) wid e) nothing.
Proof.
  intros He Hl (l & Er & Hc). cbn [RoomWorker.process_loop].
  destruct (Event.actions e !! Event.current_action e) as [act |] eqn:Ea.
  2: { apply lookup_ge_None in Ea. unfold rest in Er. by rewrite drop_ge in Er. }
  rewrite decide_True by by apply lookup_lt_Some in Ea.
  rewrite decide_False by (unfold live in Hl; naive_solver). unfold deref. rewrite bind_ret.
  pose proof (rest_fetch e act Ea) as Ef. rewrite Er in Ef. injection Ef as <- Ef.
  set (e1 := Event.set_current _ e) in *. cbn [Event.command]. intros w a w' Hw H. unfold bind in H.
  destruct (RoomWorker.create_room wid e1 5 w) as [r w1 |] eqn:E; [| done].
  destruct (create_room_exact wid e1 k w r w1 Hw Ea E) as [-> Hw1].
  revert H. apply turns_after_action; [exact He | | done].
  apply turns_loop_no_create; [exact He |]. unfold rest in *. cbn in *. by rewrite <- Ef.
Qed.

(** ** A worker's step *)

Lemma exact_pop wid r e q w :
  room_workers w !! wid = Some r -> event_queue_ r = e :: q -> exact nothing w ->
  event_fine e /\ exact (held wid e) (set_workers (<[wid := set_queue q r]> (room_workers w)) w).
Proof.
  intros Hr Hq [H0 H1 H2 H3 H4]. set (w' := set_workers _ w).
  assert (Eq : queues w' = <[wid := q]> (queues w)) by by apply queues_set_queue.
  assert (Ei : room_ids w' = room_ids w) by by apply room_ids_set_queue.
  pose proof (queues_lookup w wid r Hr) as Hl. rewrite Hq in Hl.
  assert (Hf : event_fine e /\ Forall event_fine q) by (apply Forall_cons, (H2 wid _ Hl)).
  split; [apply Hf |]. split; [exact H0 | ..].
  - intros wid' k. specialize (H1 wid' k). unfold creations, exists_at, held, nothing in *. rewrite Eq, Ei.
    change (routed w' wid' k) with (routed w wid' k). case_decide as Hd.
    + subst wid'. rewrite Hl in H1. rewrite lookup_insert_eq. unfold default, from_option, id in *.
      cbn [sum_list_with] in H1. lia.
    + rewrite lookup_insert_ne by done. lia.
  - rewrite Eq. apply map_Forall_insert_2; [apply Hf | done].
  - exact H3.
  - intros wid' m k i. rewrite Ei. apply H4.
Qed.

Lemma turns_worker_step wid : turns nothing (RoomWorker.worker_step wid) nothing.
Proof.
  intros w b w' Hw. unfold RoomWorker.worker_step, get_worker, bind at 1.
  destruct (room_workers w !! wid) as [r |] eqn:Hr; [| done].
  destruct (event_queue_ r) as [| e q] eqn:Hq; [by intros [= _ <-] |]. unfold put_worker, modify, bind at 1.
  destruct (exact_pop wid r e q w Hr Hq Hw) as [[He Hf] Hw1].
  apply (turns_bind (held wid e) nothing); [| intros; apply turns_ret | exact Hw1]. clear w w' Hw Hr Hw1.
  assert (Hquiet : ~ live e \/ no_create (rest e) \/ asking (rest e) ->
    turns (held wid e) (RoomWorker.process_event wid e) nothing).
  { intros Hx w a w' Hw. apply (turns_loop_quiet _ wid e He Hx). eapply exact_ext; [| exact Hw].
    intros wid' k. unfold held, nothing. case_decide; [| done].
    destruct Hx as [? | [? | ?]]; [by apply creates_dead | by apply creates_no_create | by apply creates_asking]. }
  destruct (decide (live e)) as [Hl | Hl]; [| by apply Hquiet; left].
  destruct Hf as [? | [? | [? | [k Hk]]]]; [by apply Hquiet; left | by apply Hquiet; right; left | by apply Hquiet; right; right |].
  intros w a w' Hw. unfold RoomWorker.process_event. apply (turns_loop_creating _ wid e k He Hl Hk).
  eapply exact_ext; [| exact Hw]. intros wid' k'. unfold held, one. rewrite (creates_creating e k k' Hl Hk).
  repeat case_decide; naive_solver.
Qed.

(** ** The callbacks of the database thread *)

Lemma no_create_resolve k l : no_create l -> no_create (Event.resolve_action k <$> l).
Proof.
  intros H. apply Forall_fmap. eapply Forall_impl; [exact H |]. intros a Ha. unfold creates_none in *. cbn.
  by rewrite Event.resolve_action_command.
Qed.

(** The event with which an issued room comes back. *)
Lemma resolved_creating k data e :
  headless e -> creating (rest e) Event.PENDING_ROOM_ID ->
  let e' := Event.set_response data (Event.resolve_room_id k (Event.set_result Success e)) in
  event_fine e' /\ live e' /\ creating (rest e') k.
Proof.
  intros He (l & Er & Hl) e'. assert (Hc : creating (rest e') k).
  { exists (Event.resolve_action k <$> l). split; [| by apply no_create_resolve].
    unfold rest, e' in *. cbn. rewrite <- fmap_drop, Er. cbn. unfold Event.resolve_action.
    by rewrite decide_True. }
  split_and!; [| by left | exact Hc]. split; [| right; right; right; eauto].
  intros a Ha. unfold e' in Ha. cbn in Ha. rewrite list_lookup_fmap in Ha.
  destruct (Event.actions e !! 0%nat) as [a0 |] eqn:E0; [| done]. injection Ha as <-.
  rewrite Event.resolve_action_command. by apply He.
Qed.

Lemma bind_room_worker_ok k draws w wid w' :
  RoomManager.bind_room_worker k draws w = Ok wid w' ->
  2 <= room_worker_num w /\ wid ∈ draws /\ w' = set_room_to_worker (emplace k wid (room_to_worker w)) w.
Proof.
  unfold RoomManager.bind_room_worker, RoomManager.get_rooms_num, gets, bind, ret, modify, get_worker.
  unfold RoomManager.LOBBY_WORKER_ID. case_decide; [done |].
  destruct draws as [| first draws]; [done |]. cbn [mbind option_bind].
  destruct (RoomManager.draw_second _ _ _) as [second |] eqn:Ed; [| done]. unfold deref, ret. cbn [mbind option_bind].
  apply RoomManager.draw_second_spec in Ed as [Hin _].
  destruct (room_workers w !! first); [| done]. destruct (room_workers w !! second); [| done].
  intros [= <- <-]. split_and!; [lia | | done]. case_decide; [by left | by right].
Qed.

(** A room that is not routed anywhere is placed. *)
Lemma exact_place k wid w :
  exact nothing w -> k ∈ ids -> room_to_worker w !! k = None ->
  exact (one wid k) (set_room_to_worker (emplace k wid (room_to_worker w)) w).
Proof.
  intros [H0 H1 H2 H3 H4] Hin Hk. split; [| | exact H2 | exact H3 | exact H4].
  { intros k' Hs. change (is_Some (emplace k wid (room_to_worker w) !! k')) in Hs.
    rewrite emplace_fresh in Hs by done. apply lookup_insert_is_Some' in Hs as [<- | Hs]; auto. }
  intros wid' k'. specialize (H1 wid' k').
  rewrite emplace_fresh by done. set (w' := set_room_to_worker _ w).
  change (creations w' wid' k') with (creations w wid' k'). change (exists_at w' wid' k') with (exists_at w wid' k').
  unfold routed, nothing, one in *. change (room_to_worker w') with (<[k := wid]> (room_to_worker w)).
  destruct (decide (k' = k)) as [-> | Hne].
  - rewrite lookup_insert_eq. rewrite Hk, decide_False in H1 by done.
    destruct (decide (wid' = wid)) as [-> | Hw]; [rewrite !decide_True by done | rewrite !decide_False by naive_solver]; lia.
  - rewrite lookup_insert_ne by done. rewrite (decide_False (P := _ /\ _)) by naive_solver. lia.
Qed.

(** The id a query result stands for, if the callback takes it for one. *)
Definition issued (status : Event.DBStatus) (data : bytes) : option Z :=
  match Codec.take 8 (Codec.reader data) with
  | (Some b, _) => if decide (status = Event.DBStError) then None else Some (i64_dec b)
  | _ => None
  end.

Lemma db_create_exact e status data draws w w' :
  headless e -> creating (rest e) Event.PENDING_ROOM_ID -> exact nothing w -> (2 <= room_worker_num w -> 0 ∉ draws) ->
  (forall k, issued status data = Some k -> k ∈ ids /\ room_to_worker w !! k = None) ->
  RoomWorker.db_create_room_on_result e status data draws w = Ok tt w' -> exact nothing w'.
Proof.
  intros He Hc Hw Hd Hfresh. unfold issued in Hfresh. unfold RoomWorker.db_create_room_on_result.
  destruct (Codec.take 8 _) as [taken rd]. destruct (if decide _ then None else taken) as [b |] eqn:Eb.
  - assert (Hk : i64_dec b ∈ ids /\ room_to_worker w !! i64_dec b = None).
    { destruct taken as [b' |]; [| by case_decide]. case_decide; [done |]. injection Eb as ->. by apply Hfresh. }
    destruct Hk as [Hin0 Hk]. clear Hfresh Eb. intros H.
    destruct (resolved_creating (i64_dec b) data e He Hc) as (Hf & Hl & Hcr). cbn zeta in *.
    set (e' := Event.set_response data _) in *. change (Event.target_room_id e') with (i64_dec b) in H.
    unfold bind at 1 in H. destruct (RoomManager.bind_room_worker _ draws w) as [wid w1 |] eqn:Ew; [| done].
    apply bind_room_worker_ok in Ew as (Hn & Hin & ->). specialize (Hd Hn).
    pose proof (exact_place (i64_dec b) wid w Hw Hin0 Hk) as Hw1. set (w1 := set_room_to_worker _ w) in *.
    assert (Hwid : wid <> 0) by (by intros ->).
    unfold RoomManager.route_event, bind, ret in H. rewrite decide_False in H by done. rewrite decide_False in H by done.
    unfold post_event, get_worker, put_worker, bind, modify in H.
    destruct (room_workers w1 !! wid) as [r |] eqn:Hr; [| done]. injection H as <-.
    refine (exact_post nothing wid r e' w1 Hr Hf _). eapply exact_ext; [| exact Hw1].
    intros wid' k'. unfold one, held, nothing. rewrite (creates_creating e' (i64_dec b) k' Hl Hcr).
    repeat case_decide; naive_solver.
  - apply turns_route_ignored; [| | exact Hw].
    + split; [exact He |]. left. by intros [? | ?].
    + intros k. apply creates_dead. by intros [? | ?].
Qed.

Lemma turns_db_load e status data :
  headless e -> no_create (rest e) -> turns nothing (RoomWorker.db_load_messages_on_result e status data) nothing.
Proof.
  intros He Hc. unfold RoomWorker.db_load_messages_on_result.
  set (e1 := match status with Event.DBSuccess => _ | _ => _ end).
  assert (H1 : headless e1 /\ no_create (rest e1)) by (split; by destruct status). destruct H1. clearbody e1.
  apply turns_then; [apply turns_idle, idle_current_room |]. intros k.
  apply turns_route_ignored; [by apply fine_no_create | intros k'; by apply creates_no_create].
Qed.

(** ** Events made outside the workers *)

(** The plans: five ask for nothing, one asks the database for a room. *)
Lemma plan_fine packet sid :
  let e := RoomManager.plan (RoomManager.packet_event packet sid) in
  event_fine e /\ forall k, creates e k = 0%nat.
Proof.
  intros e. assert (H : headless e /\ (no_create (rest e) \/ asking (rest e))).
  { unfold e, RoomManager.plan. destruct (to_command _) as [[] |].
    - split; [by intros a [= <-] |]. right. do 2 eexists. split; [reflexivity |]. split; [done |].
      eexists. split; [reflexivity |]. repeat constructor; done.
    - split; [by intros a [= <-] |]. left. repeat constructor; done.
    - split; [by intros a [= <-] |]. left. repeat constructor; done.
    - split; [by intros a [= <-] |]. left. repeat constructor; done.
    - split; [by intros a [= <-] |]. left. repeat constructor; done.
    - split; [done |]. left. constructor. }
  destruct H as [H1 [H2 | H2]].
  - split; [by apply fine_no_create | intros k; by apply creates_no_create].
  - split; [split; [done | by right; right; left] | intros k; by apply creates_asking].
Qed.

(** An event of one action that is no creation. *)
Lemma single_fine e a :
  Event.actions e = [a] -> Event.current_action e = 0%nat -> creates_none a ->
  event_fine e /\ forall k, creates e k = 0%nat.
Proof.
  intros Ea Ec Ha. assert (Hc : no_create (rest e)) by (unfold rest; rewrite Ea, Ec; constructor; [exact Ha | constructor]).
  split; [| intros k; by apply creates_no_create]. apply fine_no_create; [| done].
  intros a' H. rewrite Ea in H. injection H as <-. apply Ha.
Qed.

Lemma turns_dispatch x packet sid : turns x (RoomManager.dispatch_packet packet sid) x.
Proof.
  unfold RoomManager.dispatch_packet. destruct (plan_fine packet sid) as [H1 H2].
  apply turns_then; [by apply turns_route |]. intros r. case_decide; [| apply turns_ret].
  eapply turns_route_ignored; [eapply (single_fine _ (Event.mkAction Event.SEND_RESPONSE 0)); done.. |].
  intros k. apply (single_fine _ (Event.mkAction Event.SEND_RESPONSE 0)); done.
Qed.

Lemma turns_disconnect x fd k : turns x (RoomManager.disconnect_session fd k) x.
Proof.
  unfold RoomManager.disconnect_session. apply turns_then; [apply turns_idle, respects_gets; apply _ |].
  intros junk. apply turns_route_ignored; [| intros k'];
    apply (single_fine _ (Event.mkAction Event.DISCONNECT_SESSION k)); done.
Qed.

Lemma turns_request_flush x sid : turns x (RoomManager.request_flush sid) x.
Proof.
  unfold RoomManager.request_flush. apply turns_then; [apply turns_idle, idle_session_fd |]. intros fd.
  apply turns_then; [apply turns_idle, respects_gets; apply _ |]. intros um.
  destruct (User.get_user fd um); [| apply turns_ret].
  apply turns_then; [apply turns_idle, respects_gets; apply _ |]. intros junk.
  apply turns_route_ignored; [| intros k'];
    apply (single_fine _ (Event.mkAction Event.FLUSH 0)); done.
Qed.

End Handlers.

(** ** The main thread and the database thread *)

Section Main.
Context {Indet : Indeterminate} {Kernel : EpollKernel}.

Abbreviation steady m := (respects any same_routing m).

Lemma steady_epoll_ctl op : steady (epoll_ctl op).
Proof. unfold epoll_ctl. apply respects_bind; [done | apply respects_gets |]. intros c. case_match; [by apply respects_modify | apply respects_fault]. Qed.

Lemma steady_add_session fd : steady (add_session fd).
Proof.
  unfold add_session. apply respects_bind; [done | apply respects_gets |]. intros sid.
  apply respects_bind; [done | by apply respects_modify |]. intros _. by apply respects_modify.
Qed.

Lemma turns_modify x f : (forall w, same_routing w (f w)) -> turns x (modify f) x.
Proof. intros H. apply turns_routing, respects_modify. intros w _. apply H. Qed.

Lemma turns_gets {A} x (f : World -> A) : turns x (gets f) x.
Proof. apply turns_idle, respects_gets. Qed.

Lemma turns_accept x fd : turns x (accept_client fd) x.
Proof.
  unfold accept_client. case_decide; [apply turns_ret |].
  apply turns_then; [apply turns_routing, steady_epoll_ctl | intros _].
  apply turns_then; [apply turns_routing, steady_add_session | intros _].
  apply turns_then; [by apply turns_modify | intros _]. apply turns_then; [apply turns_gets | intros total].
  apply turns_then; [by apply turns_modify | intros _]. apply turns_then; [apply turns_gets | intros junk].
  apply turns_then; [apply turns_gets | intros session].
  apply turns_route_ignored; [| intros k];
    apply (single_fine _ (Event.mkAction Event.JOIN_ROOM RoomManager.LOBBY_ROOM_ID)); done.
Qed.

Lemma turns_close x fd : turns x (close_session fd) x.
Proof.
  unfold close_session. apply turns_then; [apply turns_gets |]. intros [sid |]; [| apply turns_ret].
  apply turns_then; [by apply turns_modify | intros _]. apply turns_then; [apply turns_gets | intros um].
  apply turns_then; [apply turns_idle, respects_deref | intros user].
  apply turns_then; [by apply turns_modify | intros _].
  apply turns_then; [apply turns_idle, respects_get_session | intros s].
  apply turns_then; [by apply turns_modify | intros _]. apply turns_then; [apply turns_disconnect | intros _].
  apply turns_then; [case_decide; [apply turns_disconnect | apply turns_ret] | intros _].
  apply turns_then; [by apply turns_modify | intros _]. by apply turns_modify.
Qed.

Lemma turns_handle_packets x fuel sid : turns x (handle_packets fuel sid) x.
Proof.
  induction fuel as [| fuel IH]; cbn [handle_packets]; [apply turns_ret |].
  apply turns_then; [apply turns_idle, respects_get_session | intros s].
  destruct (Session.extract_packet _ s) as [[[] p] s']; [| by apply turns_modify].
  apply turns_then; [by apply turns_modify | intros _]. apply turns_then; [apply turns_dispatch | done].
Qed.

Lemma turns_on_ready x fd epollin epollout hangup : turns x (on_ready fd epollin epollout hangup) x.
Proof.
  unfold on_ready. apply turns_then.
  { destruct epollin as [ins |]; [| apply turns_ret]. unfold handle_request.
    apply turns_then; [apply turns_gets |]. intros [sid |]; [| apply turns_close].
    apply turns_then; [apply turns_idle, respects_get_session | intros s].
    destruct (Session.on_readable ins s) as [b s']. apply turns_then; [by apply turns_modify | intros _].
    destruct b; [apply turns_handle_packets | apply turns_close]. }
  intros _. apply turns_then.
  { destruct epollout; [| apply turns_ret]. unfold handle_epollout.
    apply turns_then; [apply turns_gets |]. intros [sid |]; [apply turns_request_flush | apply turns_close]. }
  intros _. destruct hangup; [apply turns_close | apply turns_ret].
Qed.

Lemma turns_handle_events x : turns x handle_events x.
Proof.
  unfold handle_events. apply turns_then; [apply turns_gets |]. intros n.
  induction n as [| n IH]; cbn [handle_events_loop]; [apply turns_ret |].
  apply turns_then; [apply turns_gets |]. intros [| e q]; [apply turns_ret |].
  apply turns_then; [by apply turns_modify | intros _]. apply turns_then; [| done]. unfold handle_main_event.
  destruct (Event.me_type e); [apply turns_close | apply turns_routing, steady_epoll_ctl..].
Qed.

(** The room id a step makes the database thread bind. *)
Definition issued_by (w : World) (l : Label) : option Z :=
  match l, job_queue w with
  | LDb status data _, j :: _ =>
      match Event.on_result j with Event.DbCreateRoomOnResult _ => issued status data | _ => None end
  | _, _ => None
  end.

Lemma db_step_exact status data draws w w' :
  exact nothing w -> (2 <= room_worker_num w -> 0 ∉ draws) ->
  (forall k, issued_by w (LDb status data draws) = Some k -> k ∈ ids /\ room_to_worker w !! k = None) ->
  db_step status data draws w = Ok tt w' -> exact nothing w'.
Proof.
  intros Hw Hd Hk. unfold db_step, gets, bind at 1. unfold issued_by in Hk. pose proof (x_jobs _ _ Hw) as Hj.
  destruct (job_queue w) as [| j js] eqn:Ej; [by intros [= <-] |]. apply Forall_cons in Hj as [Hj Hjs].
  unfold modify, bind at 1. assert (Hw1 : exact nothing (set_jobs js w)) by by destruct Hw.
  unfold RoomWorker.run_callback, job_fine in *. destruct (Event.on_result j) as [| e | e].
  - by intros [= <-].
  - apply db_create_exact; [apply Hj.. | exact Hw1 | done | exact Hk].
  - intros H. by apply (turns_db_load e status data (proj1 Hj) (proj2 Hj) _ tt w' Hw1).
Qed.

Lemma exec_exact w l w' :
  exact nothing w -> enabled w l ->
  (forall k, issued_by w l = Some k -> k ∈ ids /\ room_to_worker w !! k = None) ->
  exec l w = Ok tt w' -> exact nothing w'.
Proof.
  intros Hw He Hk. destruct l; cbn [exec].
  - by apply turns_accept.
  - by apply turns_on_ready.
  - by apply turns_handle_events.
  - refine (turns_then nothing nothing _ _ (turns_worker_step wid) _ w tt w' Hw). intros; apply turns_ret.
  - apply db_step_exact; [done | | done]. intros Hn H. destruct (He Hn) as (_ & Hr & _).
    rewrite Forall_forall in Hr. specialize (Hr _ H). lia.
  - apply turns_routing; [| done]. unfold set_outs.
    apply respects_bind; [done | apply respects_get_session | intros; by apply respects_modify].
Qed.
End Main.
End Known.

(** More ids known: nothing else changes. *)
Lemma exact_known ids ids' x w : ids ⊆ ids' -> exact ids x w -> exact ids' x w.
Proof. intros Hs [H0 H1 H2 H3 H4]. split; auto. Qed.

(** ** Runs on a database that issues ids *)

Section Serves.
Context {Indet : Indeterminate} {Kernel : EpollKernel}.

(** The worlds a server reaches on a database that never issues a room id
    twice ([BIGSERIAL PRIMARY KEY] in sql/schema.sql, where the lobby's row 1
    is inserted beforehand), with the ids it knows of. *)
Inductive serves (n : Z) : list Z -> World -> Prop :=
  | serves_init : serves n [RoomManager.LOBBY_ROOM_ID] (RoomManager.init_world n)
  | serves_step ids w l w' :
      serves n ids w -> enabled w l -> (forall k, issued_by w l = Some k -> k ∉ ids) ->
      exec l w = Ok tt w' -> serves n (option_list (issued_by w l) ++ ids) w'.

Lemma init_exact n : exact [RoomManager.LOBBY_ROOM_ID] nothing (RoomManager.init_world n).
Proof.
  assert (Hroutes : room_to_worker (RoomManager.init_world n) = {[1 := 1]}) by done.
  assert (Hlobby : Room.room_id_ <$> rooms_ (RoomManager.new_worker WLobby) = {[1 := 1]}).
  { unfold RoomManager.new_worker. cbn [rooms_]. by rewrite map_fmap_singleton. }
  split.
  - intros k. rewrite Hroutes. intros [wid Hk]. apply lookup_singleton_Some in Hk as [<- _]. by left.
  - intros wid k. unfold creations, exists_at, routed, nothing, queues, room_ids. rewrite Hroutes, !lookup_fmap.
    cbn [room_workers RoomManager.init_world].
    destruct (decide (wid = 1)) as [-> | Hne].
    + destruct (init_workers_ids n 1) as [r Hr]; [lia |]. rewrite Hr. apply lookup_init_workers in Hr as ->.
      change (worker_type 1) with WLobby. unfold default, from_option, id, fmap, option_fmap, option_map.
      fold (fmap (M := gmap Z) Room.room_id_). rewrite Hlobby.
      destruct (decide (k = 1)) as [-> | Hk]; [by rewrite !lookup_singleton_eq |].
      by rewrite !lookup_singleton_ne by done.
    + rewrite decide_False by (intros [_ H]%lookup_singleton_Some; congruence).
      destruct (RoomManager.init_workers n !! wid) as [r |] eqn:Hr; [| done].
      apply lookup_init_workers in Hr as ->. unfold RoomManager.new_worker, worker_type. by rewrite decide_False.
  - intros wid q. unfold queues. rewrite lookup_fmap. cbn [room_workers RoomManager.init_world].
    destruct (_ !! wid) as [r |] eqn:Hr; [| done]. apply lookup_init_workers in Hr as ->. intros [= <-]. constructor.
  - constructor.
  - intros wid m k i. unfold room_ids. rewrite lookup_fmap. cbn [room_workers RoomManager.init_world].
    destruct (_ !! wid) as [r |] eqn:Hr; [| done]. apply lookup_init_workers in Hr as ->. intros [= <-].
    destruct (worker_type wid); [by rewrite fmap_empty |].
    rewrite map_fmap_singleton. by intros [<- <-]%lookup_singleton_Some.
Qed.

Lemma serves_exact n ids w : serves n ids w -> exact ids nothing w.
Proof.
  induction 1 as [| ids w l w' _ IH He Hk Hx]; [apply init_exact |].
  apply (exec_exact _ w l); [| done | | done].
  - eapply exact_known, IH. set_solver.
  - intros k Hi. rewrite Hi. split; [by left |]. apply eq_None_not_Some. intros Hs. by apply (Hk k Hi), (x_known _ _ _ IH).
Qed.

(** C8: the routing table is exact. On a server whose database never issues a
    room id twice, under every interleaving: the rooms [k] that exist on worker
    [wid] and the queued events that will create it there are one in all if
    [room_to_worker_] sends [k] to [wid], and none otherwise. So a routed room
    exists, or exactly one event that creates it waits where it is routed; a
    room that is not routed exists nowhere, so the route goes with the room; and
    a room lives on one worker only. *)
Theorem routing_exact n ids w :
  serves n ids w ->
  (forall wid k, (creations w wid k + exists_at w wid k = routed w wid k)%nat) /\
  (forall wid wid' r r' k, room_workers w !! wid = Some r -> room_workers w !! wid' = Some r' ->
     is_Some (rooms_ r !! k) -> is_Some (rooms_ r' !! k) -> wid = wid').
Proof.
  intros Hs%serves_exact. pose proof (x_count _ _ _ Hs) as H.
  assert (Hc : forall wid k, (creations w wid k + exists_at w wid k = routed w wid k)%nat).
  { intros wid k. specialize (H wid k). unfold nothing in H. lia. }
  split; [exact Hc |].
  assert (Hroute : forall wid r k, room_workers w !! wid = Some r -> is_Some (rooms_ r !! k) ->
    room_to_worker w !! k = Some wid).
  { intros wid r k Hr [room Hk]. specialize (Hc wid k). unfold exists_at, routed in Hc.
    rewrite (room_ids_lookup w wid r Hr) in Hc. cbn in Hc. rewrite lookup_fmap, Hk in Hc. cbn in Hc.
    case_decide; [done | lia]. }
  intros wid wid' r r' k Hr Hr' Hk Hk'. pose proof (Hroute _ _ _ Hr Hk) as E. rewrite (Hroute _ _ _ Hr' Hk') in E.
  by injection E.
Qed.

End Serves.

(** ** A run with a room *)

(** Running a schedule with fresh ids. *)
Fixpoint serve (ls : list Label) (ids : list Z) (w : World) : option (list Z * World) :=
  match ls with
  | [] => Some (ids, w)
  | l :: ls' =>
      if decide (enabled w l) then
        if decide (Forall (fun k => k ∉ ids) (option_list (issued_by w l))) then
          match exec l w with Ok _ w' => serve ls' (option_list (issued_by w l) ++ ids) w' | Stop _ => None end
        else None
      else None
  end.

Lemma serve_serves n ls ids w ids' w' : serves n ids w -> serve ls ids w = Some (ids', w') -> serves n ids' w'.
Proof.
  revert ids w. induction ls as [| l ls IH]; intros ids w Hw H; cbn [serve] in H; [by injection H as <- <- |].
  case_decide as He; [| done]. case_decide as Hk; [| done]. destruct (exec l w) as [[] w1 |] eqn:E; [| done].
  apply (IH _ _ (serves_step n ids w l w1 Hw He ltac:(intros k Hi; rewrite Hi in Hk; by apply Forall_inv in Hk) E) H).
Qed.

(** A client is let into the lobby and asks for a room, and worker 2 is drawn:
    room 100 is first a creation in that worker's queue and then a room. *)
Definition ordering_a_room : list Label :=
  [LAccept 5; LWorker 1;
   Flow.sends 5 CMD_CREATE_ROOM 0; LWorker 1;
   LDb Event.DBSuccess (i64_enc 100) [2; 2]].

Definition served (ls : list Label) : list Z * World :=
  default ([1], RoomManager.init_world 2) (serve ls [1] (RoomManager.init_world 2)).

Lemma served_serves ls : serves 2 (served ls).1 (served ls).2.
Proof.
  unfold served. destruct (serve ls _ _) as [[ids w] |] eqn:E; [| apply serves_init].
  by eapply serve_serves; [apply serves_init |].
Qed.

Lemma routing_exact_witness :
  let w := (served ordering_a_room).2 in
  let w' := (served (ordering_a_room ++ [LWorker 2])).2 in
  (creations w 2 100, exists_at w 2 100, routed w 2 100) = (1, 0, 1)%nat /\
  (creations w' 2 100, exists_at w' 2 100, routed w' 2 100) = (0, 1, 1)%nat /\
  forall wid k, (creations w' wid k + exists_at w' wid k = routed w' wid k)%nat.
Proof.
  split_and!; [by vm_compute | by vm_compute |]. apply (routing_exact 2 _ _ (served_serves _)).
Defined.

End Routing.
