(* ===== verification/Queries.v ===== *)
(** * Queries: what the database is ever asked

    The queries of server/src/db/ are constant texts; the parameters come from
    the jobs that the room workers post. This file proves which jobs can be
    queued at all, under every interleaving: so each query gets the parameters
    it has placeholders for, and the account queries are never run. *)

From Stdlib Require Import String Ascii.
From S2P Require Import Prelude Codec Wire Decimal Session User Room Event World RoomManager RoomWorker.
From S2P Require Import Invariant RoomWorkerSafe Server System Respects Database.

Module Queries.
Import Protocol World Server System Respects.

(** ** Jobs *)

(** The [$n] of a text. *)
Fixpoint placeholders (s : string) : nat :=
  match s with
  | EmptyString => 0
  | String c s' => if decide (c = "$"%char) then S (placeholders s') else placeholders s'
  end.

Definition well_formed (j : Event.DBJob) : Prop :=
  match Event.job_type j with
  | Event.SaveMessage =>
      (exists room sender nick text, Event.params j = RoomWorker.params_for_save room sender nick text) /\
      Event.on_result j = Event.NoCallback
  | Event.LoadHistory =>
      (exists room cursor, 0 < cursor /\ Event.params j = [Decimal.to_string room; Decimal.to_string cursor]) /\
      exists e, Event.on_result j = Event.DbLoadMessagesOnResult e
  | Event.CreateRoom => Event.params j = [] /\ exists e, Event.on_result j = Event.DbCreateRoomOnResult e
  | Event.FindAccount | Event.CreateAccount => False
  end.

Lemma well_formed_arity j :
  well_formed j -> placeholders (Database.query_of (Event.job_type j)) = length (Event.params j).
Proof.
  unfold well_formed. destruct (Event.job_type j); try done.
  - intros [(room & sender & nick & text & ->) _]. reflexivity.
  - intros [(room & cursor & _ & ->) _]. reflexivity.
  - intros [-> _]. reflexivity.
Qed.

(** The account queries, were they used. *)
Lemma account_arity login pass nick :
  placeholders Database.account_kFindByLoginId = length (Database.account_params_for_find login) /\
  placeholders Database.account_kInsert = length (Database.account_params_for_create login pass nick).
Proof. by split. Qed.

(** ** Handlers *)

(** The job queue is left alone. *)
Definition same_jobs (w w' : World) : Prop := job_queue w' = job_queue w.

#[global] Instance same_jobs_preorder : PreOrder same_jobs.
Proof. split; [by intros w | intros w1 w2 w3 H1 H2; unfold same_jobs in *; congruence]. Qed.

(** Well-formed jobs at most are added. *)
Definition sound (w w' : World) : Prop := Forall well_formed (job_queue w) -> Forall well_formed (job_queue w').

#[global] Instance sound_preorder : PreOrder sound.
Proof. split; [intros w H; exact H | intros w1 w2 w3 H1 H2; unfold sound in *; auto]. Qed.

Section Handlers.
Context {Indet : Indeterminate} {SService : IServerService}.

Lemma jobs_modify f : (forall w, job_queue (f w) = job_queue w) -> respects any same_jobs (modify f).
Proof. intros H. apply respects_modify. intros w _. apply H. Qed.

Lemma jobs_idle {A} (m : M A) : respects any same_traffic m -> respects any same_jobs m.
Proof.
  apply respects_weaken; [done |]. intros w w' H. unfold same_traffic, traffic, same_jobs in *. congruence.
Qed.

#[local] Hint Resolve jobs_modify : respects.
#[local] Hint Extern 2 (respects any same_jobs _) => apply jobs_idle : respects.

Lemma jobs_put_rooms wid rs : respects any same_jobs (put_rooms wid rs).
Proof. unfold put_rooms, put_worker. follow. Qed.

Lemma jobs_route e target : respects any same_jobs (RoomManager.route_event e target).
Proof. unfold RoomManager.route_event, RoomManager.find_worker, post_event, put_worker. follow. Qed.

Lemma jobs_erase k : respects any same_jobs (RoomManager.erase_room_to_worker k).
Proof. by apply jobs_modify. Qed.

#[local] Hint Resolve jobs_put_rooms jobs_route jobs_erase : respects.

Lemma jobs_leave_room_fd wid fd k : respects any same_jobs (RoomWorker.leave_room_fd wid fd k).
Proof. unfold RoomWorker.leave_room_fd. follow. Qed.

#[local] Hint Resolve jobs_leave_room_fd : respects.

Lemma jobs_leave_room wid e : respects any same_jobs (RoomWorker.leave_room wid e).
Proof. unfold RoomWorker.leave_room. follow. Qed.

Lemma jobs_create_room wid e n : respects any same_jobs (RoomWorker.create_room wid e n).
Proof. unfold RoomWorker.create_room. follow. Qed.

Lemma jobs_diconnect wid fd k : respects any same_jobs (RoomWorker.diconnect_session wid fd k).
Proof.
  unfold RoomWorker.diconnect_session. apply respects_bind; [done | eauto with respects | intros r].
  case_decide; [apply respects_ret |]. apply respects_bind; [done | eauto with respects | intros rooms].
  induction ((fun p => Room.room_id_ p.2) <$> map_to_list rooms) as [| k' ks IH];
    cbn [RoomWorker.leave_first]; [apply respects_ret |].
  apply respects_bind; [done | eauto with respects | intros r']. by case_decide; [apply respects_ret |].
Qed.

(** A callback posts no job. *)
Lemma jobs_run_callback c status data draws : respects any same_jobs (RoomWorker.run_callback c status data draws).
Proof.
  destruct c as [| e | e]; cbn [RoomWorker.run_callback]; [apply respects_ret | |].
  - unfold RoomWorker.db_create_room_on_result. destruct (Codec.take _ _). case_match;
      unfold RoomManager.bind_room_worker, RoomManager.get_rooms_num; follow.
  - unfold RoomWorker.db_load_messages_on_result, RoomWorker.current_room. follow.
Qed.

(** ** The action interpreter *)

Lemma sound_same {A} (m : M A) : respects any same_jobs m -> respects any sound m.
Proof. apply respects_weaken; [done |]. intros w w' E H. by rewrite E. Qed.

#[local] Hint Extern 3 (respects any sound _) => apply sound_same : respects.

Lemma sound_post j : well_formed j -> respects any sound (post_job j).
Proof. intros Hj w [] w' _ [= <-] H. apply Forall_app. by split; [| constructor]. Qed.

Lemma load_cursor_positive data : 0 < RoomWorker.load_cursor data.
Proof. unfold RoomWorker.load_cursor. case_decide; [done | lia]. Qed.

Lemma sound_request_load e : respects any sound (RoomWorker.request_db_load_message e).
Proof.
  unfold RoomWorker.request_db_load_message. apply respects_bind; [done | eauto with respects | intros k].
  apply sound_post. split; [| eauto]. do 2 eexists. split; [apply load_cursor_positive | done].
Qed.

Lemma sound_save wid e : respects any sound (RoomWorker.save_message wid e).
Proof.
  unfold RoomWorker.save_message. apply respects_bind; [done | eauto with respects | intros k].
  apply respects_bind; [done | eauto with respects | intros fd].
  apply respects_bind; [done | apply respects_gets | intros um]. apply sound_post. split; [| done].
  by do 4 eexists.
Qed.

Lemma sound_after_action e cmd k : respects any sound (k e) -> respects any sound (RoomWorker.after_action e cmd k).
Proof.
  intros Hk. unfold RoomWorker.after_action. case_decide; [| done].
  apply respects_bind; [done | apply respects_deref | intros first].
  apply respects_bind; [done | case_decide; eauto with respects | intros _]. eauto with respects.
Qed.

Lemma sound_process_loop fuel wid e : respects any sound (RoomWorker.process_loop fuel wid e).
Proof.
  revert e. induction fuel as [| fuel IH]; intros e; cbn [RoomWorker.process_loop]; [apply respects_ret |].
  case_decide; [| apply respects_ret]. case_decide; [eauto with respects |].
  apply respects_bind; [done | apply respects_deref | intros act]. set (e1 := Event.set_current _ e). clearbody e1.
  assert (Hop : forall (m : M Result) cmd, respects any same_jobs m ->
    respects any sound (let* r := m in RoomWorker.after_action (Event.set_result r e1) cmd (RoomWorker.process_loop fuel wid))).
  { intros m cmd Hm. apply respects_bind; [done | by apply sound_same | intros r]. apply sound_after_action, IH. }
  destruct (Event.command act); try (apply Hop; eauto using jobs_create_room, jobs_leave_room with respects).
  - apply sound_post. by split; [| eexists].
  - apply sound_request_load.
  - apply respects_bind; [done | apply sound_save | intros _]. apply sound_after_action, IH.
  - apply sound_same. follow.
  - apply sound_same. follow.
  - eauto with respects.
  - eauto with respects.
  - apply sound_same. apply respects_bind; [done | apply jobs_diconnect | intros; apply respects_ret].
Qed.

End Handlers.

(** ** The server *)

Section Server.
Context {Indet : Indeterminate} {Kernel : EpollKernel}.

#[local] Hint Resolve jobs_modify jobs_route : respects.
#[local] Hint Extern 2 (respects any same_jobs _) => apply jobs_idle : respects.

Lemma jobs_close fd : respects any same_jobs (close_session fd).
Proof.
  unfold close_session, find_session, epoll_remove, RoomManager.disconnect_session, put_session, remove_session. follow.
Qed.

Lemma jobs_epoll_ctl op : respects any same_jobs (epoll_ctl op).
Proof. unfold epoll_ctl. follow. Qed.

#[local] Hint Resolve jobs_close jobs_epoll_ctl : respects.

Lemma jobs_accept fd : respects any same_jobs (accept_client fd).
Proof. unfold accept_client, add_session, epoll_add, find_session, put_session. follow. Qed.

Lemma jobs_handle_packets fuel sid : respects any same_jobs (handle_packets fuel sid).
Proof.
  induction fuel as [| fuel IH]; cbn [handle_packets]; [apply respects_ret |].
  unfold RoomManager.dispatch_packet, put_session. follow.
Qed.

#[local] Hint Resolve jobs_handle_packets : respects.

Lemma jobs_on_ready fd epollin epollout hangup : respects any same_jobs (on_ready fd epollin epollout hangup).
Proof.
  unfold on_ready, handle_request, handle_epollout, RoomManager.request_flush, find_session, put_session. follow.
Qed.

Lemma jobs_handle_events : respects any same_jobs handle_events.
Proof.
  unfold handle_events. apply respects_bind; [done | apply respects_gets | intros n].
  induction n as [| n IH]; cbn [handle_events_loop]; [apply respects_ret |].
  unfold handle_main_event, enable_epollout, disable_epollout. follow.
Qed.

Lemma step_sound w w' : Server.step w w' -> sound w w'.
Proof.
  intros (l & _ & H) Hw. assert (Hsame : forall m, respects any same_jobs m -> m w = Ok tt w' -> Forall well_formed (job_queue w')).
  { intros m Hm Hx. by apply (sound_same m Hm w tt w' I Hx). }
  destruct l; cbn [exec] in H.
  - exact (Hsame _ (jobs_accept fd) H).
  - exact (Hsame _ (jobs_on_ready fd epollin epollout hangup) H).
  - exact (Hsame _ jobs_handle_events H).
  - unfold bind in H. destruct (RoomWorker.worker_step wid w) as [b w1 |] eqn:E; [| done]. injection H as <-.
    assert (Hs : respects any sound (RoomWorker.worker_step wid)); [| by apply (Hs w b w1 I E)].
    unfold RoomWorker.worker_step. apply respects_bind; [done | apply respects_get_worker | intros r].
    destruct (event_queue_ r) as [| e q]; [apply respects_ret |].
    apply respects_bind; [done | by apply sound_same, jobs_modify | intros _].
    apply respects_bind; [done | apply sound_process_loop | intros; apply respects_ret].
  - unfold db_step, gets, bind at 1 in H. destruct (job_queue w) as [| j js] eqn:Ej; [by injection H as <-; rewrite Ej |].
    apply Forall_cons in Hw as [_ Hw]. unfold modify, bind in H.
    pose proof (jobs_run_callback _ _ _ _ _ _ _ I H) as Hx. unfold same_jobs in Hx. by rewrite Hx.
  - apply (Hsame (set_outs sid outs)); [unfold set_outs, put_session; follow | done].
Qed.

(** What the database is asked. Under every interleaving, every job that is
    ever queued is one of three: a message to store, with its room, sender, name
    and text as parameters and no callback; a page of history, with the room
    and a positive cursor, whose callback answers the request; or a new room,
    without parameters. So the query that is run for it has exactly as many
    placeholders as it is given parameters, and the two account queries are
    never run. *)
Theorem jobs_well_formed n w j :
  reachable n w -> j ∈ job_queue w ->
  well_formed j /\ placeholders (Database.query_of (Event.job_type j)) = length (Event.params j) /\
  Event.job_type j <> Event.FindAccount /\ Event.job_type j <> Event.CreateAccount.
Proof.
  intros Hr Hj. assert (Hw : Forall well_formed (job_queue w)).
  { clear Hj. revert w Hr. apply rtc_ind_r; [constructor |]. intros w1 w2 _ Hs IH. by apply (step_sound w1 w2 Hs). }
  rewrite Forall_forall in Hw. specialize (Hw j Hj). split_and!; [done | by apply well_formed_arity | ..];
    unfold well_formed in Hw; by destruct (Event.job_type j).
Qed.

End Server.

(** Client 5's request for a room is with the database. *)
Lemma jobs_well_formed_witness :
  exists j, j ∈ job_queue Database.creating_world /\ well_formed j /\
    placeholders (Database.query_of (Event.job_type j)) = length (Event.params j).
Proof.
  eexists. assert (Hin : forall j, job_queue Database.creating_world = [j] -> j ∈ job_queue Database.creating_world).
  { intros j ->. by left. }
  split; [apply Hin; by vm_compute |].
  edestruct (jobs_well_formed 2 Database.creating_world) as (H1 & H2 & _); [apply after_reachable | apply Hin; by vm_compute |].
  split; [exact H1 | exact H2].
Defined.

End Queries.
