(* ===== verification/WorkerLoop.v ===== *)
(** * WorkerLoop: the threads behind the queues

    [RoomWorker] and [DBWorker] are the same monitor: a queue and a flag
    [running_] behind a mutex, a condition variable, one thread that waits for
    work and processes it outside the lock, and any number of threads that
    post work or stop the worker (server/src/room/RoomWorker.cpp: start, stop,
    post_event, thread_main; server/src/db/DBWorker.cpp: start, stop,
    post_job, thread_main). The rest of the library takes one iteration of the
    inner loop as a step ([RoomWorker.worker_step], [Database.worker_step]);
    this file is about what happens between these steps: every lock, unlock,
    wait, notification and test is a step of its own here, and the threads
    interleave in every way, with spurious wakeups. *)

From S2P Require Import Prelude.

Module WorkerLoop.

(** ** The monitor *)

(** The two classes differ in what an exception of the item does. *)
Inductive Kind := RoomThread | DbThread.

#[global] Instance kind_eq_decision : EqDecision Kind.
Proof. solve_decision. Defined.

(** Where [thread_main] stands. *)
Inductive Pc (A : Type) :=
  | Top              (* while(running_) *)
  | Locking          (* unique_lock lock(mutex_) *)
  | Testing          (* cv_.wait: the predicate, lock held *)
  | Asleep           (* cv_.wait: blocked, lock released *)
  | Woken            (* cv_.wait: notified, taking the lock again *)
  | Draining         (* while(!queue.empty()), lock held *)
  | Popped (x : A)   (* front() and pop() done, lock held *)
  | Working (x : A)  (* process_event / process_job, lock released *)
  | Relocking        (* lock.lock() *)
  | Finished         (* the thread has returned *)
  | Terminated.      (* std::terminate *)
#[global] Arguments Top {A}.
#[global] Arguments Locking {A}.
#[global] Arguments Testing {A}.
#[global] Arguments Asleep {A}.
#[global] Arguments Woken {A}.
#[global] Arguments Draining {A}.
#[global] Arguments Popped {A} x.
#[global] Arguments Working {A} x.
#[global] Arguments Relocking {A}.
#[global] Arguments Finished {A}.
#[global] Arguments Terminated {A}.

(** What the other member functions are made of. *)
Inductive Instr (A : Type) :=
  | Lock | Unlock      (* the constructor and destructor of a lock_guard *)
  | Push (x : A)       (* queue.emplace *)
  | ClearRunning       (* running_ = false *)
  | Notify             (* cv_.notify_one() *)
  | Join               (* if(thread_.joinable()) thread_.join() *)
  | FailAll.           (* the loop of DBWorker::stop over the queue *)
#[global] Arguments Lock {A}.
#[global] Arguments Unlock {A}.
#[global] Arguments Push {A} x.
#[global] Arguments ClearRunning {A}.
#[global] Arguments Notify {A}.
#[global] Arguments Join {A}.
#[global] Arguments FailAll {A}.

Inductive Holder := Worker | Caller (t : Z).

#[global] Instance holder_eq_decision : EqDecision Holder.
Proof. solve_decision. Defined.

Section Monitor.
Context {A : Type}.

(** [RoomWorker::post_event], [DBWorker::post_job] *)
Definition post_event (x : A) : list (Instr A) := [Lock; Push x; Unlock; Notify].
Definition post_job (x : A) : list (Instr A) := [Lock; Push x; Unlock; Notify].

(** [RoomWorker::stop] notifies with the lock held, [DBWorker::stop] without,
    and then fails what is left. *)
Definition room_stop : list (Instr A) := [Lock; ClearRunning; Notify; Unlock; Join].
Definition db_stop : list (Instr A) :=
  [Lock; ClearRunning; Unlock; Notify; Join; Lock; FailAll; Unlock].

Record Monitor := mkMonitor {
  queue : list A;
  running_ : bool;
  holder : option Holder;
  pc : Pc A;
  calls : gmap Z (list (Instr A));  (* what each calling thread has yet to do *)
  posted : list A;                  (* everything pushed, in order *)
  taken : list A;                   (* everything the worker popped, in order *)
  failed : list A }.                (* everything stop answered with an error *)

(** After [start]: [running_] is set before the thread exists. *)
Definition start : Monitor := mkMonitor [] true None Top ∅ [] [] [].

Definition set_pc (p : Pc A) (m : Monitor) : Monitor :=
  mkMonitor (queue m) (running_ m) (holder m) p (calls m) (posted m) (taken m) (failed m).
Definition set_holder (h : option Holder) (m : Monitor) : Monitor :=
  mkMonitor (queue m) (running_ m) h (pc m) (calls m) (posted m) (taken m) (failed m).
Definition set_call (t : Z) (prog : list (Instr A)) (m : Monitor) : Monitor :=
  mkMonitor (queue m) (running_ m) (holder m) (pc m) (<[t := prog]> (calls m)) (posted m) (taken m) (failed m).

Definition call (m : Monitor) (t : Z) : list (Instr A) := default [] (calls m !! t).

(** The worker's own thread posts too, while it processes an item. *)
Definition self : Z := 0.

(** ** Steps *)

Definition acquire (h : Holder) (m : Monitor) : option Monitor :=
  match holder m with None => Some (set_holder (Some h) m) | Some _ => None end.

(** One step of [thread_main]; [throws] says how the item ends. *)
Definition thread_main (k : Kind) (throws : bool) (m : Monitor) : option Monitor :=
  match pc m with
  | Top => Some (set_pc (if running_ m then Locking else Finished) m)
  | Locking => set_pc Testing <$> acquire Worker m
  | Testing =>
      if decide (running_ m = false \/ queue m <> []) then Some (set_pc Draining m)
      else Some (set_pc Asleep (set_holder None m))
  | Asleep => None
  | Woken => set_pc Testing <$> acquire Worker m
  | Draining =>
      match queue m with
      | [] => Some (set_pc Top (set_holder None m))
      | x :: q => Some (mkMonitor q (running_ m) (holder m) (Popped x) (calls m) (posted m) (taken m ++ [x])
                          (failed m))
      end
  | Popped x => Some (set_pc (Working x) (set_holder None m))
  | Working x =>
      match call m self with
      | [] => Some (set_pc (if throws then match k with RoomThread => Terminated | DbThread => Relocking end
                            else Relocking) m)
      | _ :: _ => None
      end
  | Relocking => set_pc Draining <$> acquire Worker m
  | Finished | Terminated => None
  end.

Definition room_thread_main : bool -> Monitor -> option Monitor := thread_main RoomThread.
Definition db_thread_main : bool -> Monitor -> option Monitor := thread_main DbThread.

(** [notify_one] with the only thread that ever waits. *)
Definition notify (m : Monitor) : Monitor := match pc m with Asleep => set_pc Woken m | _ => m end.

(** One step of thread [t]'s call. *)
Definition call_step (t : Z) (m : Monitor) : option Monitor :=
  match call m t with
  | [] => None
  | i :: rest =>
      match i with
      | Lock => set_call t rest <$> acquire (Caller t) m
      | Unlock => Some (set_call t rest (set_holder None m))
      | Push x => Some (set_call t rest (mkMonitor (queue m ++ [x]) (running_ m) (holder m) (pc m) (calls m)
                                         (posted m ++ [x]) (taken m) (failed m)))
      | ClearRunning => Some (set_call t rest (mkMonitor (queue m) false (holder m) (pc m) (calls m)
                                (posted m) (taken m) (failed m)))
      | Notify => Some (set_call t rest (notify m))
      | Join => match pc m with Finished => Some (set_call t rest m) | _ => None end
      | FailAll =>
          match queue m with
          | [] => Some (set_call t rest m)
          | x :: q => Some (set_call t (FailAll :: rest)
                              (mkMonitor q (running_ m) (holder m) (pc m) (calls m) (posted m) (taken m)
                                 (failed m ++ [x])))
          end
      end
  end.

Inductive Label :=
  | LThread (throws : bool)              (* the worker makes a step *)
  | LSpurious                            (* a wakeup nobody caused *)
  | LPost (t : Z) (x : A)                (* thread t calls post_event or post_job *)
  | LStop (t : Z)                        (* thread t calls stop *)
  | LCall (t : Z).                       (* thread t makes a step of its call *)

Definition stop (k : Kind) : list (Instr A) := match k with RoomThread => room_stop | DbThread => db_stop end.
Definition post (k : Kind) (x : A) : list (Instr A) :=
  match k with RoomThread => post_event x | DbThread => post_job x end.

(** A thread calls when it is not in a call; the worker's own thread only
    posts, and only while it processes an item. *)
Definition may_call (t : Z) (m : Monitor) : bool :=
  match call m t with
  | [] => if decide (t = self) then match pc m with Working _ => true | _ => false end else true
  | _ :: _ => false
  end.

Definition exec (k : Kind) (l : Label) (m : Monitor) : option Monitor :=
  match l with
  | LThread throws => thread_main k throws m
  | LSpurious => match pc m with Asleep => Some (set_pc Woken m) | _ => None end
  | LPost t x => if may_call t m then Some (set_call t (post k x) m) else None
  | LStop t => if may_call t m && bool_decide (t <> self) then Some (set_call t (stop k) m) else None
  | LCall t => call_step t m
  end.

Definition step (k : Kind) (m m' : Monitor) : Prop := exists l, exec k l m = Some m'.
Definition reachable (k : Kind) (m : Monitor) : Prop := rtc (step k) start m.

(** ** Lock discipline of a call *)

Definition is_notify (i : Instr A) : bool := match i with Notify => true | _ => false end.
Definition is_join (i : Instr A) : bool := match i with Join => true | _ => false end.
Definition is_fail (i : Instr A) : bool := match i with FailAll => true | _ => false end.

(** Will notify, will join, will fail the queue. *)
Definition notifies (p : list (Instr A)) : bool := existsb is_notify p.
Definition joins (p : list (Instr A)) : bool := existsb is_join p.
Definition fails (p : list (Instr A)) : bool := existsb is_fail p.

(** Whether what is left of a call starts inside its critical section. *)
Fixpoint inside (p : list (Instr A)) : bool :=
  match p with
  | [] | Lock :: _ => false
  | Unlock :: _ => true
  | _ :: p' => inside p'
  end.

(** The queue and the flag are changed with the lock held and a notification
    to come; joining is done without the lock, with nobody left to notify, and before
    failing the queue. *)
Fixpoint disciplined (locked : bool) (p : list (Instr A)) : Prop :=
  match p with
  | [] => locked = false
  | Lock :: p' => locked = false /\ p' <> [Unlock] /\ disciplined true p'
  | Unlock :: p' => locked = true /\ disciplined false p'
  | Push _ :: p' | ClearRunning :: p' => locked = true /\ notifies p' = true /\ disciplined true p'
  | Notify :: p' => p' <> [Unlock] /\ disciplined locked p'
  | Join :: p' => locked = false /\ notifies p' = false /\ disciplined false p'
  | FailAll :: p' => locked = true /\ joins p' = false /\ disciplined true p'
  end.

Lemma disciplined_inside b p : disciplined b p -> inside p = b.
Proof. induction p as [| [] p IH]; cbn; naive_solver. Qed.

Lemma disciplined_post k x : disciplined false (post k x).
Proof. by destruct k. Qed.

Lemma disciplined_stop k : disciplined false (stop k).
Proof. by destruct k. Qed.

(** ** Invariant *)

Definition worker_inside (p : Pc A) : bool :=
  match p with Testing | Draining | Popped _ => true | _ => false end.

Record inv (m : Monitor) : Prop := {
  v_calls : forall t, disciplined (inside (call m t)) (call m t);
  v_caller : forall t, inside (call m t) = true <-> holder m = Some (Caller t);
  v_worker : worker_inside (pc m) = true <-> holder m = Some Worker;
  v_fail : forall t, fails (call m t) = true -> joins (call m t) = true \/ pc m = Finished;
  v_fifo : posted m = taken m ++ failed m ++ queue m;
  v_failed : failed m = [] \/ pc m = Finished;
  v_wake : pc m = Asleep -> running_ m = false \/ queue m <> [] -> exists t, notifies (call m t) = true;
  v_finished : pc m = Finished -> running_ m = false;
  v_self : joins (call m self) = false;
  v_drained : forall t, call m t = [Unlock] -> queue m = [] /\ pc m = Finished }.

Lemma start_inv : inv start.
Proof. by split; cbn; auto. Qed.

Lemma call_set_call t p m t' : call (set_call t p m) t' = if decide (t = t') then p else call m t'.
Proof.
  unfold call, set_call; cbn. case_decide as H; [subst; by rewrite lookup_insert_eq |].
  by rewrite lookup_insert_ne.
Qed.


(** The worker moves: its calls and the flag are the others' business, the
    lock changes hands the right way, nothing is lost from the queue, and it
    goes to sleep only when there is nothing to do. *)
Lemma worker_inv m m' :
  inv m -> pc m <> Finished -> calls m' = calls m -> running_ m' = running_ m -> posted m' = posted m ->
  failed m' = failed m -> taken m' ++ queue m' = taken m ++ queue m ->
  (holder m' = holder m /\ worker_inside (pc m') = worker_inside (pc m)) \/
  (holder m = None /\ holder m' = Some Worker /\ worker_inside (pc m') = true) \/
  (worker_inside (pc m) = true /\ holder m' = None /\ worker_inside (pc m') = false) ->
  (pc m' = Asleep -> running_ m = true /\ queue m' = []) ->
  (pc m' = Finished -> running_ m = false) ->
  inv m'.
Proof.
  intros [Hc Hh Hw Hf Hq Hfd Hwk Hfin Hself Hdr] Hnf Ec Er Ep Ef Et Hm Hs Hs'.
  assert (Ecall : forall t, call m' t = call m t) by (intros t; unfold call; by rewrite Ec).
  destruct Hfd as [Hfd |]; [| done].
  split.
  - intros t. rewrite Ecall. apply Hc.
  - intros t. rewrite Ecall, Hh. destruct Hm as [[-> _] | [(-> & -> & _) | (H1 & -> & _)]]; [done | done |].
    apply Hw in H1. rewrite H1. done.
  - destruct Hm as [[-> ->] | [(_ & -> & ->) | (_ & -> & ->)]]; done.
  - intros t. rewrite Ecall. intros H. destruct (Hf t H); [by left | done].
  - rewrite Ep, Hq, Ef, Hfd. cbn. by rewrite Et.
  - left. by rewrite Ef.
  - intros H. destruct (Hs H) as [H1 H2]. rewrite Er, H1, H2. by intros [].
  - rewrite Er. exact Hs'.
  - by rewrite Ecall.
  - intros t. rewrite Ecall. intros H. by apply Hdr in H as [_ H].
Qed.

Lemma thread_main_inv k throws m m' : inv m -> thread_main k throws m = Some m' -> inv m'.
Proof.
  intros Hm E. unfold thread_main, acquire in E. pose proof (v_worker _ Hm) as Hw.
  destruct (pc m) eqn:Ep; try done; cbn [worker_inside] in Hw.
  - injection E as <-. apply (worker_inv m); try done; cbn; rewrite ?Ep; [done | | |].
    + left. by destruct (running_ m).
    + by destruct (running_ m).
    + by destruct (running_ m).
  - destruct (holder m) eqn:Eh; [done |]. injection E as <-.
    apply (worker_inv m); try done; cbn; rewrite ?Ep; [done |]. right; left. by rewrite Eh.
  - case_decide as Hd; injection E as <-; (apply (worker_inv m); try done); cbn; rewrite ?Ep; try done.
    + by left.
    + by right; right.
    + intros _. destruct (running_ m), (queue m); try done; exfalso; apply Hd; auto.
  - destruct (holder m) eqn:Eh; [done |]. injection E as <-.
    apply (worker_inv m); try done; cbn; rewrite ?Ep; [done |]. right; left. by rewrite Eh.
  - destruct (queue m) as [| x q] eqn:Eq; injection E as <-;
      (apply (worker_inv m); try done); cbn; rewrite ?Ep, ?Eq; try done.
    + by right; right.
    + by rewrite <- app_assoc.
    + by left.
  - injection E as <-. apply (worker_inv m); try done; cbn; rewrite ?Ep; [done |]. by right; right.
  - destruct (call m self); [| done]. injection E as <-.
    apply (worker_inv m); try done; cbn; rewrite ?Ep; try done; destruct throws, k; (by left) || done.
  - destruct (holder m) eqn:Eh; [done |]. injection E as <-.
    apply (worker_inv m); try done; cbn; rewrite ?Ep; [done |]. right; left. by rewrite Eh.
Qed.

(** A call moves on: [p] is what is left of it afterwards. *)
Lemma call_inv m m1 t p p' :
  inv m -> call m t = p -> calls m1 = calls m -> pc m1 = (pc m) \/ (pc m = Asleep /\ pc m1 = Woken) ->
  posted m1 = taken m1 ++ failed m1 ++ queue m1 -> (failed m1 = [] \/ pc m = Finished) ->
  disciplined (inside p') p' ->
  (fails p' = true -> joins p' = true \/ pc m = Finished) ->
  (holder m1 = holder m /\ inside p' = inside p) \/
  (holder m = None /\ holder m1 = Some (Caller t) /\ inside p' = true) \/
  (inside p = true /\ holder m1 = None /\ inside p' = false) ->
  (pc m1 = Asleep -> running_ m1 = false \/ queue m1 <> [] ->
     notifies p' = true \/ (notifies p = false /\ (running_ m = false \/ queue m <> []))) ->
  running_ m1 = running_ m \/ running_ m1 = false ->
  (t = self -> joins p' = false) ->
  (p' = [Unlock] -> queue m1 = [] /\ pc m = Finished) ->
  queue m1 = queue m \/ inside p = true ->
  inv (set_call t p' m1).
Proof.
  intros [Hc Hh Hw Hf Hq Hfd Hwk Hfin Hself Hdr] Ep Ec Epc Efifo Efd Hd Hfj Hm Hs Hrun Hsf Hu Hqu.
  assert (Ecall : forall t', call (set_call t p' m1) t' = if decide (t = t') then p' else call m t').
  { intros t'. rewrite call_set_call. unfold call. by rewrite Ec. }
  assert (Efin : pc m = Finished -> pc m1 = Finished) by (intros H; destruct Epc as [-> | [E _]]; congruence).
  split; try (intros t'; rewrite Ecall).
  - case_decide; [done | apply Hc].
  - cbn. case_decide as Ht.
    + subst t'. specialize (Hh t). rewrite Ep in Hh.
      destruct Hm as [[-> ->] | [(H1 & -> & ->) | (H1 & -> & ->)]]; [done | done | done].
    + rewrite (Hh t'). specialize (Hh t). rewrite Ep in Hh.
      destruct Hm as [[-> _] | [(H1 & -> & _) | (H1 & -> & _)]]; [done | |].
      * rewrite H1. split; [done |]. by intros [= ->].
      * apply Hh in H1. rewrite H1. split; [by intros [= ->] | done].
  - cbn. assert (Hi : worker_inside (pc m1) = worker_inside (pc m)) by (destruct Epc as [-> | [-> ->]]; done).
    rewrite Hi, Hw. specialize (Hh t). rewrite Ep in Hh.
    destruct Hm as [[-> _] | [(H1 & -> & _) | (H1 & -> & _)]]; [done | by rewrite H1 |].
    apply Hh in H1. by rewrite H1.
  - cbn. case_decide; intros Hx; [destruct (Hfj Hx) | destruct (Hf t' Hx)]; auto.
  - exact Efifo.
  - cbn. destruct Efd; auto.
  - cbn. intros Ha Hx. destruct (Hs Ha Hx) as [Hn | [Hn Hx']].
    + exists t. by rewrite Ecall, decide_True.
    + destruct Epc as [E | [_ E]]; [| congruence]. rewrite E in Ha.
      destruct (Hwk Ha Hx') as [t' Ht']. exists t'. rewrite Ecall, decide_False; [done |].
      intros ->. congruence.
  - cbn. intros H. destruct Hrun as [-> | ->]; [| done]. apply Hfin.
    destruct Epc as [<- | [_ E]]; [done | congruence].
  - rewrite Ecall. case_decide as Ht; [by apply Hsf | done].
  - case_decide as Ht; [intros H; by apply Hu in H as [? ?%Efin] |]. intros Ht'. cbn.
    destruct (Hdr t' Ht') as [Hqe Hpf]. split; [| by apply Efin]. destruct Hqu as [-> | Hi]; [done |].
    specialize (Hh t) as Hht. rewrite Ep in Hht. apply Hht in Hi. specialize (Hh t'). rewrite Ht' in Hh.
    destruct Hh as [Hh _]. specialize (Hh eq_refl). congruence.
Qed.

Lemma call_step_inv t m m' : inv m -> call_step t m = Some m' -> inv m'.
Proof.
  intros Hm E. unfold call_step in E. destruct (call m t) as [| i p] eqn:Ep; [done |].
  pose proof (v_calls _ Hm t) as Hd. pose proof (v_fail _ Hm t) as Hf. pose proof (v_fifo _ Hm) as Hq.
  pose proof (v_failed _ Hm) as Hfd. rewrite Ep in Hd, Hf.
  assert (Hsf : t = self -> joins p = false).
  { intros ->. pose proof (v_self _ Hm) as H. rewrite Ep in H. by apply orb_false_iff in H as [_ H]. }
  assert (Hn : forall b : bool, pc m = Asleep -> running_ m = false \/ queue m <> [] -> b = true \/ (b = false /\
    (running_ m = false \/ queue m <> []))) by (intros [] _ Hx; auto).
  destruct i as [| | x | | | |]; cbn [inside disciplined] in Hd; cbn [fails joins existsb is_fail is_join orb] in Hf.
  - unfold acquire in E. destruct (holder m) eqn:Eh; [done |]. injection E as <-.
    destruct Hd as (_ & Hu & Hd). pose proof (disciplined_inside _ _ Hd) as Hi.
    apply (call_inv m _ t (Lock :: p)); try done; try (by left); [by rewrite Hi | | by apply (Hn (notifies p))].
    by right; left.
  - injection E as <-. destruct Hd as [_ Hd]. pose proof (disciplined_inside _ _ Hd) as Hi.
    apply (call_inv m _ t (Unlock :: p)); try done; try (by left);
      [by rewrite Hi | | by apply (Hn (notifies p)) | by intros ->].
    by right; right.
  - injection E as <-. destruct Hd as (Hi & Hx & Hd).
    apply (call_inv m _ t (Push x :: p)); try done; try (by left); [| by rewrite Hi | by intros -> | by right].
    cbn. rewrite Hq. by rewrite <- !app_assoc.
  - injection E as <-. destruct Hd as (Hi & Hx & Hd).
    apply (call_inv m _ t (ClearRunning :: p)); try done; try (by left); [by rewrite Hi | by right | by intros ->].
  - injection E as <-. unfold notify. destruct Hd as [Hu Hd].
    apply (call_inv m _ t (Notify :: p)); try done; destruct (pc m) eqn:Epc; (by auto) || (by left) || (by cbn; rewrite ?Epc).
  - destruct (pc m) eqn:Epc; try done. injection E as <-. destruct Hd as (Hi & Hn' & Hd).
    pose proof (disciplined_inside _ _ Hd) as Hi'.
    apply (call_inv m _ t (Join :: p)); try done; try (by left); [by rewrite Epc | by rewrite Hi' | by right | | by intros ->].
    by rewrite Epc.
  - destruct Hd as (Hi & Hnj & Hd). destruct (Hf eq_refl) as [Hj | Hfin]; [unfold joins in Hnj; cbn in Hj; congruence |].
    destruct (queue m) as [| x q] eqn:Eq; injection E as <-.
    + apply (call_inv m _ t (FailAll :: p)); try done; try (by left); [by rewrite Eq | by rewrite Hi | by right |].
      by rewrite Hfin.
    + apply (call_inv m _ t (FailAll :: p)); try done; try (by left); [| by right | | by right].
      * cbn. rewrite Hq. by rewrite <- !app_assoc.
      * cbn. by rewrite Hfin.
Qed.

Lemma begin_inv t p m :
  inv m -> may_call t m = true -> disciplined false p -> (fails p = true -> joins p = true) ->
  (t = self -> joins p = false) -> p <> [Unlock] -> inv (set_call t p m).
Proof.
  intros Hm Hc Hd Hf Hsf Hu. unfold may_call in Hc. destruct (call m t) as [| i q] eqn:Ep; [| done].
  pose proof (disciplined_inside _ _ Hd) as Hi.
  apply (call_inv m m t []); try done; try (by left); [apply (v_fifo _ Hm) | apply (v_failed _ Hm) | by rewrite Hi | |].
  all: cbn; rewrite ?Hi; auto.
Qed.

Lemma monitor_exec_inv k l m m' : inv m -> exec k l m = Some m' -> inv m'.
Proof.
  intros Hm E. destruct l as [throws | | t x | t | t]; cbn in E.
  - by eapply thread_main_inv.
  - destruct (pc m) eqn:Ep; try done. injection E as <-.
    apply (worker_inv m); try done; [by rewrite Ep |]. left. cbn. by rewrite Ep.
  - destruct (may_call t m) eqn:Hc; [| done]. injection E as <-.
    apply begin_inv; [done | done | apply disciplined_post | by destruct k.. ].
  - destruct (may_call t m) eqn:Hc; [| done]. case_bool_decide; [| done]. injection E as <-.
    apply begin_inv; [done | done | apply disciplined_stop | by destruct k | done | by destruct k].
  - by eapply call_step_inv.
Qed.

Lemma monitor_reachable_inv k m : reachable k m -> inv m.
Proof.
  unfold reachable. intros Hr. remember start as m0 eqn:E. assert (H0 : inv m0) by (rewrite E; apply start_inv).
  clear E. induction Hr as [| m1 m2 m3 (l & Hl) _ IH]; [done |]. apply IH. by eapply monitor_exec_inv.
Qed.

(** ** Schedules *)

(** The steps of the worker and of the calls in progress. *)
Definition continues (l : Label) : Prop :=
  match l with LThread _ | LCall _ => True | _ => False end.

#[global] Instance continues_dec l : Decision (continues l).
Proof. destruct l; apply _. Defined.

Fixpoint run (k : Kind) (ls : list Label) (m : Monitor) : option Monitor :=
  match ls with
  | [] => Some m
  | l :: ls' => match exec k l m with Some m' => run k ls' m' | None => None end
  end.

Lemma monitor_run_reachable k ls m m' : reachable k m -> run k ls m = Some m' -> reachable k m'.
Proof.
  revert m. induction ls as [| l ls IH]; intros m Hr H; cbn in H; [by injection H as <- |].
  destruct (exec k l m) as [m1 |] eqn:E; [| done]. apply (IH m1); [| done].
  eapply rtc_r; [exact Hr |]. by exists l.
Qed.

(** ** Effort: how many steps are left once nobody calls any more *)

Section Effort.
(** How much an item may cause elsewhere (Fleet.v); a monitor on its own needs
    none of it. *)
Context (weight : A -> nat).

(** The steps one posted item accounts for. *)
Definition ITEM : nat := 18.
#[global] Arguments ITEM : simpl never.

Definition cost (i : Instr A) : nat :=
  match i with Push x => 11 + ITEM * weight x | ClearRunning => 5 | Notify => 4 | _ => 1 end.

(** A cleared flag sends the worker through [Draining] and the top of the loop
    once more. *)
Definition pc_cost (m : Monitor) : nat :=
  let last := if running_ m then 0%nat else 4%nat in
  match pc m with
  | Top => if running_ m then 4 else 1
  | Locking | Woken => 3 + last
  | Testing => 2 + last
  | Asleep => last
  | Draining => match queue m with [] => 5 | _ :: _ => 1 end
  | Popped x => 8 + ITEM * weight x
  | Working _ => 7
  | Relocking => 6
  | Finished | Terminated => 0
  end.

Definition effort (m : Monitor) : nat :=
  map_sum (sum_list_with cost) (calls m) + pc_cost m + sum_list_with (fun x => 10 + ITEM * weight x)%nat (queue m).

Lemma calls_cost m t p :
  call m t <> [] ->
  (map_sum (sum_list_with cost) (<[t := p]> (calls m)) + sum_list_with cost (call m t) =
   map_sum (sum_list_with cost) (calls m) + sum_list_with cost p)%nat.
Proof.
  unfold call. destruct (calls m !! t) as [q |] eqn:E; [| done]. intros _. cbn.
  rewrite map_sum_insert, (map_sum_lookup _ _ _ _ E). lia.
Qed.

(** The item that a step hands over: to the worker, or to [stop] to fail. *)
Definition released (l : Label) (m : Monitor) : option A :=
  match l with
  | LThread _ => match pc m with Popped x => Some x | _ => None end
  | LCall t => match call m t, queue m with FailAll :: _, x :: _ => Some x | _, _ => None end
  | _ => None
  end.

Definition heft (o : option A) : nat := match o with Some x => ITEM * weight x | None => 0 end.

(** Every step is progress, and what a released item may cause is set free. *)
Lemma exec_effort k l m m' :
  continues l -> exec k l m = Some m' -> (effort m' + heft (released l m) < effort m)%nat.
Proof.
  intros Hl E. destruct l as [throws | | | | t]; try done; cbn [exec] in E.
  - unfold thread_main, acquire in E. unfold effort, released, pc_cost. destruct (pc m) eqn:Ep; try done.
    + injection E as <-. destruct (running_ m) eqn:Er; cbn; rewrite ?Er; lia.
    + destruct (holder m); [done |]. injection E as <-. cbn. lia.
    + case_decide as Hd; injection E as <-; cbn.
      * destruct (running_ m), (queue m); try lia. by destruct Hd.
      * destruct (running_ m); lia.
    + destruct (holder m); [done |]. injection E as <-. cbn. lia.
    + destruct (queue m) as [| x q] eqn:Eq; injection E as <-; cbn; rewrite ?Eq; cbn; [destruct (running_ m); lia | lia].
    + injection E as <-. cbn. lia.
    + destruct (call m self); [| done]. injection E as <-. destruct throws, k; cbn; lia.
    + destruct (holder m); [done |]. injection E as <-. cbn. destruct (queue m); lia.
  - unfold call_step in E. unfold released. destruct (call m t) as [| i p] eqn:Ep; [done |].
    pose proof (fun p' => calls_cost m t p') as Hc. rewrite Ep in Hc.
    pose proof (Hc p ltac:(done)) as Hp. cbn [sum_list_with] in Hp. unfold effort, pc_cost.
    destruct i; cbn [cost] in Hp.
    + unfold acquire in E. destruct (holder m); [done |]. injection E as <-. cbn. lia.
    + injection E as <-. cbn. lia.
    + injection E as <-. cbn. rewrite sum_list_with_app. cbn. destruct (pc m), (running_ m), (queue m); cbn; lia.
    + injection E as <-. cbn. destruct (pc m), (running_ m), (queue m); cbn; lia.
    + injection E as <-. unfold notify. destruct (pc m) eqn:Epc; cbn; rewrite ?Epc; cbn; lia.
    + destruct (pc m) eqn:Epc; try done. injection E as <-. cbn. rewrite Epc. cbn. lia.
    + destruct (queue m) as [| x q] eqn:Eq; injection E as <-; cbn; rewrite ?Eq.
      * cbn. lia.
      * specialize (Hc (FailAll :: p) ltac:(done)). cbn in Hc |- *. destruct (pc m), (running_ m), q; cbn; lia.
Qed.

(** What a call that begins brings with it. *)
Lemma begin_effort t p m :
  call m t = [] -> effort (set_call t p m) = (effort m + sum_list_with cost p)%nat.
Proof.
  intros Hc. unfold effort. change (pc_cost (set_call t p m)) with (pc_cost m). cbn [calls queue set_call].
  assert (H : map_sum (sum_list_with cost) (<[t := p]> (calls m)) =
    (map_sum (sum_list_with cost) (calls m) + sum_list_with cost p)%nat); [| lia].
  unfold call in Hc. rewrite map_sum_insert. destruct (calls m !! t) as [q |] eqn:E.
  - cbn in Hc. subst. rewrite (map_sum_lookup _ _ _ _ E). cbn. lia.
  - rewrite delete_id by done. lia.
Qed.
End Effort.

(** Nobody can move: who holds the lock could, and who sleeps with work to do
    is about to be woken by somebody who could. *)
Lemma call_stuck t m :
  inv m -> call_step t m = None -> holder m = None \/ holder m = Some (Caller t) ->
  call m t = [] \/ (exists p, call m t = Join :: p).
Proof.
  intros Hm E Hh. unfold call_step in E. destruct (call m t) as [| i p] eqn:Ep; [by left |]. right.
  destruct i; try done; try (by exists p).
  - unfold acquire in E. destruct Hh as [Hh | Hh]; rewrite Hh in E; [done |].
    pose proof (v_caller _ Hm t) as Hc. rewrite Ep, Hh in Hc. destruct Hc as [_ Hc]. by specialize (Hc eq_refl).
  - by destruct (queue m).
Qed.

Lemma stuck_over k m :
  inv m -> (forall l, continues l -> exec k l m = None) ->
  running_ m = false -> (pc m = Finished /\ forall t, call m t = []) \/ pc m = Terminated.
Proof.
  intros Hm Hno Hr. pose proof (Hno (LThread false) I) as Hw. cbn in Hw.
  assert (Hcall : forall t, call_step t m = None) by (intros t; apply (Hno (LCall t) I)).
  destruct (holder m) as [[| t] |] eqn:Eh.
  - pose proof (v_worker _ Hm) as Hi. rewrite Eh in Hi. destruct Hi as [_ Hi]. specialize (Hi eq_refl).
    unfold thread_main in Hw. destruct (pc m); try done; [by case_decide | by destruct (queue m)].
  - pose proof (v_caller _ Hm t) as [_ Hi]. specialize (Hi Eh).
    destruct (call_stuck t m Hm (Hcall t)) as [E | [p E]]; [by right | by rewrite E in Hi |].
    pose proof (v_calls _ Hm t) as Hd. rewrite E in Hi, Hd. cbn in Hi, Hd. destruct Hd as [Hd _]. congruence.
  - assert (Hc : forall t, call m t = [] \/ exists p, call m t = Join :: p).
    { intros t. by apply call_stuck; [| | left]. }
    unfold thread_main, acquire in Hw. rewrite Eh in Hw.
    destruct (pc m) eqn:Ep; try done; [by case_decide | | by destruct (queue m) | | | by right].
    + exfalso. destruct (v_wake _ Hm Ep) as [t Ht]; [by left |]. destruct (Hc t) as [E | [p E]]; rewrite E in Ht; [done |].
      pose proof (v_calls _ Hm t) as Hd. rewrite E in Hd. destruct Hd as (_ & Hd & _).
      change (notifies (Join :: p)) with (notifies p) in Ht. congruence.
    + exfalso. destruct (Hc self) as [E | [p E]]; [by rewrite E in Hw |].
      pose proof (v_self _ Hm) as Hs. by rewrite E in Hs.
    + left. split; [done |]. intros t. destruct (Hc t) as [E | [p E]]; [done |]. exfalso.
      specialize (Hcall t). unfold call_step in Hcall. by rewrite E, Ep in Hcall.
Qed.

(** The database thread catches what a job throws. *)
Lemma never_terminated m : reachable DbThread m -> pc m <> Terminated.
Proof.
  unfold reachable. intros Hr. remember start as m0 eqn:E0. assert (H0 : pc m0 <> Terminated) by by rewrite E0.
  clear E0. induction Hr as [| m1 m2 m3 (l & E) _ IH]; [done |]. apply IH. clear IH m3.
  destruct l as [throws | | t x | t | t]; cbn in E.
  - unfold thread_main, acquire in E. destruct (pc m1) eqn:Ep; try done;
      repeat (case_match; try done); injection E as <-; cbn; try done; by destruct (running_ m1).
  - destruct (pc m1); try done. by injection E as <-.
  - destruct (may_call t m1); [| done]. by injection E as <-.
  - destruct (may_call t m1 && _); [| done]. by injection E as <-.
  - unfold call_step, acquire in E. destruct (call m1 t) as [| [] p]; [done | ..].
    5: { injection E as <-. unfold notify. cbn. destruct (pc m1) eqn:Ep; cbn; congruence. }
    all: repeat (case_match; try done); injection E as <-; cbn; congruence.
Qed.

(** ** Properties *)

(** C20: the monitor of [RoomWorker] and of [DBWorker]. Under every interleaving
    of the worker, of any number of threads that post and stop, and of spurious
    wakeups: at most one of them is inside the critical sections; what was
    posted is, in order, what the worker has taken, followed by what [stop]
    failed, followed by what is still queued, so every item is processed at
    most once and in the order of posting; and nothing is failed before the
    worker has finished. *)
Theorem monitor_safe k m :
  reachable k m ->
  posted m = taken m ++ failed m ++ queue m /\ (failed m <> [] -> pc m = Finished) /\
  (forall t, inside (call m t) = true -> holder m = Some (Caller t)) /\
  (worker_inside (pc m) = true -> holder m = Some Worker).
Proof.
  intros Hr. apply monitor_reachable_inv in Hr. split_and!.
  - apply (v_fifo _ Hr).
  - destruct (v_failed _ Hr) as [E | E]; [by rewrite E | done].
  - intros t. apply (v_caller _ Hr).
  - apply (v_worker _ Hr).
Qed.

(** No lost wakeup. When the worker sleeps in [cv_.wait] and no call is in
    progress, there is nothing to wake up for: the worker is running, the queue
    is empty, and everything ever posted has been taken. *)
Theorem no_lost_wakeup k m :
  reachable k m -> pc m = Asleep -> (forall t, call m t = []) ->
  running_ m = true /\ queue m = [] /\ taken m = posted m.
Proof.
  intros Hr Hp Hc. apply monitor_reachable_inv in Hr.
  assert (Hx : ~ (running_ m = false \/ queue m <> [])).
  { intros Hx. destruct (v_wake _ Hr Hp Hx) as [t Ht]. by rewrite Hc in Ht. }
  assert (Hq : queue m = []) by (destruct (queue m); [done | exfalso; apply Hx; by right]).
  split_and!; [destruct (running_ m); [done | exfalso; apply Hx; by left] | done |].
  destruct (v_failed _ Hr) as [Hf | Hf]; [| congruence].
  by rewrite (v_fifo _ Hr), Hf, Hq, !app_nil_r.
Qed.

(** Stopping terminates. When no further call is made, every step of the
    worker and of the calls in progress uses up effort, so no schedule of them
    is longer than [effort m]; and once [stop] has cleared [running_] and none
    of them can move, the worker has returned and every call, [stop] with its
    [join] included, has returned (or an exception has terminated the program,
    which the database thread rules out). No deadlock, no waiting forever. *)
Theorem stop_terminates k m :
  reachable k m ->
  (forall ls m', Forall continues ls -> run k ls m = Some m' -> (length ls <= effort (fun _ => 0%nat) m)%nat) /\
  (running_ m = false -> (forall l, continues l -> exec k l m = None) ->
     (pc m = Finished /\ forall t, call m t = []) \/ (pc m = Terminated /\ k = RoomThread)).
Proof.
  intros Hr. split.
  - clear Hr. intros ls. revert m. induction ls as [| l ls IH]; intros m m' Hc H; [cbn; lia |].
    inversion Hc as [| ? ? Hl Hls]; subst. cbn in H. destruct (exec k l m) as [m1 |] eqn:E; [| done].
    pose proof (exec_effort (fun _ => 0%nat) k l m m1 Hl E). specialize (IH m1 m' Hls H). cbn. lia.
  - intros Hrun Hno. destruct (stuck_over k m (monitor_reachable_inv k m Hr) Hno Hrun) as [H | H]; [by left | right].
    split; [done |]. destruct k; [done |]. by destruct (never_terminated m Hr).
Qed.

(** The worker alone, on items that do not throw. *)
Fixpoint work (k : Kind) (n : nat) (m : Monitor) : option Monitor :=
  match n with
  | O => Some m
  | S n' => match thread_main k false m with Some m' => work k n' m' | None => None end
  end.

(** Where the worker comes to rest, having taken what was queued. *)
Definition rested (m m' : Monitor) : Prop :=
  queue m' = [] /\ running_ m' = running_ m /\ taken m' = taken m ++ queue m /\
  pc m' = (if running_ m then Asleep else Finished).

Definition works (k : Kind) (bound : nat) (m : Monitor) : Prop :=
  exists n m', (n <= bound)%nat /\ work k n m = Some m' /\ rested m m'.

Lemma works_step k b m m1 :
  thread_main k false m = Some m1 -> works k b m1 ->
  (forall m', rested m1 m' -> rested m m') -> works k (S b) m.
Proof.
  intros E (n & m' & Hn & Hw & Hr) Hm. exists (S n), m'. split_and!; [lia | | by apply Hm].
  cbn. by rewrite E.
Qed.

(** Around the loop once more, with nothing queued. *)
Lemma works_top k m : pc m = Top -> holder m = None -> queue m = [] -> works k 3 m.
Proof.
  intros Hp Hh Hq. destruct (running_ m) eqn:Hr.
  - exists 3%nat. eexists. split_and!; [done | |].
    + cbn. unfold thread_main at 1. rewrite Hp, Hr. cbn. unfold acquire. cbn. rewrite Hh. cbn.
      rewrite decide_False; [done |]. cbn. rewrite Hr, Hq. by intros [].
    + unfold rested. cbn. rewrite Hr, Hq, app_nil_r. done.
  - exists 1%nat. eexists. split_and!; [lia | |].
    + cbn. unfold thread_main. rewrite Hp, Hr. done.
    + unfold rested. cbn. rewrite Hr, Hq, app_nil_r. done.
Qed.

(** Through the queue. *)
Lemma works_draining k m :
  pc m = Draining -> holder m = Some Worker -> call m self = [] -> works k (4 * length (queue m) + 4) m.
Proof.
  remember (queue m) as q eqn:Hq. revert m Hq. induction q as [| x q IH]; intros m Hq Hp Hh Hc.
  - eapply works_step; [by unfold thread_main; rewrite Hp, <- Hq | by apply works_top |].
    intros m' (H1 & H2 & H3 & H4). by split_and!.
  - assert (E1 : thread_main k false m = Some (mkMonitor q (running_ m) (holder m) (Popped x) (calls m) (posted m)
      (taken m ++ [x]) (failed m))) by (unfold thread_main; by rewrite Hp, <- Hq).
    set (m4 := mkMonitor q (running_ m) (Some Worker) Draining (calls m) (posted m) (taken m ++ [x]) (failed m)).
    destruct (IH m4) as (n & m' & Hn & Hw & H1 & H2 & H3 & H4); [done.. |].
    exists (4 + n)%nat, m'. split_and!; [cbn; lia | |].
    + cbn [Nat.add work]. rewrite E1. cbn. unfold call. cbn. unfold call in Hc. rewrite Hc. exact Hw.
    + cbn in H2, H3, H4. unfold rested. rewrite H3, <- Hq, <- app_assoc. by split_and!.
Qed.

Lemma works_testing k m :
  pc m = Testing -> holder m = Some Worker -> call m self = [] -> works k (4 * length (queue m) + 5) m.
Proof.
  intros Hp Hh Hc. destruct (decide (running_ m = false \/ queue m <> [])) as [Hx | Hx].
  - replace (4 * length (queue m) + 5)%nat with (S (4 * length (queue m) + 4)) by lia.
    eapply (works_step _ _ _ (set_pc Draining m)); [by unfold thread_main; rewrite Hp, decide_True | | done].
    by apply (works_draining k (set_pc Draining m)).
  - exists 1%nat, (set_pc Asleep (set_holder None m)). split_and!; [lia | |].
    + cbn. unfold thread_main. by rewrite Hp, decide_False.
    + assert (Hq : queue m = []) by (destruct (queue m); [done | exfalso; apply Hx; by right]).
      assert (Hr : running_ m = true) by (destruct (running_ m); [done | exfalso; apply Hx; by left]).
      unfold rested. cbn. rewrite Hq, Hr, app_nil_r. done.
Qed.

Lemma works_locking k m :
  pc m = Locking \/ pc m = Woken -> holder m = None -> call m self = [] ->
  works k (S (4 * length (queue m) + 5)) m.
Proof.
  intros Hp Hh Hc. eapply (works_step _ _ _ (set_pc Testing (set_holder (Some Worker) m))); [| | done].
  - unfold thread_main, acquire. by destruct Hp as [-> | ->]; rewrite Hh.
  - by apply (works_testing k (set_pc Testing (set_holder (Some Worker) m))).
Qed.

Lemma works_item k m :
  (exists x, pc m = Popped x /\ holder m = Some Worker \/ pc m = Working x /\ holder m = None) \/
    pc m = Relocking /\ holder m = None ->
  call m self = [] -> works k (S (S (S (4 * length (queue m) + 4)))) m.
Proof.
  intros Hp Hc.
  assert (Hrel : forall m1, pc m1 = Relocking -> holder m1 = None -> call m1 self = [] ->
    works k (S (4 * length (queue m1) + 4)) m1).
  { intros m1 Hp1 Hh1 Hc1.
    eapply (works_step _ _ _ (set_pc Draining (set_holder (Some Worker) m1))); [| | done].
    - unfold thread_main, acquire. by rewrite Hp1, Hh1.
    - by apply (works_draining k (set_pc Draining (set_holder (Some Worker) m1))). }
  assert (Hweak : forall b b' m1, works k b m1 -> (b <= b')%nat -> works k b' m1).
  { intros b b' m1 (n & m' & Hn & H) Hb. exists n, m'. split; [lia | done]. }
  assert (Hwork : forall m1 x, pc m1 = Working x -> holder m1 = None -> call m1 self = [] ->
    works k (S (S (4 * length (queue m1) + 4))) m1).
  { intros m1 x Hp1 Hh1 Hc1. eapply (works_step _ _ _ (set_pc Relocking m1)); [| | done].
    - unfold thread_main. by rewrite Hp1, Hc1.
    - by apply (Hrel (set_pc Relocking m1)). }
  destruct Hp as [(x & [[Hp Hh] | [Hp Hh]]) | [Hp Hh]].
  - eapply (works_step _ _ _ (set_pc (Working x) (set_holder None m))); [| | done].
    + unfold thread_main. by rewrite Hp.
    + by apply (Hwork (set_pc (Working x) (set_holder None m)) x).
  - eapply Hweak; [by apply (Hwork m x) | lia].
  - eapply Hweak; [by apply Hrel | lia].
Qed.

(** C23: posted work is done. As long as the worker's thread has not returned
    (or died of an exception), whenever no call is in progress: the worker, left
    alone, comes to rest within four steps per queued item and seven more; it
    has then taken everything that was queued, in order, and it sleeps if it is
    running and has returned if [running_] was cleared. (Only if it stands at
    the outer loop's test when the flag has been cleared does it return
    without looking at the queue.) *)
Theorem posted_work_is_done k m :
  reachable k m -> (forall t, call m t = []) -> pc m <> Finished -> pc m <> Terminated ->
  (running_ m = false -> pc m <> Top) ->
  exists n m', (n <= 4 * length (queue m) + 7)%nat /\ work k n m = Some m' /\
    queue m' = [] /\ taken m' = taken m ++ queue m /\
    pc m' = (if running_ m then Asleep else Finished).
Proof.
  intros Hr Hc Hnf Hnt Htop. assert (Hm : inv m) by by eapply monitor_reachable_inv.
  assert (Hnone : worker_inside (pc m) = false -> holder m = None).
  { intros H. destruct (holder m) as [[| t] |] eqn:E; [| | done].
    - apply (v_worker _ Hm) in E. congruence.
    - apply (v_caller _ Hm t) in E. by rewrite Hc in E. }
  assert (Hin : worker_inside (pc m) = true -> holder m = Some Worker) by apply (v_worker _ Hm).
  assert (Hworks : works k (4 * length (queue m) + 7) m).
  { destruct (pc m) eqn:Ep; try done.
    - assert (Hrun : running_ m = true) by (destruct (running_ m); [done | by destruct Htop]).
      replace (4 * length (queue m) + 7)%nat with (S (S (4 * length (queue m) + 5))) by lia.
      eapply (works_step _ _ _ (set_pc Locking m)); [| | done].
      + unfold thread_main. by rewrite Ep, Hrun.
      + apply (works_locking k (set_pc Locking m)); [by left | by apply Hnone | apply Hc].
    - destruct (works_locking k m) as (n & m' & Hn & H); [by left | by apply Hnone | apply Hc |].
      exists n, m'. split; [lia | done].
    - destruct (works_testing k m) as (n & m' & Hn & H); [done | by apply Hin | apply Hc |].
      exists n, m'. split; [lia | done].
    - assert (Hx : ~ (running_ m = false \/ queue m <> [])).
      { intros Hx. destruct (v_wake _ Hm Ep Hx) as [t Ht]. by rewrite Hc in Ht. }
      exists 0%nat, m. split_and!; [lia | done |]. unfold rested. rewrite Ep.
      destruct (queue m), (running_ m); try (exfalso; apply Hx; by auto). by rewrite app_nil_r.
    - destruct (works_locking k m) as (n & m' & Hn & H); [by right | by apply Hnone | apply Hc |].
      exists n, m'. split; [lia | done].
    - destruct (works_draining k m) as (n & m' & Hn & H); [done | by apply Hin | apply Hc |].
      exists n, m'. split; [lia | done].
    - destruct (works_item k m) as (n & m' & Hn & H); [left; exists x; left; by split; [| apply Hin] | apply Hc |].
      exists n, m'. split; [lia | done].
    - destruct (works_item k m) as (n & m' & Hn & H); [left; exists x; right; by split; [| apply Hnone] | apply Hc |].
      exists n, m'. split; [lia | done].
    - destruct (works_item k m) as (n & m' & Hn & H); [right; by split; [| apply Hnone] | apply Hc |].
      exists n, m'. split; [lia | done]. }
  destruct Hworks as (n & m' & Hn & Hx & H1 & _ & H3 & H4). by exists n, m'.
Qed.

(** C24: [DBWorker::stop] leaves nothing behind. When a call of [stop] is about
    to release the lock for the last time, the queue is empty, the database
    thread has returned, and every job ever posted was either taken by it or
    failed by [stop]: no callback is forgotten. *)
Theorem db_stop_fails_the_rest m t :
  reachable DbThread m -> call m t = [Unlock] ->
  queue m = [] /\ pc m = Finished /\ posted m = taken m ++ failed m /\ holder m = Some (Caller t).
Proof.
  intros Hr Hc. apply monitor_reachable_inv in Hr. destruct (v_drained _ Hr t Hc) as [Hq Hp]. split_and!; [done.. | |].
  - by rewrite (v_fifo _ Hr), Hq, app_nil_r.
  - apply (v_caller _ Hr). by rewrite Hc.
Qed.

Lemma idle_calls m : map_Forall (fun _ p => p = []) (calls m) -> forall t, call m t = [].
Proof. intros H t. unfold call. destruct (calls m !! t) as [p |] eqn:E; [by apply (H t) | done]. Qed.

Definition posting (x : A) : list Label := [LPost 1 x; LCall 1; LCall 1; LCall 1; LCall 1].
Definition stopping : list Label := [LStop 2; LCall 2; LCall 2; LCall 2; LCall 2; LThread false; LCall 2].
Definition after_posting (x : A) : Monitor := default start (run RoomThread (posting x) start).
Definition after_stopping (x : A) : Monitor := default start (run RoomThread stopping (after_posting x)).

(** [RoomWorker::stop] may leave an event behind. An event whose
    [post_event] had returned before [stop] was called can still be in the
    queue when [stop] has returned and the thread is gone: the worker stood at
    the outer loop's test, which looks at [running_] only. Nobody processes or
    fails it. *)
Theorem room_stop_leaves_event (x : A) :
  exists m1 m2,
    run RoomThread (posting x) start = Some m1 /\ (forall t, call m1 t = []) /\ posted m1 = [x] /\
    run RoomThread stopping m1 = Some m2 /\ (forall t, call m2 t = []) /\
    pc m2 = Finished /\ queue m2 = [x] /\ taken m2 = [] /\ failed m2 = [].
Proof.
  exists (after_posting x), (after_stopping x).
  split_and!; try (by vm_compute); apply idle_calls, (bool_decide_unpack _); by vm_compute.
Qed.

End Monitor.

(** ** Witnesses *)

Definition reach {A} (k : Kind) (ls : list (Label (A := A))) : Monitor := default start (run k ls start).

Lemma reach_reachable {A} k (ls : list (Label (A := A))) : reachable k (reach k ls).
Proof.
  unfold reach. destruct (run k ls start) as [m |] eqn:E; [| apply rtc_refl].
  eapply monitor_run_reachable; [apply rtc_refl | exact E].
Qed.

Definition falls_asleep : list (Label (A := Z)) := [LThread false; LThread false; LThread false].
Definition stopped_midway : list (Label (A := Z)) := posting 7 ++ [LStop 2; LCall 2; LCall 2; LThread false].
Definition db_stopping : list (Label (A := Z)) :=
  posting 7 ++ [LStop 2; LCall 2; LCall 2; LCall 2; LCall 2; LThread false; LCall 2; LCall 2; LCall 2; LCall 2].

Ltac idle := apply idle_calls, (bool_decide_unpack _); by vm_compute.

Lemma monitor_safe_witness :
  posted (reach DbThread db_stopping) = [7] /\ failed (reach DbThread db_stopping) = [7] /\
  posted (reach DbThread db_stopping) =
  taken (reach DbThread db_stopping) ++ failed (reach DbThread db_stopping) ++ queue (reach DbThread db_stopping).
Proof.
  split; [by vm_compute |]. split; [by vm_compute |].
  apply (monitor_safe DbThread (reach DbThread db_stopping)), reach_reachable.
Defined.

Lemma no_lost_wakeup_witness :
  pc (reach RoomThread falls_asleep) = Asleep /\ taken (reach RoomThread falls_asleep) = posted (reach RoomThread falls_asleep).
Proof.
  split; [by vm_compute |].
  apply (no_lost_wakeup RoomThread (reach RoomThread falls_asleep)); [apply reach_reachable | by vm_compute | idle].
Defined.

Lemma stop_terminates_witness :
  running_ (reach RoomThread stopped_midway) = false /\
  forall ls m', Forall continues ls -> run RoomThread ls (reach RoomThread stopped_midway) = Some m' ->
    (length ls <= effort (fun _ => 0%nat) (reach RoomThread stopped_midway))%nat.
Proof.
  split; [by vm_compute |].
  apply (stop_terminates RoomThread (reach RoomThread stopped_midway)), reach_reachable.
Defined.

Lemma posted_work_is_done_witness :
  exists n m', work RoomThread n (reach RoomThread (posting 7)) = Some m' /\ taken m' = [7] /\ pc m' = Asleep.
Proof.
  destruct (posted_work_is_done RoomThread (reach RoomThread (posting 7))) as (n & m' & _ & H1 & _ & H2 & H3);
    [apply reach_reachable | idle | by vm_compute.. |].
  exists n, m'. split_and!; [exact H1 | exact H2 | exact H3].
Defined.

Lemma db_stop_fails_the_rest_witness :
  call (reach DbThread db_stopping) 2 = [Unlock] /\ queue (reach DbThread db_stopping) = [] /\
  pc (reach DbThread db_stopping) = Finished.
Proof.
  split; [by vm_compute |].
  destruct (db_stop_fails_the_rest (reach DbThread db_stopping) 2) as (H1 & H2 & _);
    [apply reach_reachable | by vm_compute | exact (conj H1 H2)].
Defined.

End WorkerLoop.
