(* ===== verification/Fleet.v ===== *)
(** * Fleet: the server's threads, from start to shutdown

    The composition of the monitors of WorkerLoop.v: one for the database
    thread, one for each room worker. [Server::run] starts them
    (server/src/server/Server.cpp, server/src/room/RoomManager.cpp), the main
    thread posts what it posts, [Server::~Server] stops the room workers one
    after the other and then the database thread; meanwhile a worker that
    processes an item posts further items into the other monitors, and
    [DBWorker::stop] runs the callbacks of the jobs that are left, which post
    too, with the job queue's mutex held. Every instruction of every thread is a
    step. What an item posts is not computed here: it may be anything that
    weighs less than the item, which the handlers are shown to respect
    ([handlers_fit_fleet]). *)

From S2P Require Import Prelude Codec Wire Event World RoomManager RoomWorker Server Respects Quiescence Queries WorkerLoop.

Module Fleet.
Import WorkerLoop.

(** ** What a step of one monitor leaves alone *)

Section Monitor.
Context {A : Type}.
Implicit Types (m : Monitor (A := A)).

Definition is_clear (i : Instr A) : bool := match i with ClearRunning => true | _ => false end.
Definition clears (p : list (Instr A)) : bool := existsb is_clear p.

Lemma thread_step k throws m m' :
  thread_main k throws m = Some m' -> (throws = true -> k = DbThread) ->
  calls m' = calls m /\ running_ m' = running_ m /\ pc m <> Finished /\ pc m' <> Terminated.
Proof.
  unfold thread_main, acquire. intros E Hk. destruct (pc m); try done; repeat (case_match; try done);
    injection E as <-; try done; cbn; first [by destruct (running_ m) | by specialize (Hk eq_refl)].
Qed.

(** A worker that works on an item leaves it only when its own call is over. *)
Lemma call_step_spec t m m' :
  call_step t m = Some m' ->
  exists i p, call m t = i :: p /\
    (call m' t = p \/ i = FailAll /\ call m' t = i :: p) /\
    (forall s, s <> t -> call m' s = call m s) /\
    (pc m' = pc m \/ pc m = Asleep /\ pc m' = Woken) /\
    running_ m' = (if is_clear i then false else running_ m) /\
    (i = Join -> pc m = Finished) /\
    (is_Some (released (LCall t) m) -> i = FailAll /\ call m' t = i :: p).
Proof.
  unfold call_step, released. destruct (call m t) as [| i p] eqn:Ec; [done |]. intros E. exists i, p.
  assert (Hset : forall q m1, calls m1 = calls m -> m' = set_call t q m1 ->
    call m' t = q /\ forall s, s <> t -> call m' s = call m s).
  { intros q m1 E1 ->. rewrite call_set_call, decide_True by done. split; [done |].
    intros s Hs. rewrite call_set_call, decide_False by done. unfold call. by rewrite E1. }
  destruct i; unfold acquire in E; repeat (case_match; try done); injection E as E;
    match type of E with set_call _ ?q ?m1 = _ => destruct (Hset q m1) as [H1 H2];
      [by (unfold notify; destruct (pc m)) | by symmetry |] end;
    subst m'; (split_and!; [done | by auto | exact H2 | cbn .. ]); try done; try (by left); try (by intros []); auto.
  unfold notify. destruct (pc m) eqn:Ep; cbn; rewrite ?Ep; auto.
  unfold notify. by destruct (pc m).
Qed.

(** [join] comes after the flag has been cleared. *)
Lemma join_clears k (p : list (Instr A)) : Join :: p `suffix_of` stop k -> clears (Join :: p) = false.
Proof.
  intros [l Hl]. destruct k; unfold stop, room_stop, db_stop in Hl;
    repeat (destruct l as [| ? l]; [simplify_eq/=; done |]; simplify_eq/=).
Qed.

End Monitor.

(** ** The fleet *)

(** Thread and monitor ids: a room worker's own, which is positive, ... *)
Definition DB : Z := Quiescence.DB_THREAD.
Definition MAIN : Z := -2.

Definition kind_of (j : Z) : Kind := if decide (j = DB) then DbThread else RoomThread.

(** Thread [t], as monitor [j] knows it: a worker is [self] in its own. *)
Definition as_seen (t j : Z) : Z := if decide (t = j) then self else t.

(** [Server::run] starts the database thread, then [RoomManager::start] the
    room workers; [Server::~Server] stops them first. [rooms] are the keys of
    [room_workers_], in the map's order. *)
Definition manager_start (rooms : list Z) : list Z := rooms.
Definition manager_stop (rooms : list Z) : list Z := rooms.
Definition start_order (rooms : list Z) : list Z := DB :: manager_start rooms.
Definition stop_order (rooms : list Z) : list Z := manager_stop rooms ++ [DB].

Section Fleet.
Context {A : Type} (weight : A -> nat) (rooms : list Z).

Record State := mkFleet {
  monitors : gmap Z (Monitor (A := A));
  todo : gmap Z (list (Z * A));  (* what each thread has still to post *)
  posting : gmap Z Z;            (* the monitor in whose [post_event] it is *)
  stopping : option Z;           (* the monitor in whose [stop] the main thread is *)
  to_start : list Z;
  to_stop : list Z }.

(** A constructed worker: no thread yet. *)
Definition created : Monitor (A := A) := mkMonitor [] false None Top ∅ [] [] [].

(** Everything the main thread will post while it serves is in its [todo]. *)
Definition initial (posts : list (Z * A)) : State :=
  mkFleet (list_to_map ((fun j => (j, created)) <$> (DB :: rooms))) {[MAIN := posts]} ∅ None
    (start_order rooms) (stop_order rooms).

Definition pending (t : Z) (f : State) : list (Z * A) := default [] (todo f !! t).

(** What an item may post: less than it weighs; jobs go to the database
    thread, whose callbacks post events only. *)
Definition bulk (ys : list (Z * A)) : nat := sum_list_with (fun y => S (weight y.2)) ys.
Definition targets (j : Z) : list Z := if decide (j = DB) then rooms else DB :: rooms.
Definition may_post (j : Z) (x : A) (ys : list (Z * A)) : Prop :=
  (bulk ys <= weight x)%nat /\ Forall (fun y => y.1 ∈ targets j) ys.

Lemma may_post_nil j x : may_post j x [].
Proof. split; [apply Nat.le_0_l | constructor]. Qed.

#[global] Instance may_post_dec j x ys : Decision (may_post j x ys).
Proof. unfold may_post. apply _. Defined.

Definition set_monitor (j : Z) (m : Monitor (A := A)) (f : State) : State :=
  mkFleet (<[j := m]> (monitors f)) (todo f) (posting f) (stopping f) (to_start f) (to_stop f).
Definition set_todo (t : Z) (ys : list (Z * A)) (f : State) : State :=
  mkFleet (monitors f) (<[t := ys]> (todo f)) (posting f) (stopping f) (to_start f) (to_stop f).
Definition set_posting (p : gmap Z Z) (f : State) : State :=
  mkFleet (monitors f) (todo f) p (stopping f) (to_start f) (to_stop f).
Definition set_main (s : option Z) (l l' : list Z) (f : State) : State :=
  mkFleet (monitors f) (todo f) (posting f) s l l'.

Definition set_running (b : bool) (m : Monitor (A := A)) : Monitor (A := A) :=
  mkMonitor (queue m) b (holder m) (pc m) (calls m) (posted m) (taken m) (failed m).

Inductive Label :=
  | FThread (j : Z) (throws : bool) (ys : list (Z * A))  (* worker j; ys: what an item it starts on posts *)
  | FWake (j : Z)                                        (* a spurious wakeup *)
  | FPost (t : Z)                                        (* thread t calls post_event for its next item *)
  | FCall (t : Z)                                        (* a step of that call *)
  | FMain                                                (* the main thread starts or stops the next worker *)
  | FStop (ys : list (Z * A)).                           (* a step of stop; ys: what a failed job posts *)

(** A room worker's items do not throw. *)
Definition worker_exec (j : Z) (throws : bool) (ys : list (Z * A)) (f : State) : option State :=
  m ← monitors f !! j;
  guard (j ∉ to_start f /\ (throws = true -> j = DB));;
  m' ← WorkerLoop.exec (kind_of j) (LThread throws) m;
  match pc m with
  | Popped x => guard (may_post j x ys);; Some (set_todo j ys (set_monitor j m' f))
  | Working _ => guard (pending j f = [] /\ posting f !! j = None);; Some (set_monitor j m' f)
  | _ => Some (set_monitor j m' f)
  end.

Definition post_exec (t : Z) (f : State) : option State :=
  guard (posting f !! t = None /\ (t = MAIN -> to_start f = []));;
  match pending t f with
  | [] => None
  | (j, y) :: ys =>
      m ← monitors f !! j;
      m' ← WorkerLoop.exec (kind_of j) (LPost (as_seen t j) y) m;
      Some (set_posting (<[t := j]> (posting f)) (set_todo t ys (set_monitor j m' f)))
  end.

Definition call_exec (t : Z) (f : State) : option State :=
  j ← posting f !! t;
  m ← monitors f !! j;
  m' ← WorkerLoop.exec (kind_of j) (LCall (as_seen t j)) m;
  let f' := set_monitor j m' f in
  Some (match call m' (as_seen t j) with [] => set_posting (delete t (posting f)) f' | _ :: _ => f' end).

(** [start] sets [running_] and makes the thread; [stop] is called when nothing
    is left to post. *)
Definition main_exec (f : State) : option State :=
  match stopping f, to_start f, to_stop f with
  | Some _, _, _ => None
  | None, j :: js, _ =>
      m ← monitors f !! j;
      Some (set_main None js (to_stop f) (set_monitor j (set_running true m) f))
  | None, [], j :: js =>
      guard (pending MAIN f = [] /\ posting f !! MAIN = None);;
      m ← monitors f !! j;
      m' ← WorkerLoop.exec (kind_of j) (LStop MAIN) m;
      Some (set_main (Some j) [] js (set_monitor j m' f))
  | None, [], [] => None
  end.

(** The callback of a failed job posts before the next job is failed. *)
Definition stop_exec (ys : list (Z * A)) (f : State) : option State :=
  j ← stopping f;
  guard (pending MAIN f = [] /\ posting f !! MAIN = None);;
  m ← monitors f !! j;
  m' ← WorkerLoop.exec (kind_of j) (LCall MAIN) m;
  let f' := set_main (match call m' MAIN with [] => None | _ :: _ => Some j end) (to_start f) (to_stop f)
              (set_monitor j m' f) in
  match released (LCall MAIN) m with
  | Some x => guard (may_post DB x ys);; Some (set_todo MAIN ys f')
  | None => Some f'
  end.

Definition exec (l : Label) (f : State) : option State :=
  match l with
  | FThread j throws ys => worker_exec j throws ys f
  | FWake j => m ← monitors f !! j; m' ← WorkerLoop.exec (kind_of j) LSpurious m; Some (set_monitor j m' f)
  | FPost t => post_exec t f
  | FCall t => call_exec t f
  | FMain => main_exec f
  | FStop ys => stop_exec ys f
  end.

Definition step (f f' : State) : Prop := exists l, exec l f = Some f'.

Definition reachable (posts : list (Z * A)) (f : State) : Prop := rtc step (initial posts) f.

(** Every step but a spurious wakeup. *)
Definition advances (l : Label) : Prop := match l with FWake _ => False | _ => True end.

Fixpoint run (ls : list Label) (f : State) : option State :=
  match ls with
  | [] => Some f
  | l :: ls' => match exec l f with Some f' => run ls' f' | None => None end
  end.

(** ** Every schedule is finite *)

(** One delivery of a posted item. *)
Definition errand (y : Z * A) : nat := ITEM + ITEM * weight y.2.

Definition effort (f : State) : nat :=
  (map_sum (WorkerLoop.effort weight) (monitors f) + map_sum (sum_list_with errand) (todo f) +
   5 * length (to_start f) + 20 * length (to_stop f))%nat.

Lemma effort_monitor j m m' f :
  monitors f !! j = Some m ->
  (effort (set_monitor j m' f) + WorkerLoop.effort weight m = effort f + WorkerLoop.effort weight m')%nat.
Proof.
  intros H. unfold effort. cbn. rewrite map_sum_insert, (map_sum_lookup _ (monitors f) j m H). lia.
Qed.

Lemma effort_todo t ys f :
  (effort (set_todo t ys f) + sum_list_with errand (pending t f) = effort f + sum_list_with errand ys)%nat.
Proof.
  unfold effort, pending. cbn. rewrite map_sum_insert. destruct (todo f !! t) as [zs |] eqn:E; cbn.
  - rewrite (map_sum_lookup _ (todo f) t zs E). lia.
  - rewrite delete_id by done. lia.
Qed.

Lemma errands_bulk ys : sum_list_with errand ys = (ITEM * bulk ys)%nat.
Proof. unfold bulk. induction ys as [| y ys IH]; [cbn; lia |]. cbn. rewrite IH. unfold errand. lia. Qed.

(** An item is set free: what it posts is paid for. *)
Lemma effort_release j m m' i t x ys f :
  monitors f !! j = Some m -> may_post i x ys ->
  (WorkerLoop.effort weight m' + ITEM * weight x < WorkerLoop.effort weight m)%nat ->
  (effort (set_todo t ys (set_monitor j m' f)) < effort f)%nat.
Proof.
  intros Hm [Hb _] Hlt. pose proof (effort_monitor j m m' f Hm) as H1.
  pose proof (effort_todo t ys (set_monitor j m' f)) as H2. rewrite (errands_bulk ys) in H2.
  assert (ITEM * bulk ys <= ITEM * weight x)%nat by by apply Nat.mul_le_mono_l. lia.
Qed.

(** What the steps need to be possible. *)

Lemma worker_exec_Some j throws ys f f' :
  worker_exec j throws ys f = Some f' ->
  exists m m', monitors f !! j = Some m /\ (j ∉ to_start f /\ (throws = true -> j = DB)) /\
    thread_main (kind_of j) throws m = Some m' /\
    ((exists x, pc m = Popped x /\ may_post j x ys /\ f' = set_todo j ys (set_monitor j m' f)) \/
     (forall x, pc m <> Popped x) /\ (forall x, pc m = Working x -> pending j f = [] /\ posting f !! j = None) /\
     f' = set_monitor j m' f).
Proof.
  unfold worker_exec. intros E. apply bind_Some in E as (m & Hm & E). apply bind_Some in E as (Hg & _ & E).
  apply bind_Some in E as (m' & Hx & E). exists m, m'. split_and!; [done | apply Hg | apply Hg | exact Hx |].
  destruct (pc m) as [| | | | | | x | x | | |]; try (injection E as <-; by right).
  - apply bind_Some in E as (Hp & _ & E). injection E as <-. left. by exists x.
  - apply bind_Some in E as (Hp & _ & E). injection E as <-. right. by split_and!.
Qed.

Lemma post_exec_Some t f f' :
  post_exec t f = Some f' ->
  exists j y ys m, pending t f = (j, y) :: ys /\ monitors f !! j = Some m /\ posting f !! t = None /\
    (t = MAIN -> to_start f = []) /\ may_call (as_seen t j) m = true /\
    f' = set_posting (<[t := j]> (posting f)) (set_todo t ys
           (set_monitor j (set_call (as_seen t j) (post (kind_of j) y) m) f)).
Proof.
  unfold post_exec. intros E. apply bind_Some in E as ([H1 H2] & _ & E).
  destruct (pending t f) as [| [j y] ys]; [done |].
  apply bind_Some in E as (m & Hm & E). apply bind_Some in E as (m' & Hx & E). injection E as <-.
  cbn in Hx. destruct (may_call _ m) eqn:Hc; [| done]. injection Hx as <-. by exists j, y, ys, m.
Qed.

Lemma call_exec_Some t f f' :
  call_exec t f = Some f' ->
  exists j m m', posting f !! t = Some j /\ monitors f !! j = Some m /\ call_step (as_seen t j) m = Some m' /\
    f' = match call m' (as_seen t j) with
         | [] => set_posting (delete t (posting f)) (set_monitor j m' f)
         | _ :: _ => set_monitor j m' f
         end.
Proof.
  unfold call_exec. intros E. apply bind_Some in E as (j & Hj & E). apply bind_Some in E as (m & Hm & E).
  apply bind_Some in E as (m' & Hx & E). injection E as <-. by exists j, m, m'.
Qed.

Lemma main_exec_Some f f' :
  main_exec f = Some f' ->
  stopping f = None /\
  ((exists j js m, to_start f = j :: js /\ monitors f !! j = Some m /\
      f' = set_main None js (to_stop f) (set_monitor j (set_running true m) f)) \/
   (exists j js m, to_start f = [] /\ to_stop f = j :: js /\ pending MAIN f = [] /\ posting f !! MAIN = None /\
      monitors f !! j = Some m /\ may_call MAIN m = true /\
      f' = set_main (Some j) [] js (set_monitor j (set_call MAIN (stop (kind_of j)) m) f))).
Proof.
  unfold main_exec. intros E. destruct (stopping f); [done |]. split; [done |].
  destruct (to_start f) as [| j js].
  - right. destruct (to_stop f) as [| j js]; [done |]. apply bind_Some in E as ([H1 H2] & _ & E).
    apply bind_Some in E as (m & Hm & E). apply bind_Some in E as (m' & Hx & E). injection E as <-.
    cbn in Hx. destruct (may_call MAIN m) eqn:Hc; [| done]. injection Hx as <-. by exists j, js, m.
  - left. apply bind_Some in E as (m & Hm & E). injection E as <-. by exists j, js, m.
Qed.

Lemma stop_exec_Some ys f f' :
  stop_exec ys f = Some f' ->
  exists j m m', stopping f = Some j /\ pending MAIN f = [] /\ posting f !! MAIN = None /\
    monitors f !! j = Some m /\ call_step MAIN m = Some m' /\
    let f1 := set_main (match call m' MAIN with [] => None | _ :: _ => Some j end) (to_start f) (to_stop f)
                (set_monitor j m' f) in
    ((exists x, released (LCall MAIN) m = Some x /\ may_post DB x ys /\ f' = set_todo MAIN ys f1) \/
     released (LCall MAIN) m = None /\ f' = f1).
Proof.
  unfold stop_exec. intros E. apply bind_Some in E as (j & Hj & E). apply bind_Some in E as ([H1 H2] & _ & E).
  apply bind_Some in E as (m & Hm & E). apply bind_Some in E as (m' & Hx & E). exists j, m, m'.
  do 5 (split; [done |]). cbn zeta. destruct (released (LCall MAIN) m) as [x |].
  - left. apply bind_Some in E as (Hp & _ & E). injection E as <-. by exists x.
  - right. by injection E as <-.
Qed.

Lemma stop_effort k : (sum_list_with (cost weight) (stop k) <= 15)%nat.
Proof. destruct k; cbn; lia. Qed.

Lemma post_effort k j y : (sum_list_with (cost weight) (post k y) < errand (j, y))%nat.
Proof. unfold errand. change (ITEM + ITEM * weight (j, y).2)%nat with (18 + ITEM * weight y)%nat. destruct k; cbn; lia. Qed.

Lemma exec_advances l f f' : advances l -> exec l f = Some f' -> (effort f' < effort f)%nat.
Proof.
  intros Hl E. destruct l as [j throws ys | j | t | t | | ys]; try done; cbn [exec] in E.
  - apply worker_exec_Some in E as (m & m' & Hm & _ & Hx & Hd).
    pose proof (WorkerLoop.exec_effort weight _ (LThread throws) m m' I Hx) as Hlt. unfold released in Hlt.
    pose proof (effort_monitor j m m' f Hm) as He.
    destruct Hd as [(x & Hp & Hy & ->) | (Hp & _ & ->)].
    + rewrite Hp in Hlt. by apply (effort_release j m m' j j x ys).
    + destruct (pc m); cbn [heft] in Hlt; lia.
  - apply post_exec_Some in E as (j & y & ys & m & Hp & Hm & _ & _ & Hc & ->).
    set (m' := set_call _ _ m). pose proof (effort_monitor j m m' f Hm) as H1.
    pose proof (effort_todo t ys (set_monitor j m' f)) as H2.
    change (pending t (set_monitor j m' f)) with (pending t f) in H2. rewrite Hp in H2.
    change (effort (set_posting ?p ?g)) with (effort g).
    assert (Hcall : call m (as_seen t j) = []) by (unfold may_call in Hc; by destruct (call m (as_seen t j))).
    pose proof (begin_effort weight _ (post (kind_of j) y) m Hcall) as H3. fold m' in H3.
    pose proof (post_effort (kind_of j) j y). cbn [sum_list_with] in H2. lia.
  - apply call_exec_Some in E as (j & m & m' & _ & Hm & Hx & ->).
    pose proof (WorkerLoop.exec_effort weight (kind_of j) (LCall _) m m' I Hx) as Hlt.
    pose proof (effort_monitor j m m' f Hm) as He.
    destruct (call m' _); change (effort (set_posting ?p ?g)) with (effort g); lia.
  - apply main_exec_Some in E as [_ [(j & js & m & Hs & Hm & ->) | (j & js & m & Hs & Ht & _ & _ & Hm & Hc & ->)]].
    + pose proof (effort_monitor j m (set_running true m) f Hm) as He. unfold effort in *. cbn in *. rewrite Hs. cbn.
      assert (WorkerLoop.effort weight (set_running true m) <= WorkerLoop.effort weight m + 3)%nat; [| lia].
      unfold WorkerLoop.effort, pc_cost. cbn. destruct (pc m), (running_ m); lia.
    + set (m' := set_call _ _ m). pose proof (effort_monitor j m m' f Hm) as He.
      assert (Hcall : call m MAIN = []) by (unfold may_call in Hc; by destruct (call m MAIN)).
      pose proof (begin_effort weight _ (stop (kind_of j)) m Hcall) as H3. fold m' in H3.
      pose proof (stop_effort (kind_of j)). unfold effort in *. cbn in *. rewrite Hs, Ht. cbn. lia.
  - apply stop_exec_Some in E as (j & m & m' & Hj & _ & _ & Hm & Hx & Hd).
    pose proof (WorkerLoop.exec_effort weight (kind_of j) (LCall _) m m' I Hx) as Hlt.
    pose proof (effort_monitor j m m' f Hm) as He. cbn zeta in Hd.
    destruct Hd as [(x & Hr & Hy & ->) | (Hr & ->)]; rewrite Hr in Hlt.
    + by apply (effort_release j m m' DB MAIN x ys f Hm Hy).
    + unfold effort in *. cbn in *. lia.
Qed.

(** ** The global invariant *)

Context (positive : Forall (fun j => 1 <= j) rooms).

Definition members : list Z := DB :: rooms.

Definition has_stop (f : State) : list Z :=
  match stopping f with Some j => j :: to_stop f | None => to_stop f end.

(** Whose call it is that monitor [j] knows as [s]'s. *)
Definition owned (f : State) (j s : Z) : Prop :=
  (exists t, t <> 0 /\ s = as_seen t j /\ posting f !! t = Some j) \/ s = MAIN /\ stopping f = Some j.

(** A call of [post_event], and one of [stop]. *)
Definition post_call (p : list (Instr A)) : Prop := p <> [] /\ joins p = false /\ fails p = false.
Definition stop_call (j : Z) (p : list (Instr A)) (m : Monitor (A := A)) : Prop :=
  p <> [] /\ p `suffix_of` stop (kind_of j) /\ (clears p = false -> running_ m = false).

(** The calls in progress are those the threads say they are in. *)
Record tied (f : State) : Prop := {
  f_dom : forall j, is_Some (monitors f !! j) <-> j ∈ members;
  f_inv : forall j m, monitors f !! j = Some m -> WorkerLoop.inv m;
  f_alive : forall j m, monitors f !! j = Some m -> pc m <> Terminated;
  f_unstarted : forall j m, j ∈ to_start f -> monitors f !! j = Some m -> pc m = Top;
  f_calls : forall j m s, monitors f !! j = Some m -> call m s <> [] -> owned f j s;
  f_posting : forall t j, posting f !! t = Some j -> t <> 0 /\
    exists m, monitors f !! j = Some m /\ post_call (call m (as_seen t j));
  f_stopping : forall j, stopping f = Some j ->
    exists m, monitors f !! j = Some m /\ stop_call j (call m MAIN) m;
  f_working : forall t, t <> MAIN -> pending t f <> [] \/ is_Some (posting f !! t) ->
    exists m x, monitors f !! t = Some m /\ pc m = Working x }.

(** The main thread starts all, then stops one after the other; its callbacks
    never wait for the monitor it is stopping. *)
Record planned (f : State) : Prop := {
  f_targets : forall t, Forall (fun y => y.1 ∈ members) (pending t f);
  f_stop_posts : forall j, stopping f = Some j -> Forall (fun y => y.1 ∈ rooms) (pending MAIN f) /\
    (forall i, posting f !! MAIN = Some i -> i ∈ rooms) /\
    (pending MAIN f <> [] \/ is_Some (posting f !! MAIN) -> j = DB);
  f_starting : Forall (fun j => j ∈ members) (to_start f);
  f_first : to_start f <> [] -> stopping f = None /\ posting f !! MAIN = None;
  f_stopped : forall j m, monitors f !! j = Some m ->
    j ∈ to_stop f \/ (stopping f = Some j /\ joins (call m MAIN) = true) \/ pc m = Finished;
  f_order : has_stop f `suffix_of` stop_order rooms;
  f_end : stopping f = None -> to_stop f = [] -> pending MAIN f = [] /\ posting f !! MAIN = None /\
    forall m, monitors f !! DB = Some m -> queue m = [] }.

Record fine (f : State) : Prop := { f_tied :> tied f; f_planned :> planned f }.

Lemma member_id j : j ∈ members -> j <> 0 /\ j <> MAIN.
Proof using positive.
  intros [-> | H]%elem_of_cons; [done |]. rewrite Forall_forall in positive. specialize (positive _ H).
  unfold MAIN. lia.
Qed.

Lemma room_not_db j : j ∈ rooms -> j <> DB.
Proof using positive.
  intros H. rewrite Forall_forall in positive. specialize (positive _ H). unfold DB, Quiescence.DB_THREAD. lia.
Qed.

Lemma as_seen_inj t t' j : t <> 0 -> t' <> 0 -> as_seen t j = as_seen t' j -> t = t'.
Proof. unfold as_seen, self. intros H H'. repeat case_decide; congruence. Qed.

Lemma as_seen_main j : j ∈ members -> as_seen MAIN j = MAIN.
Proof using positive. intros H%member_id. unfold as_seen. by rewrite decide_False by naive_solver. Qed.

Lemma lookup_monitor i j m' f m1 :
  <[j := m']> (monitors f) !! i = Some m1 <-> i = j /\ m1 = m' \/ i <> j /\ monitors f !! i = Some m1.
Proof. rewrite lookup_insert_Some. naive_solver. Qed.

Lemma dom_monitor i j m m' f :
  monitors f !! j = Some m -> is_Some (<[j := m']> (monitors f) !! i) <-> is_Some (monitors f !! i).
Proof.
  intros H. rewrite lookup_insert_is_Some'. split; [intros [-> |]; eauto | by right].
Qed.

Lemma pending_todo t t' ys f : pending t (set_todo t' ys f) = if decide (t = t') then ys else pending t f.
Proof.
  unfold pending. cbn. case_decide as H; [subst; by rewrite lookup_insert_eq | by rewrite lookup_insert_ne].
Qed.

Lemma fine_member f j m : fine f -> monitors f !! j = Some m -> j ∈ members.
Proof. intros Hf Hm. apply (f_dom f Hf). eauto. Qed.

(** Once everything has been stopped nobody moves. *)
Lemma fine_running f j m :
  fine f -> monitors f !! j = Some m -> pc m <> Finished -> stopping f = None -> to_stop f = [] -> False.
Proof.
  intros Hf Hm Hp Hs Ht. destruct (f_stopped f Hf j m Hm) as [H | [[H _] | H]]; [| congruence | done].
  rewrite Ht in H. by apply elem_of_nil in H.
Qed.

(** The worker's own steps. *)
Lemma fine_worker f j m m' :
  fine f -> monitors f !! j = Some m -> WorkerLoop.inv m' -> calls m' = calls m -> running_ m' = running_ m ->
  pc m <> Finished -> pc m' <> Terminated -> j ∉ to_start f ->
  (forall x, pc m = Working x -> pending j f = [] /\ posting f !! j = None) -> fine (set_monitor j m' f).
Proof.
  intros Hf Hm Hi Hc Hr Hnf Hnt Hns Hw. assert (Ecall : forall s, call m' s = call m s) by (intros s; unfold call; by rewrite Hc).
  pose proof (fine_running f j m Hf Hm Hnf) as Hend.
  split; split; cbn [set_monitor monitors to_start to_stop stopping posting todo].
  - intros i. rewrite <- (f_dom f Hf). by apply (dom_monitor i j m).
  - intros i m1 [[_ ->] | [_ H]]%lookup_monitor; [done | by apply (f_inv f Hf i)].
  - intros i m1 [[_ ->] | [_ H]]%lookup_monitor; [done | by apply (f_alive f Hf i)].
  - intros i m1 Hs [[-> _] | [_ H]]%lookup_monitor; [done | by apply (f_unstarted f Hf i)].
  - intros i m1 s [[-> ->] | [_ H]]%lookup_monitor; [rewrite Ecall |]; by apply (f_calls f Hf).
  - intros t i Ht. destruct (f_posting f Hf t i Ht) as (H1 & m1 & H2 & H3). split; [done |].
    destruct (decide (i = j)) as [-> | Hne]; [exists m' | exists m1]; rewrite lookup_monitor; [| by split; [right |]].
    rewrite Hm in H2. injection H2 as <-. rewrite !Ecall. by split; [left |].
  - intros i Ht. destruct (f_stopping f Hf i Ht) as (m1 & H2 & H3).
    destruct (decide (i = j)) as [-> | Hne]; [exists m' | exists m1]; rewrite lookup_monitor; [| by split; [right |]].
    rewrite Hm in H2. injection H2 as <-. unfold stop_call. rewrite !Ecall, Hr. by split; [left |].
  - intros t Ht Hp. destruct (f_working f Hf t Ht Hp) as (m1 & x & H1 & H2). exists m1, x. split; [| done].
    apply lookup_monitor. right. split; [| done]. intros ->. rewrite Hm in H1. injection H1 as <-.
    destruct (Hw x H2) as [E1 E2]. change (pending j f <> [] \/ is_Some (posting f !! j)) in Hp.
    rewrite E1, E2 in Hp. by destruct Hp as [? | [? ?]].
  - apply (f_targets f Hf).
  - apply (f_stop_posts f Hf).
  - apply (f_starting f Hf).
  - apply (f_first f Hf).
  - intros i m1 [[-> ->] | [_ H]]%lookup_monitor; [| by apply (f_stopped f Hf)]. rewrite Ecall.
    destruct (f_stopped f Hf j m Hm) as [? | [? | ?]]; [by left | by right; left | done].
  - apply (f_order f Hf).
  - intros H1 H2. by destruct (Hend H1 H2).
Qed.

(** The item the worker starts on brings its posts. *)
Lemma fine_todo f j m x ys :
  fine f -> monitors f !! j = Some m -> pc m = Working x -> Forall (fun y => y.1 ∈ members) ys ->
  fine (set_todo j ys f).
Proof using positive.
  intros Hf Hm Hx Hy. destruct (member_id j (fine_member f j m Hf Hm)) as [Hj0 Hj].
  pose proof (fine_running f j m Hf Hm ltac:(by rewrite Hx)) as Hend.
  assert (Hmain : pending MAIN (set_todo j ys f) = pending MAIN f) by (rewrite pending_todo; by rewrite decide_False).
  destruct Hf as [[] []]. split; split; try done.
  - intros t Ht. rewrite pending_todo. case_decide as Hd; [subst; eauto | by apply f_working0].
  - intros t. rewrite pending_todo. case_decide; [done | apply f_targets0].
  - rewrite Hmain. exact f_stop_posts0.
  - intros H1 H2. by destruct (Hend H1 H2).
Qed.

Lemma call_may t (m : Monitor (A := A)) : may_call t m = true -> call m t = [].
Proof. unfold may_call. by destruct (call m t). Qed.

(** A thread that has something to post, or is posting. *)
Lemma fine_thread_id f t : fine f -> pending t f <> [] \/ is_Some (posting f !! t) -> t <> 0.
Proof using positive.
  intros Hf H. destruct (decide (t = MAIN)) as [-> | Hne]; [done |].
  destruct (f_working f Hf t Hne H) as (m & x & Hm & _). by apply (member_id t), (fine_member f t m).
Qed.

(** One call of monitor [j] has moved: the threads still match. *)
Lemma tied_caller f f' j m m' s :
  tied f -> monitors f !! j = Some m -> monitors f' = <[j := m']> (monitors f) ->
  (forall i, i ∈ to_start f' -> i ∈ to_start f) ->
  WorkerLoop.inv m' -> (forall s', s' <> s -> call m' s' = call m s') ->
  (pc m' = pc m \/ pc m = Asleep /\ pc m' = Woken) -> running_ m' = running_ m \/ running_ m' = false ->
  (call m' s <> [] -> owned f' j s) ->
  (forall t i, posting f !! t = Some i -> posting f' !! t = Some i \/ i = j /\ as_seen t j = s) ->
  (forall t i, posting f' !! t = Some i -> posting f !! t = Some i /\ (i = j -> as_seen t j <> s) \/
     t <> 0 /\ i = j /\ as_seen t j = s /\ post_call (call m' s)) ->
  (forall i, stopping f = Some i -> stopping f' = Some i \/ i = j /\ s = MAIN) ->
  (forall i, stopping f' = Some i -> stopping f = Some i /\ (i = j -> s <> MAIN) \/
     i = j /\ s = MAIN /\ stop_call j (call m' s) m') ->
  (forall t, t <> MAIN -> pending t f' <> [] \/ is_Some (posting f' !! t) -> pending t f <> [] \/ is_Some (posting f !! t)) ->
  tied f'.
Proof.
  intros Hf Hm Em Hst Hi Hoth Hpc Hrun Hown Hpo Hpo' Hso Hso' Hwk. split; rewrite ?Em.
  - intros i. rewrite <- (f_dom f Hf). by apply (dom_monitor i j m).
  - intros i m1 [[_ ->] | [_ H]]%lookup_monitor; [done | by apply (f_inv f Hf i)].
  - intros i m1 [[_ ->] | [_ H]]%lookup_monitor; [| by apply (f_alive f Hf i)].
    destruct Hpc as [-> | [_ ->]]; [by apply (f_alive f Hf j) | done].
  - intros i m1 Hs%Hst [[-> ->] | [_ H]]%lookup_monitor; [| by apply (f_unstarted f Hf i)].
    pose proof (f_unstarted f Hf j m Hs Hm). destruct Hpc as [-> | [? _]]; [done | congruence].
  - assert (Hold : forall i m1 s', monitors f !! i = Some m1 -> call m1 s' <> [] -> i <> j \/ s' <> s -> owned f' i s').
    { intros i m1 s' H1 H2 H3. destruct (f_calls f Hf i m1 s' H1 H2) as [(t & H4 & H5 & H6) | [H4 H5]].
      - left. exists t. split_and!; [done.. |]. destruct (Hpo t i H6) as [? | [-> <-]]; [done | naive_solver].
      - right. split; [done |]. destruct (Hso i H5) as [? | [-> ->]]; [done | naive_solver]. }
    intros i m1 s' [[-> ->] | [Hne H]]%lookup_monitor Hc; [| apply (Hold i m1); auto].
    destruct (decide (s' = s)) as [-> | Hs]; [by apply Hown |]. rewrite Hoth in Hc by done. apply (Hold j m); auto.
  - intros t i H. destruct (Hpo' t i H) as [[H0 Hns] | (H0 & -> & Es & H1)].
    + destruct (f_posting f Hf t i H0) as (H1 & m1 & H2 & H3). split; [done |].
      destruct (decide (i = j)) as [-> | Hd]; [exists m' | exists m1]; rewrite lookup_monitor; [| by split; [right |]].
      rewrite Hm in H2. injection H2 as <-. rewrite Hoth by by apply Hns. by split; [left |].
    + split; [done |]. exists m'. rewrite lookup_monitor, Es. by split; [left |].
  - intros i H. destruct (Hso' i H) as [[H0 Hns] | (-> & -> & H1)].
    + destruct (f_stopping f Hf i H0) as (m1 & H2 & H3).
      destruct (decide (i = j)) as [-> | Hd]; [exists m' | exists m1]; rewrite lookup_monitor; [| by split; [right |]].
      rewrite Hm in H2. injection H2 as <-. unfold stop_call in *. rewrite Hoth by (symmetry; by apply Hns).
      split; [by left |]. destruct H3 as (? & ? & Hr). split_and!; [done.. |]. intros Hc. destruct Hrun as [-> | ->]; auto.
    + exists m'. rewrite lookup_monitor. by split; [left |].
  - intros t Ht Hp. destruct (f_working f Hf t Ht (Hwk t Ht Hp)) as (m1 & x & H1 & H2).
    destruct (decide (t = j)) as [-> | Hd]; [exists m', x | exists m1, x]; rewrite lookup_monitor; [| by split; [right |]].
    rewrite Hm in H1. injection H1 as <-. split; [by left |]. destruct Hpc as [-> | [? _]]; [done | congruence].
Qed.

Lemma fine_post f t f' : fine f -> post_exec t f = Some f' -> fine f'.
Proof using positive.
  intros Hf E. apply post_exec_Some in E as (j & y & ys & m & Hp & Hm & Hpt & Hst & Hc & ->).
  pose proof (fine_member f j m Hf Hm) as Hj. pose proof (call_may _ _ Hc) as Hcall.
  assert (Ht : t <> 0) by (apply (fine_thread_id f t Hf); left; by rewrite Hp).
  set (s := as_seen t j) in *. set (m' := set_call s _ m).
  assert (Hother : forall s', s' <> s -> call m' s' = call m s').
  { intros s' Hs. unfold m'. by rewrite call_set_call, decide_False. }
  assert (Hown : call m' s = post (kind_of j) y) by (unfold m'; by rewrite call_set_call, decide_True).
  assert (Hmain : stopping f = Some j -> s <> MAIN).
  { intros Hs Es. destruct (f_stopping f Hf j Hs) as (m1 & H1 & H2 & _). congruence. }
  assert (Hpend : forall t', pending t' (set_todo t ys f) = if decide (t' = t) then ys else pending t' f)
    by (intros t'; apply pending_todo).
  set (f' := set_posting _ _). assert (Epend : forall t', pending t' f' = pending t' (set_todo t ys f)) by done.
  split; [apply (tied_caller f f' j m m' s Hf Hm); try done |].
  - apply (monitor_exec_inv (kind_of j) (LPost s y) m); [by apply (f_inv f Hf j) | cbn; by rewrite Hc].
  - by left.
  - by left.
  - intros _. left. exists t. split_and!; [done.. |]. apply lookup_insert_eq.
  - intros t' i H. left. cbn. rewrite lookup_insert_ne; [done | congruence].
  - intros t' i H. change (<[t := j]> (posting f) !! t' = Some i) in H. apply lookup_insert_Some in H as [[<- <-] | [Hne H]].
    + right. rewrite Hown. split_and!; [done.. |]. by destruct (kind_of j).
    + left. split; [done |]. intros -> Es. destruct (f_posting f Hf t' j H) as [Ht' _].
      by apply Hne, (as_seen_inj t t' j).
  - intros i H. by left.
  - intros i H. left. split; [done |]. intros ->. by apply Hmain.
  - intros t' _ [Hw | Hw]; (destruct (decide (t' = t)) as [-> | Hne]; [left; by rewrite Hp |]).
    + left. by rewrite Epend, Hpend, decide_False in Hw.
    + right. cbn in Hw. by rewrite lookup_insert_ne in Hw.
  - pose proof (f_targets f Hf t) as Htg. rewrite Hp in Htg. apply Forall_cons in Htg as [_ Htg]. split.
    + intros t'. rewrite Epend, Hpend. case_decide; [done | apply (f_targets f Hf)].
    + intros i Hs. destruct (f_stop_posts f Hf i Hs) as (H1 & H2 & H3). rewrite Epend, Hpend. cbn. case_decide as Hd.
      * subst t. rewrite lookup_insert_eq. rewrite Hp in H1, H3. apply Forall_cons in H1 as [H1 H1'].
        split_and!; [done | by intros i' [= <-] | intros _; apply H3; by left].
      * by rewrite lookup_insert_ne by done.
    + apply (f_starting f Hf).
    + intros Hs. destruct (f_first f Hf Hs) as [H1 H2]. split; [done |]. cbn. rewrite lookup_insert_ne; [done |].
      intros ->. by apply Hs, Hst.
    + intros i m1 [[-> ->] | [_ H]]%lookup_monitor; [| by apply (f_stopped f Hf)].
      destruct (f_stopped f Hf j m Hm) as [? | [[H1 H2] | ?]]; [by left | | by right; right]. right. left. split; [done |].
      rewrite Hother by (symmetry; by apply Hmain). done.
    + apply (f_order f Hf).
    + intros H1 H2. exfalso. destruct (f_end f Hf H1 H2) as (H3 & _). destruct (decide (t = MAIN)) as [-> | Hne]; [congruence |].
      destruct (f_working f Hf t Hne) as (m1 & x & H4 & H5); [left; by rewrite Hp |].
      apply (fine_running f t m1 Hf H4); [by rewrite H5 | done..].
Qed.

Lemma fine_call f t f' : fine f -> call_exec t f = Some f' -> fine f'.
Proof using positive.
  intros Hf E. apply call_exec_Some in E as (j & m & m' & Hp & Hm & Hx & ->).
  destruct (f_posting f Hf t j Hp) as (Ht & m0 & Hm0 & Hne & Hj & Hfl). rewrite Hm in Hm0. injection Hm0 as <-.
  destruct (call_step_spec _ _ _ Hx) as (i & p & Ec & Hcase & Hoth & Hpc & Hr & _ & _).
  rewrite Ec in Hj, Hfl. apply orb_false_iff in Hj as [_ Hj], Hfl as [Hi Hfl].
  destruct Hcase as [Ep | [-> _]]; [| done]. set (s := as_seen t j) in *.
  assert (Hmain : stopping f = Some j -> s <> MAIN).
  { intros Hs Es. assert (t = MAIN) as -> by (unfold s, as_seen, self in Es; by case_decide).
    destruct (f_stop_posts f Hf j Hs) as (_ & H1 & H2). apply (room_not_db j (H1 j Hp)), H2. right. by exists j. }
  set (f' := match call m' s with [] => _ | _ => _ end).
  assert (Hpost : forall t', posting f' !! t' = if decide (t' = t /\ p = []) then None else posting f !! t').
  { intros t'. unfold f'. rewrite Ep. destruct p as [| i' p']; cbn.
    - case_decide as Hd; [destruct Hd as [-> _]; apply lookup_delete_eq | apply lookup_delete_ne; naive_solver].
    - by rewrite decide_False by naive_solver. }
  assert (Hrest : (monitors f', stopping f', to_start f', to_stop f', todo f') =
    (<[j := m']> (monitors f), stopping f, to_start f, to_stop f, todo f)) by (unfold f'; by destruct (call m' s)).
  injection Hrest as E1 E2 E3 E4 E5.
  assert (Epend : forall t', pending t' f' = pending t' f) by (intros t'; unfold pending; by rewrite E5).
  split; [apply (tied_caller f f' j m m' s Hf Hm); rewrite ?E2, ?E3; try done |].
  - apply (monitor_exec_inv (kind_of j) (LCall s) m); [by apply (f_inv f Hf j) | exact Hx].
  - rewrite Hr. destruct (is_clear i); auto.
  - rewrite Ep. intros Hpn. left. exists t. split_and!; [done.. |]. rewrite Hpost, decide_False; [done | naive_solver].
  - intros t' i' H. rewrite Hpost. case_decide as Hd; [right | by left]. destruct Hd as [-> _]. split; [congruence | done].
  - intros t' i'. rewrite Hpost. case_decide as Hd; [done |]. intros H. destruct (decide (t' = t)) as [-> | Hne'].
    + right. rewrite Hp in H. injection H as <-. split_and!; [done.. |]. rewrite Ep. split_and!; [naive_solver | done..].
    + left. split; [done |]. intros -> Es. destruct (f_posting f Hf t' j H) as [Ht' _].
      by apply Hne', (as_seen_inj t' t j).
  - intros i' H. by left.
  - intros i' H. left. split; [done |]. intros ->. by apply Hmain.
  - intros t' _. rewrite Epend, Hpost. case_decide as Hd; [| done]. intros [H | [? ?]]; [by left | done].
  - assert (Hle : forall t' i', posting f' !! t' = Some i' -> posting f !! t' = Some i').
    { intros t' i'. rewrite Hpost. by case_decide. }
    split; unfold has_stop; rewrite ?E1, ?E2, ?E3, ?E4; try setoid_rewrite Epend.
    + apply (f_targets f Hf).
    + intros i' Hs. destruct (f_stop_posts f Hf i' Hs) as (H1 & H2 & H3). split_and!; [done | eauto |].
      intros [H | [k H]]; apply H3; [by left | right; eauto].
    + apply (f_starting f Hf).
    + intros Hs. destruct (f_first f Hf Hs) as [H1 H2]. split; [done |]. apply eq_None_not_Some. intros [k H].
      apply Hle in H. congruence.
    + intros i' m1 [[-> ->] | [_ H]]%lookup_monitor; [| by apply (f_stopped f Hf)].
      destruct (f_stopped f Hf j m Hm) as [? | [[H1 H2] | ?]]; [by left | right; left | right; right].
      * split; [done |]. rewrite Hoth; [done |]. symmetry. by apply Hmain.
      * destruct Hpc as [-> | [? _]]; [done | congruence].
    + apply (f_order f Hf).
    + intros H1 H2. exfalso. destruct (f_end f Hf H1 H2) as (_ & H3 & _). destruct (decide (t = MAIN)) as [-> | Hnm]; [congruence |].
      destruct (f_working f Hf t Hnm) as (m1 & x & H4 & H5); [right; by exists j |].
      apply (fine_running f t m1 Hf H4); [by rewrite H5 | done..].
Qed.

Lemma set_running_inv (m : Monitor (A := A)) :
  WorkerLoop.inv m -> pc m <> Finished -> WorkerLoop.inv (set_running true m).
Proof.
  intros [] Hp. split; try done. cbn. intros Ha [? | Hq]; [done |]. apply v_wake0; [done | by right].
Qed.

Lemma fine_begin f j js m :
  fine f -> stopping f = None -> to_start f = j :: js -> monitors f !! j = Some m ->
  fine (set_main None js (to_stop f) (set_monitor j (set_running true m) f)).
Proof.
  intros Hf Hs Ht Hm. pose proof (f_unstarted f Hf j m) as Hp. rewrite Ht in Hp. specialize (Hp ltac:(by left) Hm).
  destruct (f_first f Hf) as [_ Hnm]; [by rewrite Ht |].
  split; [split | split]; cbn [set_main set_monitor monitors to_start to_stop stopping posting todo].
  - intros i. rewrite <- (f_dom f Hf). by apply (dom_monitor i j m).
  - intros i m1 [[_ ->] | [_ H]]%lookup_monitor; [| by apply (f_inv f Hf i)].
    apply set_running_inv; [by apply (f_inv f Hf j) | by rewrite Hp].
  - intros i m1 [[_ ->] | [_ H]]%lookup_monitor; [cbn; by rewrite Hp | by apply (f_alive f Hf i)].
  - intros i m1 Hi [[-> ->] | [_ H]]%lookup_monitor; [done |]. apply (f_unstarted f Hf i m1); [rewrite Ht; by right | done].
  - assert (Hold : forall i m1 s, monitors f !! i = Some m1 -> call m1 s <> [] ->
      owned (set_main None js (to_stop f) (set_monitor j (set_running true m) f)) i s).
    { intros i m1 s H1 H2. destruct (f_calls f Hf i m1 s H1 H2) as [? | [_ ?]]; [by left | congruence]. }
    intros i m1 s [[-> ->] | [_ H]]%lookup_monitor; [apply (Hold j m s Hm) | by apply Hold].
  - intros t i H. destruct (f_posting f Hf t i H) as (H1 & m1 & H2 & H3). split; [done |].
    destruct (decide (i = j)) as [-> | Hd]; [exists (set_running true m) | exists m1]; rewrite lookup_monitor;
      [| by split; [right |]]. rewrite Hm in H2. injection H2 as <-. by split; [left |].
  - done.
  - intros t Htm Hw. destruct (f_working f Hf t Htm Hw) as (m1 & x & H1 & H2). exists m1, x. split; [| done].
    apply lookup_monitor. right. split; [| done]. intros ->. congruence.
  - apply (f_targets f Hf).
  - done.
  - pose proof (f_starting f Hf) as H. rewrite Ht in H. by apply Forall_cons in H as [_ H].
  - done.
  - intros i m1 [[-> ->] | [_ H]]%lookup_monitor; [cbn |]; [destruct (f_stopped f Hf j m Hm) as [? | [[? _] | ?]] |
      destruct (f_stopped f Hf i m1 H) as [? | [[? _] | ?]]]; auto; congruence.
  - pose proof (f_order f Hf) as Ho. unfold has_stop in *. by rewrite Hs in Ho.
  - intros _ H2. exfalso. apply (fine_running f j m Hf Hm); [by rewrite Hp | done..].
Qed.

Lemma fine_stop_begins f j js m :
  fine f -> stopping f = None -> to_start f = [] -> to_stop f = j :: js -> pending MAIN f = [] ->
  posting f !! MAIN = None -> monitors f !! j = Some m -> may_call MAIN m = true ->
  fine (set_main (Some j) [] js (set_monitor j (set_call MAIN (stop (kind_of j)) m) f)).
Proof using positive.
  intros Hf Hs Hst Ht Hpe Hpo Hm Hc. pose proof (fine_member f j m Hf Hm) as Hj. pose proof (call_may _ _ Hc) as Hcall.
  set (m' := set_call MAIN _ m). set (f' := set_main _ _ _ _).
  assert (Hoth : forall s, s <> MAIN -> call m' s = call m s) by (intros s H; unfold m'; by rewrite call_set_call, decide_False).
  assert (Hown : call m' MAIN = stop (kind_of j)) by (unfold m'; by rewrite call_set_call, decide_True).
  split; [apply (tied_caller f f' j m m' MAIN Hf Hm); try done |].
  - by rewrite Hst.
  - apply (monitor_exec_inv (kind_of j) (LStop MAIN) m); [by apply (f_inv f Hf j) | cbn; by rewrite Hc].
  - by left.
  - by left.
  - intros _. by right.
  - intros t i H. by left.
  - intros t i H. left. split; [done |]. intros -> Es. destruct (f_posting f Hf t j H) as (H1 & _).
    rewrite <- (as_seen_main j Hj) in Es. apply as_seen_inj in Es as ->; [| done..].
    change (posting f !! MAIN = Some j) in H. congruence.
  - intros i H. congruence.
  - intros i [= <-]. right. rewrite Hown. split_and!; [done.. |]. split_and!; [by destruct (kind_of j) | by exists [] |].
    by destruct (kind_of j).
  - split.
    + apply (f_targets f Hf).
    + intros i _. change (pending MAIN f') with (pending MAIN f). cbn. rewrite Hpe, Hpo.
      split_and!; [constructor | done |]. intros [? | [? ?]]; done.
    + constructor.
    + done.
    + intros i m1 [[-> ->] | [Hne H]]%lookup_monitor; cbn.
      * right. left. split; [done |]. rewrite Hown. by destruct (kind_of j).
      * destruct (f_stopped f Hf i m1 H) as [Hi | [[? _] | ?]]; [| congruence | by right; right]. left.
        rewrite Ht in Hi. by apply elem_of_cons in Hi as [-> | ?].
    + pose proof (f_order f Hf) as Ho. unfold has_stop in *. rewrite Hs, Ht in Ho. exact Ho.
    + done.
Qed.

(** [DBWorker::stop] returns with the queue empty. *)
Lemma stop_returns (m m' : Monitor (A := A)) :
  WorkerLoop.inv m -> call m MAIN `suffix_of` stop DbThread -> call_step MAIN m = Some m' -> call m' MAIN = [] ->
  queue m' = [].
Proof.
  intros Hi Hs Hx He. destruct (call_step_spec _ _ _ Hx) as (i & p & Ec & Hcase & _).
  destruct Hcase as [Ep | [-> Ep]]; [| congruence]. assert (p = []) as -> by congruence.
  assert (Ec' : call m MAIN = [Unlock]).
  { rewrite Ec in *. destruct Hs as [l Hl]. cbn in Hl. unfold db_stop in Hl.
    apply (f_equal last) in Hl. rewrite last_snoc in Hl. by injection Hl as <-. }
  unfold call_step in Hx. rewrite Ec' in Hx. injection Hx as <-. cbn. by apply (v_drained m Hi MAIN).
Qed.

Lemma stop_call_step j m m' :
  stop_call j (call m MAIN) m -> call_step MAIN m = Some m' -> call m' MAIN <> [] -> stop_call j (call m' MAIN) m'.
Proof.
  intros (_ & Hs & Hr) Hx Hne. destruct (call_step_spec _ _ _ Hx) as (i & p & Ec & Hcase & _ & _ & Er & _).
  split_and!; [done | |].
  - destruct Hcase as [E | [_ E]]; rewrite E; rewrite Ec in Hs; [| done]. etransitivity; [| exact Hs]. by exists [i].
  - intros Hc. rewrite Er. rewrite Ec in Hr. destruct (is_clear i) eqn:Ei; [done |]. apply Hr. cbn. rewrite Ei.
    destruct Hcase as [E | [_ E]]; rewrite E in Hc; [done |]. cbn in Hc. by rewrite Ei in Hc.
Qed.

Lemma fine_stop_steps f j m m' :
  fine f -> stopping f = Some j -> pending MAIN f = [] -> posting f !! MAIN = None -> monitors f !! j = Some m ->
  call_step MAIN m = Some m' ->
  fine (set_main (match call m' MAIN with [] => None | _ :: _ => Some j end) (to_start f) (to_stop f)
          (set_monitor j m' f)).
Proof using positive.
  intros Hf Hs Hpe Hpo Hm Hx. pose proof (fine_member f j m Hf Hm) as Hj. set (f' := set_main _ _ _ _).
  destruct (f_stopping f Hf j Hs) as (m0 & Hm0 & Hsc). rewrite Hm in Hm0. injection Hm0 as <-.
  destruct (call_step_spec _ _ _ Hx) as (i & p & Ec & Hcase & Hoth & Hpc & Hr & Hjoin & _).
  assert (Es : stopping f' = if decide (call m' MAIN = []) then None else Some j).
  { cbn. by destruct (call m' MAIN). }
  assert (Hst : to_start f = []).
  { destruct (to_start f) eqn:E; [done |]. destruct (f_first f Hf) as [H _]; [by rewrite E | congruence]. }
  split; [apply (tied_caller f f' j m m' MAIN Hf Hm); try done |].
  - apply (monitor_exec_inv (kind_of j) (LCall MAIN) m); [by apply (f_inv f Hf j) | exact Hx].
  - rewrite Hr. destruct (is_clear i); auto.
  - intros Hne. right. split; [done |]. rewrite Es. by rewrite decide_False.
  - intros t k H. by left.
  - intros t k H. left. split; [done |]. intros -> E. destruct (f_posting f Hf t j H) as (H1 & _).
    rewrite <- (as_seen_main j Hj) in E. apply as_seen_inj in E as ->; [| done..].
    change (posting f !! MAIN = Some j) in H. congruence.
  - intros k H. right. split; [congruence | done].
  - intros k. rewrite Es. case_decide as Hd; [done |]. intros [= <-]. right. split_and!; [done.. |].
    by apply (stop_call_step j m m').
  - split.
    + apply (f_targets f Hf).
    + intros k _. change (pending MAIN f') with (pending MAIN f). cbn. rewrite Hpe, Hpo.
      split_and!; [constructor | done |]. intros [? | [? ?]]; done.
    + cbn. by rewrite Hst.
    + cbn. by rewrite Hst.
    + intros k m1 [[-> ->] | [Hne H]]%lookup_monitor; rewrite Es.
      * destruct (f_stopped f Hf j m Hm) as [? | [[_ H] | H]]; [by left | |].
        -- rewrite Ec in H. cbn in H. destruct (is_join i) eqn:Ei.
           ++ right; right. assert (i = Join) as -> by (by destruct i). specialize (Hjoin eq_refl).
              destruct Hpc as [-> | [? _]]; [done | congruence].
           ++ right; left. destruct Hcase as [E | [-> E]]; rewrite E; cbn in *; [| done].
              rewrite decide_False; [done |]. by intros ->.
        -- right; right. destruct Hpc as [-> | [? _]]; [done | congruence].
      * destruct (f_stopped f Hf k m1 H) as [? | [[? _] | ?]]; [by left | congruence | by right; right].
    + pose proof (f_order f Hf) as Ho. unfold has_stop in *. rewrite Es. rewrite Hs in Ho. case_decide; [| exact Ho].
      etransitivity; [| exact Ho]. by exists [j].
    + rewrite Es. case_decide as Hd; [| done]. intros _ H2. change (to_stop f = []) in H2. split_and!; [done.. |].
      pose proof (f_order f Hf) as [l Ho]. unfold has_stop, stop_order in Ho. rewrite Hs, H2 in Ho.
      apply (f_equal last) in Ho. rewrite !last_snoc in Ho. injection Ho as <-.
      intros m1 [[_ ->] | [H _]]%lookup_monitor; [| done].
      apply (stop_returns m m'); [by apply (f_inv f Hf DB) | apply Hsc | done | done].
Qed.

(** A failed job's callback posts events only. *)
Lemma fine_fails f j m x ys :
  fine f -> stopping f = Some j -> monitors f !! j = Some m -> fails (call m MAIN) = true ->
  may_post DB x ys -> fine (set_todo MAIN ys f).
Proof.
  intros Hf Hs Hm Hfl [_ Hy]. unfold targets in Hy. rewrite decide_True in Hy by done.
  assert (Hj : j = DB).
  { destruct (f_stopping f Hf j Hs) as (m1 & H1 & _ & [l Hl] & _). rewrite Hm in H1. injection H1 as <-.
    unfold kind_of in Hl. case_decide; [done |]. exfalso. apply (f_equal fails) in Hl. unfold fails in Hl, Hfl.
    by rewrite existsb_app, Hfl, orb_true_r in Hl. }
  assert (Hpend : forall t, pending t (set_todo MAIN ys f) = if decide (t = MAIN) then ys else pending t f)
    by (intros t; apply pending_todo).
  destruct Hf as [[] []]. split; split; try done.
  - intros t Ht. rewrite Hpend, decide_False by done. by apply f_working0.
  - intros t. rewrite Hpend. case_decide as Ht; [| apply f_targets0]. eapply Forall_impl; [exact Hy |].
    intros y H. by right.
  - intros k Hk. change (stopping f = Some k) in Hk. rewrite Hpend, decide_True by done. destruct (f_stop_posts0 k Hk) as (_ & H2 & _).
    split_and!; [done | exact H2 |]. intros _. congruence.
  - intros H. cbn in H. congruence.
Qed.

Lemma exec_fine l f f' : fine f -> exec l f = Some f' -> fine f'.
Proof using positive.
  intros Hf E. destruct l as [j throws ys | j | t | t | | ys]; cbn [exec] in E.
  - apply worker_exec_Some in E as (m & m' & Hm & [Hns Hth] & Hx & Hd).
    destruct (thread_step _ _ _ _ Hx) as (Hc & Hr & Hnf & Hnt).
    { intros H. unfold kind_of. by rewrite decide_True by by apply Hth. }
    assert (Hi : WorkerLoop.inv m') by (eapply thread_main_inv; [by apply (f_inv f Hf j) | exact Hx]).
    destruct Hd as [(x & Hp & Hy & ->) | (_ & Hw & ->)]; [| by apply (fine_worker f j m)].
    assert (Hf1 : fine (set_monitor j m' f)) by (apply (fine_worker f j m); try done; intros; congruence).
    apply (fine_todo _ j m' x); [done | apply lookup_insert_eq | |].
    + unfold thread_main in Hx. rewrite Hp in Hx. by injection Hx as <-.
    + destruct Hy as [_ Hy]. eapply Forall_impl; [exact Hy |]. intros y. unfold targets, members.
      case_decide; [by right | done].
  - apply bind_Some in E as (m & Hm & E). apply bind_Some in E as (m' & Hx & E). injection E as <-.
    pose proof (monitor_exec_inv _ LSpurious m m' (f_inv f Hf j m Hm) Hx) as Hi. cbn in Hx.
    destruct (pc m) eqn:Hp; try done. injection Hx as <-.
    apply (fine_worker f j m); try done; [by rewrite Hp | | by intros x; rewrite Hp].
    intros H. pose proof (f_unstarted f Hf j m H Hm). congruence.
  - by apply (fine_post f t).
  - by apply (fine_call f t).
  - apply main_exec_Some in E as [Hs [(j & js & m & Ht & Hm & ->) | (j & js & m & Hst & Ht & Hpe & Hpo & Hm & Hc & ->)]].
    + by apply fine_begin.
    + by apply fine_stop_begins.
  - apply stop_exec_Some in E as (j & m & m' & Hs & Hpe & Hpo & Hm & Hx & Hd). cbn zeta in Hd.
    pose proof (fine_stop_steps f j m m' Hf Hs Hpe Hpo Hm Hx) as H1.
    destruct Hd as [(x & Hrel & Hy & ->) | [_ ->]]; [| exact H1].
    destruct (call_step_spec _ _ _ Hx) as (i & p & _ & _ & _ & _ & _ & _ & Hi).
    destruct (Hi ltac:(by rewrite Hrel)) as [-> E].
    apply (fine_fails _ j m' x ys H1); [cbn; by rewrite E | apply lookup_insert_eq | by rewrite E | done].
Qed.

(** ** The start *)

Lemma initial_monitor posts j m : monitors (initial posts) !! j = Some m -> m = created.
Proof.
  cbn [monitors initial]. intros H%elem_of_list_to_map_2. apply list_elem_of_fmap in H as (i & [= _ ->] & _). done.
Qed.

Lemma initial_pending posts t : pending t (initial posts) = if decide (t = MAIN) then posts else [].
Proof.
  unfold pending. change (todo (initial posts)) with ({[MAIN := posts]} : gmap Z (list (Z * A))).
  case_decide as H; [subst; by rewrite lookup_singleton_eq | by rewrite lookup_singleton_ne].
Qed.

Lemma initial_fine posts : Forall (fun y => y.1 ∈ members) posts -> fine (initial posts).
Proof using positive.
  intros Hp. assert (Hdom : forall j, is_Some (monitors (initial posts) !! j) <-> j ∈ members).
  { intros j. cbn [monitors initial]. rewrite <- not_eq_None_Some, <- not_elem_of_list_to_map, <- list_fmap_compose.
    change (compose fst (fun j : Z => (j, created))) with (fun j : Z => j). rewrite list_fmap_id. unfold members.
    destruct (decide (j ∈ DB :: rooms)); tauto. }
  assert (Hcall : forall j m s, monitors (initial posts) !! j = Some m -> call m s = []).
  { intros j m s ->%initial_monitor. done. }
  split; split; try done.
  - intros j m ->%initial_monitor. by split; cbn; auto.
  - by intros j m ->%initial_monitor.
  - by intros j m _ ->%initial_monitor.
  - intros j m s H Hne. by rewrite (Hcall j m s H) in Hne.
  - intros t Ht [H | [i H]]; [| cbn in H; by rewrite lookup_empty in H].
    by rewrite initial_pending, decide_False in H.
  - intros t. rewrite initial_pending. case_decide; [done | constructor].
  - apply Forall_forall. intros j Hj. exact Hj.
  - intros j m H. left. assert (Hj : j ∈ members) by (apply Hdom; eauto). cbn. unfold stop_order, manager_stop.
    unfold members in Hj. set_solver.
  - intros _ H. cbn in H. unfold stop_order in H. by destruct (manager_stop rooms).
Qed.

Lemma reachable_fine posts f : Forall (fun y => y.1 ∈ members) posts -> reachable posts f -> fine f.
Proof using positive.
  intros Hp Hr. unfold reachable in Hr. remember (initial posts) as f0 eqn:E.
  assert (H0 : fine f0) by (rewrite E; by apply initial_fine). clear E.
  induction Hr as [| f1 f2 f3 (l & Hl) _ IH]; [done |]. apply IH. by apply (exec_fine l f1).
Qed.

(** ** Where nobody can move *)

Section Stuck.
Context (f : State) (Hf : fine f) (Hno : forall l, advances l -> exec l f = None).

Lemma all_started : to_start f = [].
Proof using Hf Hno.
  destruct (to_start f) as [| j js] eqn:Ht; [done |]. exfalso. destruct (f_first f Hf) as [Hs _]; [by rewrite Ht |].
  pose proof (f_starting f Hf) as Hj. rewrite Ht in Hj. apply Forall_cons in Hj as [Hj _].
  apply (f_dom f Hf) in Hj as [m Hm]. pose proof (Hno FMain I) as Hn. cbn in Hn. unfold main_exec in Hn.
  by rewrite Hs, Ht, Hm in Hn.
Qed.

(** A worker that could move would. *)
Lemma worker_stuck j m :
  monitors f !! j = Some m -> thread_main (kind_of j) false m = None \/
  exists x, pc m = Working x /\ ~ (pending j f = [] /\ posting f !! j = None).
Proof using Hf Hno.
  intros Hm. destruct (thread_main (kind_of j) false m) as [m' |] eqn:Hx; [right | by left].
  pose proof (Hno (FThread j false []) I) as Hn. cbn in Hn. unfold worker_exec in Hn. rewrite Hm in Hn. cbn in Hn.
  rewrite all_started, option_guard_True in Hn by (split; [apply not_elem_of_nil | done]).
  rewrite Hx in Hn. cbn in Hn.
  destruct (pc m) as [| | | | | | x | x | | |] eqn:Hp; try done.
  exists x. split; [done |]. intros Hg. by rewrite option_guard_True in Hn.
Qed.

Lemma lock_not_worker j m : monitors f !! j = Some m -> holder m <> Some Worker.
Proof using Hf Hno.
  intros Hm Hh. assert (Hi : worker_inside (pc m) = true) by by apply (v_worker m (f_inv f Hf j m Hm)).
  destruct (worker_stuck j m Hm) as [Hx | (x & Hx & _)]; [| by rewrite Hx in Hi].
  unfold thread_main in Hx. destruct (pc m); try done; [by case_decide | by destruct (queue m)].
Qed.

(** A call of [post_event] that could move would. *)
Lemma poster_waits t j m :
  posting f !! t = Some j -> monitors f !! j = Some m -> holder m <> None /\ holder m <> Some (Caller (as_seen t j)).
Proof using Hf Hno.
  intros Hp Hm. destruct (f_posting f Hf t j Hp) as (_ & m0 & Hm0 & Hne & Hj & _). rewrite Hm in Hm0. injection Hm0 as <-.
  assert (Hx : call_step (as_seen t j) m = None).
  { pose proof (Hno (FCall t) I) as Hn. cbn in Hn. unfold call_exec in Hn. rewrite Hp in Hn. cbn in Hn.
    rewrite Hm in Hn. cbn in Hn. by destruct (call_step (as_seen t j) m). }
  assert (Hc : holder m = None \/ holder m = Some (Caller (as_seen t j)) -> False); [| split; auto].
  intros Hh. destruct (call_stuck _ _ (f_inv f Hf j m Hm) Hx Hh) as [E | [p E]]; rewrite E in *; done.
Qed.

(** Where the main thread is not stopping, nobody holds the lock. *)
Lemma lock_free j m : monitors f !! j = Some m -> stopping f <> Some j -> holder m = None.
Proof using Hf Hno.
  intros Hm Hs. destruct (holder m) as [[| s] |] eqn:Hh; [by destruct (lock_not_worker j m Hm) | | done]. exfalso.
  assert (Hi : inside (call m s) = true) by by apply (v_caller m (f_inv f Hf j m Hm)).
  destruct (f_calls f Hf j m s Hm) as [(t & _ & -> & Hp) | [_ ?]]; [by intros E; rewrite E in Hi | | done].
  by destruct (poster_waits t j m Hp Hm) as [_ []].
Qed.

(** What a thread has to post it can begin to post. *)
Lemma nothing_pending t : posting f !! t = None -> pending t f = [].
Proof using Hf Hno positive.
  intros Hp. destruct (pending t f) as [| [j y] ys] eqn:Ht; [done |]. exfalso.
  assert (Ht0 : t <> 0) by (apply (fine_thread_id f t Hf); left; by rewrite Ht).
  pose proof (f_targets f Hf t) as Hj. rewrite Ht in Hj. apply Forall_cons in Hj as [Hj _]. cbn in Hj.
  pose proof Hj as [m Hm]%(f_dom f Hf). pose proof (Hno (FPost t) I) as Hn. cbn in Hn. unfold post_exec in Hn.
  rewrite option_guard_True, Ht in Hn by (split; [done | intros _; apply all_started]).
  cbn in Hn. rewrite Hm in Hn. cbn in Hn. destruct (may_call (as_seen t j) m) eqn:Hc; [done |].
  unfold may_call in Hc. destruct (call m (as_seen t j)) as [| i p] eqn:Ec.
  - case_decide as Hd; [| done]. assert (t = j) as -> by (unfold as_seen in Hd; by case_decide).
    destruct (f_working f Hf j) as (m1 & x & H1 & H2); [by apply (member_id j Hj) | left; by rewrite Ht |].
    rewrite Hm in H1. injection H1 as <-. by rewrite H2 in Hc.
  - destruct (f_calls f Hf j m (as_seen t j) Hm) as [(t' & H0 & H1 & H2) | [H1 H2]]; [by rewrite Ec | |].
    + apply as_seen_inj in H1 as <-; [congruence | done..].
    + rewrite <- (as_seen_main j Hj) in H1. apply as_seen_inj in H1 as ->; [| done..].
      destruct (f_stop_posts f Hf j H2) as (H3 & _ & H4). rewrite Ht in H3, H4. apply Forall_cons in H3 as [H3 _].
      apply (room_not_db j H3), H4. by left.
Qed.

Lemma main_not_posting : stopping f <> None -> posting f !! MAIN = None.
Proof using Hf Hno positive.
  intros Hs. destruct (posting f !! MAIN) as [i |] eqn:Hp; [exfalso | done].
  destruct (stopping f) as [j |] eqn:Es; [| done]. destruct (f_stop_posts f Hf j Es) as (_ & H1 & H2).
  destruct (f_posting f Hf MAIN i Hp) as (_ & m & Hm & _).
  destruct (poster_waits MAIN i m Hp Hm) as [Hh _]. apply Hh, (lock_free i m Hm). rewrite Es. intros [= ->].
  apply (room_not_db i); [by apply H1 | apply H2; right; by exists i].
Qed.

(** The main thread is in no [stop], or in its [join]. *)
Lemma stopper_joins j :
  stopping f = Some j -> exists m p, monitors f !! j = Some m /\ call m MAIN = Join :: p /\ pc m <> Finished /\ holder m = None.
Proof using Hf Hno positive.
  intros Hs. destruct (f_stopping f Hf j Hs) as (m & Hm & Hne & _). pose proof (f_inv f Hf j m Hm) as Hi.
  assert (Hp : posting f !! MAIN = None) by (apply main_not_posting; by rewrite Hs).
  assert (Hx : call_step MAIN m = None).
  { pose proof (Hno (FStop []) I) as Hn. cbn in Hn. unfold stop_exec in Hn. rewrite Hs in Hn. cbn in Hn.
    rewrite option_guard_True, Hm in Hn by (split; [by apply nothing_pending | done]).
    cbn in Hn. destruct (call_step MAIN m) as [m' |]; [| done]. cbn in Hn.
    destruct (match call m MAIN with FailAll :: _ => _ | _ => _ end); [| done].
    by rewrite option_guard_True in Hn by apply may_post_nil. }
  assert (Hh : holder m = None \/ holder m = Some (Caller MAIN)).
  { destruct (holder m) as [[| s] |] eqn:Hh; [by destruct (lock_not_worker j m Hm) | right | by left].
    assert (Hin : inside (call m s) = true) by by apply (v_caller m Hi).
    destruct (f_calls f Hf j m s Hm) as [(t & _ & -> & Hpo) | [-> _]]; [by intros E; rewrite E in Hin | | done].
    by destruct (poster_waits t j m Hpo Hm) as [_ []]. }
  destruct (call_stuck _ _ Hi Hx Hh) as [E | [p E]]; [done |]. exists m, p. split_and!; [done.. | |].
  - intros Hpc. unfold call_step in Hx. by rewrite E, Hpc in Hx.
  - destruct Hh as [Hh | Hh]; [done |]. exfalso. apply (v_caller m Hi) in Hh.
    pose proof (v_calls m Hi MAIN) as Hd. rewrite E in Hh, Hd. cbn in Hh, Hd. destruct Hd as [Hd _]. congruence.
Qed.

Lemma no_locks j m : monitors f !! j = Some m -> holder m = None.
Proof using Hf Hno positive.
  intros Hm. destruct (decide (stopping f = Some j)) as [Hs | Hs]; [| by apply (lock_free j)].
  destruct (stopper_joins j Hs) as (m1 & p & H1 & _ & _ & H2). congruence.
Qed.

Lemma no_posters t : posting f !! t = None.
Proof using Hf Hno positive.
  destruct (posting f !! t) as [j |] eqn:Hp; [exfalso | done]. destruct (f_posting f Hf t j Hp) as (_ & m & Hm & _).
  destruct (poster_waits t j m Hp Hm) as [Hh _]. by apply Hh, (no_locks j).
Qed.

Lemma idle_or_finished j m : monitors f !! j = Some m -> pc m = Asleep \/ pc m = Finished.
Proof using Hf Hno positive.
  intros Hm. pose proof (no_locks j m Hm) as Hh.
  destruct (worker_stuck j m Hm) as [Hx | (x & _ & Hx)].
  2: { destruct Hx. split; [apply nothing_pending |]; apply no_posters. }
  unfold thread_main, acquire in Hx. rewrite Hh in Hx. pose proof (f_alive f Hf j m Hm) as Ha.
  destruct (pc m) as [| | | | | | x | x | | |] eqn:Hp; try done; [by case_decide | by left | by destruct (queue m) | | by right].
  exfalso. destruct (call m self) as [| i p] eqn:Ec; [done |].
  destruct (f_calls f Hf j m self Hm) as [(t & _ & _ & Ht) | [H _]]; [by rewrite Ec | | done]. by rewrite no_posters in Ht.
Qed.

Lemma not_stopping : stopping f = None.
Proof using Hf Hno positive.
  destruct (stopping f) as [j |] eqn:Hs; [exfalso | done].
  destruct (stopper_joins j Hs) as (m & p & Hm & Hc & Hp & _). pose proof (f_inv f Hf j m Hm) as Hi.
  destruct (idle_or_finished j m Hm) as [Ha | ?]; [| done].
  destruct (f_stopping f Hf j Hs) as (m0 & Hm0 & _ & Hsuf & Hr). rewrite Hm in Hm0. injection Hm0 as <-.
  assert (Hrun : running_ m = false).
  { apply Hr. rewrite Hc in *. by apply (join_clears (kind_of j)). }
  destruct (v_wake m Hi Ha) as [t Ht]; [by left |].
  destruct (f_calls f Hf j m t Hm) as [(t' & _ & _ & H) | [-> _]]; [by intros E; rewrite E in Ht | by rewrite no_posters in H |].
  pose proof (v_calls m Hi MAIN) as Hd. rewrite Hc in Hd, Ht. cbn in Hd. destruct Hd as (_ & Hd & _). cbn in Ht.
  unfold notifies in Hd. congruence.
Qed.

Lemma all_stopped : to_stop f = [].
Proof using Hf Hno positive.
  destruct (to_stop f) as [| j js] eqn:Ht; [done | exfalso].
  assert (Hj : j ∈ members).
  { destruct (f_order f Hf) as [l Hl]. unfold has_stop, stop_order, manager_stop in Hl. rewrite not_stopping, Ht in Hl.
    assert (H : j ∈ rooms ++ [DB]) by (rewrite Hl; set_solver). unfold members. set_solver. }
  pose proof Hj as [m Hm]%(f_dom f Hf). pose proof (Hno FMain I) as Hn. cbn in Hn. unfold main_exec in Hn.
  rewrite not_stopping, all_started, Ht in Hn.
  rewrite option_guard_True, Hm in Hn by (split; [apply nothing_pending |]; apply no_posters).
  cbn in Hn. destruct (may_call MAIN m) eqn:Hc; [done |]. unfold may_call in Hc.
  destruct (call m MAIN) eqn:Ec; [done |].
  destruct (f_calls f Hf j m MAIN Hm) as [(t & _ & _ & H) | [_ H]]; [by rewrite Ec | |].
  - by rewrite no_posters in H.
  - by rewrite not_stopping in H.
Qed.

End Stuck.

(** C21: start and shutdown of the server terminate, without deadlock. For any
    number of room workers, whatever the main thread posts while it serves,
    and whatever the items post while they are processed or failed (less than
    they weigh): every schedule of all the threads' instructions (spurious
    wakeups aside) is finite, and when nobody can move any more, the main
    thread has started and stopped every worker, every worker's thread has
    returned, no call is in progress anywhere, everything that was to be
    posted has been, and the database thread's queue is empty. In particular
    the callbacks that [DBWorker::stop] runs with the job queue's mutex held
    never wait for each other. *)
Theorem shutdown_completes posts f :
  Forall (fun y => y.1 ∈ DB :: rooms) posts -> reachable posts f ->
  (forall ls f', Forall advances ls -> run ls f = Some f' -> (length ls <= effort f)%nat) /\
  ((forall l, advances l -> exec l f = None) ->
     to_start f = [] /\ to_stop f = [] /\ stopping f = None /\
     (forall t, pending t f = [] /\ posting f !! t = None) /\
     forall j m, monitors f !! j = Some m ->
       pc m = Finished /\ (forall t, call m t = []) /\ (j = DB -> queue m = [])).
Proof using positive.
  intros Hp Hr. split.
  - clear Hr. intros ls. revert f. induction ls as [| l ls IH]; intros f f' Hl H; [cbn; lia |].
    apply Forall_cons in Hl as [Hl Hls]. cbn in H. destruct (exec l f) as [f1 |] eqn:E; [| done].
    pose proof (exec_advances l f f1 Hl E). specialize (IH f1 f' Hls H). cbn. lia.
  - intros Hno. pose proof (reachable_fine posts f Hp Hr) as Hf.
    pose proof (all_started f Hf Hno) as H1. pose proof (all_stopped f Hf Hno) as H2.
    pose proof (not_stopping f Hf Hno) as H3. pose proof (no_posters f Hf Hno) as H4.
    split_and!; [done.. | |].
    + intros t. split; [apply nothing_pending |]; auto.
    + intros j m Hm. split_and!.
      * destruct (f_stopped f Hf j m Hm) as [H | [[H _] | H]]; [| congruence | done]. rewrite H2 in H.
        by apply elem_of_nil in H.
      * intros t. destruct (call m t) as [| i p] eqn:Ec; [done | exfalso].
        destruct (f_calls f Hf j m t Hm) as [(t' & _ & _ & H) | [_ H]]; [by rewrite Ec | |]; congruence.
      * intros ->. by apply (f_end f Hf H3 H2).
Qed.

End Fleet.

(** ** The handlers fit *)

Section Handlers.
Import World Respects.
Context {Indet : Indeterminate} {SService : IServerService}.

(** C22: the handlers do what the fleet allows. Whatever the rest of the server
    has left in the world: running [process_event] on an event, and running the
    callback of a job with any answer ([DBWorker::stop]'s error included), leaves the
    queues as they were but for items appended to them in order; these
    together, each counted with its delivery, weigh no more than the event or
    job; events go to room workers that exist, jobs to the database thread,
    and a callback posts no job. *)
Theorem handlers_fit_fleet rooms w :
  (forall j, j ∈ rooms <-> is_Some (room_workers w !! j)) ->
  (forall wid e w', wid ∈ rooms -> wid <> DB -> RoomWorker.process_event wid e w = Ok tt w' ->
     exists ys, Quiescence.emitted w w' ys /\ may_post Quiescence.item_weight rooms wid (inl e) ys) /\
  (forall j status data draws w', RoomWorker.run_callback (Event.on_result j) status data draws w = Ok tt w' ->
     exists ys, Quiescence.emitted w w' ys /\ may_post Quiescence.item_weight rooms DB (inr j) ys).
Proof.
  intros Hrooms.
  assert (Haddr : forall ys, Forall (Quiescence.addressed w) ys -> Forall (fun y => y.1 ∈ DB :: rooms) ys).
  { intros ys H. eapply Forall_impl; [exact H |]. intros [i [e | j]]; cbn; [| intros ->; by left].
    unfold queues. rewrite lookup_fmap, fmap_is_Some. intros Hi. right. by apply Hrooms. }
  split.
  - intros wid e w' _ Hdb H. destruct (Quiescence.costs_process_loop _ wid e w tt w' H) as (_ & _ & ys & He & Hb).
    exists ys. split; [done |]. unfold may_post, targets. rewrite decide_False by done.
    split; [| apply Haddr, (Quiescence.em_addressed _ _ _ He)].
    change (Quiescence.bulk ys <= Quiescence.event_weight e)%nat. unfold Quiescence.event_weight. lia.
  - intros j status data draws w' H. pose proof (Queries.jobs_run_callback _ _ _ _ w tt w' I H) as Hj.
    destruct (Quiescence.costs_run_callback _ _ _ _ w tt w' H) as (_ & _ & ys & He & Hb). exists ys. split; [done |].
    unfold may_post, targets. rewrite decide_True by done. split.
    + change (Quiescence.bulk ys <= Quiescence.job_weight j)%nat. unfold Quiescence.job_weight. case_match; lia.
    + pose proof (Quiescence.em_jobs _ _ _ He) as Ej. unfold Queries.same_jobs in Hj. rewrite Hj in Ej.
      assert (Hnil : Quiescence.jobs_in ys = []) by by eapply app_inv_head; rewrite app_nil_r.
      pose proof (Quiescence.em_addressed _ _ _ He) as Ha. clear -Ha Hnil Hrooms.
      induction ys as [| [i [e | j]] ys IH]; [constructor | | done].
      apply Forall_cons in Ha as [Hi Ha]. constructor; [| by apply IH]. apply Hrooms. cbn in Hi |- *.
      unfold queues in Hi. by rewrite lookup_fmap, fmap_is_Some in Hi.
Qed.

End Handlers.

(** The database reports that it could not make a room. *)
Definition refused_job : Event.DBJob :=
  Event.mkDBJob Event.CreateRoom []
    (Event.DbCreateRoomOnResult (Event.add Event.SEND_RESPONSE 0 (Event.new_event x00))).

Lemma handlers_fit_fleet_witness :
  exists w' ys,
    RoomWorker.run_callback (Event.on_result refused_job) Event.DBStError [] [] (RoomManager.init_world 2) = World.Ok tt w' /\
    Quiescence.emitted (RoomManager.init_world 2) w' ys /\
    may_post Quiescence.item_weight [1; 2] DB (inr refused_job) ys.
Proof.
  edestruct (handlers_fit_fleet [1; 2] (RoomManager.init_world 2)) as [_ H].
  - assert (E : World.room_workers (RoomManager.init_world 2) =
      <[2 := RoomManager.new_worker World.WRoom]> {[1 := RoomManager.new_worker World.WLobby]}) by reflexivity.
    intros j. rewrite E, lookup_insert_is_Some', !elem_of_cons, elem_of_nil. unfold is_Some.
    setoid_rewrite lookup_singleton_Some. naive_solver.
  - edestruct (H refused_job Event.DBStError [] []) as (ys & He & Hy); [by vm_compute |]. do 2 eexists. split_and!; [by vm_compute | exact He | exact Hy].
Defined.

(** ** Runs of a fleet *)

(** A scheduler: the first thread that can move does; items post nothing. *)
Section Drive.
Context {A : Type} (weight : A -> nat) (rooms : list Z).

Definition threads : list Z := MAIN :: DB :: rooms.
Definition candidates : list (Label (A := A)) :=
  (FPost <$> threads) ++ (FCall <$> threads) ++ [FStop []] ++
  ((fun j => FThread j false []) <$> DB :: rooms) ++ [FMain].

Definition first_move (f : State (A := A)) : option State :=
  list_find (fun l => is_Some (exec weight rooms l f)) candidates ≫= (fun p => exec weight rooms p.2 f).

Fixpoint drive (n : nat) (f : State (A := A)) : State :=
  match n with
  | O => f
  | S n' => match first_move f with Some f' => drive n' f' | None => f end
  end.

Lemma drive_steps n f : rtc (step weight rooms) f (drive n f).
Proof.
  revert f. induction n as [| n IH]; intros f; cbn [drive]; [apply rtc_refl |].
  destruct (first_move f) as [f' |] eqn:E; [| apply rtc_refl]. eapply rtc_l, IH.
  unfold first_move in E. apply bind_Some in E as ([i l] & _ & E). by exists l.
Qed.

End Drive.

#[local] Instance pc_eq_dec : EqDecision (Pc nat).
Proof. solve_decision. Defined.

(** Items that are their own weight. *)
Notation weigh := (fun x : nat => x).

Lemma fleet_run_reachable rooms posts ls f :
  run weigh rooms ls (initial rooms posts) = Some f -> reachable weigh rooms posts f.
Proof.
  unfold reachable. generalize (initial rooms posts) as f0. induction ls as [| l ls IH]; intros f0 H; cbn in H.
  - injection H as <-. apply rtc_refl.
  - destruct (exec weigh rooms l f0) as [f1 |] eqn:E; [| done]. eapply rtc_l, IH, H. by exists l.
Qed.

(** Two room workers, an event for each; the threads run until nobody can move. *)
Definition two_events : list (Z * nat) := [(1, 4%nat); (2, 1%nat)].
Definition two_workers : State := initial [1; 2] two_events.

Lemma shutdown_completes_witness :
  (forall ls f', Forall advances ls -> run weigh [1; 2] ls two_workers = Some f' ->
     (length ls <= effort weigh two_workers)%nat) /\
  let f := drive weigh [1; 2] 200 two_workers in
  reachable weigh [1; 2] two_events f /\ to_stop f = [] /\ stopping f = None /\
  map_Forall (fun _ m => pc m = Finished /\ queue m = []) (monitors f).
Proof.
  split; [apply (shutdown_completes weigh [1; 2] ltac:(by repeat constructor) two_events) | split_and!].
  - repeat (constructor; [set_solver |]). constructor.
  - apply rtc_refl.
  - apply drive_steps.
  - by vm_compute.
  - by vm_compute.
  - apply (bool_decide_unpack _). by vm_compute.
Defined.

(** A client's event asks the database for something; the room worker is back
    at the top of its loop when the server shuts down, the database thread has
    not begun. *)
Definition asks_database : list (Label (A := nat)) :=
  [FMain; FMain; FPost MAIN; FCall MAIN; FCall MAIN; FCall MAIN; FCall MAIN] ++
  replicate 4 (FThread 1 false []) ++ [FThread 1 false [(DB, 3%nat)]; FPost 1] ++ replicate 4 (FCall 1) ++
  replicate 3 (FThread 1 false []).

Definition stops_room : list (Label (A := nat)) :=
  FMain :: replicate 4 (FStop []) ++ [FThread 1 false []; FStop []].

Definition stops_database : list (Label (A := nat)) :=
  FMain :: replicate 4 (FStop []) ++ [FThread DB false []; FStop []; FStop []; FStop [(1, 2%nat)]; FPost MAIN] ++
  replicate 4 (FCall MAIN) ++ [FStop []; FStop []].

Definition shut_down : State :=
  default (initial [1] [(1, 4%nat)])
    (run weigh [1] (asks_database ++ stops_room ++ stops_database) (initial [1] [(1, 4%nat)])).

(** Shutdown answers into the void. [Server::~Server] stops the room workers
    before [DBWorker::stop] fails the jobs that are left; the callback of such
    a job posts its event to a room worker whose thread has returned. In this
    run the job was failed and its event posted, everything has been stopped,
    and the event lies in the queue of the finished worker, which nobody will
    ever take. *)
Theorem shutdown_strands_answer :
  reachable weigh [1] [(1, 4%nat)] shut_down /\
  to_start shut_down = [] /\ to_stop shut_down = [] /\ stopping shut_down = None /\
  exists db room, monitors shut_down !! DB = Some db /\ monitors shut_down !! 1 = Some room /\
    posted db = [3%nat] /\ failed db = [3%nat] /\ pc db = Finished /\
    posted room = [4%nat; 2%nat] /\ taken room = [4%nat] /\ queue room = [2%nat] /\ pc room = Finished.
Proof.
  split.
  - unfold shut_down. destruct (run _ _ _ _) as [f |] eqn:E; [by eapply fleet_run_reachable | apply rtc_refl].
  - split_and!; [by vm_compute.. |]. do 2 eexists. split_and!; by vm_compute.
Qed.

End Fleet.
