(* ===== verification/MainQueue.v ===== *)
(** * MainQueue: waking the main thread

    Workers ask the main thread for something by pushing a [MainEvent] under
    [main_event_queue_mutex_] and then writing to an eventfd that the main
    thread's epoll watches (server/src/server/Server.cpp: request_enable_epollout,
    request_disable_epollout, request_close_session); the main thread reads the
    eventfd and then takes events until the queue is empty (handle_events).
    Server.v takes each of these as one step; here every lock, unlock, push,
    read and write is a step of its own, in every interleaving. Which
    [epoll_ctl] fails is an oracle; a failure throws out of the loop. *)

From S2P Require Import Prelude Event.

Module MainQueue.

(** Where the main thread stands. *)
Inductive Pc :=
  | Waiting                         (* epoll_wait, or handling another descriptor *)
  | Reading                         (* eventfd_read *)
  | Locking                         (* lock_guard lock(main_event_queue_mutex_) *)
  | Testing                         (* if(main_events_.empty()) return, lock held *)
  | Popped (e : Event.MainEvent)    (* front() and pop() done, lock held *)
  | Handling (e : Event.MainEvent)  (* the switch *)
  | Thrown (e : Event.MainEvent).   (* epoll_ctl failed: out of handle_events and of run *)

(** What a request is made of. *)
Inductive Instr := Lock | Push (e : Event.MainEvent) | Unlock | Write.

Definition request (e : Event.MainEvent) : list Instr := [Lock; Push e; Unlock; Write].

Definition request_enable_epollout (fd : Z) : list Instr := request (Event.mkMainEvent Event.EnableEpollOut fd).
Definition request_disable_epollout (fd : Z) : list Instr := request (Event.mkMainEvent Event.DisalbeEpollOut fd).
Definition request_close_session (fd : Z) : list Instr := request (Event.mkMainEvent Event.Disconnect fd).

Inductive Holder := Main | Caller (t : Z).

Record State := mkState {
  main_events : list Event.MainEvent;
  counter : Z;                       (* the eventfd's *)
  holder : option Holder;            (* of main_event_queue_mutex_ *)
  pc : Pc;
  calls : gmap Z (list Instr);       (* what each requesting thread has yet to do *)
  requested : list Event.MainEvent;  (* everything pushed, in order *)
  handled : list Event.MainEvent }.  (* everything the main thread has dealt with, in order *)

Definition init : State := mkState [] 0 None Waiting ∅ [] [].

Definition set_pc (p : Pc) (s : State) : State :=
  mkState (main_events s) (counter s) (holder s) p (calls s) (requested s) (handled s).
Definition set_holder (h : option Holder) (s : State) : State :=
  mkState (main_events s) (counter s) h (pc s) (calls s) (requested s) (handled s).
Definition set_counter (n : Z) (s : State) : State :=
  mkState (main_events s) n (holder s) (pc s) (calls s) (requested s) (handled s).
Definition set_call (t : Z) (p : list Instr) (s : State) : State :=
  mkState (main_events s) (counter s) (holder s) (pc s) (<[t := p]> (calls s)) (requested s) (handled s).

Definition call (s : State) (t : Z) : list Instr := default [] (calls s !! t).

Definition acquire (h : Holder) (s : State) : option State :=
  match holder s with None => Some (set_holder (Some h) s) | Some _ => None end.

(** The descriptor is [EFD_NONBLOCK]: a write that would overflow the counter
    fails and leaves it; a read sets it to 0, or fails when it is 0. *)
Definition COUNTER_MAX : Z := 2 ^ 64 - 2.
Definition eventfd_write (s : State) : State :=
  set_counter (if decide (counter s + 1 <= COUNTER_MAX) then counter s + 1 else counter s) s.
Definition eventfd_read (s : State) : State := set_counter 0 s.

(** [enable_epollout] and [disable_epollout] throw when their [epoll_ctl] fails;
    [close_session] ignores what its own returns. *)
Definition can_throw (e : Event.MainEvent) : bool :=
  match Event.me_type e with Event.EnableEpollOut | Event.DisalbeEpollOut => true | Event.Disconnect => false end.

(** A step of the main thread; [fails] says how an [epoll_ctl] in it ends.
    [epoll_wait] reports the eventfd while its
    counter is positive: it is registered without EPOLLET. *)
Definition handle_events (fails : bool) (s : State) : option State :=
  match pc s with
  | Waiting => if decide (0 < counter s) then Some (set_pc Reading s) else None
  | Reading => Some (set_pc Locking (eventfd_read s))
  | Locking => set_pc Testing <$> acquire Main s
  | Testing =>
      match main_events s with
      | [] => Some (set_pc Waiting (set_holder None s))
      | e :: q => Some (mkState q (counter s) (holder s) (Popped e) (calls s) (requested s) (handled s))
      end
  | Popped e => Some (set_pc (Handling e) (set_holder None s))
  | Handling e =>
      if fails && can_throw e then Some (set_pc (Thrown e) s)
      else Some (mkState (main_events s) (counter s) (holder s) Locking (calls s) (requested s) (handled s ++ [e]))
  | Thrown _ => None
  end.

(** A step of thread [t]'s request. *)
Definition call_step (t : Z) (s : State) : option State :=
  match call s t with
  | [] => None
  | i :: rest =>
      match i with
      | Lock => set_call t rest <$> acquire (Caller t) s
      | Push e => Some (set_call t rest (mkState (main_events s ++ [e]) (counter s) (holder s) (pc s) (calls s)
                                           (requested s ++ [e]) (handled s)))
      | Unlock => Some (set_call t rest (set_holder None s))
      | Write => Some (set_call t rest (eventfd_write s))
      end
  end.

Definition is_request (p : list Instr) : Prop :=
  exists fd, p = request_enable_epollout fd \/ p = request_disable_epollout fd \/ p = request_close_session fd.

Inductive step : State -> State -> Prop :=
  | step_main fails s s' : handle_events fails s = Some s' -> step s s'
  | step_request s t p : is_request p -> call s t = [] -> step s (set_call t p s)
  | step_call s t s' : call_step t s = Some s' -> step s s'.

Definition reachable (s : State) : Prop := rtc step init s.

(** ** Invariant *)

(** Whether what is left of a request starts with the lock held, and whether
    it has still to write. *)
Definition inside (p : list Instr) : bool := match p with Push _ :: _ | Unlock :: _ => true | _ => false end.
Definition writes (p : list Instr) : bool := match last p with Some Write => true | _ => false end.

(** The tails of a request. *)
Definition tail_of_request (p : list Instr) : Prop := exists e, p `suffix_of` request e.

Definition main_inside (p : Pc) : bool := match p with Testing | Popped _ => true | _ => false end.

(** What the main thread has taken and not finished. *)
Definition in_hand (p : Pc) : list Event.MainEvent :=
  match p with Popped e | Handling e | Thrown e => [e] | _ => [] end.

Record inv (s : State) : Prop := {
  q_calls : forall t, tail_of_request (call s t);
  q_caller : forall t, inside (call s t) = true <-> holder s = Some (Caller t);
  q_main : main_inside (pc s) = true <-> holder s = Some Main;
  q_fifo : requested s = handled s ++ in_hand (pc s) ++ main_events s;
  q_counter : 0 <= counter s;
  q_wake : pc s = Waiting -> main_events s <> [] -> 0 < counter s \/ exists t, writes (call s t) = true;
  q_thrown : forall e, pc s = Thrown e -> can_throw e = true }.

Lemma tail_cases p :
  tail_of_request p -> p = [] \/ p = [Write] \/ p = [Unlock; Write] \/ (exists e, p = [Push e; Unlock; Write]) \/
    exists e, p = request e.
Proof.
  intros (e & l & H). unfold request in *.
  do 5 (destruct l as [| ? l]; [simplify_eq/=; eauto 10 |]; simplify_eq/=).
Qed.

Lemma request_call_set t p s t' : call (set_call t p s) t' = if decide (t' = t) then p else call s t'.
Proof.
  unfold call, set_call; cbn. case_decide as H; [subst; by rewrite lookup_insert_eq | by rewrite lookup_insert_ne].
Qed.

Lemma queue_init_inv : inv init.
Proof. split; cbn; try done. intros t. exists (Event.mkMainEvent Event.Disconnect 0). by eexists; rewrite app_nil_r. Qed.

(** The main thread moves. *)
Lemma main_inv fails s s' : inv s -> handle_events fails s = Some s' -> inv s'.
Proof.
  intros [Hc Hh Hm Hf Hn Hw Ht] E. unfold handle_events, acquire in E.
  destruct (pc s) as [| | | | e | e | e] eqn:Ep; cbn [main_inside in_hand] in *; [.. | done].
  - case_decide; [| done]. injection E as <-. by split.
  - injection E as <-. by split.
  - destruct (holder s) eqn:Eh; [done |]. injection E as <-. split; try done. intros t. by rewrite (Hh t).
  - pose proof (proj1 Hm eq_refl) as Eh. destruct (main_events s) as [| e q] eqn:Eq; injection E as <-.
    + split; cbn; rewrite ?Eq; try done. intros t. by rewrite (Hh t), Eh.
    + split; cbn; try done.
  - pose proof (proj1 Hm eq_refl) as Eh. injection E as <-. split; cbn; try done. intros t. by rewrite (Hh t), Eh.
  - destruct (fails && can_throw e) eqn:Ec; injection E as <-.
    + apply andb_true_iff in Ec as [_ Ec]. split; cbn; try done. by intros e' [= <-].
    + split; cbn; try done. by rewrite Hf, <- app_assoc.
Qed.

Lemma tail_step i p : tail_of_request (i :: p) -> tail_of_request p.
Proof. intros (e & l & H). exists e, (l ++ [i]). by rewrite <- app_assoc. Qed.

(** A request moves: [p] is what is left of it. *)
Lemma request_step_inv s t s' : inv s -> call_step t s = Some s' -> inv s'.
Proof.
  intros Hs E. pose proof Hs as [Hc Hh Hm Hf Hn Hw Hth]. unfold call_step, acquire in E.
  destruct (call s t) as [| i p] eqn:Ec; [done |].
  assert (Hp : tail_of_request p) by (pose proof (Hc t) as H; rewrite Ec in H; by apply tail_step in H).
  assert (Hcalls : forall s1, calls s1 = calls s -> forall t', call (set_call t p s1) t' = if decide (t' = t) then p else call s t').
  { intros s1 E1 t'. rewrite request_call_set. unfold call. by rewrite E1. }
  pose proof (Hh t) as Ht. rewrite Ec in Ht.
  destruct (tail_cases (i :: p)) as [H | [H | [H | [[e H] | [e H]]]]]; [rewrite <- Ec; apply Hc | done | ..];
    injection H as -> ->; cbn in Ht.
  - injection E as <-. split; try (intros t'; rewrite Hcalls by done; case_decide as Hd; [subst t' |]); try done; cbn.
    + unfold eventfd_write; cbn. case_decide; lia.
    + intros _ _. left. unfold eventfd_write; cbn. unfold COUNTER_MAX. case_decide; lia.
  - pose proof (proj1 Ht eq_refl) as Eh. injection E as <-.
    split; try (intros t'; rewrite Hcalls by done; case_decide as Hd; [subst t' |]); try done; cbn.
    + rewrite (Hh t'), Eh. split; [congruence | done].
    + by rewrite Hm, Eh.
    + intros _ _. right. exists t. by rewrite Hcalls, decide_True.
  - pose proof (proj1 Ht eq_refl) as Eh. injection E as <-.
    split; try (intros t'; rewrite Hcalls by done; case_decide as Hd; [subst t' |]); try done; cbn.
    + by rewrite Hf, <- !app_assoc.
    + intros _ _. right. exists t. by rewrite Hcalls, decide_True.
  - destruct (holder s) eqn:Eh; [done |]. injection E as <-.
    split; try (intros t'; rewrite Hcalls by done; case_decide as Hd; [subst t' |]); try done; cbn.
    + rewrite (Hh t'). split; [done | congruence].
    + by rewrite Hm.
    + intros _ _. right. exists t. by rewrite Hcalls, decide_True.
Qed.

Lemma request_inv s t p : inv s -> is_request p -> call s t = [] -> inv (set_call t p s).
Proof.
  intros [Hc Hh Hm Hf Hn Hw Hth] (fd & Hp) E. assert (Hr : exists e, p = request e) by (destruct Hp as [-> | [-> | ->]]; eauto).
  destruct Hr as [e ->]. split; try (intros t'; rewrite request_call_set; case_decide as Hd; [subst t' |]); try done.
  - exists e. by exists [].
  - rewrite <- Hh, E. done.
  - intros Hp' Hq. destruct (Hw Hp' Hq) as [? | [t' Ht']]; [by left | right]. exists t'. rewrite request_call_set.
    rewrite decide_False; [done |]. intros ->. by rewrite E in Ht'.
Qed.

Lemma queue_reachable_inv s : reachable s -> inv s.
Proof.
  unfold reachable. intros Hr. remember init as s0 eqn:E. assert (H0 : inv s0) by (rewrite E; apply queue_init_inv). clear E.
  induction Hr as [| s1 s2 s3 H _ IH]; [done |]. apply IH.
  destruct H; [by eapply main_inv | by apply request_inv | by eapply request_step_inv].
Qed.

(** ** The main thread alone

    [fails i] is how an [epoll_ctl] in its step [i] ends. *)

Fixpoint serve (n : nat) (fails : nat -> bool) (s : State) : option State :=
  match n with
  | O => Some s
  | S n' =>
      match handle_events (fails 0%nat) s with
      | Some s' => serve n' (fun i => fails (S i)) s'
      | None => None
      end
  end.

(** Where it comes to rest. *)
Definition served (s s' : State) : Prop :=
  pc s' = Waiting /\ main_events s' = [] /\ counter s' = 0 /\
  handled s' = handled s ++ in_hand (pc s) ++ main_events s.

(** Where an exception takes it: at the event whose [epoll_ctl] failed. *)
Definition thrown (s s' : State) : Prop :=
  exists e, pc s' = Thrown e /\ can_throw e = true /\
    handled s' ++ e :: main_events s' = handled s ++ in_hand (pc s) ++ main_events s.

Definition serves (bound : nat) (s : State) : Prop :=
  forall fails, exists n s', (n <= bound)%nat /\ serve n fails s = Some s' /\
    (served s s' \/ thrown s s' /\ exists i, (i < n)%nat /\ fails i = true).

Lemma serves_weaken b b' s : serves b s -> (b <= b')%nat -> serves b' s.
Proof. intros H Hb fails. destruct (H fails) as (n & s' & Hn & H'). exists n, s'. split; [lia | done]. Qed.

(** A step that does not depend on [epoll_ctl]. *)
Lemma serves_step b b' s s1 :
  (forall fails, handle_events fails s = Some s1) -> serves b s1 -> (S b <= b')%nat ->
  handled s1 ++ in_hand (pc s1) ++ main_events s1 = handled s ++ in_hand (pc s) ++ main_events s -> serves b' s.
Proof.
  intros E H Hb Hq fails. destruct (H (fun i => fails (S i))) as (n & s' & Hn & Hs & Hend).
  exists (S n), s'. split_and!; [lia | by cbn; rewrite E |]. unfold served, thrown in *. rewrite <- Hq.
  destruct Hend as [? | [? (i & Hi & Hf)]]; [by left | right]. split; [done |]. exists (S i). split; [lia | done].
Qed.

(** A wakeup for nothing, if the counter has been written since it was read. *)
Lemma serves_waiting s :
  pc s = Waiting -> holder s = None -> main_events s = [] -> 0 <= counter s -> serves 4 s.
Proof.
  intros Hp Hh Hq Hc. destruct (decide (0 < counter s)) as [Hd | Hd]; intros fails.
  - exists 4%nat. eexists. split_and!; [done | |].
    + cbn. unfold handle_events at 1. rewrite Hp, decide_True by done. cbn.
      unfold handle_events at 1, acquire. cbn. rewrite Hh. cbn. unfold handle_events. cbn. by rewrite Hq.
    + left. split_and!; [done | done | done |]. cbn. by rewrite Hp, Hq, app_nil_r.
  - exists 0%nat, s. split_and!; [lia | done |]. left. split_and!; [done | done | lia |]. by rewrite Hp, Hq, app_nil_r.
Qed.

(** The event in hand is dealt with, or stops the thread. *)
Lemma serves_switch b s e :
  pc s = Handling e ->
  serves b (mkState (main_events s) (counter s) (holder s) Locking (calls s) (requested s) (handled s ++ [e])) ->
  serves (S b) s.
Proof.
  intros Hp H fails. destruct (fails 0%nat && can_throw e) eqn:Ec.
  - exists 1%nat, (set_pc (Thrown e) s). split_and!; [lia | |].
    + cbn. unfold handle_events. by rewrite Hp, Ec.
    + apply andb_true_iff in Ec as [Ef Ec]. right. split; [| by exists 0%nat; split; [lia |]].
      exists e. split_and!; [done | done |]. by rewrite Hp.
  - destruct (H (fun i => fails (S i))) as (n & s' & Hn & Hs & Hend). exists (S n), s'. split_and!; [lia | |].
    + cbn. unfold handle_events at 1. by rewrite Hp, Ec.
    + unfold served, thrown in *. cbn in Hend. rewrite Hp. rewrite <- app_assoc in Hend. cbn in *.
      destruct Hend as [? | [? (i & Hi & Hf)]]; [by left | right]. split; [done |]. exists (S i). split; [lia | done].
Qed.

Lemma serves_locking s :
  pc s = Locking -> holder s = None -> 0 <= counter s -> serves (4 * length (main_events s) + 6) s.
Proof.
  remember (main_events s) as q eqn:Hq. revert s Hq. induction q as [| e q IH]; intros s Hq Hp Hh Hn.
  - set (s1 := set_pc Testing (set_holder (Some Main) s)).
    apply (serves_step 5 _ s s1); [| | cbn; lia | cbn; by rewrite Hp].
    + intros fails. unfold handle_events, acquire. by rewrite Hp, Hh.
    + apply (serves_step 4 _ s1 (set_pc Waiting (set_holder None s1))); [| by apply serves_waiting | done | done].
      intros fails. unfold handle_events. cbn. by rewrite <- Hq.
  - set (s1 := set_pc Testing (set_holder (Some Main) s)).
    set (s2 := mkState q (counter s) (Some Main) (Popped e) (calls s) (requested s) (handled s)).
    set (s3 := set_pc (Handling e) (set_holder None s2)).
    apply (serves_step (4 * length q + 9) _ s s1); [| | cbn; lia | cbn; by rewrite Hp].
    { intros fails. unfold handle_events, acquire. by rewrite Hp, Hh. }
    apply (serves_step (4 * length q + 8) _ s1 s2); [| | lia | cbn; by rewrite <- Hq].
    { intros fails. unfold handle_events. cbn. by rewrite <- Hq. }
    apply (serves_step (4 * length q + 7) _ s2 s3); [done | | lia | done].
    apply (serves_weaken (S (4 * length q + 6))); [| lia]. apply (serves_switch _ s3 e); [done |]. by apply IH.
Qed.

Lemma serves_handling s e :
  pc s = Handling e -> holder s = None -> 0 <= counter s -> serves (4 * length (main_events s) + 7) s.
Proof.
  intros Hp Hh Hn. apply (serves_weaken (S (4 * length (main_events s) + 6))); [| lia].
  apply (serves_switch _ s e); [done |]. by apply (serves_locking (mkState _ _ _ Locking _ _ _)).
Qed.

Lemma serves_popped s e : pc s = Popped e -> 0 <= counter s -> serves (4 * length (main_events s) + 8) s.
Proof.
  intros Hp Hn. set (s1 := set_pc (Handling e) (set_holder None s)).
  apply (serves_step (4 * length (main_events s) + 7) _ s s1); [| by apply (serves_handling s1 e) | lia | by rewrite Hp].
  intros fails. unfold handle_events. by rewrite Hp.
Qed.

Lemma serves_testing s : pc s = Testing -> 0 <= counter s -> serves (4 * length (main_events s) + 8) s.
Proof.
  intros Hp Hn. destruct (main_events s) as [| e q] eqn:Hq.
  - set (s1 := set_pc Waiting (set_holder None s)).
    apply (serves_step 4 _ s s1); [| by apply serves_waiting | cbn; lia | cbn; by rewrite Hp].
    intros fails. unfold handle_events. by rewrite Hp, Hq.
  - set (s1 := mkState q (counter s) (holder s) (Popped e) (calls s) (requested s) (handled s)).
    apply (serves_step (4 * length q + 8) _ s s1); [| by apply (serves_popped s1 e) | cbn; lia | cbn; by rewrite Hp, Hq].
    intros fails. unfold handle_events. by rewrite Hp, Hq.
Qed.

Lemma serves_from_waiting s :
  inv s -> pc s = Waiting -> holder s = None -> (forall t, call s t = []) ->
  serves (4 * length (main_events s) + 8) s.
Proof.
  intros [_ _ _ _ Hn Hw _] Hp Hh Hno. destruct (decide (0 < counter s)) as [Hd | Hd].
  - apply (serves_step (4 * length (main_events s) + 7) _ s (set_pc Reading s)); [| | lia | by rewrite Hp].
    { intros fails. unfold handle_events. by rewrite Hp, decide_True. }
    apply (serves_step (4 * length (main_events s) + 6) _ _ (set_pc Locking (eventfd_read s))); [done | | lia | done].
    by apply (serves_locking (set_pc Locking (eventfd_read s))).
  - assert (Hq : main_events s = []).
    { destruct (main_events s) eqn:E; [done |]. destruct Hw as [? | [t Ht]]; [done | done | lia |]. by rewrite Hno in Ht. }
    apply (serves_weaken 4); [by apply serves_waiting | lia].
Qed.

(** C25: no request to the main thread is lost. In every interleaving of the
    requesting threads with the main thread: what has been requested is, in
    order, what the main thread has handled, what it has in hand and what is
    queued. Whenever no request is in progress and the main thread has not been
    stopped by an exception, then on its own (woken by the eventfd if it
    sleeps), within four steps per queued event and eight more, it is in
    [epoll_wait] again with everything requested handled, in order, the queue
    empty and the eventfd's counter at 0; or an [epoll_ctl] has failed, which
    throws out of [run] with exactly the events before that one handled. *)
Theorem main_events_delivered s :
  reachable s ->
  requested s = handled s ++ in_hand (pc s) ++ main_events s /\
  ((forall t, call s t = []) -> (forall e, pc s <> Thrown e) ->
   forall fails, exists n s', (n <= 4 * length (main_events s) + 8)%nat /\ serve n fails s = Some s' /\
     (pc s' = Waiting /\ main_events s' = [] /\ counter s' = 0 /\ handled s' = requested s \/
      (exists i, (i < n)%nat /\ fails i = true) /\
      exists e, pc s' = Thrown e /\ can_throw e = true /\ requested s = handled s' ++ e :: main_events s')).
Proof.
  intros Hr. apply queue_reachable_inv in Hr. pose proof Hr as [Hc Hh Hm Hf Hn Hw _]. split; [done |]. intros Hno Hnt.
  assert (Hserves : serves (4 * length (main_events s) + 8) s).
  2: { intros fails. destruct (Hserves fails) as (n & s' & H0 & H1 & Hend). exists n, s'. split_and!; [done.. |].
       unfold served, thrown in Hend. rewrite <- Hf in Hend.
       destruct Hend as [? | [(e & H2 & H3 & H4) Hi]]; [by left | right]. split; [done |]. by exists e. }
  assert (Hnone : main_inside (pc s) = false -> holder s = None).
  { intros H. destruct (holder s) as [[| t] |] eqn:E; [| | done].
    - pose proof (proj2 Hm eq_refl). congruence.
    - pose proof (proj2 (Hh t) eq_refl) as Hi. by rewrite Hno in Hi. }
  destruct (pc s) as [| | | | e | e | e] eqn:Hp.
  - apply serves_from_waiting; auto.
  - apply (serves_step (4 * length (main_events s) + 6) _ s (set_pc Locking (eventfd_read s))); [| | lia | by rewrite Hp].
    { intros fails. unfold handle_events. by rewrite Hp. }
    apply (serves_locking (set_pc Locking (eventfd_read s))); [done | by apply Hnone | done].
  - eapply serves_weaken; [apply serves_locking; auto | lia].
  - by apply serves_testing.
  - by apply (serves_popped s e).
  - eapply serves_weaken; [apply (serves_handling s e); auto | lia].
  - by destruct (Hnt e).
Qed.

(** A worker has asked for EPOLLOUT on descriptor 5 and the eventfd is written. *)
Definition asked : State :=
  mkState [Event.mkMainEvent Event.EnableEpollOut 5] 1 None Waiting {[1 := []]} [Event.mkMainEvent Event.EnableEpollOut 5] [].

Lemma asked_reachable : reachable asked.
Proof.
  eapply rtc_l; [apply (step_request init 1 (request_enable_epollout 5)); [exists 5; by left | done] |].
  do 4 (eapply rtc_l; [by apply (step_call _ 1) |]). apply rtc_refl.
Qed.

(** Both ends are possible from there. *)
Lemma main_events_delivered_witness :
  main_events asked = [Event.mkMainEvent Event.EnableEpollOut 5] /\ handled asked = [] /\
  (exists s', serve 8 (fun _ => true) asked = None /\ serve 6 (fun _ => true) asked = Some s' /\
     pc s' = Thrown (Event.mkMainEvent Event.EnableEpollOut 5)) /\
  forall fails, exists n s', (n <= 12)%nat /\ serve n fails asked = Some s' /\
     (pc s' = Waiting /\ main_events s' = [] /\ counter s' = 0 /\ handled s' = requested asked \/
      (exists i, (i < n)%nat /\ fails i = true) /\
      exists e, pc s' = Thrown e /\ can_throw e = true /\ requested asked = handled s' ++ e :: main_events s').
Proof.
  split_and!; [done.. | by eexists |]. apply (main_events_delivered asked asked_reachable); [| done].
  intros t. unfold call. cbn. destruct (decide (t = 1)) as [-> | Ht]; [by rewrite lookup_singleton_eq |].
  by rewrite lookup_singleton_ne.
Defined.

End MainQueue.
