(* ===== verification/Ownership.v ===== *)
(** * Ownership: handles that own an operating-system resource

    [Socket] (server/src/network/Socket.cpp and client/src/Socket.cpp),
    [DBResult] and [DBConnection] (server/src/db) are the same idiom: an object
    holds a raw handle, its destructor gives the resource back if the handle is
    valid, copying is forbidden, and moving leaves an invalid handle behind.
    The operations are written once, over the raw type; the classes are its
    instances. The objects live at addresses, so a self-assignment is visible. *)

From S2P Require Import Prelude.

Module Ownership.

(** What a class of handles fixes: which raw values own something, the value
    left in a moved-from object, and what else moves along. *)
Class Handle (R B : Type) := {
  valid : R -> bool;
  null : R;
  nothing : B;
  null_invalid : valid null = false }.

Section Handle.
Context {R B : Type} `{Countable R} {HR : Handle R B}.

Record Object := mkObject { raw : R; extra : B }.

Record Heap := mkHeap {
  objects : gmap Z Object;     (* the living objects, by address *)
  opened : gset R;             (* resources handed out and not given back *)
  released : gset R;           (* taken out of their object by release() *)
  bad_closes : nat }.          (* resources given back that were not out *)

Definition empty_heap : Heap := mkHeap ∅ ∅ ∅ 0.

Definition set_objects (o : gmap Z Object) (h : Heap) : Heap :=
  mkHeap o (opened h) (released h) (bad_closes h).

(** The system hands out a resource; [::close], [PQclear], [PQfinish] take one
    back. *)
Definition hand_out (r : R) (h : Heap) : Heap :=
  mkHeap (objects h) ({[r]} ∪ opened h) (released h) (bad_closes h).
Definition close (r : R) (h : Heap) : Heap :=
  mkHeap (objects h) (opened h ∖ {[r]}) (released h)
    (if decide (r ∈ opened h) then bad_closes h else S (bad_closes h)).

Definition close_if_valid (r : R) (h : Heap) : Heap := if valid r then close r h else h.

(** ** The member functions, for the object at address [a] *)

Definition construct (a : Z) (r : R) (h : Heap) : Heap :=
  set_objects (<[a := mkObject r nothing]> (objects h)) h.

Definition destroy (a : Z) (h : Heap) : Heap :=
  match objects h !! a with
  | Some o => let h := close_if_valid (raw o) h in set_objects (delete a (objects h)) h
  | None => h
  end.

Definition get (a : Z) (h : Heap) : R :=
  match objects h !! a with Some o => raw o | None => null end.

Definition release (a : Z) (h : Heap) : R * Heap :=
  match objects h !! a with
  | Some o =>
      (raw o, mkHeap (<[a := mkObject null (extra o)]> (objects h)) (opened h)
                (if valid (raw o) then {[raw o]} ∪ released h else released h) (bad_closes h))
  | None => (null, h)
  end.

(** A moved-from object is left with [null] and nothing else. *)
Definition move_construct (a other : Z) (h : Heap) : Heap :=
  match objects h !! other with
  | Some o => set_objects (<[other := mkObject null nothing]> (<[a := o]> (objects h))) h
  | None => h
  end.

Definition move_assign (a other : Z) (h : Heap) : Heap :=
  if decide (a = other) then h else
  match objects h !! a, objects h !! other with
  | Some mine, Some o =>
      let h := close_if_valid (raw mine) h in
      set_objects (<[other := mkObject null nothing]> (<[a := o]> (objects h))) h
  | _, _ => h
  end.

(** ** Programs over handles *)

Inductive Op :=
  | Open (a : Z) (r : R)          (* a resource is handed out and an object takes it *)
  | OpenAndClose (r : R)          (* handed out and given back without an object *)
  | Empty (a : Z)                 (* an object without a resource *)
  | Destroy (a : Z) | MoveConstruct (a other : Z) | MoveAssign (a other : Z) | Release (a : Z).

Definition perform (op : Op) (h : Heap) : Heap :=
  match op with
  | Open a r => construct a r (hand_out r h)
  | OpenAndClose r => close r (hand_out r h)
  | Empty a => construct a null h
  | Destroy a => destroy a h
  | MoveConstruct a other => move_construct a other h
  | MoveAssign a other => move_assign a other h
  | Release a => (release a h).2
  end.

(** The language's lifetimes, and a system that hands out what is not out. *)
Definition allowed (op : Op) (h : Heap) : Prop :=
  match op with
  | Open a r => objects h !! a = None /\ valid r = true /\ r ∉ opened h
  | OpenAndClose r => valid r = true /\ r ∉ opened h
  | Empty a => objects h !! a = None
  | Destroy a | Release a => is_Some (objects h !! a)
  | MoveConstruct a other => objects h !! a = None /\ is_Some (objects h !! other)
  | MoveAssign a other => is_Some (objects h !! a) /\ is_Some (objects h !! other)
  end.

#[global] Instance allowed_dec op h : Decision (allowed op h).
Proof. destruct op; unfold allowed; apply _. Defined.

Inductive executes : list Op -> Heap -> Heap -> Prop :=
  | executes_nil h : executes [] h h
  | executes_cons op ops h h' : allowed op h -> executes ops (perform op h) h' -> executes (op :: ops) h h'.

(** ** Invariant: one owner per resource *)

Definition owner (h : Heap) (a : Z) (r : R) : Prop :=
  exists o, objects h !! a = Some o /\ raw o = r /\ valid r = true.

Record owned (h : Heap) : Prop := {
  ow_open : forall a r, owner h a r -> r ∈ opened h;
  ow_once : forall a b r, owner h a r -> owner h b r -> a = b;
  ow_all : forall r, r ∈ opened h -> (exists a, owner h a r) \/ r ∈ released h;
  ow_released : forall a r, owner h a r -> r ∉ released h;
  ow_out : released h ⊆ opened h;
  ow_good : bad_closes h = 0%nat }.

Lemma empty_owned : owned empty_heap.
Proof.
  assert (Hn : forall a r, ~ owner empty_heap a r).
  { intros a r (o & Ho & _). cbn in Ho. by rewrite lookup_empty in Ho. }
  split; try (intros a r Ho; by destruct (Hn a r)); [| | done | done].
  - intros a b r Ho. by destruct (Hn a r).
  - intros r Hr. cbn in Hr. set_solver.
Qed.

Lemma owner_insert a o objs h b r :
  objects h = <[a := o]> objs ->
  owner h b r <-> (a = b /\ raw o = r /\ valid r = true) \/ (a <> b /\ owner (set_objects objs h) b r).
Proof.
  intros E. unfold owner. rewrite E. cbn. destruct (decide (a = b)) as [<- | Hne].
  - setoid_rewrite lookup_insert_eq. naive_solver.
  - setoid_rewrite lookup_insert_ne; [| done]. naive_solver.
Qed.

Lemma owner_delete a h b r :
  owner (set_objects (delete a (objects h)) h) b r <-> a <> b /\ owner h b r.
Proof.
  unfold owner. cbn. destruct (decide (a = b)) as [<- | Hne].
  - setoid_rewrite lookup_delete_eq. naive_solver.
  - setoid_rewrite lookup_delete_ne; [| done]. naive_solver.
Qed.

Lemma owner_objects h h' b r : objects h' = objects h -> owner h' b r <-> owner h b r.
Proof. intros E. unfold owner. by rewrite E. Qed.

Lemma not_owner_dead h a r : objects h !! a = None -> ~ owner h a r.
Proof. intros E (o & Ho & _). congruence. Qed.

Lemma open_owned a r h :
  owned h -> objects h !! a = None -> valid r = true -> r ∉ opened h -> owned (construct a r (hand_out r h)).
Proof.
  intros [H1 H2 H3 H4 H5 H6] Ha Hv Hr. set (h' := construct a r (hand_out r h)).
  assert (Ho : forall b r', owner h' b r' <-> (a = b /\ r = r') \/ (a <> b /\ owner h b r')).
  { intros b r'. rewrite (owner_insert a (mkObject r nothing) (objects h) h') by done. cbn.
    rewrite (owner_objects h (set_objects (objects h) h')) by done. naive_solver. }
  split.
  - intros b r' Hb. apply Ho in Hb as [[_ <-] | [_ Hb]]; cbn; [set_solver |]. apply H1 in Hb. set_solver.
  - intros b c r' Hb Hc. apply Ho in Hb as [[<- <-] | [Hb Hb']], Hc as [[<- E] | [Hc Hc']]; [done | | |].
    + by destruct (Hr (H1 _ _ Hc')).
    + subst. by destruct (Hr (H1 _ _ Hb')).
    + by apply (H2 _ _ r').
  - intros r' Hr'. cbn in Hr'. destruct (decide (r' = r)) as [-> | Hne].
    + left. exists a. apply Ho. by left.
    + destruct (H3 r') as [[b Hb] | Hrel]; [set_solver | | by right]. left. exists b. apply Ho. right.
      split; [| done]. intros <-. by destruct (not_owner_dead h a r').
  - intros b r' Hb. apply Ho in Hb as [[_ <-] | [_ Hb]]; [| by apply (H4 b)]. intros Hx. by apply Hr, H5.
  - cbn. set_solver.
  - done.
Qed.

Lemma empty_object_owned a h : owned h -> objects h !! a = None -> owned (construct a null h).
Proof.
  intros [H1 H2 H3 H4 H5 H6] Ha. set (h' := construct a null h).
  assert (Ho : forall b r', owner h' b r' <-> owner h b r').
  { intros b r'. rewrite (owner_insert a (mkObject null nothing) (objects h) h') by done. cbn.
    rewrite (owner_objects h (set_objects (objects h) h')) by done. split.
    - intros [(_ & <- & Hv) | [_ Hx]]; [| done]. by rewrite null_invalid in Hv.
    - intros Hx. right. split; [| done]. intros <-. by destruct (not_owner_dead h a r'). }
  split; try done.
  - intros b r'. rewrite Ho. apply H1.
  - intros b c r'. rewrite !Ho. apply H2.
  - intros r' Hr. destruct (H3 r' Hr) as [[b Hb] | Hx]; [| by right]. left. exists b. by apply Ho.
  - intros b r'. rewrite Ho. apply H4.
Qed.

Lemma destroy_owned a h : owned h -> owned (destroy a h).
Proof.
  intros [H1 H2 H3 H4 H5 H6]. unfold destroy. destruct (objects h !! a) as [o |] eqn:Ha; [| by split].
  set (h1 := close_if_valid (raw o) h).
  assert (E1 : objects h1 = objects h) by (unfold h1, close_if_valid; by destruct (valid _)).
  assert (Ho : forall b r', owner (set_objects (delete a (objects h1)) h1) b r' <-> a <> b /\ owner h b r').
  { intros b r'. by rewrite owner_delete, (owner_objects h h1). }
  destruct (valid (raw o)) eqn:Hv.
  - assert (Hown : owner h a (raw o)) by by exists o. pose proof (H1 _ _ Hown) as Hopen.
    assert (E2 : opened h1 = opened h ∖ {[raw o]}) by (unfold h1, close_if_valid; by rewrite Hv).
    assert (E3 : released h1 = released h) by (unfold h1, close_if_valid; by rewrite Hv).
    split; cbn.
    + intros b r' Hb. apply Ho in Hb as [Hne Hb]. rewrite E2. apply elem_of_difference. split; [by eapply H1 |].
      intros Hx. apply elem_of_singleton in Hx as ->. by apply Hne, (H2 _ _ (raw o)).
    + intros b c r' Hb Hc. apply Ho in Hb as [_ Hb], Hc as [_ Hc]. by eapply H2.
    + intros r'. rewrite E2, E3. intros Hr. apply elem_of_difference in Hr as [Hr Hne].
      destruct (H3 r' Hr) as [[b Hb] | Hx]; [| by right]. left. exists b. apply Ho. split; [| done].
      intros <-. destruct Hb as (o' & Ho' & <- & _). rewrite Ha in Ho'. injection Ho' as <-. set_solver.
    + intros b r' Hb. apply Ho in Hb as [_ Hb]. rewrite E3. by eapply H4.
    + rewrite E2, E3. intros r' Hr. apply elem_of_difference. split; [by apply H5 |].
      intros Hx. apply elem_of_singleton in Hx as ->. by destruct (H4 a (raw o) Hown).
    + unfold h1, close_if_valid. rewrite Hv. cbn. by rewrite decide_True.
  - assert (E : h1 = h) by (unfold h1, close_if_valid; by rewrite Hv). rewrite E in *. clear E1.
    split; cbn; try done.
    + intros b r' Hb. apply Ho in Hb as [_ Hb]. by eapply H1.
    + intros b c r' Hb Hc. apply Ho in Hb as [_ Hb], Hc as [_ Hc]. by eapply H2.
    + intros r' Hr. destruct (H3 r' Hr) as [[b Hb] | Hx]; [| by right]. left. exists b. apply Ho. split; [| done].
      intros <-. destruct Hb as (o' & Ho' & <- & Hv'). rewrite Ha in Ho'. injection Ho' as <-. congruence.
    + intros b r' Hb. apply Ho in Hb as [_ Hb]. by eapply H4.
Qed.

Lemma move_construct_owned a other h :
  owned h -> objects h !! a = None -> owned (move_construct a other h).
Proof.
  intros [H1 H2 H3 H4 H5 H6] Ha. unfold move_construct.
  destruct (objects h !! other) as [o |] eqn:Eo; [| by split].
  assert (Hne : a <> other) by congruence. set (h' := set_objects _ h).
  assert (Ho : forall b r', owner h' b r' <-> (a = b /\ owner h other r') \/ (a <> b /\ other <> b /\ owner h b r')).
  { intros b r'. rewrite (owner_insert other (mkObject null nothing) (<[a := o]> (objects h)) h') by done. cbn.
    rewrite (owner_insert a o (objects h)) by done.
    rewrite (owner_objects h (set_objects (objects h) _)) by done. split.
    - intros [(_ & <- & Hv) | (Hb & [(<- & <- & Hv) | [Hb' Hx]])]; [by rewrite null_invalid in Hv | |].
      + left. split; [done |]. by exists o.
      + by right.
    - intros [(<- & o' & Eo' & <- & Hv) | (Hb & Hb' & Hx)].
      + rewrite Eo in Eo'. injection Eo' as <-. right. split; [done |]. by left.
      + right. split; [done |]. by right. }
  split; cbn; try done.
  - intros b r' Hb. apply Ho in Hb as [[_ Hb] | (_ & _ & Hb)]; by eapply H1.
  - intros b c r' Hb Hc. apply Ho in Hb as [[<- Hb] | (Hb1 & Hb2 & Hb)], Hc as [[<- Hc] | (Hc1 & Hc2 & Hc)]; [done | | |].
    + by destruct (Hc2 (H2 _ _ _ Hb Hc)).
    + by destruct (Hb2 (H2 _ _ _ Hc Hb)).
    + by eapply H2.
  - intros r' Hr. destruct (H3 r' Hr) as [[b Hb] | Hx]; [| by right]. left.
    destruct (decide (b = other)) as [-> | Hbo]; [exists a; apply Ho; by left |].
    exists b. apply Ho. right. split_and!; [| congruence | done]. intros <-. by destruct (not_owner_dead h a r').
  - intros b r' Hb. apply Ho in Hb as [[_ Hb] | (_ & _ & Hb)]; by eapply H4.
Qed.

(** Assigning is destroying what was there and constructing. *)
Lemma move_assign_steps a other h :
  a <> other -> is_Some (objects h !! a) -> is_Some (objects h !! other) ->
  move_assign a other h = move_construct a other (destroy a h).
Proof.
  intros Hne [oa Ha] [o Ho]. unfold move_assign, move_construct, destroy. rewrite decide_False by done.
  rewrite Ha, Ho. cbn. assert (E : objects (close_if_valid (raw oa) h) = objects h).
  { unfold close_if_valid. by destruct (valid _). }
  rewrite E, lookup_delete_ne, Ho by done. unfold set_objects. cbn. by rewrite insert_delete_eq.
Qed.

Lemma release_owned a h : owned h -> owned (release a h).2.
Proof.
  intros [H1 H2 H3 H4 H5 H6]. unfold release. destruct (objects h !! a) as [o |] eqn:Ha; [| by split]. cbn.
  set (h' := mkHeap _ _ _ _).
  assert (Ho : forall b r', owner h' b r' <-> a <> b /\ owner h b r').
  { intros b r'. rewrite (owner_insert a (mkObject null (extra o)) (objects h) h') by done. cbn.
    rewrite (owner_objects h (set_objects (objects h) h')) by done. split.
    - intros [(_ & <- & Hv) | Hx]; [by rewrite null_invalid in Hv | done].
    - intros Hx. by right. }
  assert (Hw : forall b r', owner h' b r' -> owner h b r') by (intros b r' Hb; by apply Ho in Hb as [_ Hb]).
  split; cbn; try done.
  - intros b r' Hb. by eapply H1, Hw.
  - intros b c r' Hb Hc. by eapply H2; apply Hw.
  - intros r' Hr. destruct (H3 r' Hr) as [[b Hb] | Hx].
    + destruct (decide (a = b)) as [<- | Hne]; [| left; exists b; by apply Ho]. right.
      destruct Hb as (o' & Ho' & <- & Hv). rewrite Ha in Ho'. injection Ho' as <-. rewrite Hv. set_solver.
    + right. case_match; set_solver.
  - intros b r' Hb. apply Ho in Hb as [Hne Hb]. pose proof (H4 _ _ Hb) as Hn. case_match eqn:Hv; [| done].
    intros Hx. apply elem_of_union in Hx as [Hx | Hx]; [| done]. apply elem_of_singleton in Hx as ->.
    apply Hne, (H2 _ _ (raw o)); [by exists o | done].
  - case_match eqn:Hv; [| done]. intros r' Hr. apply elem_of_union in Hr as [Hr | Hr]; [| by apply H5].
    apply elem_of_singleton in Hr as ->. apply (H1 a). by exists o.
Qed.

Lemma perform_owned op h : owned h -> allowed op h -> owned (perform op h).
Proof.
  intros Hh Ha. destruct op as [a r | r | a | a | a other | a other | a]; cbn in Ha |- *.
  - destruct Ha as (H1 & H2 & H3). by apply open_owned.
  - destruct Ha as [Hv Hr]. assert (E : close r (hand_out r h) = h); [| by rewrite E].
    destruct h as [o op rel bad]. unfold close, hand_out. cbn in *. rewrite decide_True by set_solver.
    f_equal. apply set_eq. set_solver.
  - by apply empty_object_owned.
  - by apply destroy_owned.
  - destruct Ha as [H1 _]. by apply move_construct_owned.
  - destruct Ha as [H1 H2]. destruct (decide (a = other)) as [-> | Hne].
    + unfold move_assign. by rewrite decide_True.
    + rewrite move_assign_steps by done. apply move_construct_owned; [by apply destroy_owned |].
      unfold destroy. destruct H1 as [o Ho]. rewrite Ho. cbn. apply lookup_delete_eq.
  - by apply release_owned.
Qed.

(** ** Properties *)

(** C40: handles own their resource. Whatever objects are constructed, moved,
    assigned (to themselves too), released and destroyed, in any order the
    language allows: nothing is given back that is not out, so there is no
    double close and no close of another owner's descriptor; every resource
    that is out is held by exactly one living object, unless [release] took it
    out; and when the last object is gone nothing has leaked. *)
Theorem handles_own ops h :
  executes ops empty_heap h ->
  bad_closes h = 0%nat /\
  (forall r, r ∈ opened h <-> (exists a, owner h a r) \/ r ∈ released h) /\
  (forall a b r, owner h a r -> owner h b r -> a = b) /\
  (objects h = ∅ -> opened h = released h).
Proof.
  intros Hx. assert (Hh : owned h).
  { remember empty_heap as h0 eqn:E. assert (H0 : owned h0) by (rewrite E; apply empty_owned). clear E.
    induction Hx as [h | op ops h h' Ha _ IH]; [done |]. by apply IH, perform_owned. }
  assert (Hall : forall r, r ∈ opened h <-> (exists a, owner h a r) \/ r ∈ released h).
  { intros r. split; [apply (ow_all _ Hh) |]. intros [[a Ho] | Hr]; [by apply (ow_open _ Hh a) | by apply (ow_out _ Hh)]. }
  split_and!; [apply (ow_good _ Hh) | exact Hall | apply (ow_once _ Hh) |].
  intros E. apply set_eq. intros r. rewrite Hall. split; [| by right].
  intros [(a & o & Ho & _) | Hr]; [| done]. by rewrite E, lookup_empty in Ho.
Qed.

End Handle.

#[global] Arguments Heap R B {_ _}.
#[global] Arguments Op R : clear implicits.
#[global] Arguments Object R B : clear implicits.

(** ** The classes *)

(** [Socket] of the server, and of the client with its [send_buf_]. *)
#[global] Program Instance socket_handle : Handle Z unit := {|
  valid := fun fd => bool_decide (0 <= fd); null := -1; nothing := tt |}.
Next Obligation. done. Qed.

#[global] Program Instance client_socket_handle : Handle Z bytes := {|
  valid := fun fd => bool_decide (0 <= fd); null := -1; nothing := [] |}.
Next Obligation. done. Qed.

(** [DBResult] and [DBConnection]: pointers, 0 is [nullptr]. *)
#[global] Program Instance pointer_handle : Handle N unit := {|
  valid := fun p => bool_decide (p <> 0%N); null := 0%N; nothing := tt |}.
Next Obligation. done. Qed.

(** The constructors of [Socket] throw on a negative descriptor. *)
Definition Socket_construct (a fd : Z) (h : Heap Z unit) : option (Heap Z unit) :=
  if decide (fd < 0) then None else Some (construct a fd h).
Definition Socket_destroy : Z -> Heap Z unit -> Heap Z unit := destroy.
Definition Socket_get : Z -> Heap Z unit -> Z := get.
Definition Socket_release : Z -> Heap Z unit -> Z * Heap Z unit := release.
Definition Socket_move : Z -> Z -> Heap Z unit -> Heap Z unit := move_construct.
Definition Socket_assign : Z -> Z -> Heap Z unit -> Heap Z unit := move_assign.

Definition ClientSocket_construct (a fd : Z) (h : Heap Z bytes) : option (Heap Z bytes) :=
  if decide (fd < 0) then None else Some (construct a fd h).
Definition ClientSocket_destroy : Z -> Heap Z bytes -> Heap Z bytes := destroy.
Definition ClientSocket_get : Z -> Heap Z bytes -> Z := get.
Definition ClientSocket_release : Z -> Heap Z bytes -> Z * Heap Z bytes := release.
Definition ClientSocket_move : Z -> Z -> Heap Z bytes -> Heap Z bytes := move_construct.
Definition ClientSocket_assign : Z -> Z -> Heap Z bytes -> Heap Z bytes := move_assign.

Definition DBResult_construct : Z -> N -> Heap N unit -> Heap N unit := construct.
Definition DBResult_destroy : Z -> Heap N unit -> Heap N unit := destroy.
Definition DBResult_move : Z -> Z -> Heap N unit -> Heap N unit := move_construct.
Definition DBResult_assign : Z -> Z -> Heap N unit -> Heap N unit := move_assign.
Definition DBConnection_destroy : Z -> Heap N unit -> Heap N unit := destroy.
Definition DBConnection_move : Z -> Z -> Heap N unit -> Heap N unit := move_construct.

(** ** Witness: a socket that is moved, assigned and destroyed *)

Definition socket_life : list (Op Z) :=
  [Open 1 5; MoveConstruct 2 1; Destroy 1; Open 1 6; MoveAssign 2 2; MoveAssign 2 1; Destroy 1; Destroy 2].

Lemma handles_own_witness :
  exists h : Heap Z unit, executes socket_life empty_heap h /\ objects h = ∅ /\ bad_closes h = 0%nat /\
    opened h = released h.
Proof.
  assert (Hx : exists h : Heap Z unit, executes socket_life empty_heap h /\ objects h = ∅).
  { eexists. split; [repeat (constructor; [by apply (bool_decide_unpack _); vm_compute |]); constructor |].
    by vm_compute. }
  destruct Hx as (h & Hx & Ho). exists h. destruct (handles_own socket_life h Hx) as (H1 & _ & _ & H2).
  split_and!; [exact Hx | exact Ho | exact H1 | by apply H2].
Defined.

End Ownership.
