(* ===== verification/Startup.v ===== *)
(** * Startup: construction, the main loops and the two programs

    server/src/server/Server.cpp (constructor, destructor, create_listner, run)
    with server/run_server.cpp, and client/src/Client.cpp (constructor,
    connect_server, run) with client/run_client.cpp, on top of the handlers of
    Server.v and Client.v and the owning handles of Ownership.v. What the
    system calls answer is data; an exception is a constructor of the result. *)

From S2P Require Import Prelude Codec Message Wire Decimal Session User Room Event World RoomManager.
From S2P Require Import RoomWorker Invariant RoomWorkerSafe Server System Client Ownership.

Module Startup.
Import World Invariant Server System Ownership.

(** ** epoll_wait *)

Inductive WaitOut (E : Type) := Ready (es : list E) | Interrupted | WaitError.
#[global] Arguments Ready {E} es.
#[global] Arguments Interrupted {E}.
#[global] Arguments WaitError {E}.

(** [None] is [std::runtime_error("epoll_wait failed")]. The server's [Epoll]
    takes EINTR for "no events", the client's does not. *)
Definition server_epoll_wait {E} (o : WaitOut E) : option (list E) :=
  match o with Ready es => Some es | Interrupted => Some [] | WaitError => None end.
Definition client_epoll_wait {E} (o : WaitOut E) : option (list E) :=
  match o with Ready es => Some es | Interrupted => None | WaitError => None end.

(** ** The client *)

Section ClientProgram.

(** The members that own descriptors, and the temporary of an assignment. *)
Definition sock_ : Z := 1.
Definition temporary : Z := 2.
Definition epoll_ : Z := 3.

Abbreviation ClientHeap := (Heap Z bytes).

(** [fd] is what [::socket] returned, [connected] whether [::connect]
    succeeded. [sock_ = Socket(fd)] constructs or assigns the optional. *)
Definition connect_server (fd : Z) (connected : bool) (h : ClientHeap) : bool * ClientHeap :=
  if decide (fd < 0) then (false, h) else
  let h := hand_out fd h in
  if connected then
    match ClientSocket_construct temporary fd h with
    | None => (false, h)
    | Some h =>
        let h := match objects h !! sock_ with
                 | None => ClientSocket_move sock_ temporary h
                 | Some _ => ClientSocket_assign sock_ temporary h
                 end in
        (true, ClientSocket_destroy temporary h)
    end
  else (false, close fd h).

(** [while (try_num <= 3)]: the attempts left, and the system's answers. *)
Fixpoint try_connect (tries : nat) (answers : list (Z * bool)) (h : ClientHeap) : bool * ClientHeap :=
  match tries, answers with
  | S tries', (fd, connected) :: answers' =>
      match connect_server fd connected h with
      | (true, h) => (true, h)
      | (false, h) => try_connect tries' answers' h
      end
  | _, _ => (false, h)
  end.

(** What the system answers while a client starts. *)
Record ClientSystem := mkClientSystem {
  epoll_create1 : Z;
  connects : list (Z * bool);   (* at least three *)
  add_sock : bool;
  add_stdin : bool }.

Inductive ClientStart := Threw (h : ClientHeap) | Started (h : ClientHeap).

(** [Client::Client]: the members first ([sock_] empty, [epoll_] created), then
    the attempts, then the two registrations. *)
Definition client_start (s : ClientSystem) : ClientStart :=
  let h := empty_heap in
  match ClientSocket_construct epoll_ (epoll_create1 s) (hand_out (epoll_create1 s) h) with
  | None => Threw h
  | Some h =>
      match try_connect 3 (connects s) h with
      | (false, h) => Started h
      | (true, h) => if add_sock s && add_stdin s then Started h else Threw h
      end
  end.

Definition is_connected (h : ClientHeap) : bool := bool_decide (is_Some (objects h !! sock_)).

(** The members' destructors, in reverse order; also what unwinding does to a
    client whose constructor threw. *)
Definition destroy_client (h : ClientHeap) : ClientHeap :=
  ClientSocket_destroy sock_ (ClientSocket_destroy epoll_ h).

(** [Client::run]'s loop: it returns, throws, or waits for more. *)
Inductive LoopEnd := Returned (c : Client.Client) | LoopThrew | Waiting (c : Client.Client).

Fixpoint main_loop (ws : list (WaitOut Client.Ready)) (c : Client.Client) : LoopEnd :=
  if Client.running_ c then
    match ws with
    | [] => Waiting c
    | o :: ws' =>
        match client_epoll_wait o with
        | None => LoopThrew
        | Some es => match Client.run_loop es c with
                     | None => Waiting c
                     | Some c' => main_loop ws' c'
                     end
        end
    end
  else Returned c.

(** [Client::run]; without a connection it prints an error and returns. *)
Definition client_run (has_sock : bool) (ws : list (WaitOut Client.Ready)) : LoopEnd :=
  if has_sock then main_loop ws (Client.print_prompt (Client.set_running true Client.new_client))
  else Returned Client.new_client.

(** [atoi], for numbers that fit an [int]; the cast keeps 16 bits. *)
Definition atoi (s : bytes) : Z := default 0 (Decimal.stoll s).
Definition client_port (argv : option bytes) : Z :=
  match argv with None => 8080 | Some s => wrap 16 (atoi s) end.

(** [main] of run_client.cpp: the exit code ([None]: still running) and what
    is left open. *)
Definition client_main (s : ClientSystem) (ws : list (WaitOut Client.Ready)) : option Z * ClientHeap :=
  match client_start s with
  | Threw h => (Some 1, destroy_client h)
  | Started h =>
      if is_connected h then
        match client_run (is_connected h) ws with
        | Returned _ => (Some 0, destroy_client h)
        | LoopThrew => (Some 1, destroy_client h)
        | Waiting _ => (None, h)
        end
      else (Some 1, destroy_client h)
  end.

(** ** Facts about the client *)

(** A system that hands out descriptors that are not out, all different. *)
Definition fresh_answers (s : ClientSystem) : Prop :=
  NoDup (filter (fun fd => 0 <= fd) (epoll_create1 s :: (connects s).*1)).

#[global] Instance fresh_answers_dec s : Decision (fresh_answers s).
Proof. unfold fresh_answers. apply _. Defined.

(** A client that is starting: [epoll_] owns [ep], nothing else is open. *)
Definition epoll_only (ep : Z) : ClientHeap :=
  mkHeap {[epoll_ := mkObject ep []]} {[ep]} ∅ 0.
Definition both (ep fd : Z) : ClientHeap :=
  mkHeap (<[sock_ := mkObject fd []]> {[epoll_ := mkObject ep []]}) ({[fd]} ∪ {[ep]}) ∅ 0.

Lemma epoll_constructed ep : construct epoll_ ep (hand_out ep empty_heap) = epoll_only ep.
Proof.
  unfold construct, hand_out, set_objects, epoll_only, empty_heap. cbn [objects opened released bad_closes].
  f_equal. apply set_eq. set_solver.
Qed.

Lemma connect_server_epoll ep fd connected :
  0 <= fd -> fd <> ep ->
  connect_server fd connected (epoll_only ep) =
  if connected then (true, both ep fd) else (false, epoll_only ep).
Proof.
  intros Hfd Hne. unfold connect_server. rewrite decide_False by lia. destruct connected.
  - unfold ClientSocket_construct. rewrite decide_False by lia. reflexivity.
  - unfold close, hand_out, epoll_only. cbn. f_equal. rewrite decide_True by set_solver. f_equal.
    apply set_eq. set_solver.
Qed.



(** The attempts: at most [tries], up to the first that connects. *)
Definition first_connected (tries : nat) (answers : list (Z * bool)) : option Z :=
  head (omap (fun p => if decide (0 <= p.1 /\ p.2 = true) then Some p.1 else None) (take tries answers)).

Lemma try_connect_spec tries answers ep :
  0 <= ep -> NoDup (filter (fun fd => 0 <= fd) (ep :: answers.*1)) ->
  try_connect tries answers (epoll_only ep) =
  match first_connected tries answers with Some fd => (true, both ep fd) | None => (false, epoll_only ep) end.
Proof.
  intros He. revert answers. induction tries as [| tries IH]; intros [| [fd connected] answers] Hnd; try done.
  rewrite filter_cons_True in Hnd by done. apply NoDup_cons in Hnd as [Hin Hnd]. cbn [fmap list_fmap fst] in Hin, Hnd.
  assert (Hrest : NoDup (filter (fun fd => 0 <= fd) (ep :: answers.*1)) /\ (0 <= fd -> fd <> ep)).
  { destruct (decide (0 <= fd)) as [Hf | Hf].
    - rewrite filter_cons_True in Hin, Hnd by done. apply NoDup_cons in Hnd as [_ Hnd].
      apply not_elem_of_cons in Hin as [Hne Hin]. split; [| congruence].
      rewrite filter_cons_True by done. by apply NoDup_cons.
    - rewrite filter_cons_False in Hin, Hnd by done. split; [| done].
      rewrite filter_cons_True by done. by apply NoDup_cons. }
  destruct Hrest as [Hrest Hne]. unfold first_connected. cbn [try_connect take omap list_omap fst snd].
  destruct (decide (0 <= fd)) as [Hf | Hf].
  - rewrite connect_server_epoll by auto. destruct connected.
    + by rewrite decide_True.
    + rewrite decide_False by (by intros []). by apply IH.
  - unfold connect_server. rewrite decide_True by lia. rewrite decide_False by tauto. by apply IH.
Qed.


(** An interrupted wait. EINTR from [epoll_wait] (a stopped client that is
    continued, a resized terminal) ends a connected client with exit code 1:
    its [Epoll::wait] throws on it. The server's copy of the class takes the
    same answer for "no events". *)
Theorem interrupted_wait s ws :
  fresh_answers s -> 0 <= epoll_create1 s -> is_Some (first_connected 3 (connects s)) ->
  add_sock s = true -> add_stdin s = true ->
  (exists h, client_main s (Interrupted :: ws) = (Some 1, h)) /\
  server_epoll_wait (E := Client.Ready) Interrupted = Some [].
Proof.
  intros Hf Hep [fd Hfd] Ha1 Ha2. split; [| done]. unfold client_main, client_start, ClientSocket_construct.
  rewrite decide_False by lia.
  rewrite epoll_constructed, try_connect_spec, Hfd, Ha1, Ha2 by done. cbn [andb].
  change (is_connected (both (epoll_create1 s) fd)) with true. eauto.
Qed.

(** The port. Whatever is given on the command line, the client connects
    to a 16-bit port, 8080 if nothing is given; the text of an [int] gives that
    number modulo 65536, so a port in range is used as it is. *)
Theorem port_in_range argv p :
  0 <= client_port argv < 65536 /\
  (- 2 ^ 31 <= p < 2 ^ 31 -> client_port (Some (Decimal.to_string p)) = p mod 65536) /\
  client_port None = 8080.
Proof.
  split; [| split; [| done]].
  - destruct argv as [b |]; cbn; [| lia]. apply (wrap_range 16). lia.
  - intros Hp. unfold client_port, atoi. rewrite Decimal.stoll_to_string_gen; [done |]. unfold is_i64. lia.
Qed.

End ClientProgram.

(** ** The server *)

Abbreviation ServerHeap := (Heap Z unit).

Definition listener_ : Z := 1.
Definition local_sock : Z := 2.
Definition server_epoll_ : Z := 3.

(** [Server::create_listner]: [None] is an exception; the local socket is then
    destroyed. Returning it moves it into [listener_]. *)
Definition create_listner (fd : Z) (bind_ok listen_ok : bool) (h : ServerHeap) : option ServerHeap * ServerHeap :=
  match Socket_construct local_sock fd (if decide (fd < 0) then h else hand_out fd h) with
  | None => (None, h)
  | Some h =>
      if bind_ok && listen_ok
      then let h := Socket_destroy local_sock (Socket_move listener_ local_sock h) in (Some h, h)
      else (None, Socket_destroy local_sock h)
  end.

Record ServerSystem := mkServerSystem {
  listen_fd : Z; bind_ok : bool; listen_ok : bool; epoll_fd : Z;
  add_listener : bool; event_fd : Z; add_eventfd : bool }.

(** A constructor that threw, a call of [exit(EXIT_FAILURE)], or a server. *)
Inductive ServerStart := StartThrew (h : ServerHeap) | StartExited (h : ServerHeap) | StartDone (h : ServerHeap).

Definition server_start (s : ServerSystem) : ServerStart :=
  match create_listner (listen_fd s) (bind_ok s) (listen_ok s) empty_heap with
  | (None, h) => StartThrew h
  | (Some h, _) =>
      match Socket_construct server_epoll_ (epoll_fd s)
              (if decide (epoll_fd s < 0) then h else hand_out (epoll_fd s) h) with
      | None => StartThrew (Socket_destroy listener_ h)
      | Some h =>
          let unwind h := Socket_destroy listener_ (Socket_destroy server_epoll_ h) in
          if add_listener s then
            if decide (event_fd s = -1) then StartExited h
            else let h := hand_out (event_fd s) h in
                 if add_eventfd s then StartDone h else StartThrew (unwind h)
          else StartThrew (unwind h)
      end
  end.

(** [Server::~Server] and the members' destructors. The threads are stopped
    first (WorkerLoop.v). *)
Definition destroy_server (eventfd : Z) (h : ServerHeap) : ServerHeap :=
  Socket_destroy listener_ (Socket_destroy server_epoll_ (close eventfd h)).

Section ServerProgram.
Context {Indet : Indeterminate} {Kernel : EpollKernel}.

(** What another thread does: a worker or the database thread runs a step, the
    kernel answers the coming sends on a socket. *)
Inductive OtherStep :=
  | OWorker (wid : Z)
  | ODb (status : Event.DBStatus) (data : bytes) (draws : list Z)
  | OKernel (sid : Room.Sid) (outs : list Session.SendOut).

Definition other_label (o : OtherStep) : Label :=
  match o with
  | OWorker wid => LWorker wid
  | ODb status data draws => LDb status data draws
  | OKernel sid outs => LKernel sid outs
  end.

(** An epoll event: what the other threads did before it is dispatched, its
    descriptor, what [accept4] returns if it is the listener's, what the
    [::recv] calls return if it has EPOLLIN, and the other bits. *)
Record Epolled := mkEpolled {
  ev_others : list OtherStep;
  ev_fd : Z; ev_accepted : Z; ev_in : option (list Session.RecvOut); ev_out : bool; ev_err : bool }.

(** The body of [run]'s inner loop. *)
Definition dispatch (listener eventfd : Z) (e : Epolled) : M unit :=
  if decide (ev_fd e = listener) then accept_client (ev_accepted e)
  else if decide (ev_fd e = eventfd) then handle_events
  else on_ready (ev_fd e) (ev_in e) (ev_out e) (ev_err e).

Definition turn (listener eventfd : Z) (e : Epolled) : M unit :=
  for_each (ev_others e) (fun o => exec (other_label o)) ;;; dispatch listener eventfd e.

(** [while(true)]: [epoll_wait], then the events it returned, in order. It
    serves, or [epoll_wait] throws, or a handler stops. *)
Inductive ServeEnd := Serving (w : World) | WaitThrew | HandlerStopped (f : Fault).

Fixpoint serve (listener eventfd : Z) (ws : list (WaitOut Epolled)) (w : World) : ServeEnd :=
  match ws with
  | [] => Serving w
  | o :: ws' =>
      match server_epoll_wait o with
      | None => WaitThrew
      | Some es =>
          match for_each es (turn listener eventfd) w with
          | Ok _ w' => serve listener eventfd ws' w'
          | Stop f => HandlerStopped f
          end
      end
  end.

(** The faults that are a [std::exception]; the others are undefined
    behaviour, an endless loop or an abort. *)
Definition is_exception (f : Fault) : bool :=
  match f with EpollCtlFailed | NoWorker => true | _ => false end.

(** [main] of run_server.cpp: an exception is caught and gives 1; [run] does
    not return. [n] is the number of room workers. *)
Inductive ProgramEnd := Running (w : World) | Exited (code : Z) | Undefined (f : Fault).

Definition server_main (s : ServerSystem) (n : Z) (ws : list (WaitOut Epolled)) : ProgramEnd :=
  match server_start s with
  | StartThrew _ => Exited 1
  | StartExited _ => Exited 1
  | StartDone _ =>
      match serve (listen_fd s) (event_fd s) ws (RoomManager.init_world n) with
      | Serving w => Running w
      | WaitThrew => Exited 1
      | HandlerStopped f => if is_exception f then Exited 1 else Undefined f
      end
  end.

(** ** The main loop is a run of the transition system *)

Definition label_of (listener eventfd : Z) (e : Epolled) : Label :=
  if decide (ev_fd e = listener) then LAccept (ev_accepted e)
  else if decide (ev_fd e = eventfd) then LMainEvents
  else LReady (ev_fd e) (ev_in e) (ev_out e) (ev_err e).

Definition labels_of (listener eventfd : Z) (e : Epolled) : list Label :=
  (other_label <$> ev_others e) ++ [label_of listener eventfd e].

Definition events_of (o : WaitOut Epolled) : list Epolled :=
  match o with Ready es => es | _ => [] end.

(** The labels executed while the main loop takes the answers [ws]. *)
Definition all_labels (listener eventfd : Z) (ws : list (WaitOut Epolled)) : list Label :=
  (ws ≫= events_of) ≫= labels_of listener eventfd.

(** What the loop asks of its environment: each label is possible in the world
    it is executed in. *)
Fixpoint possible (ls : list Label) (w : World) : Prop :=
  match ls with
  | [] => True
  | l :: ls' => enabled w l /\ match exec l w with Ok _ w' => possible ls' w' | Stop _ => True end
  end.

Lemma dispatch_exec listener eventfd e :
  dispatch listener eventfd e = exec (label_of listener eventfd e).
Proof. unfold dispatch, label_of. by repeat case_decide. Qed.

Lemma for_each_app {A} (l1 l2 : list A) f w :
  for_each (l1 ++ l2) f w = bind (for_each l1 f) (fun _ => for_each l2 f) w.
Proof.
  revert w. induction l1 as [| a l1 IH]; intros w; [done |]. cbn. unfold bind in *.
  destruct (f a w); [apply IH | done].
Qed.

Lemma for_each_map {A B} (g : A -> B) l f w : for_each (g <$> l) f w = for_each l (fun a => f (g a)) w.
Proof.
  revert w. induction l as [| a l IH]; intros w; [done |]. cbn. unfold bind.
  destruct (f (g a) w); [apply IH | done].
Qed.

(** A turn, and a batch of turns, execute their labels. *)
Lemma turn_exec listener eventfd e w :
  turn listener eventfd e w = for_each (labels_of listener eventfd e) exec w.
Proof.
  unfold turn, labels_of. rewrite for_each_app. unfold bind. rewrite for_each_map.
  destruct (for_each (ev_others e) _ w) as [[] w1 |]; [| done]. cbn. unfold bind. rewrite dispatch_exec.
  by destruct (exec _ w1) as [[] |].
Qed.

Lemma batch_exec listener eventfd es w :
  for_each es (turn listener eventfd) w = for_each (es ≫= labels_of listener eventfd) exec w.
Proof.
  revert w. induction es as [| e es IH]; intros w; [done |]. cbn [for_each mbind list_bind].
  rewrite for_each_app. unfold bind. rewrite turn_exec.
  destruct (for_each (labels_of _ _ e) exec w) as [[] w1 |]; [apply IH | done].
Qed.

(** What can stop a server with [n] workers: see [server_safe]. *)
Definition stops (n : Z) (f : Fault) : Prop := f = EpollCtlFailed \/ f = BadDistribution /\ n < 2.

(** Executing possible labels, from a reachable world: it ends in a reachable
    world, or is stopped. *)
Lemma executes ls1 ls2 n w :
  reachable n w -> possible (ls1 ++ ls2) w ->
  match for_each ls1 exec w with
  | Ok _ w' => System.run ls1 w = Some w' /\ reachable n w' /\ possible ls2 w'
  | Stop f => stops n f
  end.
Proof.
  revert w. induction ls1 as [| l ls1 IH]; intros w Hr Hp; [by split_and! |].
  cbn in Hp |- *. destruct Hp as [He Hp]. rewrite decide_True by done. unfold bind.
  pose proof (exec_safe l w (reachable_inv n w Hr) He) as H. unfold wp in H.
  destruct (exec l w) as [[] w1 | f] eqn:E.
  - apply IH; [| done]. eapply rtc_r; [exact Hr |]. by exists l.
  - rewrite <- (reachable_worker_num n w Hr). destruct l; cbn in H; try done; try by left.
    right. by destruct H as (-> & ? & _).
Qed.

Lemma run_app ls1 ls2 w :
  System.run (ls1 ++ ls2) w = match System.run ls1 w with Some w' => System.run ls2 w' | None => None end.
Proof.
  revert w. induction ls1 as [| l ls1 IH]; intros w; cbn; [done |].
  case_decide; [| done]. destruct (exec l w); [apply IH | done].
Qed.

(** C13: the real main loop is covered. [Server::run]'s loop, given any answers
    of [epoll_wait] (interruptions included), any events in them and any steps
    of the other threads in between that the environment can produce, is a run
    of the transition system the safety theorems are about: as long as it
    serves, its world is the one that run reaches and satisfies the invariant.
    It ends only when [epoll_wait] itself fails or [epoll_ctl] does, both as
    exceptions, or, with fewer than two workers, when the database thread draws
    from an empty distribution. So with two workers or more the program never
    ends in undefined behaviour: it is running, or it has ended with exit code 1. *)
Theorem server_run_refines s ws n :
  possible (all_labels (listen_fd s) (event_fd s) ws) (RoomManager.init_world n) ->
  match serve (listen_fd s) (event_fd s) ws (RoomManager.init_world n) with
  | Serving w =>
      System.run (all_labels (listen_fd s) (event_fd s) ws) (RoomManager.init_world n) = Some w /\
      reachable n w /\ inv w
  | WaitThrew => WaitError ∈ ws
  | HandlerStopped f => stops n f
  end /\
  match server_main s n ws with
  | Running w => inv w
  | Exited code => code = 1
  | Undefined f => f = BadDistribution /\ n < 2
  end.
Proof.
  intros Hp. match goal with |- ?A /\ _ => assert (H : A) end.
  { assert (Hr : reachable n (RoomManager.init_world n)) by apply rtc_refl.
    revert Hr Hp. generalize (RoomManager.init_world n) as w.
    induction ws as [| o ws IH]; intros w Hr Hp.
    { split_and!; [done | done |]. by apply (reachable_inv n). }
    cbn [serve]. unfold all_labels in *. cbn [mbind list_bind] in *. rewrite bind_app in Hp |- *.
    pose proof (executes _ _ n w Hr Hp) as H. rewrite <- batch_exec, run_app in *.
    destruct o as [es | |]; cbn [server_epoll_wait events_of] in *.
    - destruct (for_each es _ w) as [[] w1 |]; [| done]. destruct H as (E & Hr1 & Hp1). rewrite E.
      specialize (IH w1 Hr1 Hp1). destruct (serve _ _ ws w1); [done | by apply elem_of_cons; right | done].
    - destruct H as (E & Hr1 & Hp1). cbn in E |- *. specialize (IH w Hr Hp1).
      destruct (serve _ _ ws w); [done | by apply elem_of_cons; right | done].
    - apply elem_of_cons. by left. }
  split; [exact H |]. unfold server_main. destruct (server_start s); [done | done |].
  destruct (serve _ _ _ _) as [w | | f]; [apply H | done |].
  by destruct H as [-> | [-> Hn]].
Qed.

End ServerProgram.

(** ** What a server that starts or fails to start leaves open *)

Definition listening (l : Z) : ServerHeap := mkHeap {[listener_ := mkObject l tt]} {[l]} ∅ 0.
Definition polling (l ep : Z) : ServerHeap :=
  mkHeap (<[server_epoll_ := mkObject ep tt]> {[listener_ := mkObject l tt]}) ({[ep]} ∪ {[l]}) ∅ 0.

Definition clean (h : ServerHeap) (left : gset Z) : Prop := opened h = left /\ bad_closes h = 0%nat.

Lemma create_listner_spec fd b1 b2 :
  match create_listner fd b1 b2 empty_heap with
  | (None, h) => (fd < 0 \/ b1 && b2 = false) /\ clean h ∅
  | (Some h, _) => 0 <= fd /\ b1 && b2 = true /\ h = listening fd
  end.
Proof.
  unfold create_listner, Socket_construct. destruct (decide (fd < 0)) as [Hf | Hf].
  { split; [by left | by split]. }
  destruct (b1 && b2).
  - split; [lia |]. split; [done |].
    assert (E : Socket_destroy local_sock (Socket_move listener_ local_sock (construct local_sock fd (hand_out fd empty_heap)))
      = mkHeap {[listener_ := mkObject fd tt]} ({[fd]} ∪ ∅) ∅ 0) by reflexivity.
    rewrite E. unfold listening. f_equal. apply set_eq. set_solver.
  - split; [by right |]. unfold Socket_destroy, destroy, construct, hand_out, set_objects. cbn [objects].
    rewrite lookup_insert_eq. cbn [raw]. unfold close_if_valid. cbn [valid socket_handle].
    rewrite bool_decide_eq_true_2 by lia. split; cbn; [apply set_eq; set_solver |].
    by rewrite decide_True by set_solver.
Qed.

Lemma listening_destroyed l : 0 <= l -> clean (Socket_destroy listener_ (listening l)) ∅.
Proof.
  intros Hl. unfold Socket_destroy, destroy, listening. cbn [objects]. rewrite lookup_singleton_eq. cbn [raw].
  unfold close_if_valid. cbn [valid socket_handle]. rewrite bool_decide_eq_true_2 by lia.
  split; cbn; [apply set_eq; set_solver |]. by rewrite decide_True by set_solver.
Qed.

(** Both members destroyed, with [others] also open. *)
Lemma polling_destroyed l ep (others : gset Z) :
  0 <= l -> 0 <= ep -> l <> ep -> l ∉ others -> ep ∉ others ->
  clean (Socket_destroy listener_ (Socket_destroy server_epoll_
    (mkHeap (<[server_epoll_ := mkObject ep tt]> {[listener_ := mkObject l tt]}) (others ∪ ({[ep]} ∪ {[l]})) ∅ 0)))
    others.
Proof.
  intros Hl He Hne Hlo Heo. unfold Socket_destroy, destroy. cbn [objects]. rewrite lookup_insert_eq. cbn [raw].
  unfold close_if_valid. cbn [valid socket_handle]. rewrite (bool_decide_eq_true_2 (0 <= ep)) by lia.
  unfold close, set_objects. cbn [objects opened released bad_closes].
  rewrite delete_insert_eq, lookup_delete_ne, lookup_singleton_eq by done. cbn [raw].
  rewrite bool_decide_eq_true_2 by lia. cbn [objects opened released bad_closes].
  split; cbn [opened bad_closes]; [apply set_eq; set_solver |]. by rewrite !decide_True by set_solver.
Qed.

(** C39: starting and ending the server. With descriptors handed out as the
    system does (different, non-negative ones), every way in which the
    constructor throws leaves nothing open, with one exception: when the second
    registration fails, the eventfd, a plain [int], stays open. When [eventfd]
    itself fails, [exit(EXIT_FAILURE)] ends the process with the listening and
    the epoll descriptor still open. A server that has started holds exactly its three descriptors, and its destructor closes
    each of them once. *)
Theorem server_start_clean s :
  NoDup [listen_fd s; epoll_fd s; event_fd s] ->
  match server_start s with
  | StartThrew h =>
      clean h (if add_listener s && negb (bool_decide (event_fd s = -1)) && negb (add_eventfd s) &&
                  bind_ok s && listen_ok s && bool_decide (0 <= listen_fd s) && bool_decide (0 <= epoll_fd s)
               then {[event_fd s]} else ∅)
  | StartExited h => clean h {[listen_fd s; epoll_fd s]}
  | StartDone h => clean h {[listen_fd s; epoll_fd s; event_fd s]} /\ clean (destroy_server (event_fd s) h) ∅
  end.
Proof.
  intros Hnd. apply NoDup_cons in Hnd as [N1 Hnd]. apply NoDup_cons in Hnd as [N2 _].
  assert (Hle : listen_fd s <> epoll_fd s /\ listen_fd s <> event_fd s /\ epoll_fd s <> event_fd s) by set_solver.
  destruct Hle as (L1 & L2 & L3). unfold server_start.
  pose proof (create_listner_spec (listen_fd s) (bind_ok s) (listen_ok s)) as Hc.
  destruct (create_listner _ _ _ _) as [[h |] h0].
  2: { destruct Hc as [Hc Hcl]. case_match eqn:E; [| done].
       rewrite !andb_true_iff in E. destruct E as ((((_ & E1) & E2) & E3) & _). apply bool_decide_eq_true_1 in E3.
       destruct Hc as [Hc | Hc]; [lia |]. by rewrite E1, E2 in Hc. }
  destruct Hc as (Hl & Hb & ->). apply andb_true_iff in Hb as [Hb1 Hb2]. unfold Socket_construct.
  destruct (decide (epoll_fd s < 0)) as [He | He].
  { rewrite (bool_decide_eq_false_2 (0 <= epoll_fd s)), andb_false_r by lia. by apply listening_destroyed. }
  change (construct server_epoll_ (epoll_fd s) (hand_out (epoll_fd s) (listening (listen_fd s)))) with
    (polling (listen_fd s) (epoll_fd s)).
  assert (Hp : clean (Socket_destroy listener_ (Socket_destroy server_epoll_ (polling (listen_fd s) (epoll_fd s)))) ∅).
  { pose proof (polling_destroyed (listen_fd s) (epoll_fd s) ∅) as H. rewrite union_empty_l_L in H.
    apply H; [lia | lia | done | set_solver..]. }
  destruct (add_listener s); [| exact Hp]. destruct (decide (event_fd s = -1)) as [Hev | Hev].
  { split; [| done]. cbn. apply set_eq. set_solver. }
  rewrite (bool_decide_eq_false_2 (event_fd s = -1)), (bool_decide_eq_true_2 (0 <= listen_fd s)),
    (bool_decide_eq_true_2 (0 <= epoll_fd s)), Hb1, Hb2 by (done || lia).
  destruct (add_eventfd s).
  - split; [split; [| done]; cbn; apply set_eq; set_solver |].
    unfold destroy_server, close, hand_out, polling. cbn [objects opened released bad_closes].
    rewrite decide_True by set_solver.
    assert (E : (({[event_fd s]} ∪ ({[epoll_fd s]} ∪ {[listen_fd s]})) ∖ {[event_fd s]} : gset Z) =
                ∅ ∪ ({[epoll_fd s]} ∪ {[listen_fd s]})) by (apply set_eq; set_solver).
    rewrite E. apply polling_destroyed; [lia | lia | done | set_solver..].
  - cbn. apply polling_destroyed; [lia | lia | done | set_solver..].
Qed.

(** ** Witnesses *)

(** A system that refuses the first connection and accepts the second; a user
    who types one line and leaves. *)
Definition patient : ClientSystem := mkClientSystem 4 [(5, false); (6, true); (7, true)] true true.


Lemma interrupted_wait_witness : exists h, client_main patient [Interrupted] = (Some 1, h).
Proof.
  apply (interrupted_wait patient []);
    [by apply (bool_decide_unpack _); vm_compute | done | by eexists | done | done].
Defined.

Lemma port_in_range_witness : - 2 ^ 31 <= 73616 < 2 ^ 31 /\ client_port (Some (Decimal.to_string 73616)) = 8080.
Proof.
  assert (H : - 2 ^ 31 <= 73616 < 2 ^ 31) by lia. split; [exact H |].
  destruct (port_in_range None 73616) as (_ & Hp & _). exact (Hp H).
Defined.

Definition demo_system : ServerSystem := mkServerSystem 3 true true 4 true 7 true.

(** A connection is accepted, the wait is interrupted, the lobby's worker takes
    the session in, and the client asks for a room that does not exist. *)
Definition demo_waits : list (WaitOut Epolled) :=
  [Ready [mkEpolled [] 3 5 None false false]; Interrupted;
   Ready [mkEpolled [OWorker 1] 5 0 (Some [Session.RecvData (join_frame 7); Session.RecvAgain]) false false;
          mkEpolled [OWorker 1] 7 0 None false false]].

Section Demo.
#[local] Existing Instance zero_indeterminate.
#[local] Existing Instance simple_epoll.

Lemma demo_possible : possible (all_labels 3 7 demo_waits) (RoomManager.init_world 2).
Proof.
  unfold all_labels. cbn -[exec enabled RoomManager.init_world].
  repeat (split; [by apply (bool_decide_unpack _); vm_compute |];
    match goal with |- context [exec ?l ?w] => let o := eval vm_compute in (exec l w) in
      replace (exec l w) with o by (by vm_compute) end; cbv iota beta).
  done.
Qed.
End Demo.

Lemma server_run_refines_witness :
  match server_main demo_system 2 demo_waits with
  | Running w => inv w
  | Exited code => code = 1
  | Undefined f => f = BadDistribution /\ 2 < 2
  end.
Proof. apply (server_run_refines demo_system demo_waits 2), demo_possible. Defined.

Lemma server_start_clean_witness :
  match server_start demo_system with
  | StartDone h => clean (destroy_server (event_fd demo_system) h) ∅
  | _ => False
  end.
Proof.
  assert (Hnd : NoDup [listen_fd demo_system; epoll_fd demo_system; event_fd demo_system]) by
    (by apply (bool_decide_unpack _); vm_compute).
  exact (proj2 (server_start_clean demo_system Hnd)).
Defined.

End Startup.
