(* ===== verification/Shared.v ===== *)
(** * Shared: what the threads share, one access at a time

    World.v to System.v run a whole handler in one transition. This file goes
    one level down: the state all threads share, and the [Action]s on it that
    no other thread can interrupt. An action is one critical section of one
    mutex, one operation on an atomic, one system call, or a stretch of code
    that touches only data of the thread that runs it. Programs.v writes every
    handler as a sequence of these actions, with the steps of [Session::flush]
    taken from FlushConc.v. *)

From S2P Require Import Prelude Wire Session User Room Event World RoomManager Server FlushConc.

Module Shared.
Import Protocol World Server.

(** ** Threads *)

Inductive Tid := Main | Worker (wid : Z) | Db.

#[global] Instance tid_eq_decision : EqDecision Tid.
Proof. solve_decision. Defined.

(** ** State

    A [shared_ptr<User>] a handler holds outlives the removal of its user from
    the tables: such objects are in [removed], so a pointer is the user's id
    wherever the object is. The last two fields are auxiliary, no action reads
    them: who holds [sending_] of a session, and all that was packed. *)
Record Shared := mkShared {
  world : World;
  removed : gmap Z User.User;
  owner : gmap Room.Sid Tid;
  packed : gmap Room.Sid bytes }.

Definition set_world (w : World) (s : Shared) : Shared :=
  mkShared w (removed s) (owner s) (packed s).

Definition init_shared (n : Z) : Shared := mkShared (RoomManager.init_world n) ∅ ∅ ∅.

(** The object behind a [shared_ptr<User>]. *)
Definition user_object (s : Shared) (uid : Z) : option User.User :=
  match User.users_ (user_manager (world s)) !! uid with
  | Some u => Some u
  | None => removed s !! uid
  end.

(** What can go wrong: the faults of World.v, and two that cannot be seen there. *)
Inductive Crash :=
  | Handler (f : Fault)
  | NoUserObject          (* a pointer to a user that was destroyed *)
  | EmptySendQueue.       (* front() or pop() of an empty send queue *)

Inductive Result (A : Type) := Done (a : A) (s : Shared) | Crashed (c : Crash).
#[global] Arguments Done {A} a s.
#[global] Arguments Crashed {A} c.

(** ** Actions *)

Inductive Action :=
  (* Server and SessionManager: members of the main thread *)
  | FindSession (fd : Z) | AddSession (fd : Z) | RemoveSession (fd : Z)
  | NextUser | EpollCtl (op : EpollOp) | EpollRemove (fd : Z)
  (* Session *)
  | GetFd (sid : Room.Sid) | MarkSession (sid : Room.Sid)
  | Receive (sid : Room.Sid) (ins : list Session.RecvOut) | Buffered (sid : Room.Sid)
  | Extract (sid : Room.Sid)
  (* UserManager, and User through a pointer *)
  | AddUser (u : User.User) | RemoveUser (uid : Z) | GetUser (fd : Z) | GetUserId (fd : Z)
  | UserId (uid : Z) | UserRoom (uid : Z) | SetUserRoom (uid room_id : Z) | MarkUser (uid : Z)
  (* RoomManager *)
  | FindWorker (room_id : Z) | EraseRoute (room_id : Z) | BindRoute (room_id wid : Z)
  | WorkerNum | RoomsNum (wid : Z)
  (* RoomWorker *)
  | FindRoom (wid k : Z) | PutRoom (wid k : Z) (room : Room.Room) | EraseRoom (wid k : Z)
  | RoomIds (wid : Z) | TypeOf (wid : Z)
  (* the queues between threads *)
  | PostEvent (wid : Z) (e : Event.RoomEvent) | PopEvent (wid : Z)
  | PostJob (j : Event.DBJob) | PopJob
  | PushMain (e : Event.MainEvent) | PopMain
  (* indeterminate values *)
  | Padding (n : nat) | Junk.

(** What the thread gets back. *)
Definition result (a : Action) : Type :=
  match a with
  | FindSession _ => option Room.Sid
  | NextUser | GetFd _ | GetUserId _ | UserId _ | UserRoom _ | FindWorker _ | WorkerNum => Z
  | Receive _ _ => bool
  | Buffered _ | RoomsNum _ => nat
  | Extract _ => option Packet
  | GetUser _ => option Z
  | FindRoom _ _ => option Room.Room
  | RoomIds _ => list Z
  | TypeOf _ => WorkerType
  | PopEvent _ => option Event.RoomEvent
  | PopJob => option Event.DBJob
  | PopMain => option Event.MainEvent
  | Padding _ => bytes
  | Junk => byte
  | _ => unit
  end.

(** ** Performing an action *)

Definition read {A} (f : World -> A) (s : Shared) : Result A := Done (f (world s)) s.
Definition write (f : World -> World) (s : Shared) : Result unit :=
  Done tt (set_world (f (world s)) s).

Definition on_session {A} (sid : Room.Sid) (f : Session.Session -> A * Session.Session) (s : Shared)
    : Result A :=
  match heap (world s) !! sid with
  | None => Crashed (Handler DanglingSession)
  | Some o => let '(a, o') := f o in
              Done a (set_world (set_heap (<[sid := o']> (heap (world s))) (world s)) s)
  end.

Definition on_worker {A} (wid : Z) (f : RoomWorker -> A * RoomWorker) (s : Shared) : Result A :=
  match room_workers (world s) !! wid with
  | None => Crashed (Handler NoWorker)
  | Some r => let '(a, r') := f r in
              Done a (set_world (set_workers (<[wid := r']> (room_workers (world s))) (world s)) s)
  end.

Definition see_session {A} (sid : Room.Sid) (f : Session.Session -> A) (s : Shared) : Result A :=
  match heap (world s) !! sid with
  | None => Crashed (Handler DanglingSession)
  | Some o => Done (f o) s
  end.

Definition see_worker {A} (wid : Z) (f : RoomWorker -> A) (s : Shared) : Result A :=
  match room_workers (world s) !! wid with
  | None => Crashed (Handler NoWorker)
  | Some r => Done (f r) s
  end.

Definition see_user {A} (uid : Z) (f : User.User -> A) (s : Shared) : Result A :=
  match user_object s uid with None => Crashed NoUserObject | Some u => Done (f u) s end.

(** A mutation through a [shared_ptr<User>], wherever the object is. *)
Definition on_user (uid : Z) (f : User.User -> User.User) (s : Shared) : Result unit :=
  let um := user_manager (world s) in
  match User.users_ um !! uid, removed s !! uid with
  | Some _, _ =>
      Done tt (set_world (set_users (User.mkUserManager (alter f uid (User.users_ um))
                                       (User.fd_to_user_id_ um)) (world s)) s)
  | None, Some _ =>
      Done tt (mkShared (world s) (alter f uid (removed s)) (owner s) (packed s))
  | None, None => Crashed NoUserObject
  end.

(** [UserManager::remove_user]: the object stays for those who point to it. *)
Definition remove_user (uid : Z) (s : Shared) : Shared :=
  let um := user_manager (world s) in
  mkShared (set_users (User.remove_user uid um) (world s))
    (match User.users_ um !! uid with Some u => <[uid := u]> (removed s) | None => removed s end)
    (owner s) (packed s).

(** [SessionManager::add_session]: a new object and its table entry. *)
Definition add_session (fd : Z) (w : World) : World :=
  let sid := fresh (dom (heap w) : gset Room.Sid) in
  set_sessions (emplace fd sid (sessions w)) (set_heap (<[sid := Session.new_session fd]> (heap w)) w).

Definition find_worker (room_id : Z) (w : World) : Z := default 0 (room_to_worker w !! room_id).

Definition pop_front {A} (l : list A) : option A * list A :=
  match l with [] => (None, []) | a :: l' => (Some a, l') end.

Section Perform.
Context {Indet : Indeterminate} {Kernel : EpollKernel}.

Definition perform (a : Action) (s : Shared) : Result (result a) :=
  match a with
  | FindSession fd => read (fun w => sessions w !! fd) s
  | AddSession fd => write (add_session fd) s
  | RemoveSession fd => write (fun w => set_sessions (delete fd (sessions w)) w) s
  | NextUser =>
      let total := wrap 64 (total_users (world s) + 1) in
      Done (sgn 64 total) (set_world (set_total total (world s)) s)
  | EpollCtl op =>
      if epoll_ctl_ok (epoll_calls (world s)) op
      then write (fun w => set_epoll (op :: epoll_calls w) w) s
      else Crashed (Handler EpollCtlFailed)
  | EpollRemove fd => write (fun w => set_epoll (EpDel fd :: epoll_calls w) w) s
  | GetFd sid => see_session sid Session.get_fd s
  | MarkSession sid => on_session sid (fun o => (tt, Session.mark_disconnecting o)) s
  | Receive sid ins => on_session sid (Session.on_readable ins) s
  | Buffered sid => see_session sid (fun o => length (Session.recv_buffer_ o)) s
  | Extract sid =>
      on_session sid (fun o => let '(b, p, o') := Session.extract_packet empty_packet o in
                               (if b then Some p else None, o')) s
  | AddUser u => write (fun w => set_users (User.add_user u (user_manager w)) w) s
  | RemoveUser uid => Done tt (remove_user uid s)
  | GetUser fd =>
      read (fun w => uid ← User.fd_to_user_id_ (user_manager w) !! fd;
                     _ ← User.users_ (user_manager w) !! uid; Some uid) s
  | GetUserId fd => read (fun w => User.get_user_id fd (user_manager w)) s
  | UserId uid => see_user uid User.get_id s
  | UserRoom uid => see_user uid User.get_current_room s
  | SetUserRoom uid room_id => on_user uid (User.set_current_room room_id) s
  | MarkUser uid => on_user uid User.mark_diconnecting s
  | FindWorker room_id => read (find_worker room_id) s
  | EraseRoute room_id => write (fun w => set_room_to_worker (delete room_id (room_to_worker w)) w) s
  | BindRoute room_id wid =>
      write (fun w => set_room_to_worker (emplace room_id wid (room_to_worker w)) w) s
  | WorkerNum => read room_worker_num s
  | RoomsNum wid => see_worker wid (fun r => size (rooms_ r)) s
  | FindRoom wid k => see_worker wid (fun r => rooms_ r !! k) s
  | PutRoom wid k room => on_worker wid (fun r => (tt, set_rooms (<[k := room]> (rooms_ r)) r)) s
  | EraseRoom wid k => on_worker wid (fun r => (tt, set_rooms (delete k (rooms_ r)) r)) s
  | RoomIds wid => see_worker wid (fun r => (fun p => Room.room_id_ p.2) <$> map_to_list (rooms_ r)) s
  | TypeOf wid => see_worker wid type_ s
  | PostEvent wid e => on_worker wid (fun r => (tt, set_queue (event_queue_ r ++ [e]) r)) s
  | PopEvent wid =>
      on_worker wid (fun r => let '(e, q) := pop_front (event_queue_ r) in (e, set_queue q r)) s
  | PostJob j => write (fun w => set_jobs (job_queue w ++ [j]) w) s
  | PopJob =>
      let '(j, js) := pop_front (job_queue (world s)) in Done j (set_world (set_jobs js (world s)) s)
  | PushMain e => write (push_main e) s
  | PopMain =>
      let '(e, es) := pop_front (main_events (world s)) in
      Done e (set_world (set_main es (world s)) s)
  | Padding n => read (fun w => padding w n) s
  | Junk => read junk_command s
  end.

End Perform.

(** ** A step of [pack] or [flush] on a session, by thread [t] *)

(** Who holds [sending_] after a step that leads to [p']. *)
Definition step_owner (t : Tid) (sid : Room.Sid) (p p' : FlushConc.Pc) (m : gmap Room.Sid Tid)
    : gmap Room.Sid Tid :=
  if decide (FlushConc.owns p') then <[sid := t]> m
  else if decide (FlushConc.owns p) then delete sid m else m.

Definition all_packed (s : Shared) (sid : Room.Sid) : bytes := default [] (packed s !! sid).

Definition flush_step (t : Tid) (sid : Room.Sid) (p : FlushConc.Pc) (s : Shared)
    : Result FlushConc.Pc :=
  match heap (world s) !! sid with
  | None => Crashed (Handler DanglingSession)
  | Some o =>
      match FlushConc.tstep p o with
      | None => Crashed EmptySendQueue
      | Some (p', o') =>
          Done p' (mkShared (set_heap (<[sid := o']> (heap (world s))) (world s)) (removed s)
                     (step_owner t sid p p' (owner s))
                     (<[sid := all_packed s sid ++ FlushConc.packs p]> (packed s)))
      end
  end.

End Shared.
