(* ===== verification/Programs.v ===== *)
(** * Programs: every handler as a sequence of actions

    The handlers of RoomManager.v, RoomWorker.v and Server.v once more, this
    time as programs over the [Action]s of Shared.v, so that other threads can
    run between any two of them. The programs follow the code line by line as
    the one-step handlers do; Alone.v proves that a program nobody interrupts
    does what its handler does. *)

From S2P Require Import Prelude Codec Wire Decimal Session User Room Event World RoomManager RoomWorker.
From S2P Require Import Server FlushConc Shared.

Module Programs.
Import Protocol World Server Shared.

(** ** The language

    [Flush] is a call of [pack] and [flush] that has got to [p]; it ends with
    the result of [flush]. [Repeat body k] runs [body] until it returns
    [false]. *)
Inductive Prog (A : Type) :=
  | Ret (a : A)
  | Act (a : Action) (k : result a -> Prog A)
  | Flush (sid : Room.Sid) (p : FlushConc.Pc) (k : Session.FlushResult -> Prog A)
  | Throw (f : Fault)
  | Repeat (body : Prog bool) (k : Prog A).
#[global] Arguments Ret {A} a.
#[global] Arguments Act {A} a k.
#[global] Arguments Flush {A} sid p k.
#[global] Arguments Throw {A} f.
#[global] Arguments Repeat {A} body k.

Fixpoint andthen {A B : Type} (p : Prog A) (f : A -> Prog B) : Prog B :=
  match p with
  | Ret a => f a
  | Act a k => Act a (fun r => andthen (k r) f)
  | Flush sid pc k => Flush sid pc (fun r => andthen (k r) f)
  | Throw e => Throw e
  | Repeat body k => Repeat body (andthen k f)
  end.

Definition act (a : Action) : Prog (result a) := Act a Ret.

Declare Scope prog_scope.
Delimit Scope prog_scope with prog.
Notation "'let!' x ':=' m 'in' k" := (andthen m (fun x => k))
  (at level 200, x pattern, m at level 100, k at level 200, right associativity) : prog_scope.
Notation "m ';!' k" := (andthen m (fun _ => k))
  (at level 199, right associativity) : prog_scope.
#[local] Open Scope prog_scope.

Definition deref {A : Type} (e : Fault) (o : option A) : Prog A :=
  match o with Some a => Ret a | None => Throw e end.

Fixpoint for_each {A : Type} (l : list A) (f : A -> Prog unit) : Prog unit :=
  match l with [] => Ret tt | a :: l' => f a ;! for_each l' f end.

(** One step of a program that has not returned. *)
Inductive Next (A : Type) := More (p : Prog A) (s : Shared) | Broken (c : Crash).
#[global] Arguments More {A} p s.
#[global] Arguments Broken {A} c.

Section Step.
Context {Indet : Indeterminate} {Kernel : EpollKernel}.

Definition prog_step {A : Type} (t : Tid) (p : Prog A) (s : Shared) : option (Next A) :=
  match p with
  | Ret _ => None
  | Act a k => Some (match perform a s with Done r s' => More (k r) s' | Crashed c => Broken c end)
  | Flush sid (FlushConc.Posting _ r) k => Some (More (k r) s)
  | Flush sid pc k =>
      Some (match flush_step t sid pc s with
            | Done pc' s' => More (Flush sid pc' k) s'
            | Crashed c => Broken c
            end)
  | Throw f => Some (Broken (Handler f))
  | Repeat body k => Some (More (andthen body (fun b => if b then Repeat body k else k)) s)
  end.
End Step.

(** ** RoomManager *)

Definition session_fd (s : option Room.Sid) : Prog Z :=
  let! sid := deref NullSession s in act (GetFd sid).

Definition route_event (e : Event.RoomEvent) (target_worker_id : Z) : Prog Protocol.Result :=
  let! worker_id := if decide (target_worker_id = 0) then act (FindWorker (Event.target_room_id e))
                    else Ret target_worker_id in
  if decide (worker_id = 0) then Ret RoomNotFound
  else act (PostEvent worker_id e) ;! Ret Success.

Definition disconnect_session (fd room_id : Z) : Prog unit :=
  let! junk := act Junk in
  let e := Event.set_target room_id (Event.set_fd fd (Event.new_event junk)) in
  let e := Event.add Event.DISCONNECT_SESSION (Event.target_room_id e) e in
  route_event e 0 ;! Ret tt.

Definition bind_room_worker (room_id : Z) (draws : list Z) : Prog Z :=
  let! n := act WorkerNum in
  (if decide (n < RoomManager.LOBBY_WORKER_ID + 1) then Throw BadDistribution else Ret tt) ;!
  let! chosen := deref NoMoreDraws
    match draws with
    | [] => None
    | first :: draws' => second ← RoomManager.draw_second first n draws'; Some (first, second)
    end in
  let '(first_worker, second_worker) := chosen in
  let! n1 := act (RoomsNum first_worker) in
  let! n2 := act (RoomsNum second_worker) in
  let worker_id := if decide (n1 < n2)%nat then first_worker else second_worker in
  act (BindRoute room_id worker_id) ;! Ret worker_id.

Definition request_flush (session : Room.Sid) : Prog unit :=
  let! fd := session_fd (Some session) in
  let! user := act (GetUser fd) in
  match user with
  | None => Ret tt
  | Some uid =>
      let! room_id := act (UserRoom uid) in
      let! junk := act Junk in
      let e := Event.set_target room_id (Event.set_session (Some session) (Event.new_event junk)) in
      route_event (Event.add Event.FLUSH 0 e) 0 ;! Ret tt
  end.

Definition dispatch_packet (packet : Packet) (session : Room.Sid) : Prog unit :=
  let! r := route_event (RoomManager.plan (RoomManager.packet_event packet session)) 0 in
  if decide (r <> Success) then
    let fail := Event.set_session (Some session) (Event.new_event (rq_command (request packet))) in
    let fail := Event.set_target RoomManager.LOBBY_ROOM_ID (Event.set_result RoomNotFound fail) in
    let fail := Event.add Event.SEND_RESPONSE 0 fail in
    route_event fail RoomManager.LOBBY_WORKER_ID ;! Ret tt
  else Ret tt.

(** ** RoomWorker: sending *)

(** [Server::request_*]: lock, push, [eventfd_write]. *)
Definition request (ty : Event.MainEventType) (sid : Room.Sid) : Prog unit :=
  let! fd := act (GetFd sid) in act (PushMain (Event.mkMainEvent ty fd)).

Definition send_packet (session : option Room.Sid) (data : bytes) : Prog unit :=
  let! sid := deref NullSession session in
  let! r := Flush sid (FlushConc.Packing data) Ret in
  match r with
  | Session.Pending => request Event.EnableEpollOut sid
  | Session.Error => request Event.Disconnect sid
  | Session.Complete => Ret tt
  end.

Definition flush (session : option Room.Sid) : Prog unit :=
  let! sid := deref NullSession session in
  let! r := Flush sid (FlushConc.Cas FlushConc.ByFlush) Ret in
  match r with
  | Session.Pending => Ret tt
  | Session.Error => request Event.Disconnect sid
  | Session.Complete => request Event.DisalbeEpollOut sid
  end.

Definition send_response (e : Event.RoomEvent) : Prog unit :=
  let header := mkHeader (packet_type_byte PKT_RESPONSE) in
  let res := mkResponse (wrap 32 (size_of (Event.response_data e))) (Event.initial_command e)
               (status_byte (result_to_resresultcode (Event.result_code e))) in
  let! pad := act (Padding (npad Response)) in
  send_packet (Event.session e) (serialize_packet pad header res (Event.response_data e)).

Definition current_room (e : Event.RoomEvent) : Prog Z :=
  let! a := deref NoAction (Event.actions e !! pred (Event.current_action e)) in
  Ret (Event.action_room a).

(** ** RoomWorker: rooms *)

Definition create_room (wid : Z) (e : Event.RoomEvent) (max_session : Z) : Prog Protocol.Result :=
  let! room_id := current_room e in
  let! room := act (FindRoom wid room_id) in
  match room with
  | Some _ => Ret RoomAlreadyExists
  | None => act (PutRoom wid room_id (Room.new_room room_id max_session)) ;! Ret Success
  end.

Definition join_room_session (wid : Z) (session : option Room.Sid) (room_id : Z)
    : Prog Protocol.Result :=
  let! found := act (FindRoom wid room_id) in
  match found with
  | None => Ret RoomNotFound
  | Some room =>
      let! fd := session_fd session in
      let! sid := deref NullSession session in
      match Room.join_session fd sid room with
      | (false, _) => Ret RoomFull
      | (true, room') =>
          act (PutRoom wid room_id room') ;!
          let! user := act (GetUser fd) in
          match user with
          | None => Ret UserNotFound
          | Some uid => act (SetUserRoom uid room_id) ;! Ret Success
          end
      end
  end.

Definition join_room (wid : Z) (e : Event.RoomEvent) : Prog Protocol.Result :=
  let! room_id := current_room e in
  join_room_session wid (Event.session e) room_id.

Definition leave_room_fd (wid fd room_id : Z) : Prog Protocol.Result :=
  let! found := act (FindRoom wid room_id) in
  match found with
  | None => Ret RoomNotFound
  | Some room =>
      match Room.exit_session fd room with
      | (false, _) => Ret UserNotFound
      | (true, room') =>
          act (PutRoom wid room_id room') ;!
          let! type := act (TypeOf wid) in
          (if decide (Room.get_sessions_num room' <= 0 /\ type = WRoom) then
             act (EraseRoute (Room.room_id_ room')) ;! act (EraseRoom wid (Room.room_id_ room'))
           else Ret tt) ;!
          Ret Success
      end
  end.

Definition leave_room (wid : Z) (e : Event.RoomEvent) : Prog Protocol.Result :=
  let! fd := session_fd (Event.session e) in
  let! room_id := current_room e in
  leave_room_fd wid fd room_id.

Definition broadcast_to (e : Event.RoomEvent) (room_id : Z) (data : bytes) (s : Room.Sid) : Prog unit :=
  let! fd := session_fd (Some s) in
  let! sender_fd := session_fd (Event.session e) in
  if decide (fd = sender_fd) then Ret tt else
  let! user := act (GetUser fd) in
  match user with
  | None => Ret tt
  | Some uid =>
      let! current := act (UserRoom uid) in
      if decide (current <> room_id) then Ret tt else send_packet (Some s) data
  end.

Definition send_message (wid : Z) (e : Event.RoomEvent) : Prog Protocol.Result :=
  let! room_id := current_room e in
  let! found := act (FindRoom wid room_id) in
  match found with
  | None => Ret RoomNotFound
  | Some room =>
      let header := mkHeader (packet_type_byte PKT_BROADCAST) in
      let! sender_fd := session_fd (Event.session e) in
      let! sender_id := act (GetUserId sender_fd) in
      let broad := mkBroadcast sender_id room_id (wrap 32 (size_of (Event.request_data e)))
                     (event_byte EVT_MESSAGE) in
      let! pad := act (Padding (npad Broadcast)) in
      let data := serialize_packet pad header broad (Event.request_data e) in
      for_each (map_to_list (Room.sessions_ room)) (fun s => broadcast_to e room_id data s.2) ;!
      Ret Success
  end.

(** ** RoomWorker: the database *)

Definition save_message (wid : Z) (e : Event.RoomEvent) : Prog unit :=
  let content := Event.request_data e in
  let! room_id := current_room e in
  let! fd := session_fd (Event.session e) in
  let! sender_id := act (GetUserId fd) in
  act (PostJob (Event.mkDBJob Event.SaveMessage
    (RoomWorker.params_for_save room_id sender_id RoomWorker.tempnick content) Event.NoCallback)).

Definition request_db_create_room (e : Event.RoomEvent) : Prog unit :=
  act (PostJob (Event.mkDBJob Event.CreateRoom [] (Event.DbCreateRoomOnResult e))).

Definition request_db_load_message (e : Event.RoomEvent) : Prog unit :=
  let! room_id := current_room e in
  act (PostJob (Event.mkDBJob Event.LoadHistory
    [Decimal.to_string room_id; Decimal.to_string (RoomWorker.load_cursor (Event.request_data e))]
    (Event.DbLoadMessagesOnResult e))).

Definition db_create_room_on_result (e : Event.RoomEvent) (status : Event.DBStatus)
    (data : bytes) (draws : list Z) : Prog unit :=
  let '(taken, _) := Codec.take 8 (Codec.reader data) in
  match (if decide (status = Event.DBStError) then None else taken) with
  | None => route_event (Event.set_result DBError e) RoomManager.LOBBY_WORKER_ID ;! Ret tt
  | Some room_id_bytes =>
      let room_id := i64_dec room_id_bytes in
      let e := Event.set_result Success e in
      let e := Event.resolve_room_id room_id e in
      let e := Event.set_response data e in
      let! worker_id := bind_room_worker (Event.target_room_id e) draws in
      route_event e worker_id ;! Ret tt
  end.

Definition db_load_messages_on_result (e : Event.RoomEvent) (status : Event.DBStatus)
    (data : bytes) : Prog unit :=
  let e :=
    match status with
    | Event.DBSuccess => Event.set_response data (Event.set_result Success e)
    | Event.DBStNotFound => Event.set_result DBNotFound e
    | Event.DBStError => Event.set_result DBError e
    | Event.DBStDuplicate => Event.set_result DBDuplicate e
    end in
  let! room_id := current_room e in
  route_event (Event.set_target room_id e) 0 ;! Ret tt.

(** ** RoomWorker: disconnection and the interpreter *)

Fixpoint leave_first (wid fd : Z) (room_ids : list Z) : Prog bool :=
  match room_ids with
  | [] => Ret false
  | room_id :: room_ids' =>
      let! r := leave_room_fd wid fd room_id in
      if decide (r = Success) then Ret true else leave_first wid fd room_ids'
  end.

Definition diconnect_session (wid fd room_id : Z) : Prog bool :=
  let! r := leave_room_fd wid fd room_id in
  if decide (r = Success) then Ret true
  else let! ids := act (RoomIds wid) in leave_first wid fd ids.

Definition after_action (e : Event.RoomEvent) (command : Event.ActionCommand)
    (continue_ : Event.RoomEvent -> Prog unit) : Prog unit :=
  if decide (Event.result_code e <> Success /\ command <> Event.SEND_RESPONSE) then
    let! first := deref NoAction (Event.actions e !! 0%nat) in
    (if decide (Event.command first = Event.CREATE_ROOM)
     then act (EraseRoute (Event.target_room_id e)) else Ret tt) ;!
    send_response e
  else continue_ e.

Fixpoint process_loop (fuel : nat) (wid : Z) (e : Event.RoomEvent) : Prog unit :=
  match fuel with
  | O => Ret tt
  | S fuel' =>
      if decide (Event.current_action e < length (Event.actions e))%nat then
        if decide (Event.result_code e <> Success /\ Event.result_code e <> None_) then
          send_response e
        else
          let! action := deref NoAction (Event.actions e !! Event.current_action e) in
          let e := Event.set_current (S (Event.current_action e)) e in
          let continue_ e := process_loop fuel' wid e in
          let cmd := Event.command action in
          match cmd with
          | Event.REQUEST_DB_CREATE_ROOM => request_db_create_room e
          | Event.CREATE_ROOM =>
              let! r := create_room wid e 5 in
              after_action (Event.set_result r e) cmd continue_
          | Event.JOIN_ROOM =>
              let! r := join_room wid e in
              after_action (Event.set_result r e) cmd continue_
          | Event.LEAVE_ROOM =>
              let! r := leave_room wid e in
              after_action (Event.set_result r e) cmd continue_
          | Event.REQUEST_JOIN_ROOM | Event.REQUEST_LEAVE_ROOM =>
              route_event (Event.set_target (Event.action_room action) e) 0 ;! Ret tt
          | Event.SEND_MESSAGE =>
              let! r := send_message wid e in
              after_action (Event.set_result r e) cmd continue_
          | Event.REQUEST_DB_LOAD_MESSAGE => request_db_load_message e
          | Event.SAVE_MESSAGE => save_message wid e ;! after_action e cmd continue_
          | Event.SEND_RESPONSE => send_response e
          | Event.FLUSH => flush (Event.session e)
          | Event.DISCONNECT_SESSION =>
              diconnect_session wid (Event.event_fd e) (Event.target_room_id e) ;! Ret tt
          end
      else Ret tt
  end.

Definition process_event (wid : Z) (e : Event.RoomEvent) : Prog unit :=
  process_loop (S (length (Event.actions e))) wid e.

(** The inner loop of [thread_main], once around. *)
Definition worker_step (wid : Z) : Prog bool :=
  let! event := act (PopEvent wid) in
  match event with
  | None => Ret false
  | Some e => process_event wid e ;! Ret true
  end.

Definition run_callback (c : Event.Callback) (status : Event.DBStatus) (data : bytes)
    (draws : list Z) : Prog unit :=
  match c with
  | Event.NoCallback => Ret tt
  | Event.DbCreateRoomOnResult e => db_create_room_on_result e status data draws
  | Event.DbLoadMessagesOnResult e => db_load_messages_on_result e status data
  end.

Definition db_step (status : Event.DBStatus) (data : bytes) (draws : list Z) : Prog unit :=
  let! job := act PopJob in
  match job with
  | None => Ret tt
  | Some j => run_callback (Event.on_result j) status data draws
  end.

(** ** Server *)

Definition accept_client (fd : Z) : Prog unit :=
  if decide (fd < 0) then Ret tt else
  act (EpollCtl (EpAdd fd)) ;!
  act (AddSession fd) ;!
  let! total := act NextUser in
  act (AddUser (User.new_user fd total temp_name)) ;!
  let! junk := act Junk in
  let! session := act (FindSession fd) in
  let e := Event.set_session session
             (Event.set_target RoomManager.LOBBY_ROOM_ID (Event.new_event junk)) in
  let e := Event.add Event.JOIN_ROOM RoomManager.LOBBY_ROOM_ID e in
  route_event e RoomManager.LOBBY_WORKER_ID ;! Ret tt.

Definition close_session (fd : Z) : Prog unit :=
  let! session := act (FindSession fd) in
  match session with
  | None => Ret tt
  | Some sid =>
      act (EpollRemove fd) ;!
      let! found := act (GetUser fd) in
      let! user := deref NullUser found in
      act (MarkUser user) ;!
      act (MarkSession sid) ;!
      let! room_id := act (UserRoom user) in
      disconnect_session fd room_id ;!
      (if decide (room_id <> RoomManager.LOBBY_ROOM_ID)
       then disconnect_session fd RoomManager.LOBBY_ROOM_ID else Ret tt) ;!
      act (RemoveSession fd) ;!
      let! id := act (UserId user) in
      act (RemoveUser id)
  end.

Fixpoint handle_packets (fuel : nat) (sid : Room.Sid) : Prog unit :=
  match fuel with
  | O => Ret tt
  | S fuel' =>
      let! packet := act (Extract sid) in
      match packet with
      | Some p => dispatch_packet p sid ;! handle_packets fuel' sid
      | None => Ret tt
      end
  end.

Definition handle_request (fd : Z) (ins : list Session.RecvOut) : Prog unit :=
  let! session := act (FindSession fd) in
  match session with
  | None => close_session fd
  | Some sid =>
      let! readable := act (Receive sid ins) in
      if (readable : bool) then let! n := act (Buffered sid) in handle_packets n sid
      else close_session fd
  end.

Definition handle_epollout (fd : Z) : Prog unit :=
  let! session := act (FindSession fd) in
  match session with
  | None => close_session fd
  | Some sid => request_flush sid
  end.

Definition handle_main_event (e : Event.MainEvent) : Prog unit :=
  match Event.me_type e with
  | Event.Disconnect => close_session (Event.me_fd e)
  | Event.EnableEpollOut => act (EpollCtl (EpMod (Event.me_fd e) true))
  | Event.DisalbeEpollOut => act (EpollCtl (EpMod (Event.me_fd e) false))
  end.

(** The loop takes events until it finds the queue empty, those included that
    other threads push while it runs. *)
Definition take_main_event : Prog bool :=
  let! event := act PopMain in
  match event with
  | None => Ret false
  | Some e => handle_main_event e ;! Ret true
  end.

Definition handle_events : Prog unit := Repeat take_main_event (Ret tt).

Definition on_ready (fd : Z) (epollin : option (list Session.RecvOut)) (epollout hangup : bool)
    : Prog unit :=
  match epollin with Some ins => handle_request fd ins | None => Ret tt end ;!
  (if epollout then handle_epollout fd else Ret tt) ;!
  (if hangup then close_session fd else Ret tt).

(** ** Which thread runs what *)

Definition thread_of (l : Label) : option Tid :=
  match l with
  | LAccept _ | LReady _ _ _ _ | LMainEvents => Some Main
  | LWorker wid => Some (Worker wid)
  | LDb _ _ _ => Some Db
  | LKernel _ _ => None
  end.

Definition program (l : Label) : Prog unit :=
  match l with
  | LAccept fd => accept_client fd
  | LReady fd epollin epollout hangup => on_ready fd epollin epollout hangup
  | LMainEvents => handle_events
  | LWorker wid => worker_step wid ;! Ret tt
  | LDb status data draws => db_step status data draws
  | LKernel _ _ => Ret tt
  end.

End Programs.
