(* ===== verification/RelyGuarantee.v ===== *)
(** * RelyGuarantee: reasoning about a program that others interrupt

    The invariant [finv] of the shared state between any two actions, what a
    thread may rely on while others run ([rely]) and what it guarantees them
    ([guar]), the weakest precondition [wpc] of a program under interference,
    and the triples in which Interleaving.v proves every handler safe.

    The invariant of the one-step model does not hold between two actions: a
    flush in progress has [sending_] set, and while the main thread opens or
    closes a connection the session table and the user table disagree. [shadow]
    takes both out of the world, so that all lemmas of Invariant.v apply to
    what is left; the flags and the tables are described separately. *)

From S2P Require Import Prelude Wire Session User Room Event World RoomManager RoomWorker.
From S2P Require Import Invariant RoomWorkerSafe Server System FlushConc Shared Programs.

Module RelyGuarantee.
Import Protocol World Invariant Server Shared Programs.

(** ** The invariant between actions *)

Definition clear (o : Session.Session) : Session.Session := FlushConc.set_sending false o.

Definition shadow (w : World) : World :=
  set_sessions ∅ (set_users User.empty_manager (set_heap (clear <$> heap w) w)).

Abbreviation sh s := (shadow (world s)).

(** A session's flag has an owner exactly when it is set, and its output is
    all that was packed; identities not yet in use have neither. *)
Definition session_ok (s : Shared) (sid : Room.Sid) : Prop :=
  match heap (world s) !! sid with
  | Some o => (Session.sending_ o = true <-> is_Some (owner s !! sid)) /\
              Session.sent_stream o = all_packed s sid
  | None => owner s !! sid = None /\ packed s !! sid = None
  end.

Record finv (s : Shared) : Prop := {
  f_shadow : inv (sh s);
  f_session : forall sid, session_ok s sid;
  f_users : User.um_wf (user_manager (world s));
  f_refs : map_Forall (sess_ref (heap (world s))) (sessions (world s));
  f_total : forall uid, is_Some (User.users_ (user_manager (world s)) !! uid) ->
              uid <= total_users (world s) }.

(** The two tables of the main thread agree: true whenever it is between two
    handlers. *)
Definition coherent (s : Shared) : Prop :=
  forall fd, is_Some (sessions (world s) !! fd) <->
             is_Some (User.fd_to_user_id_ (user_manager (world s)) !! fd).

(** ** Interference *)

Definition known (uid : Z) (s : Shared) : Prop := is_Some (user_object s uid).

(** What every step of every thread respects. *)
Definition fev (s s' : Shared) : Prop :=
  evolves (sh s) (sh s') /\ (forall uid, known uid s -> known uid s').

(** What every step of a thread other than the main one respects. *)
Definition tables (s s' : Shared) : Prop :=
  sessions (world s') = sessions (world s) /\
  User.fd_to_user_id_ (user_manager (world s')) = User.fd_to_user_id_ (user_manager (world s)) /\
  (forall uid, is_Some (User.users_ (user_manager (world s')) !! uid) <->
               is_Some (User.users_ (user_manager (world s)) !! uid)) /\
  total_users (world s') = total_users (world s).

(** The send queue of a session only grows at its end. *)
Definition grows (s s' : Shared) (sid : Room.Sid) : Prop :=
  forall o, heap (world s) !! sid = Some o ->
    exists o' l, heap (world s') !! sid = Some o' /\
      Session.send_queue_ o' = Session.send_queue_ o ++ l.

(** A step of [by_] ([None] is the kernel) leaves others what they own. *)
Definition guar (by_ : option Tid) (s s' : Shared) : Prop :=
  fev s s' /\ (by_ <> Some Main -> tables s s') /\
  (forall sid t, by_ <> Some t -> (owner s !! sid = Some t <-> owner s' !! sid = Some t)) /\
  (forall sid t, by_ <> Some t -> owner s !! sid = Some t -> grows s s' sid).

Definition rely (t : Tid) (s s' : Shared) : Prop := exists by_, by_ <> Some t /\ guar by_ s s'.

(** What holds of the state however long [t] waits, and after its own steps
    that leave the tables alone. *)
Definition later (t : Tid) (s s' : Shared) : Prop := fev s s' /\ (t = Main -> tables s s').

#[global] Instance fev_preorder : PreOrder fev.
Proof.
  split; [by intros s | intros s1 s2 s3 [H1 H2] [H3 H4]].
  split; [by etransitivity | auto].
Qed.

#[global] Instance tables_preorder : PreOrder tables.
Proof.
  split; [by intros s | intros s1 s2 s3 (H1 & H2 & H3 & H4) (G1 & G2 & G3 & G4)].
  split_and!; [congruence | congruence | intros uid; by rewrite G3 | congruence].
Qed.

#[global] Instance later_preorder t : PreOrder (later t).
Proof.
  split; [by intros s | intros s1 s2 s3 [H1 H2] [H3 H4]].
  split; [by etransitivity |]. intros Ht. etransitivity; eauto.
Qed.

Lemma rely_later t s s' : rely t s s' -> later t s s'.
Proof. intros (by_ & Hb & Hf & Ht & _). split; [done |]. intros ->. by apply Ht. Qed.

Lemma relies_later t s s' : rtc (rely t) s s' -> later t s s'.
Proof. induction 1; [done |]. etransitivity; [by apply rely_later | done]. Qed.

Definition free (t : Tid) (s : Shared) : Prop := forall sid, owner s !! sid <> Some t.

Lemma rely_owner t s s' sid : rely t s s' -> owner s !! sid = Some t <-> owner s' !! sid = Some t.
Proof. intros (by_ & Hb & _ & _ & Ho & _). by apply Ho. Qed.

Lemma relies_free t s s' : rtc (rely t) s s' -> free t s -> free t s'.
Proof.
  induction 1 as [| s1 s2 s3 Hr _ IH]; [done |]. intros Hf. apply IH. intros sid H.
  by apply (Hf sid), (rely_owner t _ _ sid Hr).
Qed.

(** ** Weakest preconditions *)

(** The main thread may be stopped by a failing [epoll_ctl]; with fewer than two
    workers the database thread may draw from an empty distribution. *)
Definition allowed (t : Tid) (s : Shared) (c : Crash) : Prop :=
  t = Main /\ c = Handler EpollCtlFailed \/
  t = Db /\ c = Handler BadDistribution /\ room_worker_num (world s) < 2.

Lemma allowed_later t s s' c : later t s s' -> allowed t s c -> allowed t s' c.
Proof.
  intros [[(_ & _ & E) _] _] [H | (H1 & H2 & H3)]; [by left | right]. split_and!; [done.. |].
  change (room_worker_num (world s') = room_worker_num (world s)) in E. by rewrite E.
Qed.

(** A flush in progress: its session exists, and [t] owns the flag, and points
    at the front of the queue, exactly where FlushConc.v says so. *)
Definition flush_ok (t : Tid) (sid : Room.Sid) (p : FlushConc.Pc) (s : Shared) : Prop :=
  p <> FlushConc.Idle /\
  (exists o, heap (world s) !! sid = Some o /\ FlushConc.pointer_ok p (Session.send_queue_ o)) /\
  (forall sid', owner s !! sid' = Some t <-> sid' = sid /\ FlushConc.owns p).

Definition stable (t : Tid) (P : Shared -> Prop) : Prop := forall s s', later t s s' -> P s -> P s'.

Section Logic.
Context {Indet : Indeterminate} {Kernel : EpollKernel}.

Fixpoint wpc (t : Tid) {A : Type} (p : Prog A) (Q : A -> Shared -> Prop) (s : Shared) : Prop :=
  match p with
  | Ret a => Q a s
  | Act a k =>
      forall s1, rtc (rely t) s s1 -> finv s1 ->
        match perform a s1 with
        | Done r s2 => finv s2 /\ guar (Some t) s1 s2 /\ wpc t (k r) Q s2
        | Crashed c => allowed t s1 c
        end
  | Flush sid pc k =>
      flush_ok t sid pc s /\
      forall r s1, later t s s1 -> finv s1 -> free t s1 -> wpc t (k r) Q s1
  | Throw f => allowed t s (Handler f)
  | Repeat body k =>
      exists I : Shared -> Prop, I s /\ (forall s1 s2, rely t s1 s2 -> I s1 -> I s2) /\
        forall s1, I s1 -> finv s1 ->
          wpc t body (fun b s2 => if b then finv s2 /\ I s2 else wpc t k Q s2) s1
  end.

Lemma wpc_mono t {A : Type} (p : Prog A) (Q1 Q2 : A -> Shared -> Prop) s :
  (forall a s', Q1 a s' -> Q2 a s') -> wpc t p Q1 s -> wpc t p Q2 s.
Proof.
  revert Q1 Q2 s. induction p as [A a | A a k IH | A sid pc k IH | A f | A body IHb k IH];
    intros Q1 Q2 s HQ; cbn.
  - apply HQ.
  - intros H s1 Hr Hs. specialize (H s1 Hr Hs). destruct (perform a s1) as [r s2 |]; [| done].
    destruct H as (H1 & H2 & H3). split_and!; [done.. |]. by eapply IH.
  - intros [H1 H2]. split; [done |]. intros r s1 Hl Hs Hf. eapply IH; [exact HQ | by apply H2].
  - done.
  - intros (I & HI & Hst & Hb). exists I. split_and!; [done.. |]. intros s1 H1 Hs.
    eapply IHb; [| by apply Hb]. intros [] s2; [done | by apply IH].
Qed.

Lemma wpc_bind t {A B : Type} (p : Prog A) (f : A -> Prog B) Q s :
  wpc t p (fun a s' => wpc t (f a) Q s') s -> wpc t (andthen p f) Q s.
Proof.
  revert s. induction p as [A a | A a k IH | A sid pc k IH | A e | A body _ k IH]; intros s; cbn.
  - done.
  - intros H s1 Hr Hs. specialize (H s1 Hr Hs). destruct (perform a s1) as [r s2 |]; [| done].
    destruct H as (H1 & H2 & H3). split_and!; [done.. |]. by apply IH.
  - intros [H1 H2]. split; [done |]. intros r s1 Hl Hs Hf. by apply IH, H2.
  - done.
  - intros (I & HI & Hst & Hb). exists I. split_and!; [done.. |]. intros s1 H1 Hs.
    eapply wpc_mono; [| by apply Hb]. intros [] s2; [done | by apply IH].
Qed.

(** *** Interference does not hurt *)

Lemma flush_ok_rely t sid p s s' : rely t s s' -> flush_ok t sid p s -> flush_ok t sid p s'.
Proof.
  intros Hr (Hp & (o & Ho & Hq) & Hown).
  assert (Hown' : forall sid', owner s' !! sid' = Some t <-> sid' = sid /\ FlushConc.owns p).
  { intros sid'. by rewrite <- Hown, (rely_owner t s s'). }
  split_and!; [done | | done]. destruct (decide (FlushConc.owns p)) as [Hp' | Hp'].
  - destruct Hr as (by_ & Hb & _ & _ & _ & Hg).
    destruct (Hg sid t Hb (proj2 (Hown sid) (conj eq_refl Hp')) o Ho) as (o' & l & Ho' & El).
    exists o'. split; [done |]. rewrite El. by apply FlushConc.pointer_ok_app.
  - destruct (rely_later _ _ _ Hr) as [[[Hh _] _] _].
    destruct (Hh sid (clear o)) as (o1 & Ho1 & _); [cbn; by rewrite lookup_fmap, Ho |].
    cbn in Ho1. rewrite lookup_fmap in Ho1. apply fmap_Some in Ho1 as (o' & Ho' & _).
    exists o'. split; [done |]. by apply FlushConc.pointer_ok_idle.
Qed.

Lemma wpc_rely t {A : Type} (p : Prog A) Q s s' :
  (forall a s1 s2, rely t s1 s2 -> Q a s1 -> Q a s2) -> rely t s s' ->
  wpc t p Q s -> wpc t p Q s'.
Proof.
  intros HQ Hr. destruct p as [a | a k | sid pc k | f | body k]; cbn.
  - by apply HQ.
  - intros H s1 Hr1. apply H. by eapply rtc_l.
  - intros [H1 H2]. split; [by eapply flush_ok_rely |].
    intros r s1 Hl. apply H2. etransitivity; [by apply rely_later | done].
  - apply allowed_later. by apply rely_later.
  - intros (I & HI & Hst & Hb). exists I. split_and!; [by eapply Hst | done..].
Qed.

(** *** A step of [flush] *)

Lemma sh_insert w sid o :
  shadow (set_heap (<[sid := o]> (heap w)) w) =
  set_heap (<[sid := clear o]> (heap (shadow w))) (shadow w).
Proof. unfold shadow. cbn. by rewrite fmap_insert. Qed.

Lemma sh_lookup w sid o : heap w !! sid = Some o -> heap (shadow w) !! sid = Some (clear o).
Proof. intros H. cbn. by rewrite lookup_fmap, H. Qed.

(** Replacing a session by one with the same descriptor. *)
Lemma sh_put w sid o o' :
  inv (shadow w) -> heap w !! sid = Some o -> Session.fd o' = Session.fd o ->
  let w' := set_heap (<[sid := o']> (heap w)) w in inv (shadow w') /\ evolves (shadow w) (shadow w').
Proof.
  intros Hw Ho Hfd. cbv zeta. rewrite sh_insert. by eapply inv_put_session; [| apply sh_lookup | |].
Qed.

Lemma refs_put w sid o o' :
  map_Forall (sess_ref (heap w)) (sessions w) -> heap w !! sid = Some o -> Session.fd o' = Session.fd o ->
  map_Forall (sess_ref (<[sid := o']> (heap w))) (sessions w).
Proof. intros H Ho Hfd k s Hk. eapply sess_ref_mono; [by eapply heap_le_insert | by apply H]. Qed.

Lemma known_world w s uid :
  User.users_ (user_manager w) = User.users_ (user_manager (world s)) ->
  known uid (set_world w s) <-> known uid s.
Proof. intros E. unfold known, user_object. cbn. by rewrite E. Qed.

Lemma tstep_frame p o p' o' :
  FlushConc.tstep p o = Some (p', o') -> (forall c r, p <> FlushConc.Posting c r) ->
  Session.fd o' = Session.fd o /\ p' <> FlushConc.Idle.
Proof.
  intros H Hp. destruct p; cbn in H; try done; unfold FlushConc.send_once in H;
    repeat case_match; simplify_eq/=; try done.
  by destruct (Hp o0 r).
Qed.

Lemma lookup_step_owner t sid p p' m sid' :
  step_owner t sid p p' m !! sid' =
  if decide (sid' = sid) then
    if decide (FlushConc.owns p') then Some t else if decide (FlushConc.owns p) then None else m !! sid
  else m !! sid'.
Proof.
  unfold step_owner. destruct (decide (sid' = sid)) as [-> | Hne]; repeat case_decide; try done.
  - apply lookup_insert_eq.
  - apply lookup_delete_eq.
  - by rewrite lookup_insert_ne.
  - by rewrite lookup_delete_ne.
Qed.

(** [sending_] and the owner change together. *)
Lemma step_owner_flag t sid p p' o o' (m : gmap Room.Sid Tid) :
  FlushConc.own_effect p p' (Session.sending_ o) (Session.sending_ o') ->
  (m !! sid = Some t <-> FlushConc.owns p) ->
  (Session.sending_ o = true <-> is_Some (m !! sid)) ->
  (Session.sending_ o' = true <-> is_Some (step_owner t sid p p' m !! sid)) /\
  (forall t', t' <> t -> m !! sid = Some t' <-> step_owner t sid p p' m !! sid = Some t').
Proof.
  intros He Hm Hs. rewrite lookup_step_owner, decide_True by done.
  destruct He as [E Ho | E E' Hn Ho | E Ho Hn]; repeat case_decide; try tauto.
  - rewrite E, Hs. split; [split; [eauto | intros _; exists t; tauto] |].
    intros t' Hne. assert (m !! sid = Some t) as -> by tauto. naive_solver.
  - rewrite E, Hs. split; [done | by intros t' _].
  - split; [by split; [eauto |] |]. intros t' Hne. split; [| congruence].
    intros Hm'. assert (is_Some (m !! sid)) as Hx%Hs by eauto. congruence.
  - rewrite E. split; [split; [done | by intros []] |]. intros t' Hne.
    assert (m !! sid = Some t) as -> by tauto. naive_solver.
Qed.

Lemma flush_step_ok t sid p s :
  finv s -> flush_ok t sid p s -> (forall c r, p <> FlushConc.Posting c r) ->
  exists p' s', flush_step t sid p s = Done p' s' /\ finv s' /\ guar (Some t) s s' /\
    later t s s' /\ flush_ok t sid p' s'.
Proof.
  intros [Hi Hs Hu Hr Ht] (Hp & (o & Ho & Hq) & Hown) Hn.
  destruct (FlushConc.tstep_defined p o Hp Hq) as [[p' o'] E].
  unfold flush_step. rewrite Ho, E. eexists _, _. split; [done |]. set (s' := mkShared _ _ _ _).
  destruct (tstep_frame _ _ _ _ E Hn) as [Hfd Hp'].
  apply FlushConc.tstep_ok in E as (Estr & Hq' & He & Hgrow); [| done].
  destruct (sh_put _ _ _ o' Hi Ho Hfd) as [Hi' Hev]. pose proof (Hs sid) as Hsid.
  unfold session_ok in Hsid. rewrite Ho in Hsid. destruct Hsid as [Hflag Hstr].
  destruct (step_owner_flag t sid p p' o o' (owner s) He) as [Hflag' Hoth];
    [rewrite Hown; naive_solver | done |].
  assert (Hfev : fev s s') by (by split).
  assert (Htab : tables s s') by done.
  assert (Hs' : forall sid', session_ok s' sid').
  { intros sid'. unfold s', session_ok, all_packed. cbn. rewrite lookup_step_owner.
    destruct (decide (sid' = sid)) as [-> | Hne].
    - rewrite !lookup_insert_eq. rewrite lookup_step_owner, decide_True in Hflag' by done.
      split; [exact Hflag' |]. cbn. by rewrite Estr, Hstr.
    - rewrite !lookup_insert_ne by done. apply Hs. }
  assert (Hfinv : finv s').
  { split; [exact Hi' | exact Hs' | by unfold s' | | by unfold s']. unfold s'. cbn. by eapply refs_put. }
  split_and!; [exact Hfinv | | by split | ].
  - split_and!; [done | done | |].
    + intros sid' t' Ht'. cbn. destruct (decide (sid' = sid)) as [-> | Hne]; [apply Hoth; congruence |].
      by rewrite lookup_step_owner, decide_False.
    + intros sid' t' Ht' Hot o1 Ho1. cbn. destruct (decide (sid' = sid)) as [-> | Hne].
      * rewrite lookup_insert_eq. rewrite Ho in Ho1. injection Ho1 as <-.
        destruct Hgrow as [Hop | [l El]]; [| by exists o', l].
        assert (owner s !! sid = Some t) by (rewrite Hown; done). congruence.
      * rewrite lookup_insert_ne by done. exists o1, []. by rewrite app_nil_r.
  - split_and!; [done | exists o'; split; [cbn; apply lookup_insert_eq | done] |].
    intros sid'. cbn. rewrite lookup_step_owner. case_decide as Hd; [subst sid' |].
    + destruct (decide (FlushConc.owns p')); [naive_solver |].
      destruct (decide (FlushConc.owns p)); [naive_solver |]. rewrite Hown. naive_solver.
    + rewrite Hown. naive_solver.
Qed.

(** *** Soundness: one step of a program *)

Lemma guar_refl by_ s : guar by_ s s.
Proof. split_and!; [done.. |]. intros sid t _ _ o Ho. exists o, []. by rewrite app_nil_r. Qed.

Lemma wpc_step t {A : Type} (p : Prog A) Q s n :
  finv s -> wpc t p Q s -> prog_step t p s = Some n ->
  match n with
  | More p' s' => finv s' /\ guar (Some t) s s' /\ wpc t p' Q s'
  | Broken c => allowed t s c
  end.
Proof.
  intros Hs Hw E. destruct p as [a | a k | sid pc k | f | body k]; cbn in Hw, E.
  - done.
  - injection E as <-. specialize (Hw s (rtc_refl _ _) Hs). by destruct (perform a s).
  - destruct Hw as [Hok Hk]. assert (Hpost : (exists c r, pc = FlushConc.Posting c r) \/
      forall c r, pc <> FlushConc.Posting c r) by (destruct pc; [right; done .. | left; eauto]).
    destruct Hpost as [(c & r & ->) | Hn].
    + injection E as <-. split_and!; [done | apply guar_refl |]. apply Hk; [done | done |].
      intros sid' Ho. apply Hok in Ho as [_ []].
    + destruct (flush_step_ok t sid pc s Hs Hok Hn) as (p' & s' & E' & Hs' & Hg & Hl & Hok').
      assert (n = More (Flush sid p' k) s') as ->.
      { destruct pc; try (rewrite E' in E; by injection E as <-). by destruct (Hn o r). }
      split_and!; [done.. |]. cbn. split; [done |]. intros r s1 Hl1. apply Hk. by etransitivity.
  - by injection E as <-.
  - injection E as <-. destruct Hw as (I & HI & Hst & Hb). split_and!; [done | apply guar_refl |].
    apply wpc_bind. eapply wpc_mono; [| by apply Hb]. intros [] s2; [| done].
    intros [Hs2 HI2]. cbn. by exists I.
Qed.

End Logic.
End RelyGuarantee.
