(* ===== verification/Actions.v ===== *)
(** * Actions: what each action needs and gives, under interference

    Triples [triple t P p R]: thread [t], holding no session's flag, may run
    [p] whenever [P] holds, every action keeps [finv] and the guarantee, and
    [R] holds of the value returned. [P] has to survive interference
    ([stable]). Each action of Shared.v gets its triple; ProgramsSafe.v
    composes them. *)

From S2P Require Import Prelude Wire Session User Room Event World RoomManager RoomWorker.
From S2P Require Import Invariant RoomWorkerSafe Server System FlushConc Shared Programs RelyGuarantee.

Module Actions.
Import Protocol World Invariant Server Shared Programs RelyGuarantee.

Section Actions.
Context {Indet : Indeterminate} {Kernel : EpollKernel}.

(** ** Triples *)

Definition triple (t : Tid) (P : Shared -> Prop) {A : Type} (p : Prog A) (R : A -> Shared -> Prop)
    : Prop :=
  forall s, finv s -> P s -> free t s ->
    wpc t p (fun a s' => finv s' /\ later t s s' /\ free t s' /\ R a s') s.

(** Returning without any further promise. *)
Definition safe (t : Tid) (P : Shared -> Prop) {A : Type} (p : Prog A) : Prop :=
  triple t P p (fun _ _ => True).

Lemma triple_ret t P {A : Type} (a : A) R : (forall s, finv s -> P s -> R a s) -> triple t P (Ret a) R.
Proof. intros H s Hs HP Hf. cbn. split_and!; [done.. | by apply H]. Qed.

Lemma safe_return t P {A : Type} (a : A) : safe t P (Ret a).
Proof. by apply triple_ret. Qed.

Lemma triple_bind t P {A B : Type} (p : Prog A) (f : A -> Prog B) R1 R2 :
  stable t P -> triple t P p R1 -> (forall a, triple t (fun s => P s /\ R1 a s) (f a) R2) ->
  triple t P (andthen p f) R2.
Proof.
  intros HP H1 H2 s Hs Hp Hf. apply wpc_bind. eapply wpc_mono; [| by apply H1].
  intros a s1 (Hs1 & Hl & Hf1 & HR). eapply wpc_mono; [| apply H2; [done | | done]].
  - intros b s2 (Hs2 & Hl2 & Hf2 & HR2). split_and!; [done | by etransitivity | done..].
  - split; [by eapply HP | done].
Qed.

Lemma safe_then t P {A B : Type} (p : Prog A) (f : A -> Prog B) R :
  stable t P -> safe t P p -> (forall a, triple t P (f a) R) -> triple t P (andthen p f) R.
Proof.
  intros HP H1 H2. eapply triple_bind; [done | exact H1 |]. intros a s Hs [Hp _]. by apply H2.
Qed.

Lemma triple_weaken t (P P' : Shared -> Prop) {A : Type} (p : Prog A) (R R' : A -> Shared -> Prop) :
  (forall s, finv s -> P s -> P' s) -> (forall a s, finv s -> R' a s -> R a s) ->
  triple t P' p R' -> triple t P p R.
Proof.
  intros HP HR H s Hs Hp Hf. eapply wpc_mono; [| by apply H; auto].
  intros a s' (? & ? & ? & ?). split_and!; auto.
Qed.

Lemma triple_pre t (P P' : Shared -> Prop) {A : Type} (p : Prog A) R :
  (forall s, finv s -> P s -> P' s) -> triple t P' p R -> triple t P p R.
Proof. intros HP. by apply triple_weaken. Qed.

Lemma triple_if t P (b : Prop) `{Decision b} {A : Type} (p1 p2 : Prog A) R :
  triple t P p1 R -> triple t P p2 R -> triple t P (if decide b then p1 else p2) R.
Proof. intros. by case_decide. Qed.

Lemma safe_each t P {A : Type} (l : list A) (f : A -> Prog unit) :
  stable t P -> (forall a, a ∈ l -> safe t P (f a)) -> safe t P (for_each l f).
Proof.
  intros HP. induction l as [| a l IH]; intros Hf; cbn; [apply safe_return |].
  apply safe_then; [done | apply Hf; constructor |]. intros _. apply IH. intros a' Ha. apply Hf. by constructor.
Qed.

(** A pointer that is not null. *)
Lemma triple_deref t P {A : Type} e (o : option A) R :
  (forall s, finv s -> P s -> exists a, o = Some a /\ R a s) -> triple t P (deref e o) R.
Proof. intros H s Hs HP Hf. destruct (H s Hs HP) as (a & -> & HR). cbn. by split_and!. Qed.

(** ** Facts that survive interference *)

Definition fact (P : World -> Prop) (s : Shared) : Prop := P (sh s).

Lemma stable_fact t P : Invariant.stable P -> stable t (fact P).
Proof. intros HP s s' [[He _] _]. by apply HP. Qed.

Lemma stable_known t uid : stable t (known uid).
Proof. intros s s' [[_ H] _]. apply H. Qed.

Lemma stable_conj t P Q : stable t P -> stable t Q -> stable t (fun s => P s /\ Q s).
Proof. intros HP HQ s s' Hl [? ?]. split; [by eapply HP | by eapply HQ]. Qed.

Lemma stable_const t (P : Prop) : stable t (fun _ => P).
Proof. by intros s s' _. Qed.

(** ** One action *)

Definition did (t : Tid) (a : Action) (s : Shared) (R : result a -> Shared -> Prop) : Prop :=
  match perform a s with
  | Done r s' => finv s' /\ guar (Some t) s s' /\ later t s s' /\ owner s' = owner s /\ R r s'
  | Crashed c => allowed t s c
  end.

Lemma triple_act t P a R :
  stable t P -> (forall s, finv s -> P s -> did t a s R) -> triple t P (act a) R.
Proof.
  intros HP Ha s Hs Hp Hf. cbn. intros s1 Hr Hs1. pose proof (relies_later _ _ _ Hr) as Hl.
  specialize (Ha s1 Hs1 (HP _ _ Hl Hp)). unfold did in Ha. destruct (perform a s1) as [r s2 |]; [| done].
  destruct Ha as (H1 & H2 & H3 & H4 & H5). split_and!; [done.. | by etransitivity | | done].
  unfold free. rewrite H4. by eapply relies_free.
Qed.

Lemma did_read t a s r (R : result a -> Shared -> Prop) :
  perform a s = Done r s -> finv s -> R r s -> did t a s R.
Proof. intros E Hs HR. unfold did. rewrite E. split_and!; [done | apply guar_refl | done..]. Qed.

(** A step that leaves the flags alone, with the queues growing at most. *)
Lemma guar_steady t s s' :
  fev s s' -> tables s s' -> owner s' = owner s -> (forall sid, grows s s' sid) -> guar (Some t) s s'.
Proof. intros H1 H2 H3 H4. split_and!; [done | done | by intros; rewrite H3 | by intros]. Qed.

(** Actions on anything but sessions and users. *)
Lemma did_world t a s r w' (R : result a -> Shared -> Prop) :
  perform a s = Done r (set_world w' s) -> finv s ->
  heap w' = heap (world s) -> user_manager w' = user_manager (world s) ->
  sessions w' = sessions (world s) -> total_users w' = total_users (world s) ->
  inv (shadow w') /\ evolves (sh s) (shadow w') -> R r (set_world w' s) -> did t a s R.
Proof.
  intros E [Hi Hs Hu Hr Ht] Eh Eu Es Et [Hi' Hev] HR. unfold did. rewrite E. set (s' := set_world w' s) in *.
  assert (Hfev : fev s s') by (split; [done | intros uid H; apply (known_world w' s uid); [by rewrite Eu | done]]).
  assert (Htab : tables s s') by (by unfold tables, s'; cbn; rewrite Eu).
  split_and!; [| apply guar_steady; try done | by split | done | done].
  - split; [exact Hi' | | unfold s'; cbn; by rewrite Eu | unfold s'; cbn; by rewrite Eh, Es |
      unfold s'; cbn; by rewrite Eu, Et].
    intros sid. specialize (Hs sid). unfold session_ok, all_packed, s' in *. cbn. by rewrite Eh.
  - intros sid o Ho. exists o, []. unfold s'. cbn. by rewrite Eh, app_nil_r.
Qed.

(** Actions on a session's receiving side. *)
Lemma did_session t a s r sid o o' (R : result a -> Shared -> Prop) :
  perform a s = Done r (set_world (set_heap (<[sid := o']> (heap (world s))) (world s)) s) ->
  finv s -> heap (world s) !! sid = Some o -> Session.fd o' = Session.fd o ->
  Session.sending_ o' = Session.sending_ o -> Session.send_queue_ o' = Session.send_queue_ o ->
  Session.sock_wire o' = Session.sock_wire o ->
  R r (set_world (set_heap (<[sid := o']> (heap (world s))) (world s)) s) -> did t a s R.
Proof.
  intros E [Hi Hs Hu Hr Ht] Ho Hfd Hsend Hq Hw HR. unfold did. rewrite E. set (s' := set_world _ s) in *.
  destruct (sh_put _ _ _ o' Hi Ho Hfd) as [Hi' Hev].
  assert (Hfev : fev s s') by (by split). assert (Htab : tables s s') by done.
  assert (Hlk : forall sid', heap (world s') !! sid' =
    if decide (sid' = sid) then Some o' else heap (world s) !! sid').
  { intros sid'. unfold s'. cbn. case_decide; [subst; apply lookup_insert_eq | by rewrite lookup_insert_ne]. }
  split_and!; [| apply guar_steady; try done | by split | done | done].
  - split; [exact Hi' | | by unfold s' | unfold s'; cbn; by eapply refs_put | by unfold s'].
    intros sid'. specialize (Hs sid'). unfold session_ok, all_packed in *. rewrite Hlk.
    case_decide; [subst sid' | exact Hs]. rewrite Ho in Hs. unfold Session.sent_stream in *.
    by rewrite Hsend, Hq, Hw.
  - intros sid' o1 Ho1. rewrite Hlk. case_decide as Hd; [subst sid'; exists o', [] | exists o1, []];
      rewrite app_nil_r; [| done]. split; [done |]. congruence.
Qed.

(** Mutations through a pointer to a user. *)
Lemma did_user t a s uid f (R : result a -> Shared -> Prop) r :
  perform a s = match on_user uid f s with Done _ s' => Done r s' | Crashed c => Crashed c end ->
  (forall u, User.fd_ (f u) = User.fd_ u /\ User.user_id_ (f u) = User.user_id_ u) ->
  finv s -> known uid s -> (forall s', R r s') -> did t a s R.
Proof.
  intros E Hf [Hi Hs Hu Hr Ht] Hk HR. unfold did. rewrite E. unfold on_user.
  assert (Hcase : is_Some (User.users_ (user_manager (world s)) !! uid) \/
    (User.users_ (user_manager (world s)) !! uid = None /\ is_Some (removed s !! uid))).
  { unfold known, user_object in Hk. destruct (_ !! uid); [left; eauto | right; by split]. }
  destruct Hcase as [[u Eu] | [Eu [u Er]]]; rewrite Eu; [| rewrite Er].
  - set (s' := set_world _ s).
    assert (Hdom : forall uid', is_Some (User.users_ (user_manager (world s')) !! uid') <->
      is_Some (User.users_ (user_manager (world s)) !! uid')) by (intros uid'; apply lookup_alter_is_Some).
    assert (Hfev : fev s s').
    { split; [done |]. intros uid' H. unfold known, user_object in *. specialize (Hdom uid').
      change (removed s') with (removed s). destruct (_ !! uid') eqn:E1 in H |- *;
      destruct (_ !! uid') eqn:E2 in Hdom, H |- *; try done; naive_solver. }
    assert (Htab : tables s s') by (split_and!; done).
    split_and!; [| apply guar_steady; try done | by split | done | done].
    + split; [exact Hi | exact Hs | by apply User.um_wf_alter | exact Hr |].
      intros uid' H. apply Hdom in H. by apply Ht.
    + intros sid o Ho. exists o, []. by rewrite app_nil_r.
  - set (s' := mkShared _ _ _ _).
    assert (Hfev : fev s s').
    { split; [done |]. intros uid' H. unfold known, user_object in *. cbn.
      destruct (_ !! uid'); [done |]. by apply lookup_alter_is_Some. }
    split_and!; [by split | apply guar_steady; try done | by split | done | done].
    intros sid o Ho. exists o, []. by rewrite app_nil_r.
Qed.

(** ** The facts the handlers use *)

Definition room_fact (wid k : Z) (room : Room.Room) (w : World) : Prop := room_ok (heap w) wid k room.
Definition job_fact (j : Event.DBJob) (w : World) : Prop := job_ok (heap w) j.
Definition ref_fact (fd : Z) (sid : Room.Sid) (w : World) : Prop := sess_ref (heap w) fd sid.
Definition num_fact (n : Z) (w : World) : Prop := room_worker_num w = n.

Lemma stable_room wid k room : Invariant.stable (room_fact wid k room).
Proof. intros w w' [He _] H. by eapply room_ok_mono. Qed.
Lemma stable_job j : Invariant.stable (job_fact j).
Proof. intros w w' [He _] H. by eapply job_ok_mono. Qed.
Lemma stable_ref fd sid : Invariant.stable (ref_fact fd sid).
Proof. intros w w' [He _] H. by eapply sess_ref_mono. Qed.
Lemma stable_num n : Invariant.stable (num_fact n).
Proof. intros w w' (_ & _ & H) Hn. unfold num_fact in *. congruence. Qed.

#[local] Hint Resolve stable_fact stable_known stable_conj stable_const stable_room stable_job
  stable_ref stable_num : chat.

Lemma stable_now t : stable t (fun _ => True).
Proof. by intros s s' _. Qed.
#[local] Hint Resolve stable_now : chat.

(** ** Every action *)

(** Reading something that is always there. *)
Lemma act_read t P a R :
  stable t P -> (forall s, finv s -> P s -> exists r, perform a s = Done r s /\ R r s) ->
  triple t P (act a) R.
Proof.
  intros HP H. apply triple_act; [done |]. intros s Hs Hp. destruct (H s Hs Hp) as (r & E & HR).
  by eapply did_read.
Qed.

Lemma act_padding t n : safe t (fun _ => True) (act (Padding n)).
Proof. apply act_read; [auto with chat |]. intros s _ _. by eexists. Qed.

Lemma act_junk t : safe t (fun _ => True) (act Junk).
Proof. apply act_read; [auto with chat |]. intros s _ _. by eexists. Qed.

Lemma real_session s sid : fact (session_fact sid) s -> exists o, heap (world s) !! sid = Some o.
Proof.
  intros [o Ho]. cbn in Ho. rewrite lookup_fmap in Ho. apply fmap_Some in Ho as (o' & Ho' & _). by exists o'.
Qed.

Lemma act_get_fd t sid :
  triple t (fact (session_fact sid)) (act (GetFd sid)) (fun fd => fact (ref_fact fd sid)).
Proof.
  apply act_read; [auto with chat |]. intros s _ [o Ho]%real_session. exists (Session.get_fd o). cbn.
  unfold see_session. rewrite Ho. split; [done |]. exists (clear o). split; [by apply sh_lookup | done].
Qed.

Lemma act_buffered t sid : safe t (fact (session_fact sid)) (act (Buffered sid)).
Proof.
  apply act_read; [auto with chat |]. intros s _ [o Ho]%real_session. eexists. cbn.
  unfold see_session. by rewrite Ho.
Qed.

(** The receiving side of a session. *)
Lemma act_on_session t sid a (f : Session.Session -> result a * Session.Session) :
  (forall s, perform a s = on_session sid f s) ->
  (forall o, let o' := (f o).2 in Session.fd o' = Session.fd o /\ Session.sending_ o' = Session.sending_ o /\
     Session.send_queue_ o' = Session.send_queue_ o /\ Session.sock_wire o' = Session.sock_wire o) ->
  safe t (fact (session_fact sid)) (act a).
Proof.
  intros E Hf. apply triple_act; [auto with chat |]. intros s Hs [o Ho]%real_session.
  destruct (Hf o) as (H1 & H2 & H3 & H4). eapply (did_session _ _ _ (f o).1 sid o (f o).2); try done.
  rewrite E. unfold on_session. rewrite Ho. by destruct (f o).
Qed.

Lemma act_mark_session t sid : safe t (fact (session_fact sid)) (act (MarkSession sid)).
Proof. by eapply (act_on_session t sid (MarkSession sid)). Qed.

Lemma on_readable_send ins o :
  let o' := (Session.on_readable ins o).2 in
  Session.fd o' = Session.fd o /\ Session.sending_ o' = Session.sending_ o /\
  Session.send_queue_ o' = Session.send_queue_ o /\ Session.sock_wire o' = Session.sock_wire o.
Proof.
  revert o. induction ins as [| i ins IH]; intros o; [done |].
  destruct i; cbn; try done; try apply IH. case_decide; [done |].
  exact (IH (Session.set_recv (Session.recv_buffer_ o ++ b) o)).
Qed.

Lemma act_receive t sid ins : safe t (fact (session_fact sid)) (act (Receive sid ins)).
Proof. eapply (act_on_session t sid (Receive sid ins)); [done | apply on_readable_send]. Qed.

Lemma act_extract t sid : safe t (fact (session_fact sid)) (act (Extract sid)).
Proof.
  eapply (act_on_session t sid (Extract sid)); [done |]. intros o. unfold Session.extract_packet.
  by repeat case_decide.
Qed.

(** Users. *)
Lemma known_user s uid :
  is_Some (User.users_ (user_manager (world s)) !! uid) -> known uid s.
Proof. intros [u E]. unfold known, user_object. rewrite E. eauto. Qed.

Lemma act_get_user t fd :
  triple t (fun _ => True) (act (GetUser fd)) (fun r s => forall uid, r = Some uid -> known uid s).
Proof.
  apply act_read; [auto with chat |]. intros s _ _. eexists. split; [done |]. intros uid E.
  apply known_user. destruct (_ !! fd) as [uid' |]; [| done]. cbn in E.
  destruct (_ !! uid') eqn:Eu; [| done]. injection E as <-. rewrite Eu. eauto.
Qed.

Lemma act_get_user_id t fd : safe t (fun _ => True) (act (GetUserId fd)).
Proof. apply act_read; [auto with chat |]. intros s _ _. by eexists. Qed.

Lemma act_see_user t uid a (f : User.User -> result a) :
  (forall s, perform a s = see_user uid f s) -> safe t (known uid) (act a).
Proof.
  intros E. apply act_read; [auto with chat |]. intros s _ [u Hu]. exists (f u). rewrite E. unfold see_user.
  by rewrite Hu.
Qed.

Lemma act_user_room t uid : safe t (known uid) (act (UserRoom uid)).
Proof. by eapply (act_see_user t uid (UserRoom uid)). Qed.

Lemma act_set_user_room t uid k : safe t (known uid) (act (SetUserRoom uid k)).
Proof.
  apply triple_act; [auto with chat |]. intros s Hs Hk.
  eapply (did_user t (SetUserRoom uid k) s uid (User.set_current_room k) _ tt); try done. cbn. by destruct (on_user _ _ _) as [[] |].
Qed.

Lemma act_mark_user t uid : safe t (known uid) (act (MarkUser uid)).
Proof.
  apply triple_act; [auto with chat |]. intros s Hs Hk.
  eapply (did_user t (MarkUser uid) s uid User.mark_diconnecting _ tt); try done. cbn. by destruct (on_user _ _ _) as [[] |].
Qed.

(** Routes. *)
Lemma act_find_worker t k :
  triple t (fun _ => True) (act (FindWorker k)) (fun wid s => wid <> 0 -> fact (worker_fact wid) s).
Proof.
  apply act_read; [auto with chat |]. intros s Hs _. eexists. split; [done |]. unfold find_worker.
  destruct (_ !! k) as [wid |] eqn:E; [| done]. intros _. apply (i_route _ (f_shadow _ Hs) k wid E).
Qed.

Lemma act_erase_route t k : safe t (fun _ => True) (act (EraseRoute k)).
Proof.
  apply triple_act; [auto with chat |]. intros s Hs _. eapply did_world; try done.
  apply (inv_erase_route (sh s)). apply (f_shadow _ Hs).
Qed.

Lemma act_bind_route t k wid :
  wid <> 0 -> safe t (fact (worker_fact wid)) (act (BindRoute k wid)).
Proof.
  intros Hne. apply triple_act; [auto with chat |]. intros s Hs Hw. eapply did_world; try done.
  by apply (inv_bind_route (sh s)); [apply (f_shadow _ Hs) | |].
Qed.

Lemma act_worker_num t : triple t (fun _ => True) (act WorkerNum) (fun n => fact (num_fact n)).
Proof. apply act_read; [auto with chat |]. intros s _ _. by eexists. Qed.

(** Workers. *)
Lemma act_see_worker t wid a (f : RoomWorker -> result a) R :
  (forall s, perform a s = see_worker wid f s) ->
  (forall s r, finv s -> room_workers (sh s) !! wid = Some r -> R (f r) s) ->
  triple t (fact (worker_fact wid)) (act a) R.
Proof.
  intros E HR. apply act_read; [auto with chat |]. intros s Hs [r Hr]. exists (f r). rewrite E.
  split; [| by apply HR]. unfold see_worker. cbn in Hr. by rewrite Hr.
Qed.

Lemma act_rooms_num t wid : safe t (fact (worker_fact wid)) (act (RoomsNum wid)).
Proof. by eapply (act_see_worker t wid (RoomsNum wid)). Qed.

Lemma act_room_ids t wid : safe t (fact (worker_fact wid)) (act (RoomIds wid)).
Proof. by eapply (act_see_worker t wid (RoomIds wid)). Qed.

Lemma act_find_room t wid k :
  triple t (fact (worker_fact wid)) (act (FindRoom wid k))
    (fun found s => forall room, found = Some room -> fact (room_fact wid k room) s).
Proof.
  eapply (act_see_worker t wid (FindRoom wid k)); [done |]. intros s r Hs Hr room E.
  destruct (i_workers _ (f_shadow _ Hs) _ _ Hr) as (_ & H & _). by apply H.
Qed.

Lemma act_type_of t wid :
  triple t (fact (worker_fact wid)) (act (TypeOf wid)) (fun ty _ => ty = worker_type wid).
Proof.
  eapply (act_see_worker t wid (TypeOf wid)); [done |]. intros s r Hs Hr.
  by destruct (i_workers _ (f_shadow _ Hs) _ _ Hr) as (H & _).
Qed.

Lemma act_on_worker t P wid a (f : RoomWorker -> result a * RoomWorker) R :
  stable t P -> (forall s, perform a s = on_worker wid f s) ->
  (forall s r, finv s -> P s -> room_workers (sh s) !! wid = Some r ->
     worker_ok (heap (sh s)) wid (f r).2 /\ forall s', later t s s' -> R (f r).1 s') ->
  triple t (fun s => fact (worker_fact wid) s /\ P s) (act a) R.
Proof.
  intros HP E Hf. apply triple_act; [auto with chat |]. intros s Hs [[r Hr] Hp].
  destruct (Hf s r Hs Hp Hr) as [Hok HR].
  pose proof (inv_put_worker (sh s) wid r (f r).2 (f_shadow _ Hs) Hr Hok) as Hinv.
  eapply (did_world t a s (f r).1
    (set_workers (<[wid := (f r).2]> (room_workers (world s))) (world s))); try done.
  - rewrite E. unfold on_worker. cbn in Hr. rewrite Hr. by destruct (f r).
  - apply HR. split; [split; [apply Hinv | done] | done].
Qed.

Lemma act_put_room t wid k room :
  safe t (fun s => fact (worker_fact wid) s /\ fact (room_fact wid k room) s) (act (PutRoom wid k room)).
Proof.
  eapply (act_on_worker t _ wid (PutRoom wid k room)); [auto with chat | done |].
  intros s r Hs Hroom Hr. split; [| done].
  destruct (i_workers _ (f_shadow _ Hs) _ _ Hr) as (H1 & H2 & H3 & H4). split_and!; [done | | | done].
  - by apply map_Forall_insert_2.
  - intros ->. apply lookup_insert_is_Some'. right. by apply H3.
Qed.

Lemma act_erase_room t wid k :
  wid <> 1 -> safe t (fact (worker_fact wid)) (act (EraseRoom wid k)).
Proof.
  intros Hne. eapply (triple_pre _ _ (fun s => fact (worker_fact wid) s /\ True)); [by split |].
  eapply (act_on_worker t _ wid (EraseRoom wid k)); [auto with chat | done |].
  intros s r Hs _ Hr. split; [| done].
  destruct (i_workers _ (f_shadow _ Hs) _ _ Hr) as (H1 & H2 & H3 & H4). split_and!; try done.
  by apply map_Forall_delete.
Qed.

(** Queues. *)
Lemma act_post_event t wid e :
  safe t (fun s => fact (worker_fact wid) s /\ fact (event_fact e) s) (act (PostEvent wid e)).
Proof.
  eapply (act_on_worker t _ wid (PostEvent wid e)); [auto with chat | done |].
  intros s r Hs He Hr. split; [| done].
  destruct (i_workers _ (f_shadow _ Hs) _ _ Hr) as (H1 & H2 & H3 & H4). split_and!; try done.
  cbn. apply Forall_app. by split; [| constructor].
Qed.

Lemma act_pop_event t wid :
  triple t (fact (worker_fact wid)) (act (PopEvent wid))
    (fun r s => forall e, r = Some e -> fact (event_fact e) s).
Proof.
  eapply (triple_pre _ _ (fun s => fact (worker_fact wid) s /\ True)); [by split |].
  eapply (act_on_worker t _ wid (PopEvent wid)); [auto with chat | done |].
  intros s r Hs _ Hr. destruct (i_workers _ (f_shadow _ Hs) _ _ Hr) as (H1 & H2 & H3 & H4).
  destruct (event_queue_ r) as [| e q] eqn:E; cbn; [by split |].
  apply Forall_cons in H4 as [He Hq]. split; [by split_and! |].
  intros s' Hl e' [= <-]. by apply (stable_fact t (event_fact e) (stable_event e) s s' Hl).
Qed.

Lemma act_post_job t j : safe t (fact (job_fact j)) (act (PostJob j)).
Proof.
  apply triple_act; [auto with chat |]. intros s Hs Hj. eapply did_world; try done.
  by apply (inv_post_job (sh s)); [apply (f_shadow _ Hs) |].
Qed.

Lemma act_pop_job t :
  triple t (fun _ => True) (act PopJob) (fun r s => forall j, r = Some j -> fact (job_fact j) s).
Proof.
  apply triple_act; [auto with chat |]. intros s Hs _. pose proof (i_jobs _ (f_shadow _ Hs)) as Hj.
  cbn in Hj. destruct (job_queue (world s)) as [| j js] eqn:E.
  - eapply (did_world t PopJob s None (set_jobs [] (world s))); try done; [cbn; by rewrite E |].
    by apply (inv_set_jobs (sh s)); [apply (f_shadow _ Hs) |].
  - apply Forall_cons in Hj as [Hj Hjs].
    eapply (did_world t PopJob s (Some j) (set_jobs js (world s))); try done; [cbn; by rewrite E | |].
    + by apply (inv_set_jobs (sh s)); [apply (f_shadow _ Hs) |].
    + by intros j' [= <-].
Qed.

Lemma act_push_main t e : safe t (fun _ => True) (act (PushMain e)).
Proof.
  apply triple_act; [auto with chat |]. intros s Hs _. eapply did_world; try done.
  apply (inv_push_main (sh s)). apply (f_shadow _ Hs).
Qed.

Lemma act_pop_main t : safe t (fun _ => True) (act PopMain).
Proof.
  apply triple_act; [auto with chat |]. intros s Hs _.
  eapply (did_world t PopMain s (pop_front (main_events (world s))).1
            (set_main (pop_front (main_events (world s))).2 (world s))); try done.
  - cbn. by destruct (main_events (world s)).
  - apply (inv_set_main (sh s)). apply (f_shadow _ Hs).
Qed.

(** epoll. *)
Lemma act_epoll_ctl op : safe Main (fun _ => True) (act (EpollCtl op)).
Proof.
  apply triple_act; [auto with chat |]. intros s Hs _.
  destruct (epoll_ctl_ok (epoll_calls (world s)) op) eqn:E; [| unfold did; cbn; rewrite E; by left].
  eapply (did_world Main (EpollCtl op) s tt (set_epoll (op :: epoll_calls (world s)) (world s))); try done.
  - cbn. by rewrite E.
  - apply (inv_set_epoll (sh s)). apply (f_shadow _ Hs).
Qed.

Lemma act_epoll_remove t fd : safe t (fun _ => True) (act (EpollRemove fd)).
Proof.
  apply triple_act; [auto with chat |]. intros s Hs _. eapply did_world; try done.
  apply (inv_set_epoll (sh s)). apply (f_shadow _ Hs).
Qed.

(** A call of [pack] and [flush], from its beginning. *)
Lemma triple_flush t P sid p {A : Type} (k : Session.FlushResult -> Prog A) R :
  stable t P -> (forall s, finv s -> P s -> fact (session_fact sid) s) ->
  p <> FlushConc.Idle -> ~ FlushConc.owns p -> (forall r, triple t P (k r) R) ->
  triple t P (Flush sid p k) R.
Proof.
  intros HP Hsid Hp Hn Hk s Hs HPs Hf. destruct (real_session s sid (Hsid s Hs HPs)) as [o Ho]. cbn. split.
  - split_and!; [done | exists o; split; [done | by apply FlushConc.pointer_ok_idle] |].
    intros sid'. split; [intros H; by apply Hf in H | by intros [_ ?]].
  - intros r s1 Hl Hs1 Hf1. eapply wpc_mono; [| apply Hk; [done | by eapply HP | done]].
    intros a s2 (? & ? & ? & ?). split_and!; [done | by etransitivity | done..].
Qed.

End Actions.

#[global] Hint Resolve stable_fact stable_known stable_conj stable_const stable_now stable_room stable_job
  stable_ref stable_num : chat.

End Actions.
