(* ===== verification/ProgramsSafe.v ===== *)
(** * ProgramsSafe: every handler is safe while others run

    The triples of the programs of Programs.v: run by its thread while all
    other threads make arbitrary steps of their own handlers, no handler
    follows a null or dangling pointer, reads past an event's actions, misses
    a worker or uses the front of an empty send queue; each of its actions
    keeps the invariant. The side conditions on events, rooms and draws are
    those of RoomWorkerSafe.v. *)

From S2P Require Import Prelude Codec Wire Decimal Session User Room Event World RoomManager RoomWorker.
From S2P Require Import Invariant RoomWorkerSafe Server System FlushConc Shared Programs RelyGuarantee Actions.

Module ProgramsSafe.
Import Protocol World Invariant Server Shared Programs RelyGuarantee Actions.

(** Binding an action whose triple is [H]. *)
Ltac bind_act H := eapply triple_bind; [auto with chat | eapply triple_pre; [| apply H] |].

Section Safe.
Context {Indet : Indeterminate} {Kernel : EpollKernel} (t : Tid).

(** ** RoomManager *)

Lemma find_worker_then e target :
  triple t (fun s => target <> 0 -> fact (worker_fact target) s)
    (if decide (target = 0) then act (FindWorker (Event.target_room_id e)) else Ret target)
    (fun wid s => wid <> 0 -> fact (worker_fact wid) s).
Proof.
  case_decide; [| by apply triple_ret]. eapply triple_pre; [| apply act_find_worker]. done.
Qed.

Lemma post_then e wid :
  safe t (fun s => fact (event_fact e) s /\ (wid <> 0 -> fact (worker_fact wid) s))
    (if decide (wid = 0) then Ret RoomNotFound else act (PostEvent wid e) ;! Ret Success)%prog.
Proof.
  case_decide; [apply safe_return |].
  apply (triple_pre _ _ (fun s => fact (worker_fact wid) s /\ fact (event_fact e) s)); [by intros s _ [? ?]; auto |].
  apply safe_then; [auto with chat | apply act_post_event | intros _; apply safe_return].
Qed.

Lemma route_event_triple e target :
  safe t (fun s => fact (event_fact e) s /\ (target <> 0 -> fact (worker_fact target) s))
    (route_event e target).
Proof.
  unfold route_event. destruct (decide (target = 0)) as [-> | Hne].
  - apply (triple_pre _ _ (fact (event_fact e))); [by intros s _ [? _] |].
    eapply triple_bind; [auto with chat | |].
    + eapply triple_pre; [| apply (find_worker_then e 0)]. by intros s _ _ [].
    + intros wid. apply post_then.
  - apply (triple_pre _ _ (fun s => fact (event_fact e) s /\ fact (worker_fact target) s)); [intros s _ [? ?]; auto |].
    eapply (triple_bind _ _ _ _ (fun wid s => wid = target)); [auto with chat | by apply triple_ret |].
    intros wid. eapply triple_pre; [| apply post_then]. intros s _ [[? ?] ->]. by split.
Qed.

Lemma route_then e target {A : Type} (a : A) :
  safe t (fun s => fact (event_fact e) s /\ (target <> 0 -> fact (worker_fact target) s))
    (route_event e target ;! Ret a)%prog.
Proof.
  intros s Hs Hp Hf. apply wpc_bind. eapply wpc_mono; [| by apply route_event_triple].
  intros _ s' (? & ? & ? & _). cbn. by split_and!.
Qed.

Lemma route_0_then e {A : Type} (a : A) : safe t (fact (event_fact e)) (route_event e 0 ;! Ret a)%prog.
Proof. eapply triple_pre; [| apply route_then]. intros s _ He. by split; [| intros []]. Qed.

(** The lobby's worker always exists. *)
Lemma lobby_worker s : finv s -> fact (worker_fact RoomManager.LOBBY_WORKER_ID) s.
Proof. intros Hs. apply (i_ids _ (f_shadow _ Hs)). unfold RoomManager.LOBBY_WORKER_ID. lia. Qed.

Lemma route_lobby_then e {A : Type} (a : A) :
  safe t (fact (event_fact e)) (route_event e RoomManager.LOBBY_WORKER_ID ;! Ret a)%prog.
Proof. eapply triple_pre; [| apply route_then]. intros s Hs He. split; [done |]. intros _. by apply lobby_worker. Qed.

Lemma disconnect_session_triple fd room_id : safe t (fun _ => True) (disconnect_session fd room_id).
Proof.
  unfold disconnect_session. bind_act act_junk; [done |]. intros junk.
  eapply triple_pre; [| apply route_0_then]. intros s _ _.
  split_and!; simpl; try lia; [by intros a [= <-] |]. split; [by repeat constructor | done].
Qed.

Lemma dispatch_packet_triple packet sid :
  safe t (fact (session_fact sid)) (dispatch_packet packet sid).
Proof.
  unfold dispatch_packet. apply safe_then; [auto with chat | |].
  - eapply triple_pre; [| apply route_event_triple]. intros s _ Hs. split; [| done].
    by apply (packet_event_ok _ _ sid).
  - intros r. apply triple_if; [| apply safe_return]. eapply triple_pre; [| apply route_lobby_then].
    intros s Hs Hsid. split_and!; simpl; try lia; [by intros a [= <-] | done].
Qed.

Lemma session_fd_triple sid :
  triple t (fact (session_fact sid)) (session_fd (Some sid)) (fun fd => fact (ref_fact fd sid)).
Proof. exact (act_get_fd t sid). Qed.

(** A pure consequence of the precondition. *)
Lemma triple_pure (P : Shared -> Prop) (phi : Prop) {A : Type} (p : Prog A) R :
  (forall s, finv s -> P s -> phi) -> (phi -> triple t P p R) -> triple t P p R.
Proof. intros H1 H2 s Hs Hp. apply H2; eauto. Qed.

Lemma request_flush_triple sid : safe t (fact (session_fact sid)) (request_flush sid).
Proof.
  unfold request_flush. eapply triple_bind; [auto with chat | apply session_fd_triple |]. intros fd.
  apply (triple_pre _ _ (fact (session_fact sid))); [by intros s _ [? _] |].
  bind_act act_get_user; [done |]. intros r. destruct r as [uid |]; [| apply safe_return].
  apply (triple_pre _ _ (fun s => fact (session_fact sid) s /\ known uid s)); [intros s _ [? H]; auto |].
  apply safe_then; [auto with chat | eapply triple_pre; [| apply act_user_room]; by intros s _ [_ ?] |].
  intros room_id. bind_act act_junk; [done |]. intros junk.
  eapply triple_pre; [| apply route_0_then]. intros s _ [[Hs _] _].
  split_and!; simpl; try lia; [by intros a [= <-] | exact Hs].
Qed.

(** ** Sending *)

Lemma request_triple ty sid : safe t (fact (session_fact sid)) (request ty sid).
Proof.
  unfold request. eapply triple_bind; [auto with chat | apply act_get_fd |]. intros fd.
  eapply triple_pre; [| apply act_push_main]. done.
Qed.

Lemma send_packet_triple sid data : safe t (fact (session_fact sid)) (send_packet (Some sid) data).
Proof.
  apply triple_flush; [auto with chat | done | done | by intros [] |].
  intros []; [apply safe_return | apply request_triple | apply request_triple].
Qed.

Lemma flush_triple sid : safe t (fact (session_fact sid)) (flush (Some sid)).
Proof.
  apply triple_flush; [auto with chat | done | done | by intros [] |].
  intros []; [apply request_triple | apply safe_return | apply request_triple].
Qed.

Lemma send_response_triple e :
  Event.session e <> None -> safe t (fact (event_fact e)) (send_response e).
Proof.
  intros Hs. unfold send_response. bind_act act_padding; [done |]. intros pad.
  destruct (Event.session e) as [sid |] eqn:E; [| done].
  eapply triple_pre; [| apply send_packet_triple]. intros s _ [He _]. by eapply RoomWorkerSafe.event_session.
Qed.

(** ** Reading the event *)

Lemma running_session e s :
  fact (running_fact e) s -> exists sid, Event.session e = Some sid /\ fact (session_fact sid) s.
Proof.
  intros (Hok & _ & Hn). destruct (Event.session e) as [sid |] eqn:E; [| done]. exists sid. split; [done |].
  by eapply RoomWorkerSafe.event_session.
Qed.

Lemma current_room_triple e : safe t (fact (running_fact e)) (current_room e).
Proof.
  unfold current_room. apply safe_then; [auto with chat | | intros; apply safe_return].
  apply triple_deref. intros s _ ((_ & Hle & _) & Hpos & _).
  destruct (Event.actions e !! _) as [a |] eqn:E; [by exists a |]. apply lookup_ge_None in E. lia.
Qed.

Lemma event_fd_triple e : safe t (fact (running_fact e)) (session_fd (Event.session e)).
Proof.
  apply (triple_pure _ (Event.session e <> None)); [by intros s _ (_ & _ & ?) |]. intros Hn.
  destruct (Event.session e) as [sid |] eqn:E; [| done].
  eapply triple_weaken; [| | apply session_fd_triple]; [| done].
  intros s _ (sid' & E' & H)%running_session. rewrite E in E'. by injection E' as <-.
Qed.

(** ** Room operations *)

Lemma create_room_triple wid e :
  safe t (fun s => fact (worker_fact wid) s /\ fact (running_fact e) s) (create_room wid e 5).
Proof.
  unfold create_room. apply safe_then; [auto with chat | eapply triple_pre; [| apply current_room_triple]; by intros s _ [_ ?] |].
  intros room_id. bind_act act_find_room; [by intros s _ [? _] |]. intros found. destruct found; [apply safe_return |].
  apply safe_then; [| | intros _; apply safe_return].
  - apply stable_conj; [auto with chat | intros s s' _ _ room; done].
  - eapply triple_pre; [| apply act_put_room]. intros s _ [[Hw _] _]. split; [done |].
    split_and!; [done | apply Room.new_room_wf; lia | by left | apply map_Forall_empty].
Qed.

Lemma join_room_session_triple wid sid room_id :
  safe t (fun s => fact (worker_fact wid) s /\ fact (session_fact sid) s)
    (join_room_session wid (Some sid) room_id).
Proof.
  unfold join_room_session. bind_act act_find_room; [by intros s _ [? _] |].
  intros found. destruct found as [room |]; [| apply safe_return].
  apply (triple_pre _ _ (fun s => (fact (worker_fact wid) s /\ fact (session_fact sid) s) /\
    fact (room_fact wid room_id room) s)); [intros s _ [? H]; auto |].
  eapply triple_bind; [auto with chat | eapply triple_pre; [| apply session_fd_triple]; by intros s _ [[_ ?] _] |].
  intros fd. cbn [deref andthen].
  destruct (Room.join_session fd sid room) as [b room'] eqn:Ej. destruct b; [| apply safe_return].
  apply safe_then; [auto with chat | |].
  - eapply triple_pre; [| apply act_put_room]. intros s Hs [[[Hw _] Hr] Hf]. split; [done |].
    by eapply RoomWorkerSafe.room_ok_join.
  - intros _. bind_act act_get_user; [done |]. intros r. destruct r as [uid |]; [| apply safe_return].
    apply (triple_pre _ _ (known uid)); [intros s _ [_ H]; auto |].
    apply safe_then; [auto with chat | apply act_set_user_room | intros _; apply safe_return].
Qed.

Lemma join_room_triple wid e :
  safe t (fun s => fact (worker_fact wid) s /\ fact (running_fact e) s) (join_room wid e).
Proof.
  unfold join_room. apply safe_then; [auto with chat | eapply triple_pre; [| apply current_room_triple]; by intros s _ [_ ?] |].
  intros room_id. apply (triple_pure _ (Event.session e <> None)); [by intros s _ (_ & _ & _ & ?) |]. intros Hn.
  destruct (Event.session e) as [sid |] eqn:E; [| done].
  eapply triple_pre; [| apply join_room_session_triple]. intros s _ [Hw (sid' & E' & H)%running_session].
  rewrite E in E'. injection E' as <-. by split.
Qed.

Lemma leave_room_fd_triple wid fd room_id : safe t (fact (worker_fact wid)) (leave_room_fd wid fd room_id).
Proof.
  unfold leave_room_fd. bind_act act_find_room; [done |]. intros found.
  destruct found as [room |]; [| apply safe_return].
  apply (triple_pre _ _ (fun s => fact (worker_fact wid) s /\ fact (room_fact wid room_id room) s));
    [intros s _ [? H]; auto |].
  destruct (Room.exit_session fd room) as [b room'] eqn:Ee. destruct b; [| apply safe_return].
  apply safe_then; [auto with chat | |].
  - eapply triple_pre; [| apply act_put_room]. intros s _ [? ?]. split; [done |].
    by eapply RoomWorkerSafe.room_ok_exit.
  - intros _. bind_act act_type_of; [by intros s _ [? _] |]. intros ty.
    apply (triple_pure _ (ty = worker_type wid)); [by intros s _ [_ ?] |]. intros ->.
    apply (triple_pre _ _ (fact (worker_fact wid))); [by intros s _ [[? _] _] |].
    apply safe_then; [auto with chat | | intros _; apply safe_return].
    case_decide as Hd; [| apply safe_return]. apply safe_then; [auto with chat | |].
    + eapply triple_pre; [| apply act_erase_route]. done.
    + intros _. apply act_erase_room. intros ->. by destruct Hd.
Qed.

Lemma leave_room_triple wid e :
  safe t (fun s => fact (worker_fact wid) s /\ fact (running_fact e) s) (leave_room wid e).
Proof.
  unfold leave_room. apply safe_then; [auto with chat | eapply triple_pre; [| apply event_fd_triple]; by intros s _ [_ ?] |].
  intros fd. apply safe_then; [auto with chat | eapply triple_pre; [| apply current_room_triple]; by intros s _ [_ ?] |].
  intros room_id. eapply triple_pre; [| apply leave_room_fd_triple]. by intros s _ [? _].
Qed.

Lemma leave_first_triple wid fd ids : safe t (fact (worker_fact wid)) (leave_first wid fd ids).
Proof.
  induction ids as [| k ids IH]; [apply safe_return |].
  apply safe_then; [auto with chat | apply leave_room_fd_triple |].
  intros r. apply triple_if; [apply safe_return | apply IH].
Qed.

Lemma diconnect_session_triple wid fd room_id :
  safe t (fact (worker_fact wid)) (diconnect_session wid fd room_id).
Proof.
  apply safe_then; [auto with chat | apply leave_room_fd_triple |]. intros res.
  apply triple_if; [apply safe_return |]. bind_act act_room_ids; [done |]. intros ids.
  eapply triple_pre; [| apply leave_first_triple]. by intros s _ [? _].
Qed.

(** ** Messages and the database *)

Lemma broadcast_to_triple e room_id data sid :
  safe t (fun s => fact (running_fact e) s /\ fact (session_fact sid) s) (broadcast_to e room_id data sid).
Proof.
  unfold broadcast_to. apply safe_then; [auto with chat | |].
  { eapply triple_weaken; [| | apply session_fd_triple]; [by intros s _ [_ ?] | done]. }
  intros fd. apply safe_then; [auto with chat | eapply triple_pre; [| apply event_fd_triple]; by intros s _ [? _] |].
  intros sender_fd. apply triple_if; [apply safe_return |].
  bind_act act_get_user; [done |]. intros r. destruct r as [uid |]; [| apply safe_return].
  apply (triple_pre _ _ (fun s => fact (session_fact sid) s /\ known uid s)); [intros s _ [[_ Hx] H]; auto |].
  bind_act act_user_room; [by intros s _ [_ ?] |]. intros current. apply triple_if; [apply safe_return |].
  eapply triple_pre; [| apply send_packet_triple]. by intros s _ [[? _] _].
Qed.

Lemma send_message_triple wid e :
  safe t (fun s => fact (worker_fact wid) s /\ fact (running_fact e) s) (send_message wid e).
Proof.
  unfold send_message. apply safe_then; [auto with chat | eapply triple_pre; [| apply current_room_triple]; by intros s _ [_ ?] |].
  intros room_id. bind_act act_find_room; [by intros s _ [? _] |]. intros found.
  destruct found as [room |]; [| apply safe_return].
  apply (triple_pre _ _ (fun s => fact (running_fact e) s /\ fact (room_fact wid room_id room) s));
    [intros s _ [[_ Hx] H]; auto |].
  apply safe_then; [auto with chat | eapply triple_pre; [| apply event_fd_triple]; by intros s _ [? _] |].
  intros sender_fd. bind_act act_get_user_id; [done |]. intros sender_id.
  bind_act act_padding; [done |]. intros pad.
  apply (triple_pre _ _ (fun s => fact (running_fact e) s /\
    Forall (fun x : Z * Room.Sid => fact (session_fact x.2) s) (map_to_list (Room.sessions_ room)))).
  { intros s _ [[[He (_ & _ & _ & Hss)] _] _]. split; [done |]. apply Forall_forall. intros [fd sid] Hin.
    apply elem_of_map_to_list in Hin. destruct (Hss _ _ Hin) as (o & Ho & _). by exists o. }
  assert (Hst : stable t (fun s => fact (running_fact e) s /\
    Forall (fun x : Z * Room.Sid => fact (session_fact x.2) s) (map_to_list (Room.sessions_ room)))).
  { apply stable_conj; [auto with chat |]. intros s s' Hl H. eapply Forall_impl; [exact H |].
    intros x. by apply (stable_fact t (session_fact x.2) (stable_session x.2)). }
  apply safe_then; [done | | intros _; apply safe_return].
  apply safe_each; [done |]. intros x Hx. eapply triple_pre; [| apply broadcast_to_triple].
  intros s _ [He Hall]. split; [done |]. rewrite Forall_forall in Hall. by apply Hall.
Qed.

Lemma save_message_triple wid e : safe t (fact (running_fact e)) (save_message wid e).
Proof.
  unfold save_message. apply safe_then; [auto with chat | apply current_room_triple |]. intros room_id.
  apply safe_then; [auto with chat | apply event_fd_triple |]. intros fd.
  bind_act act_get_user_id; [done |]. intros sender_id. eapply triple_pre; [| apply act_post_job]. done.
Qed.

Lemma request_db_create_room_triple e : safe t (fact (running_fact e)) (request_db_create_room e).
Proof.
  eapply triple_pre; [| apply act_post_job]. intros s _ He. by apply (RoomWorkerSafe.job_of_running _ _ _ _ e).
Qed.

Lemma request_db_load_message_triple e : safe t (fact (running_fact e)) (request_db_load_message e).
Proof.
  unfold request_db_load_message. apply safe_then; [auto with chat | apply current_room_triple |]. intros room_id.
  eapply triple_pre; [| apply act_post_job]. intros s _ He. by apply (RoomWorkerSafe.job_of_running _ _ _ _ e).
Qed.

(** ** The interpreter *)

Abbreviation runs wid e := (fun s => fact (worker_fact wid) s /\ fact (running_fact e) s).

Lemma running_weaken wid e {A : Type} (p : Prog A) : safe t (fact (running_fact e)) p -> safe t (runs wid e) p.
Proof. apply triple_pre. by intros s _ [_ ?]. Qed.

Lemma after_action_triple wid e cmd k :
  safe t (runs wid e) (k e) -> safe t (runs wid e) (after_action e cmd k).
Proof.
  intros Hk. unfold after_action. apply triple_if; [| done].
  apply (triple_pre _ _ (fact (running_fact e))); [by intros s _ [_ ?] |].
  eapply (triple_bind _ _ _ _ (fun a _ => Event.command a <> Event.CREATE_ROOM)); [auto with chat | |].
  - apply triple_deref. intros s _ ((_ & Hle & Hc & _) & Hpos & _).
    destruct (Event.actions e !! 0%nat) as [a |] eqn:E; [exists a; auto |]. apply lookup_ge_None in E. lia.
  - intros a. apply (triple_pure _ (Event.command a <> Event.CREATE_ROOM)); [by intros s _ [_ ?] |].
    intros Ha. rewrite decide_False by done. cbn [andthen].
    apply (triple_pure _ (Event.session e <> None)); [by intros s _ [(_ & _ & ?) _] |]. intros Hn.
    eapply triple_pre; [| by apply send_response_triple]. by intros s _ [[? _] _].
Qed.

Lemma op_then_triple wid e cmd (p : Prog Protocol.Result) k :
  safe t (runs wid e) p -> (forall e', safe t (runs wid e') (k e')) ->
  safe t (runs wid e) (let! r := p in after_action (Event.set_result r e) cmd k)%prog.
Proof.
  intros Hp Hk. apply safe_then; [auto with chat | done |]. intros r.
  eapply triple_pre; [| apply after_action_triple, Hk].
  intros s _ [? ?]. split; [done |]. by apply RoomWorkerSafe.running_set_result.
Qed.

(** One action of the event, by its command. *)
Lemma dispatch_action_triple wid e action (continue_ : Event.RoomEvent -> Prog unit) :
  (forall e', safe t (runs wid e') (continue_ e')) ->
  safe t (runs wid e)
    match Event.command action with
    | Event.REQUEST_DB_CREATE_ROOM => request_db_create_room e
    | Event.CREATE_ROOM =>
        let! r := create_room wid e 5 in after_action (Event.set_result r e) (Event.command action) continue_
    | Event.JOIN_ROOM =>
        let! r := join_room wid e in after_action (Event.set_result r e) (Event.command action) continue_
    | Event.LEAVE_ROOM =>
        let! r := leave_room wid e in after_action (Event.set_result r e) (Event.command action) continue_
    | Event.REQUEST_JOIN_ROOM | Event.REQUEST_LEAVE_ROOM =>
        route_event (Event.set_target (Event.action_room action) e) 0 ;! Ret tt
    | Event.SEND_MESSAGE =>
        let! r := send_message wid e in after_action (Event.set_result r e) (Event.command action) continue_
    | Event.REQUEST_DB_LOAD_MESSAGE => request_db_load_message e
    | Event.SAVE_MESSAGE => save_message wid e ;! after_action e (Event.command action) continue_
    | Event.SEND_RESPONSE => send_response e
    | Event.FLUSH => flush (Event.session e)
    | Event.DISCONNECT_SESSION =>
        diconnect_session wid (Event.event_fd e) (Event.target_room_id e) ;! Ret tt
    end%prog.
Proof.
  intros Hk.
  assert (Hroute : forall r, safe t (runs wid e) (route_event (Event.set_target r e) 0 ;! Ret tt)%prog).
  { intros r. eapply triple_pre; [| apply route_0_then]. by intros s _ [_ [? _]]. }
  apply (triple_pure _ (Event.session e <> None)); [by intros s _ [_ (_ & _ & ?)] |]. intros Hn.
  destruct (Event.command action).
  - apply op_then_triple; [apply create_room_triple | done].
  - apply op_then_triple; [apply join_room_triple | done].
  - apply op_then_triple; [apply leave_room_triple | done].
  - apply op_then_triple; [apply send_message_triple | done].
  - apply running_weaken, request_db_create_room_triple.
  - apply running_weaken, request_db_load_message_triple.
  - apply safe_then; [auto with chat | apply running_weaken, save_message_triple |]. intros _.
    by apply after_action_triple.
  - apply Hroute.
  - apply Hroute.
  - eapply triple_pre; [| by apply send_response_triple]. by intros s _ [_ [? _]].
  - destruct (Event.session e) as [sid |] eqn:E; [| done]. eapply triple_pre; [| apply flush_triple].
    intros s _ [_ (sid' & E' & H)%running_session]. rewrite E in E'. by injection E' as <-.
  - apply safe_then; [auto with chat | | intros _; apply safe_return].
    eapply triple_pre; [| apply diconnect_session_triple]. by intros s _ [? _].
Qed.

Lemma process_loop_triple fuel wid e :
  Event.session e <> None ->
  safe t (fun s => fact (worker_fact wid) s /\ fact (event_fact e) s) (process_loop fuel wid e).
Proof.
  revert e. induction fuel as [| fuel IH]; intros e Hs; cbn [process_loop]; [apply safe_return |].
  case_decide as Hlt; [| apply safe_return]. apply triple_if.
  { eapply triple_pre; [| by apply send_response_triple]. by intros s _ [_ ?]. }
  destruct (Event.actions e !! Event.current_action e) as [action |] eqn:Ea; [| apply lookup_ge_None in Ea; lia].
  cbn [deref andthen]. destruct (Event.session e) as [sid |] eqn:Es; [clear Hs | done].
  apply (triple_pre _ _ (runs wid (Event.set_current (S (Event.current_action e)) e))).
  { intros s _ [? ?]. split; [done |]. by eapply RoomWorkerSafe.running_fetch. }
  apply dispatch_action_triple. intros e'.
  apply (triple_pure _ (Event.session e' <> None)); [by intros s _ [_ (_ & _ & ?)] |]. intros Hn.
  eapply triple_pre; [| by apply IH]. by intros s _ [? [? _]].
Qed.

Lemma process_event_triple wid e :
  safe t (fun s => fact (worker_fact wid) s /\ fact (event_fact e) s) (process_event wid e).
Proof.
  destruct (Event.session e) as [sid |] eqn:Es; [apply process_loop_triple; by rewrite Es |].
  apply (triple_pure _ (Forall (fun a => Event.command a = Event.DISCONNECT_SESSION) (Event.actions e) /\
    Event.result_code e = None_)).
  { intros s _ [_ (_ & _ & _ & H)]. by rewrite Es in H. }
  intros [Hd Hres]. unfold process_event. cbn [process_loop].
  case_decide as Hlt; [| apply safe_return]. rewrite Hres, decide_False by naive_solver.
  destruct (Event.actions e !! Event.current_action e) as [action |] eqn:Ea; [| apply lookup_ge_None in Ea; lia].
  cbn [deref andthen]. rewrite Forall_lookup in Hd. rewrite (Hd _ _ Ea).
  apply safe_then; [auto with chat | | intros _; apply safe_return].
  eapply triple_pre; [| apply diconnect_session_triple]. by intros s _ [? _].
Qed.

Lemma worker_step_triple wid : safe t (fact (worker_fact wid)) (worker_step wid).
Proof.
  unfold worker_step. bind_act act_pop_event; [done |]. intros r. destruct r as [e |]; [| apply safe_return].
  apply (triple_pre _ _ (fun s => fact (worker_fact wid) s /\ fact (event_fact e) s)); [intros s _ [? H]; auto |].
  apply safe_then; [auto with chat | apply process_event_triple | intros _; apply safe_return].
Qed.

(** ** The callbacks *)

(** Only the database thread draws. *)
Abbreviation drawn draws :=
  (fact (fun w => RoomWorkerSafe.drawable (room_worker_num w) draws /\ (room_worker_num w < 2 -> t = Db))).

Lemma stable_drawn draws : stable t (drawn draws).
Proof. apply stable_fact. intros w w' (_ & _ & H) Hd. by rewrite H. Qed.

Lemma bind_room_worker_triple room_id draws :
  triple t (drawn draws) (bind_room_worker room_id draws) (fun wid s => fact (worker_fact wid) s).
Proof.
  unfold bind_room_worker. bind_act act_worker_num; [apply stable_drawn | done |]. intros n.
  apply (triple_pure _ (RoomWorkerSafe.drawable n draws /\ (n < 2 -> t = Db))); [by intros s _ [? <-] |].
  intros [Hok Hdb]. destruct (decide (n < 2)) as [Hlt | Hge].
  { rewrite decide_True by (unfold RoomManager.LOBBY_WORKER_ID; lia).
    intros s _ [_ E] _. cbn. right. unfold fact, num_fact in E. cbn in E. split_and!; [by apply Hdb | done | lia]. }
  destruct Hok as (Hn & Hd & Hdraws); [lia |]. destruct draws as [| first rest]; [done |]. destruct Hdraws as (Hne & Hex). rewrite Exists_exists in Hex.
  rewrite decide_False by (unfold RoomManager.LOBBY_WORKER_ID; lia). cbn [andthen].
  destruct (RoomManager.draw_second_terminates first n rest Hne Hex) as [second E].
  rewrite E. change (Some second ≫= _) with (Some (first, second)). cbn [deref andthen]. apply RoomManager.draw_second_spec in E as [Hin _].
  assert (Hnz : forall d, d ∈ first :: rest -> 2 <= d <= n) by (by apply Forall_forall).
  assert (Hworker : forall d s, d ∈ first :: rest -> finv s -> fact (num_fact n) s -> fact (worker_fact d) s).
  { intros d s Hin' Hs En. specialize (Hnz d Hin'). apply (i_ids _ (f_shadow _ Hs)).
    unfold fact, num_fact in En. lia. }
  apply (triple_pre _ _ (fact (num_fact n))); [by intros s _ [_ ?] |].
  apply safe_then; [auto with chat | eapply triple_pre; [| apply act_rooms_num] | intros n1].
  { intros s Hs En. apply (Hworker first s); [constructor | done..]. }
  apply safe_then; [auto with chat | eapply triple_pre; [| apply act_rooms_num] | intros n2].
  { intros s Hs En. apply (Hworker second s); [by constructor | done..]. }
  set (wid := if decide (n1 < n2)%nat then first else second).
  assert (Hwid : wid ∈ first :: rest) by (unfold wid; case_decide; by constructor).
  apply (triple_pre _ _ (fact (worker_fact wid))); [intros s Hs En; by apply (Hworker wid s) |].
  apply safe_then; [auto with chat | apply act_bind_route; specialize (Hnz wid Hwid); lia |].
  intros _. by apply triple_ret.
Qed.

Lemma db_create_room_triple e status data draws :
  safe t (fun s => fact (running_fact e) s /\ drawn draws s) (db_create_room_on_result e status data draws).
Proof.
  unfold db_create_room_on_result. destruct (Codec.take 8 _) as [taken rd].
  destruct (if decide _ then None else taken) as [b |].
  - set (e' := Event.set_response _ _). eapply triple_bind.
    + apply stable_conj; [auto with chat | apply stable_drawn].
    + eapply triple_pre; [| apply bind_room_worker_triple]. by intros s _ [_ ?].
    + intros wid. eapply triple_pre; [| apply route_then]. intros s _ [[He _] Hw]. split; [| done].
      by apply RoomWorkerSafe.running_set_response, RoomWorkerSafe.running_resolve, RoomWorkerSafe.running_set_result.
  - eapply triple_pre; [| apply route_lobby_then]. intros s _ [He _]. by apply RoomWorkerSafe.running_set_result.
Qed.

Lemma db_load_messages_triple e status data :
  safe t (fact (running_fact e)) (db_load_messages_on_result e status data).
Proof.
  unfold db_load_messages_on_result. set (e' := match status with Event.DBSuccess => _ | _ => _ end).
  assert (He' : forall h, running_ok h e -> running_ok h e').
  { intros h He. unfold e'. destruct status;
      by repeat first [apply RoomWorkerSafe.running_set_response | apply RoomWorkerSafe.running_set_result]. }
  apply (triple_pre _ _ (fact (running_fact e'))); [intros s _; apply He' |].
  apply safe_then; [auto with chat | apply current_room_triple |]. intros room_id.
  eapply triple_pre; [| apply route_0_then]. intros s _ He. by apply RoomWorkerSafe.running_set_target.
Qed.

Lemma db_step_triple status data draws : safe t (drawn draws) (db_step status data draws).
Proof.
  unfold db_step. bind_act act_pop_job; [apply stable_drawn | done |]. intros r.
  destruct r as [j |]; [| apply safe_return].
  apply (triple_pre _ _ (fun s => fact (job_fact j) s /\ drawn draws s)); [intros s _ [? H]; auto |].
  unfold run_callback. destruct (Event.on_result j) as [| e | e] eqn:E; [apply safe_return | |].
  - eapply triple_pre; [| apply db_create_room_triple]. intros s _ [Hj ?]. split; [| done].
    apply Hj. by rewrite E.
  - eapply triple_pre; [| apply db_load_messages_triple]. intros s _ [Hj _]. apply Hj. by rewrite E.
Qed.


End Safe.

(** ** The main thread

    Its handlers start and end with the two tables in agreement, and are the
    only ones that change them. *)

Section MainThread.
Context {Indet : Indeterminate} {Kernel : EpollKernel}.

Definition settled (s : Shared) : Prop := finv s /\ coherent s /\ free Main s.

Definition mainly {A : Type} (p : Prog A) : Prop :=
  forall s, settled s -> wpc Main p (fun _ => settled) s.

Lemma coherent_tables s s' : tables s s' -> coherent s -> coherent s'.
Proof. intros (H1 & H2 & _ & _) Hc fd. by rewrite H1, H2. Qed.

Lemma stable_coherent : stable Main coherent.
Proof. intros s s' [_ Ht]. by apply coherent_tables, Ht. Qed.

(** Facts about the tables, which nobody else changes. *)
Lemma stable_tables (P : Shared -> Prop) : (forall s s', tables s s' -> P s -> P s') -> stable Main P.
Proof. intros H s s' [_ Ht]. by apply H, Ht. Qed.

Lemma mainly_ret {A : Type} (a : A) : mainly (Ret a).
Proof. by intros s Hs. Qed.

Lemma mainly_bind {A B : Type} (p : Prog A) (f : A -> Prog B) :
  mainly p -> (forall a, mainly (f a)) -> mainly (andthen p f).
Proof. intros Hp Hf s Hs. apply wpc_bind. eapply wpc_mono; [| by apply Hp]. intros a s' Hs'. by apply Hf. Qed.

(** Handlers that leave the tables alone. *)
Lemma triple_mainly P {A : Type} (p : Prog A) R s :
  triple Main P p R -> settled s -> P s -> wpc Main p (fun a s' => settled s' /\ later Main s s' /\ R a s') s.
Proof.
  intros Hp (Hs & Hc & Hf) HPs. eapply wpc_mono; [| by apply Hp].
  intros a s' (H1 & H2 & H3 & H4). split; [| done]. split_and!; [done | by apply (stable_coherent s) | done].
Qed.

Lemma safe_mainly {A : Type} (p : Prog A) : safe Main (fun _ => True) p -> mainly p.
Proof. intros Hp s Hs. eapply wpc_mono; [| by eapply triple_mainly]. by intros a s' (? & _). Qed.

(** An action that changes the tables. *)
Definition moved (s s' : Shared) : Prop :=
  finv s' /\ fev s s' /\ owner s' = owner s /\ forall sid, grows s s' sid.

Lemma main_act a {A : Type} (k : result a -> Prog A) (P : Shared -> Prop) R Q s :
  stable Main P ->
  (forall s, finv s -> P s -> exists r s', perform a s = Done r s' /\ moved s s' /\ R r s') ->
  (forall r s', finv s' -> free Main s' -> R r s' -> wpc Main (k r) Q s') ->
  P s -> free Main s -> wpc Main (Act a k) Q s.
Proof.
  intros HP Ha Hk HPs Hf. cbn. intros s1 Hr Hs1.
  destruct (Ha s1 Hs1 (HP _ _ (relies_later _ _ _ Hr) HPs)) as (r & s2 & E & (H1 & H2 & H3 & H4) & HR).
  rewrite E. split_and!; [done | | apply Hk; [done | | done]].
  - split_and!; [done | by intros [] | by intros; rewrite H3 | intros; apply H4].
  - unfold free. rewrite H3. by eapply relies_free.
Qed.

Lemma act_find_session fd :
  triple Main (fun _ => True) (act (FindSession fd)) (fun r s => sessions (world s) !! fd = r).
Proof. apply act_read; [auto with chat |]. intros s _ _. by eexists. Qed.

Lemma stable_session_of fd r : stable Main (fun s => sessions (world s) !! fd = r).
Proof. apply stable_tables. intros s s' (H & _) E. by rewrite H. Qed.

Lemma session_of fd sid s : finv s -> sessions (world s) !! fd = Some sid -> fact (session_fact sid) s.
Proof.
  intros Hs E. destruct (f_refs _ Hs _ _ E) as (o & Ho & _). exists (clear o). by apply sh_lookup.
Qed.

(** *** Closing a connection *)

(** The connection [fd], with its session and its user. *)
Definition connected (fd : Z) (sid : Room.Sid) (uid : Z) (s : Shared) : Prop :=
  coherent s /\ sessions (world s) !! fd = Some sid /\
  User.fd_to_user_id_ (user_manager (world s)) !! fd = Some uid.

Lemma stable_connected fd sid uid : stable Main (connected fd sid uid).
Proof.
  apply stable_tables. intros s s' Ht (H1 & H2 & H3). pose proof (coherent_tables _ _ Ht H1) as Hc.
  destruct Ht as (E1 & E2 & _). unfold connected. by rewrite E1, E2.
Qed.

Lemma connected_user fd sid uid s :
  finv s -> connected fd sid uid s ->
  exists u, User.users_ (user_manager (world s)) !! uid = Some u /\ User.fd_ u = fd /\ User.user_id_ u = uid.
Proof.
  intros Hs (_ & _ & H). destruct (User.um_fd _ (f_users _ Hs) _ _ H) as (u & Hu & Hfd).
  exists u. destruct (User.um_id _ (f_users _ Hs) _ _ Hu). by split_and!.
Qed.

(** Between the removal of the session and that of the user. *)
Definition half_closed (fd uid : Z) (s : Shared) : Prop :=
  (forall fd', is_Some (sessions (world s) !! fd') <->
     fd' <> fd /\ is_Some (User.fd_to_user_id_ (user_manager (world s)) !! fd')) /\
  User.fd_to_user_id_ (user_manager (world s)) !! fd = Some uid.

Lemma stable_half_closed fd uid : stable Main (half_closed fd uid).
Proof.
  apply stable_tables. intros s s' (E1 & E2 & _) [H1 H2]. unfold half_closed. rewrite E1, E2. by split.
Qed.

Lemma half_closed_user fd uid s :
  finv s -> half_closed fd uid s ->
  exists u, User.users_ (user_manager (world s)) !! uid = Some u /\ User.fd_ u = fd /\ User.user_id_ u = uid.
Proof.
  intros Hs [_ H]. destruct (User.um_fd _ (f_users _ Hs) _ _ H) as (u & Hu & Hfd).
  exists u. destruct (User.um_id _ (f_users _ Hs) _ _ Hu). by split_and!.
Qed.

Lemma grows_same s s' : heap (world s') = heap (world s) -> forall sid, grows s s' sid.
Proof. intros E sid o Ho. exists o, []. by rewrite E, app_nil_r. Qed.

Lemma remove_session_moved fd sid uid s :
  finv s -> connected fd sid uid s ->
  exists r s', perform (RemoveSession fd) s = Done r s' /\ moved s s' /\ half_closed fd uid s'.
Proof.
  intros [Hi Hse Hu Hr Ht] (Hc & H1 & H2). eexists _, _. split; [done |]. set (s' := set_world _ s). split.
  - split_and!; [| split; [exact (reflexivity (sh s)) | done] | done | by apply grows_same].
    split; [exact Hi | exact Hse | exact Hu | by apply map_Forall_delete | exact Ht].
  - split; [| done]. intros fd'. cbn. rewrite lookup_delete_is_Some, <- (Hc fd'). naive_solver.
Qed.

Lemma remove_user_moved fd uid s :
  finv s -> half_closed fd uid s ->
  exists r s', perform (RemoveUser uid) s = Done r s' /\ moved s s' /\ coherent s'.
Proof.
  intros Hs Hh. destruct (half_closed_user fd uid s Hs Hh) as (u & Eu & Efd & Eid).
  destruct Hs as [Hi Hse Hu Hr Ht], Hh as [Hh _]. eexists _, _. split; [done |]. split.
  - split_and!; [| split; [exact (reflexivity (sh s)) |] | done | by apply grows_same].
    + split; [exact Hi | exact Hse | by apply User.um_wf_remove | exact Hr |].
      intros uid' H. apply Ht. cbn in H. unfold User.remove_user in H. rewrite Eu in H. cbn in H.
      by apply lookup_delete_is_Some in H as [_ H].
    + intros uid' H. unfold known, user_object, remove_user, User.remove_user in *. cbn. rewrite Eu. cbn.
      destruct (decide (uid' = uid)) as [-> | Hne]; [rewrite lookup_delete_eq, lookup_insert_eq; eauto |].
      rewrite lookup_delete_ne, lookup_insert_ne by done. exact H.
  - intros fd'. cbn. unfold User.remove_user. rewrite Eu. cbn. rewrite Efd, lookup_delete_is_Some, Hh. naive_solver.
Qed.

Lemma close_tail fd sid uid s :
  connected fd sid uid s -> free Main s ->
  wpc Main (act (RemoveSession fd) ;! let! id := act (UserId uid) in act (RemoveUser id))%prog
    (fun _ => settled) s.
Proof.
  intros Hc Hf. refine (main_act _ _ _ _ _ s (stable_connected fd sid uid) _ _ Hc Hf);
    [intros s1 Hs1 Hp1; exact (remove_session_moved fd sid uid s1 Hs1 Hp1) |].
  intros ? s1 Hs1 Hf1 H1. cbn [andthen].
  refine (main_act (UserId uid) _ _ (fun id s => id = uid /\ half_closed fd uid s) _ s1
    (stable_half_closed fd uid) _ _ H1 Hf1).
  - intros s2 Hs2 H2. destruct (half_closed_user fd uid s2 Hs2 H2) as (u & Eu & Efd & Eid).
    exists uid, s2. cbn. unfold see_user, user_object. rewrite Eu. split; [unfold User.get_id; by rewrite Eid |].
    split; [split_and!; [done.. | by apply grows_same] | done].
  - intros ? s2 Hs2 Hf2 [-> H2]. cbn [andthen].
    refine (main_act _ _ _ _ _ s2 (stable_half_closed fd uid) _ _ H2 Hf2);
      [intros s3 Hs3 Hp3; exact (remove_user_moved fd uid s3 Hs3 Hp3) |].
    intros ? s3 Hs3 Hf3 H3. by split_and!.
Qed.

(** Running a program that keeps [P], and going on. *)
Lemma then_wpc P {A B : Type} (p : Prog A) (f : A -> Prog B) R Q s :
  stable Main P -> triple Main P p R -> finv s -> P s -> free Main s ->
  (forall a s', finv s' -> P s' -> free Main s' -> R a s' -> wpc Main (f a) Q s') ->
  wpc Main (andthen p f) Q s.
Proof.
  intros HP Hp Hs HPs Hf Hk. apply wpc_bind. eapply wpc_mono; [| by apply Hp].
  intros a s' (H1 & H2 & H3 & H4). apply Hk; [done | by eapply HP | done..].
Qed.

Lemma connected_get_user fd sid uid :
  triple Main (connected fd sid uid) (act (GetUser fd)) (fun r _ => r = Some uid).
Proof.
  apply act_read; [apply stable_connected |]. intros s Hs Hc. eexists. split; [done |].
  destruct (connected_user _ _ _ _ Hs Hc) as (u & Eu & _). destruct Hc as (_ & _ & E).
  rewrite E. cbn. by rewrite Eu.
Qed.

Lemma connected_known fd sid uid s : finv s -> connected fd sid uid s -> known uid s.
Proof.
  intros Hs Hc. destruct (connected_user _ _ _ _ Hs Hc) as (u & Eu & _). apply known_user. rewrite Eu. eauto.
Qed.

Lemma close_connected fd sid uid s :
  finv s -> connected fd sid uid s -> free Main s ->
  wpc Main (act (EpollRemove fd) ;!
    let! found := act (GetUser fd) in
    let! user := deref NullUser found in
    act (MarkUser user) ;!
    act (MarkSession sid) ;!
    let! room_id := act (UserRoom user) in
    disconnect_session fd room_id ;!
    (if decide (room_id <> RoomManager.LOBBY_ROOM_ID)
     then disconnect_session fd RoomManager.LOBBY_ROOM_ID else Ret tt) ;!
    act (RemoveSession fd) ;!
    let! id := act (UserId user) in act (RemoveUser id))%prog (fun _ => settled) s.
Proof.
  pose proof (stable_connected fd sid uid) as HP. pose proof (connected_known fd sid uid) as Hk.
  intros Hs Hc Hf.
  eapply then_wpc; [exact HP | eapply triple_pre; [| apply act_epoll_remove]; done | done.. |].
  clear s Hs Hc Hf. intros ? s Hs Hc Hf _.
  eapply then_wpc; [exact HP | apply connected_get_user | done.. |].
  clear s Hs Hc Hf. intros r s Hs Hc Hf ->. cbn [deref]. change (andthen (Ret uid) ?f) with (f uid). cbv beta.
  eapply then_wpc; [exact HP | eapply triple_pre; [| apply act_mark_user]; exact Hk | done.. |].
  clear s Hs Hc Hf. intros ? s Hs Hc Hf _.
  eapply then_wpc; [exact HP | eapply triple_pre; [| apply act_mark_session] | done.. |].
  { intros s1 Hs1 (_ & H1 & _). by apply (session_of fd). }
  clear s Hs Hc Hf. intros ? s Hs Hc Hf _.
  eapply then_wpc; [exact HP | eapply triple_pre; [| apply act_user_room]; exact Hk | done.. |].
  clear s Hs Hc Hf. intros room_id s Hs Hc Hf _.
  eapply then_wpc; [exact HP | eapply triple_pre; [| apply disconnect_session_triple]; done | done.. |].
  clear s Hs Hc Hf. intros ? s Hs Hc Hf _.
  eapply then_wpc; [exact HP | | done.. |].
  { apply triple_if; [eapply triple_pre; [| apply disconnect_session_triple]; done | apply safe_return]. }
  clear s Hs Hc Hf. intros ? s Hs Hc Hf _. by eapply close_tail.
Qed.

Lemma close_session_mainly fd : mainly (close_session fd).
Proof.
  intros s (Hs & Hc & Hf). unfold close_session.
  eapply then_wpc; [apply stable_coherent | eapply triple_pre; [| apply act_find_session]; done | done.. |].
  clear s Hs Hc Hf. intros found s Hs Hc Hf E. destruct found as [sid |]; [| by split_and!].
  assert (Hu : is_Some (User.fd_to_user_id_ (user_manager (world s)) !! fd)) by (apply (Hc fd); rewrite E; eauto).
  destruct Hu as [uid Huid]. by apply (close_connected fd sid uid).
Qed.

(** *** Opening a connection *)

(** After [add_session]: the session has no user yet. *)
Definition half_open (fd : Z) (sid : Room.Sid) (n : Z) (s : Shared) : Prop :=
  (forall fd', is_Some (sessions (world s) !! fd') <->
     fd' = fd \/ is_Some (User.fd_to_user_id_ (user_manager (world s)) !! fd')) /\
  sessions (world s) !! fd = Some sid /\
  User.fd_to_user_id_ (user_manager (world s)) !! fd = None /\
  (forall uid, is_Some (User.users_ (user_manager (world s)) !! uid) -> uid <= n).

Lemma stable_half_open fd sid n : stable Main (half_open fd sid n).
Proof.
  apply stable_tables. intros s s' (E1 & E2 & E3 & _) (H1 & H2 & H3 & H4). unfold half_open.
  rewrite E1, E2. split_and!; [done.. |]. intros uid H. by apply H4, E3.
Qed.

(** Before: the descriptor [accept4] returned is not in the tables. *)
Definition unopened (fd n : Z) (s : Shared) : Prop :=
  coherent s /\ sessions (world s) !! fd = None /\ total_users (world s) = n /\ 0 <= n < 2 ^ 63 - 1.

Lemma stable_unopened fd n : stable Main (unopened fd n).
Proof.
  apply stable_tables. intros s s' Ht (H1 & H2 & H3 & H4). pose proof (coherent_tables _ _ Ht H1).
  destruct Ht as (E1 & _ & _ & E4). unfold unopened. rewrite E1, E4. split_and!; [done.. | apply H4 | apply H4].
Qed.

Lemma stable_opening fd sid n :
  stable Main (fun s => half_open fd sid n s /\ total_users (world s) = n /\ 0 <= n < 2 ^ 63 - 1).
Proof.
  apply stable_conj; [apply stable_half_open |]. apply stable_tables.
  intros s s' (_ & _ & _ & E) H. by rewrite E.
Qed.

Lemma add_session_moved fd n s :
  finv s -> unopened fd n s ->
  exists r s', perform (AddSession fd) s = Done r s' /\ moved s s' /\
    (exists sid, half_open fd sid n s') /\ total_users (world s') = n /\ 0 <= n < 2 ^ 63 - 1.
Proof.
  intros [Hi Hse Hu Hr Ht] (Hc & Hfd & Hn & Hn'). eexists _, _. split; [done |]. unfold add_session.
  set (sid := fresh (dom (heap (world s)) : gset Room.Sid)).
  assert (Hsid : heap (world s) !! sid = None) by (apply not_elem_of_dom, is_fresh).
  set (s' := set_world _ s).
  assert (Hlk : forall sid', heap (world s') !! sid' =
    if decide (sid' = sid) then Some (Session.new_session fd) else heap (world s) !! sid').
  { intros sid'. unfold s'. cbn. case_decide; [subst; apply lookup_insert_eq | by rewrite lookup_insert_ne]. }
  assert (Hnone : User.fd_to_user_id_ (user_manager (world s)) !! fd = None).
  { apply eq_None_not_Some. intros H. apply Hc in H. rewrite Hfd in H. by destruct H. }
  assert (Hle : heap_le (heap (sh s)) (heap (sh s'))).
  { cbn. rewrite fmap_insert. apply heap_le_insert_new. by rewrite lookup_fmap, Hsid. }
  assert (Hclear : map_Forall (fun _ o => Session.sending_ o = false) (heap (sh s'))).
  { intros k o Ho. cbn in Ho. rewrite lookup_fmap in Ho. by apply fmap_Some in Ho as (o' & _ & ->). }
  destruct (inv_heap (sh s) (heap (sh s')) Hi Hle Hclear) as [Hi' Hev].
  split; [split_and!; [| by split | done |] | split; [| by split]].
  - split; [exact Hi' | | exact Hu | | exact Ht].
    + intros sid'. unfold session_ok, all_packed. rewrite Hlk. specialize (Hse sid'). unfold session_ok in Hse.
      case_decide as Hd; [subst sid' | exact Hse]. rewrite Hsid in Hse. destruct Hse as [H1 H2].
      unfold s'. cbn. rewrite H1, H2. split; [| done]. split; [done | by intros []].
    + unfold s'. cbn. rewrite emplace_fresh by done. apply map_Forall_insert_2.
      * exists (Session.new_session fd). by rewrite lookup_insert_eq.
      * intros k x Hx. eapply sess_ref_mono; [by apply heap_le_insert_new | by apply Hr].
  - intros sid' o Ho. exists o, []. rewrite app_nil_r, Hlk. split; [| done]. case_decide; congruence.
  - exists sid. unfold half_open, s'. cbn. rewrite emplace_fresh, lookup_insert_eq by done.
    split_and!; [| done | done | by rewrite <- Hn].
    intros fd'. rewrite lookup_insert_is_Some', <- (Hc fd'). naive_solver.
Qed.

Lemma next_user_moved fd sid n s :
  finv s -> half_open fd sid n s /\ total_users (world s) = n /\ 0 <= n < 2 ^ 63 - 1 ->
  exists r s', perform NextUser s = Done r s' /\ moved s s' /\
    r = n + 1 /\ half_open fd sid n s' /\ total_users (world s') = n + 1.
Proof.
  intros [Hi Hse Hu Hr Ht] (Hh & Hn & Hn'). eexists _, _. split; [done |]. rewrite Hn.
  rewrite wrap_small by lia. rewrite (sgn_small 64) by (simpl; lia).
  destruct (inv_set_total (sh s) (n + 1) Hi) as [Hi' Hev]; [cbn; lia |].
  split; [split_and!; [| by split | done | by apply grows_same] | by split_and!].
  split; [exact Hi' | exact Hse | exact Hu | exact Hr |]. intros uid H. apply Ht in H. cbn. lia.
Qed.

Lemma add_user_moved fd sid n name s :
  finv s -> half_open fd sid n s /\ total_users (world s) = n + 1 ->
  exists r s', perform (AddUser (User.new_user fd (n + 1) name)) s = Done r s' /\ moved s s' /\
    coherent s' /\ sessions (world s') !! fd = Some sid.
Proof.
  intros [Hi Hse Hu Hr Ht] ((Ho & H1 & H2 & H3) & Hn). eexists _, _. split; [done |].
  assert (Hid : User.users_ (user_manager (world s)) !! (n + 1) = None).
  { apply eq_None_not_Some. intros H. apply H3 in H. lia. }
  split; [split_and!; [| split; [exact (reflexivity (sh s)) |] | done | by apply grows_same] | split; [| done]].
  - split; [exact Hi | exact Hse | by apply User.um_wf_add | exact Hr |]. intros uid. cbn.
    rewrite emplace_fresh, lookup_insert_is_Some' by done. rewrite Hn.
    intros [<- | H]; [done |]. apply H3 in H. lia.
  - intros uid H. unfold known, user_object in *. cbn. rewrite emplace_fresh by done.
    destruct (decide (uid = n + 1)) as [-> | Hne]; [rewrite lookup_insert_eq; eauto |].
    by rewrite lookup_insert_ne by done.
  - intros fd'. cbn. rewrite emplace_fresh, lookup_insert_is_Some', Ho by done. naive_solver.
Qed.

Lemma enter_lobby fd sid s :
  finv s -> coherent s -> sessions (world s) !! fd = Some sid -> free Main s ->
  wpc Main (let! junk := act Junk in
    let! session := act (FindSession fd) in
    let e := Event.set_session session
               (Event.set_target RoomManager.LOBBY_ROOM_ID (Event.new_event junk)) in
    let e := Event.add Event.JOIN_ROOM RoomManager.LOBBY_ROOM_ID e in
    route_event e RoomManager.LOBBY_WORKER_ID ;! Ret tt)%prog (fun _ => settled) s.
Proof.
  intros Hs Hc E Hf.
  assert (HP : stable Main (fun s => coherent s /\ sessions (world s) !! fd = Some sid))
    by (apply stable_conj; [apply stable_coherent | apply stable_session_of]).
  eapply then_wpc; [exact HP | eapply triple_pre; [| apply act_junk]; done | done | by split | done |].
  clear s Hs Hc E Hf. intros junk s Hs Hc Hf _.
  eapply then_wpc; [exact HP | eapply triple_pre; [| apply act_find_session]; done | done.. |].
  clear s Hs Hc Hf. intros session s Hs [Hc E] Hf E'. rewrite E in E'. subst session.
  eapply wpc_mono; [| by eapply triple_mainly; [apply route_lobby_then | split_and! |]; [..|
    split_and!; simpl; try lia; [by intros a [= <-] | by apply (session_of fd)]]].
  by intros _ s' (? & _).
Qed.

(** Registering the session and its user. *)
Lemma register_client fd n (k : Prog unit) s :
  (forall sid s', finv s' -> coherent s' -> sessions (world s') !! fd = Some sid -> free Main s' ->
     wpc Main k (fun _ => settled) s') ->
  unopened fd n s -> free Main s ->
  wpc Main (act (AddSession fd) ;!
    let! total := act NextUser in
    act (AddUser (User.new_user fd total temp_name)) ;! k)%prog (fun _ => settled) s.
Proof.
  intros Hk Hu Hf.
  refine (main_act (AddSession fd) _ _ (fun _ s' => (exists sid, half_open fd sid n s') /\
    total_users (world s') = n /\ 0 <= n < 2 ^ 63 - 1) _ s (stable_unopened fd n) _ _ Hu Hf);
    [intros s1 Hs1 Hp1; exact (add_session_moved fd n s1 Hs1 Hp1) |].
  intros ? s1 Hs1 Hf1 ([sid H1] & H2). cbn [andthen].
  refine (main_act NextUser _ _ (fun (r : Z) s' => r = n + 1 /\ half_open fd sid n s' /\
    total_users (world s') = n + 1) _ s1 (stable_opening fd sid n) _ _ (conj H1 H2) Hf1);
    [intros s2 Hs2 Hp2; exact (next_user_moved fd sid n s2 Hs2 Hp2) |].
  intros ? s2 Hs2 Hf2 (-> & H3). cbn [andthen].
  assert (Hst : stable Main (fun s => half_open fd sid n s /\ total_users (world s) = n + 1)).
  { apply stable_conj; [apply stable_half_open |]. apply stable_tables. intros s3 s4 (_ & _ & _ & E) H. by rewrite E. }
  refine (main_act (AddUser _) _ _ (fun _ s' => coherent s' /\ sessions (world s') !! fd = Some sid)
    _ s2 Hst _ _ H3 Hf2); [intros s3 Hs3 Hp3; exact (add_user_moved fd sid n temp_name s3 Hs3 Hp3) |].
  intros ? s3 Hs3 Hf3 [H4 H5]. by apply (Hk sid).
Qed.

Lemma accept_client_mainly fd s :
  settled s -> sessions (world s) !! fd = None -> 0 <= total_users (world s) < 2 ^ 63 - 1 ->
  wpc Main (accept_client fd) (fun _ => settled) s.
Proof.
  intros (Hs & Hc & Hf) Hfd Hn. unfold accept_client. case_decide; [by split_and! |].
  assert (Hu : unopened fd (total_users (world s)) s) by done.
  eapply then_wpc; [apply stable_unopened | eapply triple_pre; [| apply act_epoll_ctl]; done | exact Hs | exact Hu | exact Hf |].
  intros ? s1 Hs1 Hu1 Hf1 _. eapply register_client; [| exact Hu1 | exact Hf1].
  intros sid s2 Hs2 Hc2 E2 Hf2. by apply (enter_lobby fd sid).
Qed.

(** *** The other handlers *)

Lemma handle_packets_triple fuel sid : safe Main (fact (session_fact sid)) (handle_packets fuel sid).
Proof.
  induction fuel as [| fuel IH]; [apply safe_return |]. cbn [handle_packets].
  apply safe_then; [auto with chat | apply act_extract |]. intros p. destruct p as [p |]; [| apply safe_return].
  apply safe_then; [auto with chat | apply dispatch_packet_triple | done].
Qed.

(** The session table's entry, then a handler on that session. *)
Lemma with_session fd (p1 : Prog unit) (p2 : Room.Sid -> Prog unit) :
  mainly p1 -> (forall sid s, settled s -> fact (session_fact sid) s -> wpc Main (p2 sid) (fun _ => settled) s) ->
  mainly (let! session := act (FindSession fd) in
          match session with None => p1 | Some sid => p2 sid end)%prog.
Proof.
  intros H1 H2 s (Hs & Hc & Hf).
  eapply then_wpc; [apply stable_coherent | eapply triple_pre; [| apply act_find_session]; done | done.. |].
  intros r s1 Hs1 Hc1 Hf1 E. destruct r as [sid |]; [apply H2 | by apply H1]; [done |]. by apply (session_of fd).
Qed.

Lemma handle_request_mainly fd ins : mainly (handle_request fd ins).
Proof.
  apply with_session; [apply close_session_mainly |]. intros sid s (Hs & Hc & Hf) Hsid.
  assert (HP : stable Main (fun s => coherent s /\ fact (session_fact sid) s))
    by (apply stable_conj; [apply stable_coherent | auto with chat]).
  eapply then_wpc; [exact HP | eapply triple_pre; [| apply act_receive]; by intros s1 _ [_ ?] | done | done | done |].
  intros readable s1 Hs1 [Hc1 Hsid1] Hf1 _. destruct readable; [| by apply close_session_mainly].
  eapply then_wpc; [exact HP | eapply triple_pre; [| apply act_buffered]; by intros s2 _ [_ ?] | done | done | done |].
  intros n s2 Hs2 [Hc2 Hsid2] Hf2 _.
  eapply wpc_mono; [| by eapply triple_mainly; [apply handle_packets_triple | |]]. by intros ? s3 (? & _).
Qed.

Lemma handle_epollout_mainly fd : mainly (handle_epollout fd).
Proof.
  apply with_session; [apply close_session_mainly |]. intros sid s Hs Hsid.
  eapply wpc_mono; [| by eapply triple_mainly; [apply request_flush_triple | |]]. by intros ? s3 (? & _).
Qed.

Lemma on_ready_mainly fd epollin epollout hangup : mainly (on_ready fd epollin epollout hangup).
Proof.
  apply mainly_bind; [destruct epollin; [apply handle_request_mainly | apply mainly_ret] |]. intros _.
  apply mainly_bind; [destruct epollout; [apply handle_epollout_mainly | apply mainly_ret] |]. intros _.
  destruct hangup; [apply close_session_mainly | apply mainly_ret].
Qed.

Lemma take_main_event_mainly : mainly take_main_event.
Proof.
  apply mainly_bind; [apply safe_mainly, act_pop_main |]. intros r. destruct r as [e |]; [| apply mainly_ret].
  apply mainly_bind; [| intros _; apply mainly_ret]. unfold handle_main_event.
  destruct (Event.me_type e); [apply close_session_mainly | apply safe_mainly, act_epoll_ctl ..].
Qed.

Lemma settled_rely s s' : rely Main s s' -> finv s' -> settled s -> settled s'.
Proof.
  intros Hr Hs' (_ & Hc & Hf). split_and!; [done | by eapply stable_coherent; [apply rely_later |] |].
  by eapply relies_free; [apply rtc_once |].
Qed.

Lemma handle_events_mainly : mainly handle_events.
Proof.
  intros s (Hs & Hc & Hf). hnf. exists (fun s => coherent s /\ free Main s). split_and!; [done | done | |].
  - intros s1 s2 Hr [H1 H2]. split; [by eapply stable_coherent; [apply rely_later |] |].
    by eapply relies_free; [apply rtc_once |].
  - intros s1 [H1 H2] Hs1. eapply wpc_mono; [| by apply take_main_event_mainly].
    intros b s2 (? & ? & ?). by destruct b.
Qed.

End MainThread.
End ProgramsSafe.
