(* ===== verification/Interleaving.v ===== *)
(** * Interleaving: the whole server, one access at a time

    The transition system of the server with the finest interleaving: a thread
    that is idle may begin a handler, a thread that runs one performs its next
    action, in any order. Every reachable state is safe: this is
    [System.server_safe] without the assumption that handlers are not
    interrupted. *)

From S2P Require Import Prelude Codec Wire Session User Room Event World RoomManager RoomWorker.
From S2P Require Import Invariant RoomWorkerSafe Server System FlushConc Flow Shared Programs RelyGuarantee.
From S2P Require Import Actions ProgramsSafe.

Module Interleaving.
Import Protocol World Invariant Server Shared Programs RelyGuarantee Actions ProgramsSafe.

Record State := mkState {
  shared : Shared;
  running : Tid -> option (Prog unit) }.

Definition set_running (t : Tid) (p : option (Prog unit)) (s : Shared) (st : State) : State :=
  mkState s (fun t' => if decide (t' = t) then p else running st t').

Definition init (n : Z) : State := mkState (init_shared n) (fun _ => None).

Inductive Step :=
  | Begin (l : Label)         (* an idle thread begins a handler; the kernel acts *)
  | Continue (t : Tid).       (* a running thread performs its next action *)

Inductive Outcome := Next (st : State) | Halt (c : Crash).

Section System.
Context {Indet : Indeterminate} {Kernel : EpollKernel}.

(** The kernel decides how the coming sends on a socket go. *)
Definition kernel_step (sid : Room.Sid) (outs : list Session.SendOut) (s : Shared) : Result unit :=
  on_session sid (fun o => (tt, FlushConc.set_outs outs o)) s.

Definition exec (a : Step) (st : State) : Outcome :=
  match a with
  | Begin (LKernel sid outs) =>
      match kernel_step sid outs (shared st) with
      | Done _ s => Next (mkState s (running st))
      | Crashed c => Halt c
      end
  | Begin l =>
      match thread_of l with
      | Some t => Next (set_running t (Some (program l)) (shared st) st)
      | None => Next st
      end
  | Continue t =>
      match running st t with
      | None => Next st
      | Some p =>
          match prog_step t p (shared st) with
          | None => Next (set_running t None (shared st) st)
          | Some (More p' s) => Next (set_running t (Some p') s st)
          | Some (Broken c) => Halt c
          end
      end
  end.

Lemma exec_begin l t st :
  thread_of l = Some t -> exec (Begin l) st = Next (set_running t (Some (program l)) (shared st) st).
Proof. destruct l; cbn; try done; by intros [= <-]. Qed.

(** What the environment guarantees is what [Server.enabled] says; a thread
    begins a handler only after its last one. *)
Definition enabled (st : State) (a : Step) : Prop :=
  match a with
  | Begin l => Server.enabled (world (shared st)) l /\
      match thread_of l with Some t => running st t = None | None => True end
  | Continue t => running st t <> None
  end.

Definition step (st st' : State) : Prop := exists a, enabled st a /\ exec a st = Next st'.

Definition reachable (n : Z) (st : State) : Prop := rtc step (init n) st.

(** ** The invariant *)

(** What an idle thread leaves behind. *)
Definition rest (t : Tid) (s : Shared) : Prop := free t s /\ (t = Main -> coherent s).

Definition thread_ok (t : Tid) (o : option (Prog unit)) (s : Shared) : Prop :=
  match o with Some p => wpc t p (fun _ => rest t) s | None => rest t s end.

Definition sysinv (st : State) : Prop :=
  finv (shared st) /\ forall t, thread_ok t (running st t) (shared st).

Lemma rest_rely t s s' : rely t s s' -> rest t s -> rest t s'.
Proof.
  intros Hr [Hf Hc]. split; [by eapply relies_free; [apply rtc_once |] |].
  intros ->. eapply stable_coherent; [by apply rely_later | auto].
Qed.

Lemma thread_ok_rely t o s s' : rely t s s' -> thread_ok t o s -> thread_ok t o s'.
Proof.
  intros Hr. destruct o as [p |]; cbn; [| by apply rest_rely].
  apply wpc_rely; [| done]. intros _ s1 s2. apply rest_rely.
Qed.

(** One thread has moved, the others have waited. *)
Lemma sysinv_moved t p s st :
  sysinv st -> finv s -> guar (Some t) (shared st) s -> thread_ok t p s ->
  sysinv (set_running t p s st).
Proof.
  intros [_ Ht] Hs Hg Hp. split; [done |]. intros t'. cbn. case_decide as Hd; [by subst |].
  eapply thread_ok_rely; [| by apply Ht]. exists (Some t). split; [congruence | done].
Qed.

(** *** Every handler begins well *)

Lemma safe_thread t P (p : Prog unit) s :
  t <> Main -> safe t P p -> finv s -> P s -> rest t s -> wpc t p (fun _ => rest t) s.
Proof.
  intros Ht Hp Hs HPs [Hf _]. eapply wpc_mono; [| by apply Hp]. intros a s' (_ & _ & H & _). by split.
Qed.

Lemma main_thread (p : Prog unit) s : wpc Main p (fun _ => settled) s -> wpc Main p (fun _ => rest Main) s.
Proof. apply wpc_mono. by intros _ s' (_ & ? & ?). Qed.

Lemma program_ok t l s :
  finv s -> rest t s -> Server.enabled (world s) l -> thread_of l = Some t ->
  wpc t (program l) (fun _ => rest t) s.
Proof.
  intros Hs Hr He Hl. destruct l as [fd | fd i o h | | wid | status data draws | sid outs];
    cbn in Hl, He; try done; injection Hl as <-; cbn [program].
  - destruct Hr as [Hf Hc]. apply main_thread. destruct He as [H1 H2].
    apply accept_client_mainly; [split_and!; auto | done | done].
  - destruct Hr as [Hf Hc]. apply main_thread, on_ready_mainly. split_and!; auto.
  - destruct Hr as [Hf Hc]. apply main_thread, handle_events_mainly. split_and!; auto.
  - apply (safe_thread _ (fact (worker_fact wid))); [done | | done | done | done].
    apply safe_then; [auto with chat | apply worker_step_triple | intros _; apply safe_return].
  - eapply safe_thread; [done | apply db_step_triple | done | by split | done].
Qed.

(** *** The kernel *)

Lemma kernel_step_ok sid outs s :
  finv s -> is_Some (heap (world s) !! sid) ->
  exists s', kernel_step sid outs s = Done tt s' /\ finv s' /\ guar None s s'.
Proof.
  intros [Hi Hse Hu Hr Ht] [o Ho]. unfold kernel_step, on_session. rewrite Ho. eexists. split; [done |].
  set (o' := FlushConc.set_outs outs o). set (s' := set_world _ s).
  destruct (sh_put _ _ _ o' Hi Ho) as [Hi' Hev]; [done |].
  assert (Hlk : forall sid', heap (world s') !! sid' =
    if decide (sid' = sid) then Some o' else heap (world s) !! sid').
  { intros sid'. unfold s'. cbn. case_decide; [subst; apply lookup_insert_eq | by rewrite lookup_insert_ne]. }
  split.
  - split; [exact Hi' | | exact Hu | unfold s'; cbn; by eapply refs_put | exact Ht].
    intros sid'. specialize (Hse sid'). unfold session_ok, all_packed in *. rewrite Hlk.
    case_decide; [subst sid' | exact Hse]. by rewrite Ho in Hse.
  - split_and!; [by split | done | done |]. intros sid' t _ _ o1 Ho1. rewrite Hlk.
    case_decide as Hd; [subst sid'; exists o', [] | exists o1, []]; rewrite app_nil_r; [| done].
    rewrite Ho in Ho1. by injection Ho1 as <-.
Qed.

Lemma sysinv_kernel s st : sysinv st -> finv s -> guar None (shared st) s -> sysinv (mkState s (running st)).
Proof.
  intros [_ Ht] Hs Hg. split; [done |]. intros t. eapply thread_ok_rely; [| by apply Ht]. by exists None.
Qed.

(** ** Preservation *)

Lemma guar_worker_num by_ s s' : guar by_ s s' -> room_worker_num (world s') = room_worker_num (world s).
Proof. by intros [[(_ & _ & E) _] _]. Qed.

(** What can stop a system with [n] workers, and where. *)
Definition halts (n : Z) (a : Step) (c : Crash) : Prop :=
  c = Handler EpollCtlFailed /\ a = Continue Main \/
  c = Handler BadDistribution /\ a = Continue Db /\ n < 2.

Lemma exec_ok a st :
  sysinv st -> enabled st a ->
  match exec a st with
  | Next st' => sysinv st' /\ room_worker_num (world (shared st')) = room_worker_num (world (shared st))
  | Halt c => halts (room_worker_num (world (shared st))) a c
  end.
Proof.
  intros Hst He. destruct a as [l | t].
  - destruct He as [He Hidle]. destruct (thread_of l) as [t |] eqn:El.
    + rewrite (exec_begin l t st El). split; [| done].
      apply sysinv_moved; [done | apply Hst | apply guar_refl |].
      destruct Hst as [Hs Ht]. specialize (Ht t). rewrite Hidle in Ht. by apply program_ok.
    + destruct l as [| | | | | sid outs]; try done. cbn in He |- *.
      destruct (kernel_step_ok sid outs (shared st) (proj1 Hst) He) as (s' & -> & Hs' & Hg).
      split; [by apply sysinv_kernel | by apply guar_worker_num in Hg].
  - cbn in He |- *. destruct (running st t) as [p |] eqn:Er; [| done].
    pose proof Hst as [Hs Ht]. specialize (Ht t). rewrite Er in Ht. cbn in Ht.
    destruct (prog_step t p (shared st)) as [n |] eqn:En.
    + pose proof (wpc_step t p _ _ n Hs Ht En) as Hw. destruct n as [p' s' | c].
      * destruct Hw as (Hs' & Hg & Hw). split; [by apply sysinv_moved | by apply guar_worker_num in Hg].
      * destruct Hw as [[-> ->] | (-> & -> & Hn)]; [by left | by right].
    + split; [| done]. apply sysinv_moved; [done | done | apply guar_refl |].
      destruct p; try done; cbn in Ht, En |- *; try done.
      by destruct p.
Qed.

Lemma init_sysinv n : sysinv (init n).
Proof.
  split.
  - split; cbn; [apply System.init_inv | | apply User.um_wf_empty | done |].
    + intros sid. unfold session_ok. cbn. by rewrite lookup_empty.
    + intros uid [u Hu]. by rewrite lookup_empty in Hu.
  - intros t. split; [intros sid; cbn; by rewrite lookup_empty |]. intros _ fd. cbn. by rewrite !lookup_empty.
Qed.

Lemma reachable_on n st : reachable n st -> sysinv st /\ room_worker_num (world (shared st)) = n.
Proof.
  apply (rtc_ind_r (fun st => sysinv st /\ room_worker_num (world (shared st)) = n)); [split; [apply init_sysinv | done] |].
  intros st1 st2 _ (a & He & Ha) [H E]. pose proof (exec_ok a st1 H He) as Hx. rewrite Ha in Hx. by rewrite <- E.
Qed.

Lemma reachable_sysinv n st : reachable n st -> sysinv st.
Proof. apply reachable_on. Qed.

(** With every thread idle the invariant of the one-step model holds again. *)
Definition idle (st : State) : Prop := forall t, running st t = None.

Lemma idle_inv st : sysinv st -> idle st -> inv (world (shared st)).
Proof.
  intros [[[] Hse Hu Hr Ht] Hth] Hidle.
  assert (Hrest : forall t, rest t (shared st)) by (intros t; specialize (Hth t); by rewrite Hidle in Hth).
  set (s := shared st) in *.
  assert (Hsend : forall sid o, heap (world s) !! sid = Some o -> Session.sending_ o = false).
  { intros sid o Ho. specialize (Hse sid). unfold session_ok in Hse. rewrite Ho in Hse. destruct Hse as [Hs _].
    destruct (Session.sending_ o) eqn:E; [| done]. destruct (proj1 Hs eq_refl) as [t Hown].
    by destruct (proj1 (Hrest t) sid). }
  assert (Hheap : clear <$> heap (world s) = heap (world s)).
  { apply map_eq. intros sid. rewrite lookup_fmap. destruct (heap (world s) !! sid) as [o |] eqn:E; [| done].
    cbn. f_equal. specialize (Hsend sid o E). unfold clear, FlushConc.set_sending, Session.set_send.
    destruct o. cbn in Hsend |- *. by subst. }
  cbn in *. rewrite Hheap in *. split; try done. by apply (Hrest Main).
Qed.

(** ** Properties *)

(** C1: The server is safe under every interleaving of single actions. From every
    state it can reach, with any number [n] of workers and handlers of all
    threads anywhere in the middle, an action that can be made (a mutex section,
    an atomic operation, a [::send], a stretch of a thread's own code) leads to
    another such state, in which the one-step invariant [inv] holds whenever no
    handler is in progress; or it is the [epoll_ctl] of the main thread and
    fails; or there are fewer than two workers and it is the database thread
    drawing from the distribution that is then empty. So no interleaving reaches
    a null or dangling pointer, a destroyed user, the front of an empty send
    queue, a missing worker or a read past an event's actions. *)
Theorem interleaved_server_safe n st a :
  reachable n st -> enabled st a ->
  match exec a st with
  | Next st' => idle st' -> inv (world (shared st'))
  | Halt c => halts n a c
  end.
Proof.
  intros Hr He. destruct (reachable_on n st Hr) as [Hst E]. pose proof (exec_ok a st Hst He) as H.
  rewrite E in H. destruct (exec a st) as [st' |]; [| done]. apply idle_inv, H.
Qed.

(** C5: In every state, handlers in progress included: each room is stored under
    its own id, an ordinary room holds at most 5 sessions and the lobby at most
    999, every session in a room is a live object under its own descriptor, and
    the lobby exists. *)
Theorem interleaved_capacity n st wid r k room :
  reachable n st -> room_workers (world (shared st)) !! wid = Some r -> rooms_ r !! k = Some room ->
  Room.room_id_ room = k /\
  Z.of_nat (size (Room.sessions_ room)) <= (if decide (wid = 1 /\ k = 1) then 999 else 5) /\
  (forall fd sid, Room.sessions_ room !! fd = Some sid ->
     exists o, heap (world (shared st)) !! sid = Some o /\ Session.get_fd o = fd) /\
  (exists lobby, room_workers (world (shared st)) !! 1 = Some lobby /\ is_Some (rooms_ lobby !! 1)).
Proof.
  intros Hr Hwid Hk. destruct (reachable_sysinv n st Hr) as [[Hi _ _ _ _] _].
  destruct (i_workers _ Hi _ _ Hwid) as (_ & Hrooms & _ & _).
  destruct (Hrooms _ _ Hk) as (Hid & [Hs Hc] & Hmax & Href). split_and!; [done | | |].
  - unfold RoomManager.MAX_LOBBY_SESSIONS in Hmax. case_decide as Hd; [lia |].
    destruct Hmax as [? | (-> & -> & _)]; [lia |]. by destruct Hd.
  - intros fd sid H. destruct (Href _ _ H) as (o & Ho & Hfd). cbn in Ho. rewrite lookup_fmap in Ho.
    apply fmap_Some in Ho as (o' & Ho' & ->). by exists o'.
  - destruct (i_ids _ Hi 1) as [lobby Hl]; [lia |]. exists lobby. split; [done |].
    destruct (i_workers _ Hi _ _ Hl) as (_ & _ & H & _). by apply H.
Qed.

(** Where a thread is inside [pack] and [flush]. *)
Definition flushing (st : State) (t : Tid) (sid : Room.Sid) (p : FlushConc.Pc) : Prop :=
  exists k, running st t = Some (Flush sid p k).

(** C6: Output streams in every state of the whole server: what a session's socket
    accepted followed by what is queued is everything packed for it, in order,
    whichever threads packed it; at most one thread is in the part of [flush]
    that [sending_] guards; and the flag is clear when no handler runs. *)
Theorem interleaved_streams n st sid o :
  reachable n st -> heap (world (shared st)) !! sid = Some o ->
  Session.sent_stream o = all_packed (shared st) sid /\
  (forall t1 t2 p1 p2, flushing st t1 sid p1 -> flushing st t2 sid p2 ->
     FlushConc.owns p1 -> FlushConc.owns p2 -> t1 = t2) /\
  (idle st -> Session.sending_ o = false).
Proof.
  intros Hr Ho. destruct (reachable_sysinv n st Hr) as [Hs Ht]. pose proof (f_session _ Hs sid) as Hse.
  unfold session_ok in Hse. rewrite Ho in Hse. destruct Hse as [Hflag Hstr]. split_and!; [done | |].
  - assert (Hown : forall t p, flushing st t sid p -> FlushConc.owns p -> owner (shared st) !! sid = Some t).
    { intros t p [k E] Hp. specialize (Ht t). rewrite E in Ht. destruct Ht as [(_ & _ & H) _]. by apply H. }
    intros t1 t2 p1 p2 H1 H2 O1 O2. specialize (Hown t1 p1 H1 O1) as E1. specialize (Hown t2 p2 H2 O2) as E2.
    congruence.
  - intros Hidle. apply (i_sending _ (idle_inv st (conj Hs Ht) Hidle) _ _ Ho).
Qed.

(** ** Schedules *)

#[global] Instance server_enabled_dec w l : Decision (Server.enabled w l).
Proof. destruct l; cbn; apply _. Defined.

#[global] Instance enabled_dec st a : Decision (enabled st a).
Proof.
  destruct a as [l | t]; cbn.
  - apply and_dec; [apply _ |]. destruct (thread_of l) as [t |]; [| left; done].
    destruct (running st t); [by right | by left].
  - destruct (running st t); [by left | right; by intros H].
Defined.

Fixpoint run (steps : list Step) (st : State) : option State :=
  match steps with
  | [] => Some st
  | a :: steps' =>
      if decide (enabled st a) then match exec a st with Next st' => run steps' st' | Halt _ => None end
      else None
  end.

(** A handler from its beginning through [k] actions of its thread. *)
Definition through (l : Label) (k : nat) : list Step :=
  Begin l :: match thread_of l with Some t => repeat (Continue t) k | None => [] end.

Lemma run_steps steps st st' : run steps st = Some st' -> rtc step st st'.
Proof.
  revert st. induction steps as [| a steps IH]; intros st; cbn; [by intros [= ->] |].
  case_decide; [| done]. destruct (exec a st) as [st1 |] eqn:E; [| done].
  intros H1%IH. eapply rtc_l; [by exists a | done].
Qed.

End System.

(** ** Witnesses: two rooms are being created

    Client 5 has asked for two rooms. Worker 2 is about to create the first,
    number 100, while the database thread places the second, number 101. *)
Section Demo.
#[local] Existing Instance zero_indeterminate.
#[local] Existing Instance simple_epoll.

Definition placed (room_id : Z) : Label := LDb Event.DBSuccess (i64_enc room_id) [2; 2].

Definition two_rooms : list Step :=
  through (LAccept 5) 8 ++ through (LWorker 1) 7 ++
  through (Flow.sends 5 CMD_CREATE_ROOM 0) 8 ++ through (LWorker 1) 3 ++
  through (Flow.sends 5 CMD_CREATE_ROOM 0) 8 ++ through (LWorker 1) 3 ++
  through (placed 100) 7 ++ through (LWorker 2) 2 ++ through (placed 101) 2.

Definition reached (steps : list Step) : State := default (init 2) (run steps (init 2)).

Lemma reached_reachable steps :
  match run steps (init 2) with Some _ => true | None => false end = true -> reachable 2 (reached steps).
Proof.
  unfold reached. destruct (run steps (init 2)) as [st |] eqn:E; [| done]. intros _. by eapply run_steps.
Qed.

Lemma two_rooms_reachable : reachable 2 (reached two_rooms).
Proof. apply reached_reachable. by vm_compute. Qed.

(** Two threads are in the middle of a handler, and one goes on. *)
Lemma interleaved_server_safe_witness :
  is_Some (running (reached two_rooms) Db) /\ enabled (reached two_rooms) (Continue (Worker 2)) /\
  match exec (Continue (Worker 2)) (reached two_rooms) with
  | Next st' => idle st' -> Invariant.inv (world (shared st'))
  | Halt c => halts 2 (Continue (Worker 2)) c
  end.
Proof.
  assert (He : enabled (reached two_rooms) (Continue (Worker 2))).
  { apply (bool_decide_unpack _). by vm_compute. }
  split; [| split; [exact He |]].
  - assert (E : match running (reached two_rooms) Db with Some _ => true | None => false end = true) by by vm_compute.
    by destruct (running (reached two_rooms) Db).
  - apply (interleaved_server_safe 2 (reached two_rooms) _ two_rooms_reachable He).
Defined.

Lemma interleaved_capacity_witness :
  exists r room, room_workers (world (shared (reached two_rooms))) !! 1 = Some r /\ rooms_ r !! 1 = Some room /\
  Room.room_id_ room = 1 /\
  Z.of_nat (size (Room.sessions_ room)) <= (if decide (1 = 1 /\ 1 = 1) then 999 else 5) /\
  (forall fd sid, Room.sessions_ room !! fd = Some sid ->
     exists o, heap (world (shared (reached two_rooms))) !! sid = Some o /\ Session.get_fd o = fd) /\
  (exists lobby, room_workers (world (shared (reached two_rooms))) !! 1 = Some lobby /\ is_Some (rooms_ lobby !! 1)).
Proof.
  eexists _, _. do 2 (split; [by vm_compute |]).
  eapply (interleaved_capacity 2 (reached two_rooms) 1 _ 1); [apply two_rooms_reachable | by vm_compute ..].
Defined.

Lemma interleaved_streams_witness :
  let st := reached two_rooms in
  exists o, heap (world (shared st)) !! 0%nat = Some o /\
  Session.sent_stream o = all_packed (shared st) 0%nat /\
  (forall t1 t2 p1 p2, flushing st t1 0%nat p1 -> flushing st t2 0%nat p2 ->
     FlushConc.owns p1 -> FlushConc.owns p2 -> t1 = t2) /\
  (idle st -> Session.sending_ o = false).
Proof.
  cbv zeta. eexists. split; [by vm_compute |].
  apply (interleaved_streams 2 (reached two_rooms) 0%nat); [apply two_rooms_reachable | by vm_compute].
Defined.

End Demo.
End Interleaving.
