(* ===== verification/Alone.v ===== *)
(** * Alone: a program nobody interrupts is the handler of the one-step model

    [sim_at t p m s]: from the state [s], thread [t] running [p] to its end
    reaches what the one-step handler [m] of World.v computes, value, world and
    fault. Every program of Programs.v simulates the handler of the same name,
    so every execution of the one-step model is an execution of the
    interleaved one in which handlers happen not to overlap. The last part
    closes a connection this way ([connection_closed]): the programs keep the
    objects that have left the tables, which the one-step world does not. *)

From S2P Require Import Prelude Codec Wire Decimal Session User Room Event World RoomManager RoomWorker.
From S2P Require Import Invariant RoomWorkerSafe Server System FlushConc Loops RoomWorkerSpec Flow Lifecycle Shared.
From S2P Require Import Programs RelyGuarantee Actions ProgramsSafe Interleaving.

Module Alone.
Import Protocol World Server Shared Programs.

(** No flush in progress. *)
Definition calm (s : Shared) : Prop := map_Forall (fun _ o => Session.sending_ o = false) (heap (world s)).

Lemma calm_heap s s' : heap (world s') = heap (world s) -> calm s -> calm s'.
Proof. unfold calm. by intros ->. Qed.

Definition is_repeat {A : Type} (p : Prog A) : bool := match p with Repeat _ _ => true | _ => false end.

Section Alone.
Context {Indet : Indeterminate} {Kernel : EpollKernel} (t : Tid).

Definition alone {A : Type} (c c' : Prog A * Shared) : Prop :=
  is_repeat c.1 = false /\ prog_step t c.1 c.2 = Some (More c'.1 c'.2).

Definition sim_at {A : Type} (p : Prog A) (m : M A) (s : Shared) : Prop :=
  match m (world s) with
  | Ok a w' => exists s', rtc alone (p, s) (Ret a, s') /\ world s' = w' /\ calm s'
  | Stop f => exists p' s', rtc alone (p, s) (p', s') /\ prog_step t p' s' = Some (Broken (Handler f))
  end.

Definition sim {A : Type} (p : Prog A) (m : M A) : Prop := forall s, calm s -> sim_at p m s.

(** ** Composition *)

Lemma step_andthen {A B : Type} (p : Prog A) (f : A -> Prog B) s n :
  is_repeat p = false -> prog_step t p s = Some n ->
  is_repeat (andthen p f) = false /\
  prog_step t (andthen p f) s =
  Some (match n with More p' s' => More (andthen p' f) s' | Broken c => Broken c end).
Proof.
  intros Hp H. destruct p as [a | a k | sid pc k | e | body k]; cbn in H |- *; try done.
  - split; [done |]. destruct (perform a s); by injection H as <-.
  - split; [done |]. destruct pc; try (destruct (flush_step _ _ _ _)); by injection H as <-.
  - by injection H as <-.
Qed.

Lemma alone_andthen {A B : Type} (f : A -> Prog B) c c' :
  rtc alone c c' -> rtc alone (andthen c.1 f, c.2) (andthen c'.1 f, c'.2).
Proof.
  induction 1 as [| c1 c2 c3 [Hr H] _ IH]; [done |]. eapply rtc_l; [| exact IH].
  destruct (step_andthen c1.1 f c1.2 _ Hr H). by split.
Qed.

Lemma broken_andthen {A B : Type} (p : Prog A) (f : A -> Prog B) s c :
  prog_step t p s = Some (Broken c) -> prog_step t (andthen p f) s = Some (Broken c).
Proof.
  intros H. destruct (is_repeat p) eqn:E; [by destruct p |].
  by destruct (step_andthen p f s _ E H) as [_ ->].
Qed.

Lemma sim_at_ret {A : Type} (a : A) s : calm s -> sim_at (Ret a) (ret a) s.
Proof. intros Hc. exists s. split_and!; [apply rtc_refl | done..]. Qed.

Lemma sim_ret {A : Type} (a : A) : sim (Ret a) (ret a).
Proof. intros s. apply sim_at_ret. Qed.

Lemma sim_at_bind {A B : Type} (p : Prog A) (f : A -> Prog B) m g s :
  sim_at p m s ->
  (forall a s', calm s' -> m (world s) = Ok a (world s') -> sim_at (f a) (g a) s') ->
  sim_at (andthen p f) (bind m g) s.
Proof.
  unfold sim_at at 1 3. unfold bind. intros Hp Hf. destruct (m (world s)) as [a w1 | e].
  - destruct Hp as (s1 & Hr & <- & Hc). specialize (Hf a s1 Hc eq_refl). unfold sim_at in Hf.
    apply (alone_andthen f) in Hr. cbn in Hr. destruct (g a (world s1)) as [b w2 | e].
    + destruct Hf as (s2 & Hr2 & Hf). exists s2. split; [by etransitivity | done].
    + destruct Hf as (p' & s2 & Hr2 & Hf). exists p', s2. split; [by etransitivity | done].
  - destruct Hp as (p' & s1 & Hr & Hb). apply (alone_andthen f) in Hr. cbn in Hr.
    eexists _, s1. split; [exact Hr |]. by apply broken_andthen.
Qed.

Lemma sim_bind {A B : Type} (p : Prog A) (f : A -> Prog B) m g :
  sim p m -> (forall a, sim (f a) (g a)) -> sim (andthen p f) (bind m g).
Proof. intros Hp Hf s Hs. apply sim_at_bind; [by apply Hp |]. intros a s' Hs' _. by apply Hf. Qed.

(** The handler's own reading of the world. *)
Lemma sim_at_gets {A B : Type} (p : Prog B) (h : World -> A) g s :
  sim_at p (g (h (world s))) s -> sim_at p (bind (gets h) g) s.
Proof. done. Qed.

(** One action first. *)
Lemma sim_at_act {A : Type} a (k : result a -> Prog A) m s r s' :
  perform a s = Done r s' -> sim_at (k r) (fun _ => m (world s)) s' -> sim_at (Act a k) m s.
Proof.
  intros E. unfold sim_at. intros H.
  assert (H1 : alone (Act a k, s) (k r, s')) by (split; [done | cbn; by rewrite E]).
  destruct (m (world s)).
  - destruct H as (s2 & Hr & H). exists s2. split; [by eapply rtc_l | done].
  - destruct H as (p' & s2 & Hr & H). exists p', s2. split; [by eapply rtc_l | done].
Qed.

(** An action that only reads. *)
Lemma sim_at_see {A : Type} a (k : result a -> Prog A) m s r :
  perform a s = Done r s -> sim_at (k r) m s -> sim_at (Act a k) m s.
Proof. intros E H. by eapply sim_at_act. Qed.

(** An action that is an operation of the one-step model. *)
Lemma sim_act a (m : M (result a)) :
  (forall s, calm s -> match m (world s) with
    | Ok r w' => exists s', perform a s = Done r s' /\ world s' = w' /\ calm s'
    | Stop f => perform a s = Crashed (Handler f)
    end) -> sim (act a) m.
Proof.
  intros H s Hs. specialize (H s Hs). unfold sim_at. destruct (m (world s)) as [r w' | f].
  - destruct H as (s' & E & Hw & Hc). exists s'. split; [| done]. apply rtc_once. split; [done |]. cbn. by rewrite E.
  - exists (act a), s. split; [apply rtc_refl |]. cbn. by rewrite H.
Qed.

Lemma sim_deref {A : Type} e (o : option A) : sim (deref e o) (World.deref e o).
Proof.
  intros s Hs. destruct o as [a |]; [by apply sim_at_ret |]. exists (Throw e), s. by split; [apply rtc_refl |].
Qed.

Lemma sim_for_each {A : Type} (l : list A) f g :
  (forall a, sim (f a) (g a)) -> sim (for_each l f) (World.for_each l g).
Proof. intros H. induction l as [| a l IH]; [apply sim_ret |]. by apply sim_bind. Qed.

Lemma sim_if {A : Type} (b : Prop) `{Decision b} (p1 p2 : Prog A) m1 m2 :
  sim p1 m1 -> sim p2 m2 -> sim (if decide b then p1 else p2) (if decide b then m1 else m2).
Proof. intros. by case_decide. Qed.

(** ** RoomManager *)

Lemma sim_post_event wid e : sim (act (PostEvent wid e)) (post_event wid e).
Proof.
  apply (sim_act (PostEvent wid e)). intros s Hs. unfold post_event, get_worker, put_worker, bind, modify. cbn.
  unfold on_worker. destruct (room_workers (world s) !! wid); [| done]. by eexists.
Qed.

Lemma sim_find_worker k : sim (act (FindWorker k)) (RoomManager.find_worker k).
Proof. apply (sim_act (FindWorker k)). intros s Hs. cbn. exists s. split_and!; [| done..].
  unfold read, find_worker. by destruct (_ !! k). Qed.

Lemma sim_route_event e target : sim (route_event e target) (RoomManager.route_event e target).
Proof.
  apply sim_bind; [apply sim_if; [apply sim_find_worker | apply sim_ret] |]. intros wid.
  apply sim_if; [apply sim_ret |]. apply sim_bind; [apply sim_post_event | intros; apply sim_ret].
Qed.

Lemma sim_route_then e target : sim (route_event e target ;! Ret tt)%prog (RoomManager.route_event e target ;;; ret tt).
Proof. apply sim_bind; [apply sim_route_event | intros; apply sim_ret]. Qed.

Lemma sim_erase_route k : sim (act (EraseRoute k)) (RoomManager.erase_room_to_worker k).
Proof. apply (sim_act (EraseRoute k)). intros s Hs. cbn. by eexists. Qed.

Lemma sim_junk : sim (act Junk) (gets junk_command).
Proof. apply (sim_act Junk). intros s Hs. cbn. by eexists. Qed.

Lemma sim_padding n : sim (act (Padding n)) (gets (fun w => padding w n)).
Proof. apply (sim_act (Padding n)). intros s Hs. cbn. by eexists. Qed.

Lemma sim_disconnect_session fd room_id :
  sim (disconnect_session fd room_id) (RoomManager.disconnect_session fd room_id).
Proof. apply sim_bind; [apply sim_junk |]. intros junk. apply sim_route_then. Qed.

Lemma sim_dispatch_packet packet sid : sim (dispatch_packet packet sid) (RoomManager.dispatch_packet packet sid).
Proof.
  apply sim_bind; [apply sim_route_event |]. intros r. apply sim_if; [apply sim_route_then | apply sim_ret].
Qed.

Lemma sim_rooms_num wid : sim (act (RoomsNum wid)) (RoomManager.get_rooms_num wid).
Proof.
  apply (sim_act (RoomsNum wid)). intros s Hs. unfold RoomManager.get_rooms_num, get_worker, bind. cbn.
  unfold see_worker. destruct (room_workers (world s) !! wid); [| done]. by exists s.
Qed.

Lemma sim_bind_room_worker room_id draws :
  sim (bind_room_worker room_id draws) (RoomManager.bind_room_worker room_id draws).
Proof.
  apply sim_bind; [apply (sim_act WorkerNum); intros s Hs; cbn; by eexists |]. intros n.
  apply sim_bind; [apply sim_if; [| apply sim_ret] |].
  { intros s Hs. exists (Throw BadDistribution), s. by split; [apply rtc_refl |]. }
  intros _. apply sim_bind; [apply sim_deref |]. intros [first second].
  apply sim_bind; [apply sim_rooms_num |]. intros n1. apply sim_bind; [apply sim_rooms_num |]. intros n2.
  apply sim_bind; [| intros; apply sim_ret].
  apply (sim_act (BindRoute room_id _)). intros s Hs. cbn. by eexists.
Qed.

Lemma sim_session_fd so : sim (session_fd so) (World.session_fd so).
Proof.
  apply sim_bind; [apply sim_deref |]. intros sid. apply (sim_act (GetFd sid)). intros s Hs.
  unfold get_session, bind. cbn. unfold see_session. destruct (heap (world s) !! sid); [| done]. by exists s.
Qed.

(** [get_user(fd)] and what is then done with the pointer. *)
Lemma sim_get_user {A : Type} fd (k : option Z -> Prog A) g s :
  match User.get_user fd (user_manager (world s)) with
  | None => sim_at (k None) (g None) s
  | Some u => forall uid, User.fd_to_user_id_ (user_manager (world s)) !! fd = Some uid ->
      User.users_ (user_manager (world s)) !! uid = Some u -> sim_at (k (Some uid)) (g (Some u)) s
  end ->
  sim_at (andthen (act (GetUser fd)) k) (fun w => g (User.get_user fd (user_manager w)) w) s.
Proof.
  intros H. cbn [andthen act]. unfold act. cbn [andthen].
  apply (sim_at_see (GetUser fd) _ _ _ (uid ← User.fd_to_user_id_ (user_manager (world s)) !! fd;
    _ ← User.users_ (user_manager (world s)) !! uid; Some uid)); [done |].
  unfold User.get_user in *. destruct (_ !! fd) as [uid |] eqn:E; cbn;
    [| unfold sim_at in *; by rewrite E].
  destruct (User.users_ (user_manager (world s)) !! uid) as [u |] eqn:Eu; cbn; unfold sim_at in *; rewrite E, Eu;
    [by apply H | done].
Qed.

Lemma sim_user_room {A : Type} uid u (k : Z -> Prog A) m s :
  User.users_ (user_manager (world s)) !! uid = Some u -> sim_at (k (User.current_room_ u)) m s ->
  sim_at (andthen (act (UserRoom uid)) k) m s.
Proof.
  intros E H. cbn. eapply (sim_at_see (UserRoom uid)); [| exact H].
  cbn. unfold see_user, user_object. by rewrite E.
Qed.

Lemma sim_request_flush sid : sim (request_flush sid) (RoomManager.request_flush sid).
Proof.
  apply sim_bind; [apply sim_session_fd |]. intros fd s Hs. apply sim_at_gets.
  apply (sim_get_user fd _ (fun r => match r with None => ret tt | Some user => _ end)).
  destruct (User.get_user fd _) as [u |]; [| by apply sim_at_ret]. intros uid _ Eu.
  apply (sim_user_room uid u); [done |]. apply sim_bind; [apply sim_junk | | done]. intros junk. apply sim_route_then.
Qed.

(** ** Sending *)

Lemma sim_request (ty : Event.MainEventType) sid o s :
  calm s -> heap (world s) !! sid = Some o ->
  sim_at (request ty sid) (modify (push_main (Event.mkMainEvent ty (Session.get_fd o)))) s.
Proof.
  intros Hs Ho. unfold request, act. cbn [andthen].
  apply (sim_at_see (GetFd sid) _ _ _ (Session.get_fd o)); [cbn; unfold see_session; by rewrite Ho |].
  apply (sim_act (PushMain _)); [| done]. intros s1 Hs1. cbn. by eexists.
Qed.

(** Steps of FlushConc.v before the result is there. *)
Definition under_way (c c' : FlushConc.Pc * Session.Session) : Prop :=
  FlushConc.tstep c.1 c.2 = Some c' /\ forall o r, c.1 <> FlushConc.Posting o r.

Lemma quiet_under_way c c' :
  rtc FlushConc.quiet c c' -> c'.1 <> FlushConc.Idle -> rtc under_way c c'.
Proof.
  induction 1 as [c | c c1 c' (H & _) Hrest IH]; intros Hne; [apply rtc_refl |].
  eapply rtc_l; [| by apply IH]. split; [done |]. intros o r E. destruct c as [p x]. cbn in E, H. subst p.
  injection H as <-. apply rtc_inv in Hrest as [<- | (c2 & (H2 & _) & _)]; [by apply Hne | done].
Qed.

Lemma flush_alone {A : Type} sid (k : Session.FlushResult -> Prog A) c c' :
  rtc under_way c c' -> forall s, heap (world s) !! sid = Some c.2 ->
  exists s', rtc alone (Flush sid c.1 k, s) (Flush sid c'.1 k, s') /\
    world s' = set_heap (<[sid := c'.2]> (heap (world s))) (world s).
Proof.
  induction 1 as [c | c c1 c' (H & Hn) _ IH]; intros s Hs.
  - exists s. split; [apply rtc_refl |]. rewrite insert_id by done. by destruct (world s).
  - destruct c as [p o], c1 as [p1 o1]. cbn in *.
    set (s1 := mkShared (set_heap (<[sid := o1]> (heap (world s))) (world s)) (removed s)
                 (step_owner t sid p p1 (owner s)) (<[sid := all_packed s sid ++ FlushConc.packs p]> (packed s))).
    assert (E : flush_step t sid p s = Done p1 s1) by (unfold flush_step; by rewrite Hs, H).
    destruct (IH s1) as (s' & Hr & Hw); [cbn; apply lookup_insert_eq |].
    exists s'. split; [eapply rtc_l; [| exact Hr] |].
    + split; [done |]. cbn. destruct p; try (by rewrite E). by destruct (Hn o0 r).
    + rewrite Hw. unfold s1. cbn. by rewrite insert_insert_eq.
Qed.

Lemma sim_flush_node {A : Type} sid p o o1 r o' (k : Session.FlushResult -> Prog A) c m s :
  calm s -> heap (world s) !! sid = Some o -> rtc under_way (p, o) (FlushConc.Cas c, o1) ->
  Session.sending_ o1 = false -> Session.flush o1 = (r, o') ->
  (forall s', world s' = set_heap (<[sid := o']> (heap (world s))) (world s) -> calm s' ->
     sim_at (k r) (fun _ => m (world s)) s') ->
  sim_at (Flush sid p k) m s.
Proof.
  intros Hs Ho H1 Hsend Hf Hk. pose proof (FlushConc.flush_runs c o1) as H2. rewrite Hf in H2. cbn in H2.
  apply quiet_under_way in H2; [| done].
  assert (H12 : rtc under_way (p, o) (FlushConc.Posting c r, o')) by (by etransitivity).
  destruct (flush_alone sid k (p, o) _ H12 s Ho) as (s' & Hr & Hw). cbn in Hr, Hw.
  assert (Hc : calm s').
  { unfold calm. rewrite Hw. cbn. apply map_Forall_insert_2; [| done].
    by apply Session.flush_stream in Hf as (_ & Hf & _). }
  specialize (Hk s' Hw Hc). assert (Hlast : alone (Flush sid (FlushConc.Posting c r) k, s') (k r, s')) by done.
  unfold sim_at in *. destruct (m (world s)).
  - destruct Hk as (s2 & Hr2 & Hk). exists s2. split; [| done].
    etransitivity; [exact Hr |]. by eapply rtc_l.
  - destruct Hk as (p2 & s2 & Hr2 & Hk). exists p2, s2. split; [| done].
    etransitivity; [exact Hr |]. by eapply rtc_l.
Qed.

(** Without the session both stop in the same way. *)
Lemma sim_flush_dangling {A : Type} sid p (k : Session.FlushResult -> Prog A) m s :
  heap (world s) !! sid = None -> (forall c r, p <> FlushConc.Posting c r) ->
  m (world s) = Stop DanglingSession -> sim_at (Flush sid p k) m s.
Proof.
  intros Ho Hp Hm. unfold sim_at. rewrite Hm. exists (Flush sid p k), s. split; [apply rtc_refl |].
  assert (E : flush_step t sid p s = Crashed (Handler DanglingSession)) by (unfold flush_step; by rewrite Ho).
  cbn. destruct p; try (by rewrite E). by destruct (Hp o r).
Qed.

Lemma send_packet_world (so : Room.Sid) data w o r o' :
  heap w !! so = Some o -> Session.flush (Session.pack data o) = (r, o') ->
  RoomWorker.send_packet (Some so) data w =
  match r with
  | Session.Pending => modify (push_main (Event.mkMainEvent Event.EnableEpollOut (Session.get_fd o')))
  | Session.Error => modify (push_main (Event.mkMainEvent Event.Disconnect (Session.get_fd o')))
  | Session.Complete => ret tt
  end (set_heap (<[so := o']> (heap w)) w).
Proof.
  intros Ho Hf. unfold RoomWorker.send_packet, World.deref, bind, get_session, ret at 1. rewrite Ho, Hf.
  by destruct r.
Qed.

Lemma flush_world (so : Room.Sid) w o r o' :
  heap w !! so = Some o -> Session.flush o = (r, o') ->
  RoomWorker.flush (Some so) w =
  match r with
  | Session.Pending => ret tt
  | Session.Error => modify (push_main (Event.mkMainEvent Event.Disconnect (Session.get_fd o')))
  | Session.Complete => modify (push_main (Event.mkMainEvent Event.DisalbeEpollOut (Session.get_fd o')))
  end (set_heap (<[so := o']> (heap w)) w).
Proof.
  intros Ho Hf. unfold RoomWorker.flush, World.deref, bind, get_session, ret at 1. rewrite Ho, Hf. by destruct r.
Qed.

(** What follows a flush, in the world it left. *)
Lemma sim_after_flush sid o' w s (p : Prog unit) (m1 : M unit) (m : M unit) w0 :
  world s = set_heap (<[sid := o']> (heap w)) w -> m w0 = m1 (set_heap (<[sid := o']> (heap w)) w) ->
  sim_at p m1 s -> sim_at p (fun _ => m w0) s.
Proof. intros Hw E H. unfold sim_at in *. by rewrite E, <- Hw. Qed.

Lemma sim_send_packet so data : sim (send_packet so data) (RoomWorker.send_packet so data).
Proof.
  destruct so as [sid |]; [| by intros s Hs; exists (Throw NullSession), s; split; [apply rtc_refl |]].
  intros s Hs. destruct (heap (world s) !! sid) as [o |] eqn:Ho.
  - destruct (Session.flush (Session.pack data o)) as [r o'] eqn:Hf.
    eapply (sim_flush_node sid _ o (Session.pack data o) r o' _ FlushConc.BySendPacket); try done.
    + by apply rtc_once.
    + by apply (Hs sid o).
    + intros s' Hw Hc. pose proof (send_packet_world sid data (world s) o r o' Ho Hf) as E.
      eapply (sim_after_flush sid o' (world s) s'); [exact Hw | exact E |].
      assert (Ho' : heap (world s') !! sid = Some o') by (rewrite Hw; apply lookup_insert_eq).
      destruct r; [by apply sim_at_ret | by apply sim_request ..].
  - apply sim_flush_dangling; [done | done |].
    unfold RoomWorker.send_packet, bind, get_session. cbn. by rewrite Ho.
Qed.

Lemma sim_flush so : sim (flush so) (RoomWorker.flush so).
Proof.
  destruct so as [sid |]; [| by intros s Hs; exists (Throw NullSession), s; split; [apply rtc_refl |]].
  intros s Hs. destruct (heap (world s) !! sid) as [o |] eqn:Ho.
  - destruct (Session.flush o) as [r o'] eqn:Hf.
    eapply (sim_flush_node sid _ o o r o' _ FlushConc.ByFlush); try done.
    + by apply (Hs sid o).
    + intros s' Hw Hc. pose proof (flush_world sid (world s) o r o' Ho Hf) as E.
      eapply (sim_after_flush sid o' (world s) s'); [exact Hw | exact E |].
      assert (Ho' : heap (world s') !! sid = Some o') by (rewrite Hw; apply lookup_insert_eq).
      destruct r; [by apply sim_request | by apply sim_at_ret | by apply sim_request].
  - apply sim_flush_dangling; [done | done |].
    unfold RoomWorker.flush, bind, get_session. cbn. by rewrite Ho.
Qed.

Lemma sim_send_response e : sim (send_response e) (RoomWorker.send_response e).
Proof. apply sim_bind; [apply sim_padding |]. intros pad. apply sim_send_packet. Qed.

Lemma sim_current_room e : sim (current_room e) (RoomWorker.current_room e).
Proof. apply sim_bind; [apply sim_deref |]. intros a. apply sim_ret. Qed.

(** ** Rooms *)

(** [get_rooms] and a look at one of them. *)
Lemma sim_find_room {A : Type} wid k (f : option Room.Room -> Prog A) (g : gmap Z Room.Room -> M A) s :
  (forall r, room_workers (world s) !! wid = Some r -> sim_at (f (rooms_ r !! k)) (g (rooms_ r)) s) ->
  sim_at (andthen (act (FindRoom wid k)) f) (bind (get_rooms wid) g) s.
Proof.
  intros H. unfold act. cbn [andthen]. destruct (room_workers (world s) !! wid) as [r |] eqn:E.
  - apply (sim_at_see (FindRoom wid k) _ _ _ (rooms_ r !! k)); [cbn; unfold see_worker; by rewrite E |].
    unfold sim_at in *. unfold get_rooms, get_worker, bind, ret. rewrite E. by apply H.
  - unfold sim_at, get_rooms, get_worker, bind. rewrite E. exists (Act (FindRoom wid k) f), s.
    split; [apply rtc_refl |]. cbn. unfold see_worker. by rewrite E.
Qed.

(** Writing the rooms of the worker. *)
Lemma sim_put_rooms {A : Type} wid a r rs (f : result a -> Prog A) g s (x : result a) :
  room_workers (world s) !! wid = Some r ->
  (forall s, room_workers (world s) !! wid = Some r -> perform a s =
     Done x (set_world (set_workers (<[wid := set_rooms rs r]> (room_workers (world s))) (world s)) s)) ->
  (forall s', world s' = set_workers (<[wid := set_rooms rs r]> (room_workers (world s))) (world s) ->
     heap (world s') = heap (world s) -> room_workers (world s') !! wid = Some (set_rooms rs r) ->
     sim_at (f x) g s') ->
  sim_at (Act a f) (put_rooms wid rs ;;; g) s.
Proof.
  intros E Hp H. eapply sim_at_act; [by apply Hp |].
  specialize (H (set_world (set_workers (<[wid := set_rooms rs r]> (room_workers (world s))) (world s)) s)
                eq_refl eq_refl (lookup_insert_eq _ _ _)).
  unfold sim_at in *. unfold put_rooms, get_worker, put_worker, bind, modify. by rewrite E.
Qed.

Lemma sim_create_room wid e n : sim (create_room wid e n) (RoomWorker.create_room wid e n).
Proof.
  apply sim_bind; [apply sim_current_room |]. intros k s Hs. apply sim_find_room. intros r Er.
  destruct (rooms_ r !! k); [by apply sim_at_ret |]. unfold act. cbn [andthen].
  eapply (sim_put_rooms wid _ r); [done | | ].
  - intros s1 E1. cbn. unfold on_worker. by rewrite E1.
  - intros s' _ Hh _. apply sim_at_ret. by eapply calm_heap.
Qed.

(** [user->set_current_room(r)] right after [get_user]. *)
Lemma sim_set_user_room fd uid k u s :
  calm s -> User.fd_to_user_id_ (user_manager (world s)) !! fd = Some uid ->
  User.users_ (user_manager (world s)) !! uid = Some u ->
  sim_at (act (SetUserRoom uid k))
    (modify (fun w => set_users (User.user_set_room fd k (user_manager w)) w)) s.
Proof.
  intros Hs E1 E2. apply (sim_at_act (SetUserRoom uid k) Ret _ _ tt
    (set_world (set_users (User.user_set_room fd k (user_manager (world s))) (world s)) s)).
  - cbn. unfold on_user, User.user_set_room. by rewrite E1, E2.
  - eexists. split; [apply rtc_refl |]. split; [done |]. by eapply calm_heap.
Qed.

Lemma sim_join_room_session wid so k : sim (join_room_session wid so k) (RoomWorker.join_room_session wid so k).
Proof.
  intros s Hs. apply sim_find_room. intros r Er. destruct (rooms_ r !! k) as [room |]; [| by apply sim_at_ret].
  apply sim_at_bind; [by apply sim_session_fd |]. intros fd s1 Hs1 E1.
  assert (Hw : world s1 = world s).
  { unfold World.session_fd, World.deref, bind, get_session, fault, ret in E1. destruct so; [| done].
    destruct (heap (world s) !! _); by simplify_eq. }
  clear E1. apply sim_at_bind; [by apply sim_deref |]. intros sid s2 Hs2 E2.
  assert (Hw2 : world s2 = world s) by (rewrite <- Hw; destruct so; [by injection E2 as _ -> | done]).
  destruct (Room.join_session fd sid room) as [b room']. destruct b; [| by apply sim_at_ret].
  unfold act at 1. cbn [andthen]. eapply (sim_put_rooms wid _ r); [by rewrite Hw2 | | ].
  - intros s3 E3. cbn. unfold on_worker. by rewrite E3.
  - intros s3 _ Hh _. assert (Hs3 : calm s3) by (by eapply calm_heap).
    apply (sim_get_user fd _ (fun r => match r with None => ret UserNotFound | Some _ => _ end)).
    destruct (User.get_user fd _) as [u |]; [| by apply sim_at_ret]. intros uid E4 E5.
    apply sim_at_bind; [by eapply sim_set_user_room |]. intros [] s4 Hs4 _. by apply sim_at_ret.
Qed.

Lemma sim_join_room wid e : sim (join_room wid e) (RoomWorker.join_room wid e).
Proof. apply sim_bind; [apply sim_current_room |]. intros k. apply sim_join_room_session. Qed.

Lemma sim_leave_room_fd wid fd k : sim (leave_room_fd wid fd k) (RoomWorker.leave_room_fd wid fd k).
Proof.
  intros s Hs. apply sim_find_room. intros r Er. destruct (rooms_ r !! k) as [room |]; [| by apply sim_at_ret].
  destruct (Room.exit_session fd room) as [b room']. destruct b; [| by apply sim_at_ret].
  unfold act at 1. cbn [andthen]. eapply (sim_put_rooms wid _ r); [done | | ].
  { intros s1 E1. cbn. unfold on_worker. by rewrite E1. }
  intros s1 _ Hh E1. set (r1 := set_rooms _ r) in *.
  assert (Hs1 : calm s1) by (by eapply calm_heap). clear s Hs Er Hh.
  unfold act at 1. cbn [andthen].
  apply (sim_at_see (TypeOf wid) _ _ _ (type_ r1)); [cbn; unfold see_worker; by rewrite E1 |].
  assert (Hsee : forall (A : Type) (p : Prog A) (g : World.RoomWorker -> M A), sim_at p (g r1) s1 ->
    sim_at p (bind (get_worker wid) g) s1).
  { intros A p g H. unfold sim_at in *. unfold bind, get_worker. by rewrite E1. }
  apply Hsee. apply sim_at_bind; [| intros [] s2 Hs2 _; by apply sim_at_ret].
  destruct (decide (Room.get_sessions_num room' <= 0 /\ type_ r1 = WRoom)) as [Hd | Hd];
    [rewrite decide_True by exact Hd | rewrite decide_False by exact Hd; by apply sim_at_ret].
  apply sim_at_bind; [by apply sim_erase_route |]. intros [] s2 Hs2 E2. injection E2 as E2.
  assert (Er2 : room_workers (world s2) !! wid = Some r1) by (rewrite <- E2; exact E1).
  assert (E0 : sim_at (act (EraseRoom wid (Room.room_id_ room')))
    (put_rooms wid (delete (Room.room_id_ room') (rooms_ r1)) ;;; ret tt) s2).
  { unfold act. eapply (sim_put_rooms wid _ r1); [done | |].
    - intros s3 E3. cbn. unfold on_worker. by rewrite E3.
    - intros s3 _ Hh _. apply sim_at_ret. by eapply calm_heap. }
  revert E0. unfold sim_at, bind. by destruct (put_rooms _ _ _) as [[] |].
Qed.

Lemma sim_leave_room wid e : sim (leave_room wid e) (RoomWorker.leave_room wid e).
Proof.
  apply sim_bind; [apply sim_session_fd |]. intros fd. apply sim_bind; [apply sim_current_room |]. intros k.
  apply sim_leave_room_fd.
Qed.

Lemma sim_leave_first wid fd ids : sim (leave_first wid fd ids) (RoomWorker.leave_first wid fd ids).
Proof.
  induction ids as [| k ids IH]; [apply sim_ret |]. apply sim_bind; [apply sim_leave_room_fd |]. intros r.
  apply sim_if; [apply sim_ret | done].
Qed.

Lemma sim_diconnect_session wid fd k : sim (diconnect_session wid fd k) (RoomWorker.diconnect_session wid fd k).
Proof.
  apply sim_bind; [apply sim_leave_room_fd |]. intros res. apply sim_if; [apply sim_ret |].
  intros s Hs. unfold act. cbn [andthen]. destruct (room_workers (world s) !! wid) as [r |] eqn:E.
  - apply (sim_at_see (RoomIds wid) _ _ _ ((fun p => Room.room_id_ p.2) <$> map_to_list (rooms_ r)));
      [cbn; unfold see_worker; by rewrite E |].
    pose proof (sim_leave_first wid fd ((fun p => Room.room_id_ p.2) <$> map_to_list (rooms_ r)) s Hs) as H.
    unfold sim_at in *. unfold get_rooms, get_worker, bind, ret. by rewrite E.
  - unfold sim_at, get_rooms, get_worker, bind. rewrite E. eexists _, s.
    split; [apply rtc_refl |]. cbn. unfold see_worker. by rewrite E.
Qed.

(** ** Messages *)

Lemma sim_at_eq {A : Type} (p : Prog A) m1 m2 s : m1 (world s) = m2 (world s) -> sim_at p m1 s -> sim_at p m2 s.
Proof. unfold sim_at. by intros ->. Qed.

Lemma sim_broadcast_to e k data sid : sim (broadcast_to e k data sid) (RoomWorker.broadcast_to e k data sid).
Proof.
  apply sim_bind; [apply sim_session_fd |]. intros fd. apply sim_bind; [apply sim_session_fd |]. intros sender.
  apply sim_if; [apply sim_ret |]. intros s Hs.
  apply (sim_get_user fd _ (fun r => match r with None => ret tt | Some _ => _ end)).
  destruct (User.get_user fd _) as [u |]; [| by apply sim_at_ret]. intros uid _ Eu.
  apply (sim_user_room uid u); [done |]. apply sim_if; [apply sim_ret | apply sim_send_packet | done].
Qed.

Lemma sim_send_message wid e : sim (send_message wid e) (RoomWorker.send_message wid e).
Proof.
  apply sim_bind; [apply sim_current_room |]. intros k s Hs. apply sim_find_room. intros r Er.
  destruct (rooms_ r !! k) as [room |]; [| by apply sim_at_ret].
  apply sim_at_bind; [by apply sim_session_fd |]. intros fd s1 Hs1 _. apply sim_at_gets.
  unfold act at 1. cbn [andthen]. eapply (sim_at_see (GetUserId fd)); [done |].
  apply sim_bind; [apply sim_padding | | done]. intros pad.
  apply sim_bind; [| intros; apply sim_ret]. apply sim_for_each. intros p. apply sim_broadcast_to.
Qed.

Lemma sim_post_job j : sim (act (PostJob j)) (post_job j).
Proof. apply (sim_act (PostJob j)). intros s Hs. cbn. by eexists. Qed.

Lemma sim_save_message wid e : sim (save_message wid e) (RoomWorker.save_message wid e).
Proof.
  apply sim_bind; [apply sim_current_room |]. intros k. apply sim_bind; [apply sim_session_fd |]. intros fd s Hs.
  apply sim_at_gets. unfold act at 1. cbn [andthen]. eapply (sim_at_see (GetUserId fd)); [done |]. by apply sim_post_job.
Qed.

Lemma sim_load_message e : sim (request_db_load_message e) (RoomWorker.request_db_load_message e).
Proof. apply sim_bind; [apply sim_current_room |]. intros k. apply sim_post_job. Qed.

(** ** The interpreter *)

Lemma sim_after_action e cmd f g :
  (forall e, sim (f e) (g e)) -> sim (after_action e cmd f) (RoomWorker.after_action e cmd g).
Proof.
  intros H. apply sim_if; [| apply H]. apply sim_bind; [apply sim_deref |]. intros first.
  apply sim_bind; [| intros; apply sim_send_response]. apply sim_if; [apply sim_erase_route | apply sim_ret].
Qed.

(** A room action and what follows it. *)
Lemma sim_result (p : Prog Protocol.Result) m e cmd f g :
  sim p m -> (forall e, sim (f e) (g e)) ->
  sim (let! r := p in after_action (Event.set_result r e) cmd f)%prog
    (let* r := m in RoomWorker.after_action (Event.set_result r e) cmd g).
Proof. intros Hp H. apply sim_bind; [done |]. intros r. by apply sim_after_action. Qed.

Lemma sim_process_loop fuel wid e : sim (process_loop fuel wid e) (RoomWorker.process_loop fuel wid e).
Proof.
  revert e. induction fuel as [| fuel IH]; intros e; [apply sim_ret |].
  apply sim_if; [| apply sim_ret]. apply sim_if; [apply sim_send_response |].
  apply sim_bind; [apply sim_deref |]. intros action. cbv zeta.
  destruct (Event.command action).
  - apply sim_result; [apply sim_create_room | done].
  - apply sim_result; [apply sim_join_room | done].
  - apply sim_result; [apply sim_leave_room | done].
  - apply sim_result; [apply sim_send_message | done].
  - apply sim_post_job.
  - apply sim_load_message.
  - apply sim_bind; [apply sim_save_message |]. intros _. by apply sim_after_action.
  - apply sim_route_then.
  - apply sim_route_then.
  - apply sim_send_response.
  - apply sim_flush.
  - apply sim_bind; [apply sim_diconnect_session | intros; apply sim_ret].
Qed.

Lemma sim_process_event wid e : sim (process_event wid e) (RoomWorker.process_event wid e).
Proof. apply sim_process_loop. Qed.

Lemma sim_worker_step wid : sim (worker_step wid) (RoomWorker.worker_step wid).
Proof.
  intros s Hs. unfold worker_step, RoomWorker.worker_step, act. cbn [andthen].
  destruct (room_workers (world s) !! wid) as [r |] eqn:E.
  - eapply (sim_at_eq _ (match event_queue_ r with [] => ret false | _ => _ end));
      [unfold bind at 1, get_worker; rewrite E; reflexivity |].
    destruct (event_queue_ r) as [| e q] eqn:Eq.
    + eapply (sim_at_act (PopEvent wid)); [cbn; unfold on_worker; by rewrite E, Eq |].
      unfold sim_at. cbn. eexists. split; [apply rtc_refl |]. split; [| by eapply calm_heap].
      cbn. rewrite insert_id; [by destruct (world s) |]. rewrite E. destruct r. cbn in Eq |- *. by subst.
    + eapply (sim_at_act (PopEvent wid)); [cbn; unfold on_worker; by rewrite E, Eq |].
      pose (s' := set_world (set_workers (<[wid := set_queue q r]> (room_workers (world s))) (world s)) s).
      change (sim_at (process_event wid e ;! Ret true)%prog (RoomWorker.process_event wid e ;;; ret true) s').
      apply sim_bind; [apply sim_process_event | intros; apply sim_ret |]. by eapply calm_heap.
  - unfold sim_at, bind at 1, get_worker. rewrite E. eexists _, s. split; [apply rtc_refl |].
    cbn. unfold on_worker. by rewrite E.
Qed.

(** ** The database thread *)

Lemma sim_run_callback c status data draws :
  sim (run_callback c status data draws) (RoomWorker.run_callback c status data draws).
Proof.
  destruct c as [| e | e]; cbn; [apply sim_ret | |].
  - unfold db_create_room_on_result, RoomWorker.db_create_room_on_result.
    destruct (Codec.take 8 (Codec.reader data)) as [taken rd].
    destruct (if decide (status = Event.DBStError) then None else taken); [| apply sim_route_then].
    cbv zeta. apply sim_bind; [apply sim_bind_room_worker |]. intros wid. apply sim_route_then.
  - apply sim_bind; [apply sim_current_room |]. intros k. apply sim_route_then.
Qed.

Lemma sim_db_step status data draws : sim (db_step status data draws) (Server.db_step status data draws).
Proof.
  intros s Hs. unfold db_step, act. cbn [andthen]. apply sim_at_gets.
  destruct (job_queue (world s)) as [| j js] eqn:Eq.
  - eapply (sim_at_act PopJob); [cbn; by rewrite Eq |]. unfold sim_at. cbn. eexists.
    split; [apply rtc_refl |]. split; [| by eapply calm_heap]. destruct s as [w]. cbn in *. destruct w. cbn in *. by subst.
  - eapply (sim_at_act PopJob); [cbn; by rewrite Eq |]. apply (sim_run_callback _ _ _ _ (set_world (set_jobs js (world s)) s)).
    by eapply calm_heap.
Qed.

(** ** The main thread *)

Lemma sim_find_session fd : sim (act (FindSession fd)) (find_session fd).
Proof. apply (sim_act (FindSession fd)). intros s Hs. cbn. by eexists. Qed.

Lemma sim_epoll_ctl op : sim (act (EpollCtl op)) (epoll_ctl op).
Proof.
  apply (sim_act (EpollCtl op)). intros s Hs. unfold epoll_ctl, bind, gets, modify. cbn.
  destruct (epoll_ctl_ok _ _); [by eexists | done].
Qed.

Lemma sim_add_session fd : sim (act (AddSession fd)) (Server.add_session fd).
Proof.
  apply (sim_act (AddSession fd)). intros s Hs. cbn. eexists. split_and!; [done.. |].
  unfold calm. cbn. by apply map_Forall_insert_2.
Qed.

(** A write the one-step handler makes in the middle of itself. *)
Lemma sim_at_modify {A : Type} a (k : result a -> Prog A) f g r s s' :
  perform a s = Done r s' -> world s' = f (world s) -> sim_at (k r) g s' ->
  sim_at (Act a k) (modify f ;;; g) s.
Proof.
  intros E Hf H. eapply sim_at_act; [done |]. unfold sim_at, bind, modify in *. by rewrite <- Hf.
Qed.

Lemma sim_accept_client fd : sim (accept_client fd) (Server.accept_client fd).
Proof.
  apply sim_if; [apply sim_ret |]. apply sim_bind; [apply sim_epoll_ctl |]. intros _.
  apply sim_bind; [apply sim_add_session |]. intros _ s Hs. unfold act at 1. cbn [andthen].
  eapply (sim_at_modify NextUser); [done.. |]. apply sim_at_gets.
  eapply (sim_at_modify (AddUser _)); [done.. |].
  apply sim_bind; [apply sim_junk | | by eapply calm_heap]. intros junk.
  apply sim_bind; [apply sim_find_session |]. intros session. apply sim_route_then.
Qed.

Lemma sim_mark_user fd uid u s :
  calm s -> User.fd_to_user_id_ (user_manager (world s)) !! fd = Some uid ->
  User.users_ (user_manager (world s)) !! uid = Some u ->
  sim_at (act (MarkUser uid)) (modify (fun w => set_users (User.user_mark_disconnecting fd (user_manager w)) w)) s.
Proof.
  intros Hs E1 E2. apply (sim_at_act (MarkUser uid) Ret _ _ tt
    (set_world (set_users (User.user_mark_disconnecting fd (user_manager (world s))) (world s)) s)).
  - cbn. unfold on_user, User.user_mark_disconnecting. by rewrite E1, E2.
  - eexists. split; [apply rtc_refl |]. split; [done |]. by eapply calm_heap.
Qed.

Lemma calm_put s sid o w : calm s -> Session.sending_ o = false -> heap w = <[sid := o]> (heap (world s)) ->
  calm (set_world w s).
Proof. intros Hs Ho Hw. unfold calm. cbn. rewrite Hw. by apply map_Forall_insert_2. Qed.

Lemma sim_mark_session sid :
  sim (act (MarkSession sid)) (let* o := get_session sid in put_session sid (Session.mark_disconnecting o)).
Proof.
  apply (sim_act (MarkSession sid)). intros s Hs. unfold get_session, put_session, bind, modify. cbn.
  unfold on_session. destruct (heap (world s) !! sid) as [o |] eqn:Ho; [| done].
  eexists. split_and!; [done.. |]. eapply (calm_put _ sid); [done | | done]. by apply (Hs sid o).
Qed.

Lemma sim_remove_session fd : sim (act (RemoveSession fd)) (remove_session fd).
Proof. apply (sim_act (RemoveSession fd)). intros s Hs. cbn. by eexists. Qed.

Lemma sim_epoll_remove fd : sim (act (EpollRemove fd)) (epoll_remove fd).
Proof. apply (sim_act (EpollRemove fd)). intros s Hs. cbn. by eexists. Qed.

(** The second half of [close_session], from the point where the user is known. *)
Lemma sim_close_tail uid u fd room_id :
  forall s, calm s -> User.users_ (user_manager (world s)) !! uid = Some u ->
  sim_at (disconnect_session fd room_id ;!
          (if decide (room_id <> RoomManager.LOBBY_ROOM_ID)
           then disconnect_session fd RoomManager.LOBBY_ROOM_ID else Ret tt) ;!
          act (RemoveSession fd) ;!
          let! id := act (UserId uid) in
          act (RemoveUser id))%prog
    (RoomManager.disconnect_session fd room_id ;;;
     (if decide (room_id <> RoomManager.LOBBY_ROOM_ID)
      then RoomManager.disconnect_session fd RoomManager.LOBBY_ROOM_ID else ret tt) ;;;
     remove_session fd ;;;
     modify (fun w => set_users (User.remove_user (User.user_id_ u) (user_manager w)) w)) s.
Proof.
  intros s Hs Hu. apply sim_at_bind; [by apply sim_disconnect_session |]. intros [] s1 Hs1 E1.
  apply RoomManager.disconnect_session_frame in E1.
  apply sim_at_bind; [apply sim_if; [apply sim_disconnect_session | apply sim_ret | done] |].
  intros [] s2 Hs2 E2.
  assert (Hu2 : User.users_ (user_manager (world s2)) !! uid = Some u).
  { case_decide; [apply RoomManager.disconnect_session_frame in E2 | injection E2 as E2];
      [rewrite E2, E1 | rewrite <- E2, E1]; exact Hu. }
  apply sim_at_bind; [by apply sim_remove_session |]. intros [] s3 Hs3 E3. injection E3 as E3.
  assert (Hu3 : User.users_ (user_manager (world s3)) !! uid = Some u) by (rewrite <- E3; exact Hu2).
  unfold act. cbn [andthen].
  apply (sim_at_see (UserId uid) _ _ _ (User.get_id u)); [cbn; unfold see_user, user_object; by rewrite Hu3 |].
  apply (sim_act (RemoveUser _)); [| done]. intros s4 Hs4. cbn. by eexists.
Qed.

Lemma sim_at_some {A B : Type} e (a : A) (p : Prog B) g s : sim_at p (g a) s -> sim_at p (bind (World.deref e (Some a)) g) s.
Proof. done. Qed.

Lemma sim_at_assoc {A B C : Type} (p : Prog C) (m : M A) (f : A -> M B) g s :
  sim_at p (bind (bind m f) g) s -> sim_at p (bind m (fun a => bind (f a) g)) s.
Proof. apply sim_at_eq. unfold bind. by destruct (m (world s)). Qed.

Lemma sim_close_session fd : sim (close_session fd) (Server.close_session fd).
Proof.
  apply sim_bind; [apply sim_find_session |]. intros [sid |]; [| apply sim_ret].
  apply sim_bind; [apply sim_epoll_remove |]. intros _ s Hs. apply sim_at_gets.
  apply (sim_get_user fd _ (fun r => bind (World.deref NullUser r) _)).
  destruct (User.get_user fd _) as [u |]; [| by exists (Throw NullUser), s; split; [apply rtc_refl |]].
  intros uid E1 E2. cbn [deref andthen].
  apply sim_at_some.
  apply sim_at_bind; [by eapply sim_mark_user |]. intros [] s1 Hs1 F1. injection F1 as F1.
  assert (Hu1 : User.users_ (user_manager (world s1)) !! uid = Some (User.mark_diconnecting u)).
  { rewrite <- F1. cbn. unfold User.user_mark_disconnecting. rewrite E1. cbn. by rewrite lookup_alter_eq, E2. }
  apply sim_at_assoc, sim_at_bind; [by apply sim_mark_session |]. intros [] s2 Hs2 F2.
  assert (Hu2 : User.users_ (user_manager (world s2)) !! uid = Some (User.mark_diconnecting u)).
  { unfold bind, get_session in F2. destruct (heap (world s1) !! sid); [| done]. injection F2 as F2. by rewrite <- F2. }
  apply (sim_user_room uid _ _ _ _ Hu2). by apply (sim_close_tail uid (User.mark_diconnecting u)).
Qed.

Lemma sim_handle_packets fuel sid : sim (handle_packets fuel sid) (Server.handle_packets fuel sid).
Proof.
  induction fuel as [| fuel IH]; [apply sim_ret |]. intros s Hs. cbn [handle_packets Server.handle_packets].
  unfold act. cbn [andthen]. destruct (heap (world s) !! sid) as [o |] eqn:Ho.
  - pose proof (extract_packet_fields empty_packet o) as [_ Hsend].
    destruct (Session.extract_packet empty_packet o) as [[b p] o'] eqn:E. cbn in Hsend.
    assert (Hp : perform (Extract sid) s =
      Done (if b then Some p else None) (set_world (set_heap (<[sid := o']> (heap (world s))) (world s)) s)).
    { cbn. unfold on_session. by rewrite Ho, E. }
    assert (Hc : calm (set_world (set_heap (<[sid := o']> (heap (world s))) (world s)) s)).
    { apply (calm_put _ sid o'); [done | rewrite Hsend; by apply (Hs sid o) | done]. }
    eapply (sim_at_eq _ (if b then put_session sid o' ;;; _ else put_session sid o'));
      [unfold bind at 2, get_session; rewrite Ho, E; by destruct b |].
    destruct b.
    + eapply (sim_at_modify (Extract sid)); [exact Hp | done |].
      apply sim_bind; [apply sim_dispatch_packet | intros; apply IH | exact Hc].
    + eapply (sim_at_act (Extract sid)); [exact Hp |]. eexists. split; [apply rtc_refl | done].
  - unfold sim_at, bind at 1, get_session. rewrite Ho. eexists _, s. split; [apply rtc_refl |].
    cbn. unfold on_session. by rewrite Ho.
Qed.

Lemma sim_handle_request fd ins : sim (handle_request fd ins) (Server.handle_request fd ins).
Proof.
  apply sim_bind; [apply sim_find_session |]. intros [sid |]; [| apply sim_close_session].
  intros s Hs. unfold act. cbn [andthen]. destruct (heap (world s) !! sid) as [o |] eqn:Ho.
  - pose proof (on_readable_fields ins o) as [_ Hsend].
    destruct (Session.on_readable ins o) as [b o'] eqn:E. cbn in Hsend.
    set (s1 := set_world (set_heap (<[sid := o']> (heap (world s))) (world s)) s).
    assert (Hc : calm s1) by (apply (calm_put _ sid o'); [done | rewrite Hsend; by apply (Hs sid o) | done]).
    eapply (sim_at_eq _ (put_session sid o' ;;; _)); [unfold bind at 2, get_session; rewrite Ho, E; reflexivity |].
    eapply (sim_at_modify (Receive sid ins) _ _ _ b s s1); [cbn; unfold on_session; by rewrite Ho, E | done |].
    destruct b; [| by apply sim_close_session].
    apply (sim_at_see (Buffered sid) _ _ _ (length (Session.recv_buffer_ o'))); [| by apply sim_handle_packets].
    cbn. unfold see_session. cbn. by rewrite lookup_insert_eq.
  - unfold sim_at, bind at 1, get_session. rewrite Ho. eexists _, s. split; [apply rtc_refl |].
    cbn. unfold on_session. by rewrite Ho.
Qed.

Lemma sim_handle_epollout fd : sim (handle_epollout fd) (Server.handle_epollout fd).
Proof.
  apply sim_bind; [apply sim_find_session |]. intros [sid |]; [apply sim_request_flush | apply sim_close_session].
Qed.

Lemma sim_on_ready fd epollin epollout hangup :
  sim (on_ready fd epollin epollout hangup) (Server.on_ready fd epollin epollout hangup).
Proof.
  apply sim_bind; [destruct epollin; [apply sim_handle_request | apply sim_ret] |]. intros _.
  apply sim_bind; [destruct epollout; [apply sim_handle_epollout | apply sim_ret] |]. intros _.
  destruct hangup; [apply sim_close_session | apply sim_ret].
Qed.

Lemma sim_handle_main_event e : sim (handle_main_event e) (Server.handle_main_event e).
Proof.
  unfold handle_main_event, Server.handle_main_event.
  destruct (Event.me_type e); first [apply sim_close_session | apply sim_epoll_ctl].
Qed.

(** ** The loop over the main events

    [alone] has no [Repeat]; a whole thread may have one. *)
Definition onestep {A : Type} (c c' : Prog A * Shared) : Prop := prog_step t c.1 c.2 = Some (More c'.1 c'.2).

Definition runs {A : Type} (p : Prog A) (m : M A) (s : Shared) : Prop :=
  match m (world s) with
  | Ok a w' => exists s', rtc onestep (p, s) (Ret a, s') /\ world s' = w' /\ calm s'
  | Stop f => exists p' s', rtc onestep (p, s) (p', s') /\ prog_step t p' s' = Some (Broken (Handler f))
  end.

Lemma alone_onestep {A : Type} (c c' : Prog A * Shared) : rtc alone c c' -> rtc onestep c c'.
Proof. induction 1 as [| c1 c2 c3 [_ H] _ IH]; [done |]. by eapply rtc_l. Qed.

Lemma sim_runs {A : Type} (p : Prog A) m s : sim_at p m s -> runs p m s.
Proof.
  unfold sim_at, runs. destruct (m (world s)); intros H; [destruct H as (s' & Hr & H) | destruct H as (p' & s' & Hr & H)];
    apply alone_onestep in Hr; eauto.
Qed.

(** Steps before a run. *)
Lemma runs_after {A : Type} (p p1 : Prog A) m m1 s s1 :
  rtc onestep (p, s) (p1, s1) -> m (world s) = m1 (world s1) -> runs p1 m1 s1 -> runs p m s.
Proof.
  unfold runs. intros Hr ->. destruct (m1 (world s1)).
  - intros (s2 & Hr2 & H). exists s2. split; [by etransitivity | done].
  - intros (p2 & s2 & Hr2 & H). exists p2, s2. split; [by etransitivity | done].
Qed.

(** What [Repeat] does with the answer of [take_main_event]. *)
Definition again (b : bool) : Prog unit := if b then handle_events else Ret tt.

Lemma handle_events_runs n s :
  calm s -> length (main_events (world s)) = n -> runs handle_events (Server.handle_events_loop n) s.
Proof.
  revert s. induction n as [| n IH]; intros s Hs Hn;
    match goal with |- runs _ ?m _ => apply (runs_after _ (andthen take_main_event again) m m s s) end;
    [apply rtc_once; reflexivity | reflexivity | | apply rtc_once; reflexivity | reflexivity |];
    destruct (main_events (world s)) as [| e q] eqn:Eq; try done.
  - apply sim_runs. eapply (sim_at_act PopMain); [cbn; by rewrite Eq |]. eexists. split; [apply rtc_refl |].
    split; [| by eapply calm_heap]. cbn. destruct s as [w]. cbn in *. destruct w. cbn in *. by subst.
  - injection Hn as Hn. set (s1 := set_world (set_main q (world s)) s).
    assert (Hs1 : calm s1) by (by eapply calm_heap).
    assert (E1 : rtc onestep (andthen take_main_event again, s) (andthen (andthen (handle_main_event e) (fun _ => Ret true)) again, s1)).
    { apply rtc_once. unfold onestep. cbn. by rewrite Eq. }
    pose proof (sim_bind _ (fun _ => Ret true) _ (fun _ => ret true) (sim_handle_main_event e) (fun _ => sim_ret true) s1 Hs1) as H.
    eapply (runs_after _ _ _ (Server.handle_main_event e ;;; handle_events_loop n) _ s1); [exact E1 | |].
    { cbn [handle_events_loop]. unfold bind at 1, gets. by rewrite Eq. }
    pose proof (Loops.keeps_main_event e (world s1)) as Hkeep.
    unfold sim_at, bind in H. unfold runs, bind.
    destruct (Server.handle_main_event e (world s1)) as [[] w2 | c].
    + destruct H as (s2 & Hr & <- & Hs2). apply (alone_andthen again), alone_onestep in Hr.
      specialize (Hkeep tt _ eq_refl). specialize (IH s2 Hs2). rewrite Hkeep in IH. specialize (IH Hn).
      exact (runs_after _ _ (fun _ => handle_events_loop n (world s2)) _ s1 s2 Hr eq_refl IH).
    + destruct H as (p' & s2 & Hr & Hb). apply (alone_andthen again), alone_onestep in Hr.
      eexists _, s2. split; [exact Hr |]. by apply broken_andthen.
Qed.

(** Every handler that a thread runs. *)
Lemma program_runs l s : calm s -> thread_of l <> None -> runs (program l) (Server.exec l) s.
Proof.
  intros Hs Hl. destruct l as [fd | fd i o h | | wid | status data draws | sid outs]; [.. | done].
  - by apply sim_runs, sim_accept_client.
  - by apply sim_runs, sim_on_ready.
  - apply (handle_events_runs _ s Hs eq_refl).
  - apply sim_runs. apply sim_bind; [apply sim_worker_step | intros; apply sim_ret | done].
  - by apply sim_runs, sim_db_step.
Qed.

End Alone.

(** ** In the system *)

Section Included.
Import Interleaving.
Context {Indet : Indeterminate} {Kernel : EpollKernel}.

(** A step of the handler [l], from its beginning to its end. *)
Definition step_of (l : Label) (st st' : State) : Prop :=
  exists a, (a = Begin l \/ exists t, thread_of l = Some t /\ a = Continue t) /\
    enabled st a /\ exec a st = Next st'.

Lemma step_of_step l st st' : rtc (step_of l) st st' -> rtc step st st'.
Proof. induction 1 as [| st1 st2 st3 (a & _ & H) _ IH]; [done |]. eapply rtc_l; [by exists a | done]. Qed.

(** Other threads where they were. *)
Definition others (t : Tid) (st st' : State) : Prop := forall t', t' <> t -> running st' t' = running st t'.

Lemma thread_runs l t c c' st :
  thread_of l = Some t -> rtc (onestep t) c c' -> running st t = Some c.1 -> shared st = c.2 ->
  exists st', rtc (step_of l) st st' /\ running st' t = Some c'.1 /\ shared st' = c'.2 /\ others t st st'.
Proof.
  intros Hl H. revert st. induction H as [c | c c1 c' H _ IH]; intros st Hr Hs; [by exists st; split_and! |].
  destruct (IH (set_running t (Some c1.1) c1.2 st)) as (st' & Hst & Hr' & Hs' & Ho).
  { cbn. by rewrite decide_True. }
  { done. }
  exists st'. split_and!; [| done.. |].
  - eapply rtc_l; [| exact Hst]. exists (Continue t). split_and!; [right; by exists t | cbn; by rewrite Hr |].
    cbn. rewrite Hr, Hs. unfold onestep in H. by rewrite H.
  - intros t' Ht'. rewrite Ho by done. cbn. by rewrite decide_False.
Qed.

Lemma calm_idle st : sysinv st -> idle st -> calm (shared st).
Proof. intros Hst Hi sid o. apply (Invariant.i_sending _ (idle_inv st Hst Hi)). Qed.

(** C2: The handlers of World.v to Server.v are the uninterrupted runs of the
    programs: from a reachable state in which no handler is in progress, a
    transition of the one-step model is a finite run of steps of that one
    thread, which returns, with the same world; and where the one-step handler
    stops with a fault the run halts with the same fault. *)
Theorem handlers_run_alone n st l :
  reachable n st -> idle st -> Server.enabled (world (shared st)) l ->
  match Server.exec l (world (shared st)) with
  | Ok _ w' => exists st', rtc (step_of l) st st' /\ idle st' /\ world (shared st') = w'
  | Stop f => exists st' a, rtc (step_of l) st st' /\ enabled st' a /\ exec a st' = Halt (Handler f)
  end.
Proof.
  intros Hr Hi He. pose proof (calm_idle st (reachable_sysinv n st Hr) Hi) as Hc.
  destruct (thread_of l) as [t |] eqn:El.
  - pose (st0 := set_running t (Some (program l)) (shared st) st).
    assert (H0 : step_of l st st0).
    { exists (Begin l). split_and!; [by left | split; [done | by rewrite El] |]. cbn. rewrite El. by destruct l. }
    assert (Hr0 : running st0 t = Some (program l)) by (cbn; by rewrite decide_True).
    pose proof (program_runs t l (shared st) Hc) as H. rewrite El in H. specialize (H ltac:(done)). unfold runs in H.
    destruct (Server.exec l (world (shared st))) as [[] w' | f].
    + destruct H as (s' & Hrun & Hw & _).
      destruct (thread_runs l t _ _ st0 El Hrun Hr0 eq_refl) as (st1 & Hst & Hr1 & Hs1 & Ho). cbn in Hr1, Hs1.
      exists (set_running t None (shared st1) st1). split_and!.
      * eapply rtc_l; [exact H0 |]. eapply rtc_r; [exact Hst |]. exists (Continue t).
        split_and!; [right; by exists t | cbn; by rewrite Hr1 |]. cbn. by rewrite Hr1.
      * intros t'. cbn. case_decide as Hd; [done |]. rewrite Ho by done. cbn. rewrite decide_False by done. apply Hi.
      * cbn. by rewrite Hs1.
    + destruct H as (p' & s' & Hrun & Hb).
      destruct (thread_runs l t _ _ st0 El Hrun Hr0 eq_refl) as (st1 & Hst & Hr1 & Hs1 & Ho). cbn in Hr1, Hs1.
      exists st1, (Continue t). split_and!; [by eapply rtc_l | cbn; by rewrite Hr1 |].
      cbn. by rewrite Hr1, Hs1, Hb.
  - destruct l as [| | | | | sid outs]; try done. destruct He as [o Ho]. cbn [Server.exec].
    unfold Server.set_outs, get_session, put_session, bind, modify. rewrite Ho.
    exists (mkState (set_world (set_heap (<[sid := FlushConc.set_outs outs o]> (heap (world (shared st)))) (world (shared st))) (shared st)) (running st)).
    split_and!; [| done | done]. apply rtc_once. exists (Begin (LKernel sid outs)).
    split; [by left |]. split; [split; [by exists o | done] |]. cbn. unfold kernel_step, on_session. by rewrite Ho.
Qed.

(** The one-step model is the part of the interleaved one without overlap. *)
Theorem one_step_model_included n w :
  Server.reachable n w ->
  exists st, reachable n st /\ idle st /\ world (shared st) = w.
Proof.
  revert w. apply (rtc_ind_r (fun w => exists st, reachable n st /\ idle st /\ world (shared st) = w)).
  - exists (init n). by split_and!; [apply rtc_refl | |].
  - intros w w' _ (l & He & Hl) (st & Hr & Hi & <-).
    pose proof (handlers_run_alone n st l Hr Hi He) as H. rewrite Hl in H. destruct H as (st' & Hst & Hi' & Hw).
    exists st'. split_and!; [| done..]. unfold reachable in *. etransitivity; [exact Hr | by eapply step_of_step].
Qed.

End Included.

(** ** Closing a connection, objects out of every table included *)

Section Closing.
Context {Indet : Indeterminate} {Kernel : EpollKernel}.

(** The program [p], run by the main thread from [s], returns [a] in [s']. *)
Definition ends {A : Type} (p : Prog A) (s : Shared) (a : A) (s' : Shared) : Prop :=
  rtc (alone Main) (p, s) (Ret a, s').

(** It returns, and [Q] holds of what it returns. *)
Definition finishes {A : Type} (p : Prog A) (s : Shared) (Q : A -> Shared -> Prop) : Prop :=
  exists a s', ends p s a s' /\ Q a s'.

Lemma finishes_ret {A : Type} (a : A) s (Q : A -> Shared -> Prop) : Q a s -> finishes (Ret a) s Q.
Proof. intros H. exists a, s. split; [apply rtc_refl | done]. Qed.

Lemma finishes_act {A : Type} a (k : result a -> Prog A) r s s1 Q :
  perform a s = Done r s1 -> finishes (k r) s1 Q -> finishes (Act a k) s Q.
Proof.
  intros E (b & s' & H & HQ). exists b, s'. split; [| done]. eapply rtc_l; [| exact H].
  split; [done |]. cbn. by rewrite E.
Qed.

Lemma finishes_andthen {A B : Type} (p : Prog A) (f : A -> Prog B) s Q :
  finishes p s (fun a s1 => finishes (f a) s1 Q) -> finishes (andthen p f) s Q.
Proof.
  intros (a & s1 & H1 & b & s' & H2 & HQ). exists b, s'. split; [| done]. unfold ends in *.
  etransitivity; [exact (alone_andthen Main f _ _ H1) | exact H2].
Qed.

(** A run has one end. *)
Lemma ends_unique {A : Type} (p : Prog A) s a1 s1 a2 s2 : ends p s a1 s1 -> ends p s a2 s2 -> s1 = s2.
Proof.
  unfold ends. generalize (p, s). intros c H. remember (Ret a1, s1) as c1 eqn:E1. revert E1.
  induction H as [c | c c' c1 [_ H] _ IH]; intros -> H2; apply rtc_inv in H2 as [E | (c2 & [_ H'] & Hr)].
  - by injection E.
  - done.
  - by subst c.
  - rewrite H in H'. destruct c', c2. injection H' as -> ->. by apply IH.
Qed.

(** Telling a room's worker, where the room is routed, changes that worker's
    queue only. *)
Lemma finishes_disconnect_session fd room_id s (Q : unit -> Shared -> Prop) :
  Lifecycle.routes_ok (world s) ->
  (forall ws, let s' := set_world (set_workers ws (world s)) s in Lifecycle.routes_ok (world s') -> Q tt s') ->
  finishes (disconnect_session fd room_id) s Q.
Proof.
  intros Hrt HQ. unfold disconnect_session, route_event.
  eapply finishes_act; [reflexivity |]. rewrite decide_True by done. cbn [andthen act].
  set (e := Event.add _ _ _). eapply finishes_act; [reflexivity |]. unfold find_worker.
  change (Event.target_room_id e) with room_id.
  destruct (room_to_worker (world s) !! room_id) as [wid |] eqn:Ert; cbn [default].
  - destruct (Hrt _ _ Ert) as [Hnz [r Hr]]. rewrite decide_False by done.
    eapply finishes_act; [cbn; unfold on_worker; rewrite Hr; reflexivity |]. apply finishes_ret, HQ.
    intros k wid' Hk. destruct (Hrt _ _ Hk) as [? ?]. split; [done |]. cbn. by apply lookup_insert_is_Some'; right.
  - rewrite decide_True by done. apply finishes_ret. specialize (HQ (room_workers (world s))).
    destruct s as [w rm ow pk]. destruct w. by apply HQ.
Qed.

(** The second half of [close_session]: the user's object leaves the table as it is. *)
Lemma finishes_close_tail uid u fd room_id s :
  User.users_ (user_manager (world s)) !! uid = Some u -> User.get_id u = uid -> Lifecycle.routes_ok (world s) ->
  finishes (disconnect_session fd room_id ;!
            (if decide (room_id <> RoomManager.LOBBY_ROOM_ID)
             then disconnect_session fd RoomManager.LOBBY_ROOM_ID else Ret tt) ;!
            act (RemoveSession fd) ;!
            let! id := act (UserId uid) in
            act (RemoveUser id))%prog s (fun _ s' => removed s' = <[uid := u]> (removed s)).
Proof.
  intros Hu Hid Hrt. apply finishes_andthen, finishes_disconnect_session; [done |].
  intros ws s1 Hrt1. apply finishes_andthen.
  assert (Hend : forall s2, user_manager (world s2) = user_manager (world s) -> removed s2 = removed s ->
    finishes (act (RemoveSession fd) ;! let! id := act (UserId uid) in act (RemoveUser id))%prog s2
      (fun _ s' => removed s' = <[uid := u]> (removed s))).
  { intros s2 E1 E2. eapply finishes_act; [reflexivity |].
    eapply finishes_act; [cbn; unfold see_user, user_object; cbn; rewrite E1, Hu; reflexivity |].
    eapply finishes_act; [reflexivity |]. apply finishes_ret. cbn. by rewrite E1, Hid, Hu, E2. }
  case_decide; [apply finishes_disconnect_session; [done |] | apply finishes_ret]; intros; by apply Hend.
Qed.

(** What [close_session] does to the objects that leave the tables. *)
Lemma finishes_close_session fd sid u s :
  Invariant.inv (world s) -> sessions (world s) !! fd = Some sid -> RoomWorkerSpec.user_of (world s) fd = Some u ->
  finishes (close_session fd) s (fun _ s' =>
    removed s' = <[User.user_id_ u := User.mark_diconnecting u]> (removed s)).
Proof.
  intros Hw Hs Hu. destruct (Lifecycle.session_user _ fd sid Hw Hs) as (o & u' & Ho & _ & Hu' & _ & Hid).
  assert (u' = u) as -> by congruence. set (uid := User.user_id_ u) in *.
  assert (Hget : User.users_ (user_manager (world s)) !! uid = Some u).
  { unfold RoomWorkerSpec.user_of, User.get_user in Hu. by rewrite Hid in Hu. }
  pose proof (Invariant.i_route _ Hw) as Hrt. unfold close_session.
  eapply finishes_act; [reflexivity |]. cbv beta. rewrite Hs.
  eapply finishes_act; [reflexivity |]. eapply finishes_act; [reflexivity |].
  cbn [world set_world user_manager set_epoll]. rewrite Hid. cbn. rewrite Hget. cbn [mbind option_bind deref andthen].
  eapply finishes_act; [cbn; unfold on_user; cbn; rewrite Hget; reflexivity |].
  eapply finishes_act; [cbn; unfold on_session; cbn; rewrite Ho; reflexivity |].
  eapply finishes_act; [cbn; unfold see_user, user_object; cbn; rewrite lookup_alter_eq, Hget; reflexivity |].
  match goal with |- finishes _ ?s1 _ =>
    refine (finishes_close_tail uid (User.mark_diconnecting u) fd (User.current_room_ u) s1 _ eq_refl Hrt)
  end.
  cbn. by rewrite lookup_alter_eq, Hget.
Qed.
(** C32: closing a connection. When the main thread closes an open descriptor
    and nobody interrupts it, it returns, in the world that the one-step
    handler computes. The descriptor is unregistered from epoll; its session
    and its user leave the tables, nobody else's do, and both objects, which
    other threads may still point to, are marked disconnecting; every room,
    route, job and main event is as it was; and exactly one event is left with
    the worker of the user's current room and, when that is not the lobby, one
    with the lobby's worker. *)
Theorem connection_closed s fd sid u :
  Invariant.inv (world s) -> sessions (world s) !! fd = Some sid ->
  RoomWorkerSpec.user_of (world s) fd = Some u ->
  exists o s',
    rtc (alone Main) (close_session fd, s) (Ret tt, s') /\
    Server.close_session fd (world s) = Ok tt (world s') /\
    heap (world s) !! sid = Some o /\
    heap (world s') = <[sid := Session.mark_disconnecting o]> (heap (world s)) /\
    removed s' = <[User.user_id_ u := User.mark_diconnecting u]> (removed s) /\
    sessions (world s') = delete fd (sessions (world s)) /\
    epoll_calls (world s') = EpDel fd :: epoll_calls (world s) /\
    (forall fd', RoomWorkerSpec.user_of (world s') fd' =
       if decide (fd' = fd) then None else RoomWorkerSpec.user_of (world s) fd') /\
    (forall wid k, RoomWorkerSpec.room_in (world s') wid k = RoomWorkerSpec.room_in (world s) wid k) /\
    room_to_worker (world s') = room_to_worker (world s) /\
    (exists j1 j2, forall wid, RoomWorkerSpec.queue (world s') wid =
       (fun q => q ++ Lifecycle.exits (world s) j1 j2 fd (User.current_room_ u) wid)
         <$> RoomWorkerSpec.queue (world s) wid) /\
    job_queue (world s') = job_queue (world s) /\ main_events (world s') = main_events (world s).
Proof.
  intros Hw Hs Hu.
  destruct (Lifecycle.close_session_spec _ fd sid u Hw Hs Hu) as (w' & E & (o & Ho & Hheap) & Hrest).
  pose proof (sim_close_session Main fd s (Invariant.i_sending _ Hw)) as Hsim. unfold sim_at in Hsim.
  rewrite E in Hsim. destruct Hsim as (s' & Hrun & <- & _).
  destruct (finishes_close_session fd sid u s Hw Hs Hu) as ([] & s1 & Hrun1 & Hrem).
  rewrite <- (ends_unique _ _ _ _ _ _ Hrun Hrun1) in Hrem. by exists o, s'.
Qed.

End Closing.

(** ** Witnesses *)

Section Demo.
#[local] Existing Instance zero_indeterminate.
#[local] Existing Instance simple_epoll.

Lemma handlers_run_alone_witness :
  exists st, rtc (step_of (LAccept 5)) (Interleaving.init 2) st /\ Interleaving.idle st /\
    world (Interleaving.shared st) = System.after [LAccept 5].
Proof.
  pose proof (handlers_run_alone 2 (Interleaving.init 2) (LAccept 5) (rtc_refl _ _) (fun _ => eq_refl)) as H.
  specialize (H ltac:(split; [done | by vm_compute])).
  replace (Server.exec (LAccept 5) (world (Interleaving.shared (Interleaving.init 2))))
    with (Ok tt (System.after [LAccept 5])) in H by (by vm_compute). exact H.
Defined.

Lemma one_step_model_included_witness :
  exists st, Interleaving.reachable 2 st /\ Interleaving.idle st /\
    world (Interleaving.shared st) = System.after (Flow.two_clients ++ Flow.creates).
Proof. apply (one_step_model_included 2), System.after_reachable. Defined.

Lemma connection_closed_witness :
  let s := mkShared Flow.room_world ∅ ∅ ∅ in
  exists o s', rtc (alone Main) (close_session 5, s) (Ret tt, s') /\
    heap (world s') = <[0%nat := Session.mark_disconnecting o]> (heap (world s)) /\
    removed s' = {[1 := User.mark_diconnecting (Flow.user Flow.room_world 5)]}.
Proof.
  intros s. destruct (connection_closed s 5 0%nat (Flow.user Flow.room_world 5) (System.after_inv _))
    as (o & s' & Hr & _ & _ & Hh & Hrem & _); [by vm_compute | by vm_compute |].
  exists o, s'. split_and!; [exact Hr | exact Hh | rewrite Hrem; by vm_compute].
Defined.

End Demo.
End Alone.
