(* ===== verification/Policy.v ===== *)
(** * Policy: which thread performs which actions

    The receive buffers, the session table and the user counter belong to the
    main thread, the rooms of a worker to that worker; only the database thread
    counts rooms, only it and the workers send to clients and make requests of
    the main thread. Every handler keeps to this ([program_policy]), and so does
    what is left of it at any time ([reachable_policy]). *)

From S2P Require Import Prelude Wire Session User Room Event World RoomManager RoomWorker.
From S2P Require Import Server FlushConc Shared Programs Interleaving.

Module Policy.
Import Protocol World Server Shared Programs.

Definition may (t : Tid) (a : Action) : Prop :=
  match a with
  | FindSession _ | AddSession _ | RemoveSession _ | NextUser | Receive _ _ | Buffered _ | Extract _
  | PopMain => t = Main
  | FindRoom wid _ | PutRoom wid _ _ | EraseRoom wid _ | RoomIds wid | TypeOf wid | PopEvent wid =>
      t = Worker wid
  | RoomsNum _ | PopJob => t = Db
  | PushMain _ => t <> Main
  | _ => True
  end.

(** A handler that keeps to its thread's actions, has no unbounded loop, and
    sends nothing when it is the main thread's. *)
Fixpoint obeys (t : Tid) {A : Type} (p : Prog A) : Prop :=
  match p with
  | Ret _ | Throw _ => True
  | Act a k => may t a /\ forall r, obeys t (k r)
  | Flush _ _ k => t <> Main /\ forall r, obeys t (k r)
  | Repeat _ _ => False
  end.

(** What a thread is in the middle of: the loop of [handle_events] may follow. *)
Fixpoint policy (t : Tid) {A : Type} (p : Prog A) : Prop :=
  match p with
  | Ret _ | Throw _ => True
  | Act a k => may t a /\ forall r, policy t (k r)
  | Flush _ _ k => t <> Main /\ forall r, policy t (k r)
  | Repeat body k => t = Main /\ body = take_main_event /\ exists x, k = Ret x
  end.

Lemma obeys_andthen t {A B : Type} (p : Prog A) (f : A -> Prog B) :
  obeys t p -> (forall a, obeys t (f a)) -> obeys t (andthen p f).
Proof.
  intros Hp Hf. induction p as [A a | A a k IH | A sid pc k IH | A e | A body _ k IH]; cbn in *; try done.
  - destruct Hp as [Ha Hk]. split; [done |]. intros r. by apply IH.
  - destruct Hp as [Ht Hk]. split; [done |]. intros r. by apply IH.
Qed.

Lemma policy_andthen t {A B : Type} (p : Prog A) (f : A -> Prog B) :
  obeys t p -> (forall a, policy t (f a)) -> policy t (andthen p f).
Proof.
  intros Hp Hf. induction p as [A a | A a k IH | A sid pc k IH | A e | A body _ k IH]; cbn in *; try done.
  - destruct Hp as [Ha Hk]. split; [done |]. intros r. by apply IH.
  - destruct Hp as [Ht Hk]. split; [done |]. intros r. by apply IH.
Qed.

Lemma obeys_policy t {A : Type} (p : Prog A) : obeys t p -> policy t p.
Proof.
  induction p as [A a | A a k IH | A sid pc k IH | A e | A body _ k IH]; cbn; try done;
    intros [H Hk]; split; auto.
Qed.

Lemma obeys_act t a : may t a -> obeys t (act a).
Proof. by split. Qed.

Lemma obeys_deref t {A : Type} e (o : option A) : obeys t (deref e o).
Proof. by destruct o. Qed.

Lemma obeys_for_each t {A : Type} (l : list A) f : (forall a, obeys t (f a)) -> obeys t (for_each l f).
Proof. intros H. induction l as [| a l IH]; [done |]. by apply obeys_andthen. Qed.

Create HintDb obeys discriminated.

(** Follows the program's text. *)
Ltac obey :=
  repeat first
    [ done
    | apply obeys_andthen; [| intros ?]
    | apply obeys_act; done
    | apply obeys_deref
    | apply obeys_for_each; intros ?
    | solve [auto with obeys nocore]
    | case_decide
    | case_match ].

Section Obeys.
Context (t : Tid).

Lemma obeys_session_fd so : obeys t (session_fd so).
Proof. unfold session_fd. obey. Qed.

Lemma obeys_route e target : obeys t (route_event e target).
Proof. unfold route_event. obey. Qed.
#[local] Hint Resolve obeys_session_fd obeys_route : obeys.

Lemma obeys_disconnect fd k : obeys t (disconnect_session fd k).
Proof. unfold disconnect_session. obey. Qed.

Lemma obeys_request_flush sid : obeys t (request_flush sid).
Proof. unfold request_flush. obey. Qed.

Lemma obeys_dispatch packet sid : obeys t (dispatch_packet packet sid).
Proof. unfold dispatch_packet. obey. Qed.

Lemma obeys_current_room e : obeys t (current_room e).
Proof. unfold current_room. obey. Qed.

(** Only threads other than the main one send and make requests of it. *)
Hypothesis sender : t <> Main.

Lemma obeys_request ty sid : obeys t (request ty sid).
Proof. unfold request. obey. Qed.
#[local] Hint Resolve obeys_request : obeys.

Lemma obeys_send_packet so data : obeys t (send_packet so data).
Proof. unfold send_packet. apply obeys_andthen; [obey | intros sid]. split; [done |]. intros r. cbn. obey. Qed.

Lemma obeys_flush so : obeys t (flush so).
Proof. unfold flush. apply obeys_andthen; [obey | intros sid]. split; [done |]. intros r. cbn. obey. Qed.
#[local] Hint Resolve obeys_send_packet obeys_flush : obeys.

Lemma obeys_send_response e : obeys t (send_response e).
Proof. unfold send_response. obey. Qed.
#[local] Hint Resolve obeys_send_response : obeys.

Lemma obeys_broadcast_to e k data sid : obeys t (broadcast_to e k data sid).
Proof. unfold broadcast_to. obey. Qed.

Lemma obeys_after_action e cmd f : (forall e, obeys t (f e)) -> obeys t (after_action e cmd f).
Proof. intros H. unfold after_action. obey. Qed.

End Obeys.
#[export] Hint Resolve obeys_session_fd obeys_route obeys_disconnect obeys_request_flush obeys_dispatch
  obeys_send_packet obeys_flush obeys_send_response obeys_current_room obeys_broadcast_to : obeys.
#[export] Hint Extern 1 (_ <> Main) => discriminate : obeys.

Section Worker.
Context (wid : Z).
Abbreviation me := (Worker wid).

Lemma obeys_leave_room_fd fd k : obeys me (leave_room_fd wid fd k).
Proof. unfold leave_room_fd. obey. Qed.
#[local] Hint Resolve obeys_leave_room_fd : obeys.

Lemma obeys_leave_first fd ids : obeys me (leave_first wid fd ids).
Proof. induction ids as [| k ids IH]; [done |]. cbn [leave_first handle_packets]. obey. Qed.
#[local] Hint Resolve obeys_leave_first : obeys.

Lemma obeys_process_loop fuel e : obeys me (process_loop fuel wid e).
Proof.
  revert e. induction fuel as [| fuel IH]; intros e; [done |]. cbn [process_loop].
  case_decide; [| done]. case_decide; [obey |]. apply obeys_andthen; [obey | intros action].
  assert (Hafter : forall e cmd, obeys me (after_action e cmd (fun e => process_loop fuel wid e))).
  { intros. by apply obeys_after_action. }
  destruct (Event.command action);
    unfold create_room, join_room, join_room_session, leave_room, send_message, save_message,
      request_db_create_room, request_db_load_message, diconnect_session; obey.
Qed.

Lemma obeys_worker_step : obeys me (worker_step wid).
Proof. unfold worker_step, process_event. obey. apply obeys_process_loop. Qed.

End Worker.

Lemma obeys_db_step status data draws : obeys Db (db_step status data draws).
Proof.
  unfold db_step. obey. destruct (Event.on_result _); cbn; [done | |].
  - unfold db_create_room_on_result, bind_room_worker. obey.
  - unfold db_load_messages_on_result. obey.
Qed.

Lemma obeys_close_session fd : obeys Main (close_session fd).
Proof. unfold close_session. obey. Qed.
#[export] Hint Resolve obeys_close_session : obeys.

Lemma obeys_handle_packets fuel sid : obeys Main (handle_packets fuel sid).
Proof. induction fuel as [| fuel IH]; [done |]. cbn [leave_first handle_packets]. obey. Qed.
#[export] Hint Resolve obeys_handle_packets : obeys.

Lemma obeys_take_main_event : obeys Main take_main_event.
Proof. unfold take_main_event, handle_main_event. obey. Qed.

(** Every handler keeps to the actions of its thread. *)
Lemma program_policy l t : thread_of l = Some t -> policy t (program l).
Proof.
  destruct l as [fd | fd i o h | | wid | status data draws | sid outs]; cbn [thread_of program]; intros [= <-].
  - apply obeys_policy. unfold accept_client. obey.
  - apply obeys_policy. unfold on_ready, handle_request, handle_epollout. obey.
  - split_and!; [done.. |]. by eexists.
  - apply obeys_policy, obeys_andthen; [apply obeys_worker_step | done].
  - apply obeys_policy, obeys_db_step.
Qed.

(** ** Reachable states *)

Section System.
Context {Indet : Indeterminate} {Kernel : EpollKernel}.
Import Interleaving.

Lemma prog_step_policy t (p p' : Prog unit) s s' :
  policy t p -> prog_step t p s = Some (More p' s') -> policy t p'.
Proof.
  intros Hp H. destruct p as [a | a k | sid pc k | e | body k]; cbn in Hp, H; try done.
  - destruct Hp as [_ Hk]. destruct (perform a s); [| done]. injection H as <- _. apply Hk.
  - destruct pc; try (injection H as <- _; apply Hp);
      (destruct (flush_step _ _ _ _); [| done]); injection H as <- _; exact Hp.
  - injection H as <- _. destruct Hp as (-> & -> & x & ->).
    apply policy_andthen; [apply obeys_take_main_event |]. intros []; [| done]. split_and!; [done.. |]. by eexists.
Qed.

(** What holds of every handler and survives its steps holds of what is running. *)
Lemma running_ind (P : Tid -> Prog unit -> Prop) :
  (forall l t, thread_of l = Some t -> P t (program l)) ->
  (forall t p p' s s', P t p -> prog_step t p s = Some (More p' s') -> P t p') ->
  forall n st t p, reachable n st -> running st t = Some p -> P t p.
Proof.
  intros Hprog Hstep n st t p Hr. revert t p.
  apply (rtc_ind_r (R := step) (fun st => forall t p, running st t = Some p -> P t p) (init n)); [done | | exact Hr].
  intros st1 st2 _ (a & He & Ha) IH t p. destruct a as [l | t0].
  - destruct (thread_of l) as [t0 |] eqn:El.
    + rewrite (exec_begin l t0 st1 El) in Ha. injection Ha as <-. cbn. case_decide as Hd; [| apply IH]. subst t0. intros [= <-]. by apply Hprog.
    + destruct l as [| | | | | sid outs]; try done. cbn in Ha.
      destruct (kernel_step sid outs (shared st1)); [| done]. injection Ha as <-. apply IH.
  - cbn in Ha. destruct (running st1 t0) as [p0 |] eqn:E0; [| injection Ha as <-; apply IH].
    destruct (prog_step t0 p0 (shared st1)) as [[p' s' | c] |] eqn:En; [| done |]; injection Ha as <-;
      cbn; (case_decide as Hd; [| apply IH]); [| done].
    subst t0. intros [= <-]. eapply Hstep; [by apply IH | exact En].
Qed.

Lemma reachable_policy n st t p : reachable n st -> running st t = Some p -> policy t p.
Proof.
  apply (running_ind (fun t p => policy t p)); [intros; by apply program_policy |]. intros t' p1 p2 s s' H1 H2. by eapply prog_step_policy.
Qed.

End System.
End Policy.
