(* ===== verification/Races.v ===== *)
(** * Races: which memory two threads touch at the same time

    Interleaving.v runs one action at a time. That is justified only where the
    C++ has no data race, so this file says what each action of Shared.v reads
    and writes, under which mutex or as which atomic, and asks of every
    reachable state whether two threads are about to make conflicting accesses.
    There is one place where they can: [RoomWorker::get_rooms_num] is called
    from the database thread and reads [rooms_] with no lock. [data_races] says
    that it is the only one, [placement_race] that it is real.

    Not accesses here: members that are never written after construction
    ([room_workers_], [room_worker_num_], [type_], a session's descriptor, a
    user's id), what a constructor writes before the object is shared, and the
    kernel's tables. *)

From S2P Require Import Prelude Wire Session User Room Event World RoomManager RoomWorker.
From S2P Require Import Invariant RoomWorkerSafe Server System FlushConc Shared Programs RelyGuarantee.
From S2P Require Import Actions ProgramsSafe Interleaving Policy.

Module Races.
Import Protocol World Server Shared Programs RelyGuarantee Policy.

(** ** Memory *)

Inductive Loc :=
  | SessionTable                       (* SessionManager::sessions_ *)
  | UserCounter                        (* Server::total_users_ *)
  | MainQueue                          (* Server::main_events_ *)
  | RecvBuffer (sid : Room.Sid)        (* Session::recv_buffer_ *)
  | Disconnecting (sid : Room.Sid)     (* Session::disconnecting_ *)
  | SendQueue (sid : Room.Sid)         (* Session::send_queue_, the container *)
  | FrontBuffer (sid : Room.Sid)       (* its first element *)
  | SendingFlag (sid : Room.Sid)       (* Session::sending_ *)
  | UserTables                         (* UserManager::users_, fd_to_user_id_ *)
  | CurrentRoom (uid : Z)              (* User::current_room_ *)
  | UserMark (uid : Z)                 (* User::disconnecting *)
  | RouteTable                         (* RoomManager::room_to_worker_ *)
  | RoomTable (wid : Z)                (* RoomWorker::rooms_, the container *)
  | RoomsOf (wid : Z)                  (* the Room objects in it *)
  | EventQueue (wid : Z)               (* RoomWorker::event_queue_ *)
  | JobQueue.                          (* DBWorker::job_queue_ *)

(** A [shared_mutex] counts as one mutex: the readers that hold it together
    do not conflict. *)
Inductive Mutex :=
  | MainMutex                          (* Server::main_event_queue_mutex_ *)
  | SendMutex (sid : Room.Sid)         (* Session::send_queue_mutex_ *)
  | UserMutex                          (* UserManager::mutex_ *)
  | RouteMutex                         (* RoomManager::room_to_worker_mutex_ *)
  | EventMutex (wid : Z)               (* RoomWorker::mutex_ *)
  | JobMutex.                          (* DBWorker::job_queue_mutex_ *)

Inductive Mode := Plain | Atomic | Under (m : Mutex).

Record Access := mkAccess { loc : Loc; writes : bool; mode : Mode }.

Definition reads_ (l : Loc) (m : Mode) : Access := mkAccess l false m.
Definition writes_ (l : Loc) (m : Mode) : Access := mkAccess l true m.

(** ** What an action accesses *)

(** Server, SessionManager and the receiving half of Session. *)
Definition main_accesses (a : Action) : list Access :=
  match a with
  | FindSession _ => [reads_ SessionTable Plain]
  | AddSession _ | RemoveSession _ => [writes_ SessionTable Plain]
  | NextUser => [writes_ UserCounter Plain]
  | MarkSession sid => [writes_ (Disconnecting sid) Atomic]
  | Receive sid _ | Extract sid => [writes_ (RecvBuffer sid) Plain]
  | Buffered sid => [reads_ (RecvBuffer sid) Plain]
  | _ => []
  end.

(** UserManager and User. *)
Definition user_accesses (a : Action) : list Access :=
  match a with
  | AddUser _ | RemoveUser _ => [writes_ UserTables (Under UserMutex)]
  | GetUser _ | GetUserId _ => [reads_ UserTables (Under UserMutex)]
  | UserRoom uid => [reads_ (CurrentRoom uid) Atomic]
  | SetUserRoom uid _ => [writes_ (CurrentRoom uid) Atomic]
  | MarkUser uid => [writes_ (UserMark uid) Atomic]
  | _ => []
  end.

(** RoomManager. *)
Definition route_accesses (a : Action) : list Access :=
  match a with
  | FindWorker _ => [reads_ RouteTable (Under RouteMutex)]
  | EraseRoute _ | BindRoute _ _ => [writes_ RouteTable (Under RouteMutex)]
  | RoomsNum wid => [reads_ (RoomTable wid) Plain]
  | _ => []
  end.

(** RoomWorker: an insertion changes the container, a new member only a room. *)
Definition room_accesses (a : Action) (s : Shared) : list Access :=
  match a with
  | FindRoom wid _ | RoomIds wid => [reads_ (RoomTable wid) Plain; reads_ (RoomsOf wid) Plain]
  | PutRoom wid k _ =>
      let inserts := match room_workers (world s) !! wid with
                     | Some r => bool_decide (rooms_ r !! k = None)
                     | None => false
                     end in
      [mkAccess (RoomTable wid) inserts Plain; writes_ (RoomsOf wid) Plain]
  | EraseRoom wid _ => [writes_ (RoomTable wid) Plain; writes_ (RoomsOf wid) Plain]
  | _ => []
  end.

(** The queues between threads. *)
Definition queue_accesses (a : Action) : list Access :=
  match a with
  | PostEvent wid _ | PopEvent wid => [writes_ (EventQueue wid) (Under (EventMutex wid))]
  | PostJob _ | PopJob => [writes_ JobQueue (Under JobMutex)]
  | PushMain _ | PopMain => [writes_ MainQueue (Under MainMutex)]
  | _ => []
  end.

Definition accesses (a : Action) (s : Shared) : list Access :=
  main_accesses a ++ user_accesses a ++ route_accesses a ++ room_accesses a s ++ queue_accesses a.

(** The steps of [Session::pack] and [Session::flush]. *)
Definition flush_accesses (sid : Room.Sid) (p : FlushConc.Pc) (s : Shared) : list Access :=
  let locked := Under (SendMutex sid) in
  let empty := match heap (world s) !! sid with
               | Some o => Session.is_send_queue_empty o
               | None => true
               end in
  match p with
  | FlushConc.Packing _ =>
      writes_ (SendQueue sid) locked :: (if empty then [writes_ (FrontBuffer sid) locked] else [])
  | FlushConc.Cas _ | FlushConc.Releasing _ | FlushConc.Exchanging _ | FlushConc.GivingUp _ _ =>
      [writes_ (SendingFlag sid) Atomic]
  | FlushConc.Front _ =>
      reads_ (SendQueue sid) locked :: (if empty then [writes_ (SendingFlag sid) Atomic] else [])
  | FlushConc.Sending _ => [writes_ (FrontBuffer sid) Plain]
  | FlushConc.Popping _ => [writes_ (SendQueue sid) locked; writes_ (FrontBuffer sid) locked]
  | FlushConc.Testing _ => [reads_ (SendQueue sid) locked]
  | FlushConc.Idle | FlushConc.Posting _ _ => []
  end.

Definition next_accesses {A : Type} (p : Prog A) (s : Shared) : list Access :=
  match p with
  | Act a _ => accesses a s
  | Flush sid pc _ => flush_accesses sid pc s
  | _ => []
  end.

(** ** Races *)

(** Two accesses that must not happen at the same time, and can. *)
Definition conflict (x y : Access) : Prop :=
  loc x = loc y /\ (writes x = true \/ writes y = true) /\
  ~ (mode x = Atomic /\ mode y = Atomic) /\ ~ (exists m, mode x = Under m /\ mode y = Under m).

Definition upcoming (st : Interleaving.State) (t : Tid) : list Access :=
  match Interleaving.running st t with
  | Some p => next_accesses p (Interleaving.shared st)
  | None => []
  end.

Definition race (st : Interleaving.State) (t1 t2 : Tid) (l : Loc) : Prop :=
  t1 <> t2 /\ exists x y, x ∈ upcoming st t1 /\ y ∈ upcoming st t2 /\ conflict x y /\ loc x = l.

(** ** Discipline: what protects each location *)

Inductive Discipline :=
  | OnlyBy (t : Tid)                   (* one thread touches it *)
  | Locked (m : Mutex)
  | AsAtomic
  | ByFlag (sid : Room.Sid)            (* who holds [sending_], or fills an empty queue *)
  | WorkerTable (wid : Z).             (* the worker; the database thread reads it *)

Definition discipline (l : Loc) : Discipline :=
  match l with
  | SessionTable | UserCounter | RecvBuffer _ => OnlyBy Main
  | MainQueue => Locked MainMutex
  | Disconnecting _ | SendingFlag _ | CurrentRoom _ | UserMark _ => AsAtomic
  | SendQueue sid => Locked (SendMutex sid)
  | FrontBuffer sid => ByFlag sid
  | UserTables => Locked UserMutex
  | RouteTable => Locked RouteMutex
  | RoomTable wid => WorkerTable wid
  | RoomsOf wid => OnlyBy (Worker wid)
  | EventQueue wid => Locked (EventMutex wid)
  | JobQueue => Locked JobMutex
  end.

(** An access of thread [t], which is at [p], as the discipline wants it. *)
Definition follows {A : Type} (t : Tid) (p : Prog A) (s : Shared) (x : Access) : Prop :=
  match discipline (loc x) with
  | OnlyBy t' => t = t'
  | Locked m => mode x = Under m
  | AsAtomic => mode x = Atomic
  | WorkerTable wid =>
      t = Worker wid \/ (t = Db /\ writes x = false /\ exists k, p = Act (RoomsNum wid) k)
  | ByFlag sid => exists pc k, p = Flush sid pc k /\
      ((FlushConc.owns pc /\ exists o, heap (world s) !! sid = Some o /\ Session.is_send_queue_empty o = false) \/
       (mode x = Under (SendMutex sid) /\ ~ FlushConc.owns pc /\
        forall o, heap (world s) !! sid = Some o -> Session.is_send_queue_empty o = true))
  end.

Section System.
Context {Indet : Indeterminate} {Kernel : EpollKernel}.

Lemma action_follows {A : Type} t a (k : result a -> Prog A) s x :
  may t a -> x ∈ accesses a s -> follows t (Act a k) s x.
Proof.
  intros Hm Hx. unfold follows. destruct a; cbn in Hm, Hx; try (by apply elem_of_nil in Hx);
    repeat (apply elem_of_cons in Hx as [-> | Hx]; [cbn; eauto 6 |]); by apply elem_of_nil in Hx.
Qed.

Lemma not_empty (sid : Room.Sid) q (o : Session.Session) :
  q = Session.send_queue_ o -> q <> [] -> Session.is_send_queue_empty o = false.
Proof. intros -> H. unfold Session.is_send_queue_empty. by destruct (Session.send_queue_ o). Qed.

Lemma flush_follows {A : Type} t sid pc (k : Session.FlushResult -> Prog A) s x :
  flush_ok t sid pc s -> x ∈ flush_accesses sid pc s -> follows t (Flush sid pc k) s x.
Proof.
  intros (_ & (o & Ho & Hp) & _) Hx. unfold follows, flush_accesses in *. rewrite Ho in Hx.
  assert (Hfront : forall m, x = writes_ (FrontBuffer sid) m -> FlushConc.owns pc -> Session.send_queue_ o <> [] ->
    follows t (Flush sid pc k) s x).
  { intros m -> Hown Hq. unfold follows. cbn. exists pc, k. split; [done |]. left. split; [done |].
    exists o. split; [done |]. by eapply not_empty. }
  unfold follows in Hfront. destruct pc; cbn in Hp, Hx; try (by apply elem_of_nil in Hx).
  all: try (apply list_elem_of_singleton in Hx as ->; by cbn).
  - apply elem_of_cons in Hx as [-> | Hx]; [by cbn |].
    destruct (Session.is_send_queue_empty o) eqn:E; [| by apply elem_of_nil in Hx].
    apply list_elem_of_singleton in Hx as ->. cbn. exists (FlushConc.Packing data), k. split; [done |]. right.
    split_and!; [done | tauto |]. intros o' Ho'. congruence.
  - apply elem_of_cons in Hx as [-> | Hx]; [by cbn |].
    destruct (Session.is_send_queue_empty o) eqn:E; [| by apply elem_of_nil in Hx].
    by apply list_elem_of_singleton in Hx as ->.
  - apply list_elem_of_singleton in Hx as Hx. by apply (Hfront Plain).
  - apply elem_of_cons in Hx as [-> | Hx]; [by cbn |]. apply list_elem_of_singleton in Hx as Hx.
    apply (Hfront (Under (SendMutex sid))); [done | done |]. by destruct Hp as (b & q & -> & _).
Qed.

(** ** Reachable states *)

Import Interleaving.

Lemma running_flush_ok n st t sid pc k :
  reachable n st -> running st t = Some (Flush sid pc k) -> flush_ok t sid pc (shared st).
Proof. intros [_ Ht]%reachable_sysinv E. specialize (Ht t). rewrite E in Ht. apply Ht. Qed.

Lemma next_follows n st t p x :
  reachable n st -> running st t = Some p -> x ∈ next_accesses p (shared st) -> follows t p (shared st) x.
Proof.
  intros Hr E Hx. destruct p as [a | a k | sid pc k | e | body k]; try (by apply elem_of_nil in Hx).
  - destruct (reachable_policy n st t _ Hr E) as [Hm _]. by apply action_follows.
  - apply flush_follows; [| exact Hx]. by eapply running_flush_ok.
Qed.

(** ** Properties *)

Lemma race_is_placement n st t1 t2 l :
  reachable n st -> race st t1 t2 l ->
  exists wid k, l = RoomTable wid /\ running st Db = Some (Act (RoomsNum wid) k) /\
    ((t1 = Db /\ t2 = Worker wid) \/ (t1 = Worker wid /\ t2 = Db)).
Proof.
  intros Hr (Hne & x & y & Hx & Hy & (Hloc & _ & Hat & Hlk) & <-). unfold upcoming in Hx, Hy.
  destruct (running st t1) as [p1 |] eqn:E1; [| by apply elem_of_nil in Hx].
  destruct (running st t2) as [p2 |] eqn:E2; [| by apply elem_of_nil in Hy].
  pose proof (next_follows n st t1 p1 x Hr E1 Hx) as H1.
  pose proof (next_follows n st t2 p2 y Hr E2 Hy) as H2.
  unfold follows in *. rewrite Hloc in *. destruct (discipline (loc y)) as [t | m | | sid | wid] eqn:Ed.
  - congruence.
  - destruct Hlk. by exists m.
  - by destruct Hat.
  - destruct H1 as (pc1 & k1 & -> & H1), H2 as (pc2 & k2 & -> & H2).
    destruct (running_flush_ok n st t1 _ _ _ Hr E1) as (_ & (o & Ho & _) & O1).
    destruct (running_flush_ok n st t2 _ _ _ Hr E2) as (_ & _ & O2).
    destruct H1 as [(P1 & o1 & Q1 & F1) | (M1 & _ & F1)], H2 as [(P2 & o2 & Q2 & F2) | (M2 & _ & F2)].
    + pose proof (proj2 (O1 sid) (conj eq_refl P1)). pose proof (proj2 (O2 sid) (conj eq_refl P2)). congruence.
    + specialize (F2 _ Q1). congruence.
    + specialize (F1 _ Q2). congruence.
    + destruct Hlk. by eexists.
  - assert (loc y = RoomTable wid) as -> by (destruct (loc y); cbn in Ed; congruence).
    destruct H1 as [-> | (-> & _ & k & ->)], H2 as [-> | (-> & _ & k' & ->)];
      try done; [exists wid, k' | exists wid, k]; auto.
Qed.

End System.

(** ** The race is there *)

Section Demo.
#[local] Existing Instance zero_indeterminate.
#[local] Existing Instance simple_epoll.
Import Interleaving.

Lemma two_rooms_race : race (reached two_rooms) Db (Worker 2) (RoomTable 2).
Proof.
  split; [done |].
  assert (E1 : upcoming (reached two_rooms) Db = [reads_ (RoomTable 2) Plain]) by by vm_compute.
  assert (E2 : upcoming (reached two_rooms) (Worker 2) =
    [writes_ (RoomTable 2) Plain; writes_ (RoomsOf 2) Plain]) by by vm_compute.
  rewrite E1, E2. do 2 eexists. split; [by left |]. split; [by left |]. split; [| done].
  split_and!; [done | by right | by intros [] | by intros (m & ? & _)].
Qed.

(** A client that asks for two rooms brings the database thread to
    [rooms_.size()] of worker 2, for the second, when worker 2 is about to
    insert the first. *)
Lemma placement_race :
  exists st, reachable 2 st /\ race st Db (Worker 2) (RoomTable 2) /\
    (exists k1 room k2, running st Db = Some (Act (RoomsNum 2) k1) /\
       running st (Worker 2) = Some (Act (PutRoom 2 100 room) k2)).
Proof.
  exists (reached two_rooms). split; [apply two_rooms_reachable |]. split; [apply two_rooms_race |].
  do 3 eexists. split; vm_compute; reflexivity.
Qed.

(** C3: There is exactly one data race. If in some reachable state two threads are
    about to make conflicting accesses to one location (one of them a write, not
    both atomic, no common mutex), then it is the container [rooms_] of a
    worker, one thread is that worker and the other is the database thread, in
    [get_rooms_num]. And that is reached: a client that asks for two rooms
    brings the database thread to [rooms_.size()] of worker 2, for the second
    room, at the moment when worker 2 is about to insert the first. *)
Theorem data_races :
  (forall (Indet : Indeterminate) (Kernel : EpollKernel) n st t1 t2 l,
     reachable n st -> race st t1 t2 l ->
     exists wid k, l = RoomTable wid /\ running st Db = Some (Act (RoomsNum wid) k) /\
       ((t1 = Db /\ t2 = Worker wid) \/ (t1 = Worker wid /\ t2 = Db))) /\
  (exists st, reachable 2 st /\ race st Db (Worker 2) (RoomTable 2) /\
     exists k1 room k2, running st Db = Some (Act (RoomsNum 2) k1) /\
       running st (Worker 2) = Some (Act (PutRoom 2 100 room) k2)).
Proof. split; [intros Indet Kernel; apply race_is_placement | apply placement_race]. Qed.

Lemma data_races_witness :
  exists wid k, RoomTable 2 = RoomTable wid /\ running (reached two_rooms) Db = Some (Act (RoomsNum wid) k) /\
    ((Db = Db /\ Worker 2 = Worker wid) \/ (Db = Worker wid /\ Worker 2 = Db)).
Proof. apply (proj1 data_races _ _ 2); [apply two_rooms_reachable | apply two_rooms_race]. Defined.

End Demo.
End Races.
