(* ===== verification/Finish.v ===== *)
(** * Finish: handlers return, whatever the other threads do

    A thread inside a handler is never left to loop: from every reachable state
    of Interleaving.v, if no thread begins a new handler, the threads that run
    one make only finitely many steps, in whatever order, and where they can
    make no more all handlers have returned, or a thread has been stopped
    ([halted]). This is not obvious for
    [Session::flush], whose loop runs as long as other threads keep packing,
    nor for [Server::handle_events], whose loop runs as long as other threads
    keep pushing events. The measure is lexicographic: what the workers and the
    database thread still have to do, the work of the flushes in progress, the
    queued main events, and what the main thread still has to do. *)

From S2P Require Import Prelude Wire Session User Room Event World RoomManager RoomWorker.
From S2P Require Import Server FlushConc Shared Programs RelyGuarantee Interleaving Policy.

Module Finish.
Import Protocol World Server Shared Programs Policy.

(** ** Programs as trees

    Between its first step after [pack] and its last, a flush stays at the same
    node: [node] forgets where it is. *)
Definition node {A : Type} (p : Prog A) : Prog A :=
  match p with
  | Flush sid (FlushConc.Packing data) k => Flush sid (FlushConc.Packing data) k
  | Flush sid _ k => Flush sid FlushConc.Idle k
  | _ => p
  end.

Definition child {A : Type} (p' p : Prog A) : Prop :=
  match p with
  | Act a k => exists r, p' = node (k r)
  | Flush sid (FlushConc.Packing _) k => p' = Flush sid FlushConc.Idle k
  | Flush sid _ k => exists r, p' = node (k r)
  | _ => False
  end.

Lemma child_wf {A : Type} (p : Prog A) : Acc child (node p).
Proof.
  induction p as [A a | A a k IH | A sid pc k IH | A e | A body _ k IH]; try solve [constructor; intros ? []].
  - constructor. intros p' [r ->]. apply IH.
  - assert (H : Acc child (Flush sid FlushConc.Idle k)) by (constructor; intros p' [r ->]; apply IH).
    destruct pc; try exact H. constructor. intros p' ->. exact H.
Qed.

(** A thread of which nothing is left is at rest. *)
Definition below (x' x : option (Prog unit)) : Prop :=
  match x, x' with
  | Some (Ret _), None => True
  | Some p, Some p' => child p' p
  | _, _ => False
  end.

Lemma below_child p' p : child p' p -> below (Some p') (Some p).
Proof. by destruct p. Qed.

Lemma below_wf o : Acc below (node <$> o).
Proof.
  assert (Hnone : Acc below None) by (constructor; intros ? []).
  destruct o as [p |]; [| done]. cbn. induction (child_wf p) as [q _ IH]. constructor.
  intros [p' |] H; [| done]. apply IH. by destruct q.
Qed.

(** One of several threads has moved. *)
Definition one_below (l' l : list (option (Prog unit))) : Prop :=
  exists i x x', l !! i = Some x /\ below x' x /\ l' = <[i := x']> l.

Lemma one_below_wf l : Forall (Acc below) l -> Acc one_below l.
Proof.
  induction l as [| x l IHl]; intros H; [constructor; intros l' (i & x & x' & Hi & _); by rewrite lookup_nil in Hi |].
  apply Forall_cons in H as [Hx Hl]. specialize (IHl Hl). clear Hl. revert x Hx.
  induction IHl as [l _ IHl]. intros x Hx. induction Hx as [x Hx IHx].
  constructor. intros l' (i & y & y' & Hi & Hb & ->). destruct i as [| i]; cbn in Hi |- *.
  - injection Hi as <-. by apply IHx.
  - apply IHl; [by exists i, y, y' | by constructor].
Qed.

(** ** The main thread

    An event that [handle_events] takes is paid for by the queue. *)
Definition took (a : Action) : result a -> bool :=
  match a with
  | PopMain => fun r => match r with Some _ => true | None => false end
  | _ => fun _ => false
  end.

Definition main_child {A : Type} (p' p : Prog A) : Prop :=
  match p with
  | Act a k => exists r, took a r = false /\ p' = k r
  | Repeat body k => body = take_main_event /\ p' = andthen body (fun b => if b then Repeat body k else k)
  | _ => False
  end.

Lemma main_child_wf {A : Type} (p : Prog A) : Acc main_child p.
Proof.
  induction p as [A a | A a k IH | A sid pc k IH | A e | A body _ k IH]; try solve [constructor; intros ? []].
  - constructor. intros p' (r & _ & ->). apply IH.
  - constructor. intros p' [-> ->]. constructor. cbn. intros p' ([e |] & Hr & ->); [done |]. exact IH.
Qed.

Definition main_below (x' x : option (Prog unit)) : Prop :=
  match x, x' with
  | Some (Ret _), None => True
  | Some p, Some p' => main_child p' p
  | _, _ => False
  end.

Lemma main_below_wf o : Acc main_below o.
Proof.
  assert (Hnone : Acc main_below None) by (constructor; intros ? []).
  destruct o as [p |]; [| done]. induction (main_child_wf p) as [q _ IH]. constructor.
  intros [p' |] H; [| done]. apply IH. by destruct q.
Qed.

(** ** The work of the flushes *)

Definition phase (p : FlushConc.Pc) : nat :=
  match p with
  | FlushConc.Idle | FlushConc.Packing _ => 0
  | FlushConc.Posting _ _ => 1
  | FlushConc.GivingUp _ _ => 2
  | FlushConc.Popping _ => 3
  | FlushConc.Sending _ => 4
  | FlushConc.Front _ => 5
  | FlushConc.Exchanging _ | FlushConc.Cas _ => 6
  | FlushConc.Testing _ => 7
  | FlushConc.Releasing _ => 8
  end.

Definition phase_of (o : option (Prog unit)) : nat :=
  match o with Some (Flush _ pc _) => phase pc | _ => 0 end.

(** What a session holds for its flushes to do. *)
Definition supply (o : Session.Session) : nat :=
  10 * (length (Session.send_queue_ o) + length (Session.sock_outs o)).

#[local] Arguments supply : simpl never.

Lemma tstep_less p p' o o' :
  FlushConc.tstep p o = Some (p', o') -> (forall data, p <> FlushConc.Packing data) ->
  (forall c r, p <> FlushConc.Posting c r) -> (supply o' + phase p' < supply o + phase p)%nat.
Proof.
  intros H H1 H2. destruct p; cbn in H; try done; try (by destruct (H1 data)); try (by destruct (H2 o0 r));
    unfold FlushConc.send_once in H; repeat (case_match; try done); simplify_eq; unfold supply; cbn;
    repeat match goal with E : Session.sock_outs _ = _ |- _ => rewrite E end;
    repeat match goal with E : Session.send_queue_ _ = _ |- _ => rewrite E end; cbn; lia.
Qed.

Definition flush_work (w : World) : nat := map_sum supply (heap w).

Lemma flush_work_put w sid o o' :
  heap w !! sid = Some o -> (flush_work (set_heap (<[sid := o']> (heap w)) w) + supply o = flush_work w + supply o')%nat.
Proof. intros Ho. unfold flush_work. cbn [heap set_heap]. rewrite map_sum_insert, (map_sum_lookup _ _ _ _ Ho). lia. Qed.

Lemma on_session_work {A : Type} sid (f : Session.Session -> A * Session.Session) s r s' :
  (forall o, supply (f o).2 = supply o) -> on_session sid f s = Done r s' ->
  flush_work (world s') = flush_work (world s).
Proof.
  intros Hf. unfold on_session. destruct (heap (world s) !! sid) as [o |] eqn:Ho; [| done].
  specialize (Hf o). destruct (f o) as [a o']. intros [= _ <-]. cbn in Hf.
  pose proof (flush_work_put _ _ _ o' Ho). cbn [world set_world]. lia.
Qed.

Lemma receive_supply ins o : supply (Session.on_readable ins o).2 = supply o.
Proof.
  revert o. induction ins as [| i ins IH]; intros o; [done |]. destruct i; cbn; try done; try apply IH.
  case_decide; [done |]. by rewrite IH.
Qed.

Lemma extract_supply p o : supply (Session.extract_packet p o).2 = supply o.
Proof. unfold Session.extract_packet. by repeat case_decide. Qed.

Section Steps.
Context {Indet : Indeterminate} {Kernel : EpollKernel}.

(** Only flushes send, and only other threads add to the queue of main events. *)
Lemma perform_work a s r s' : perform a s = Done r s' -> flush_work (world s') = flush_work (world s).
Proof.
  destruct a; cbn; unfold read, write, see_session, see_worker, see_user, on_user, on_worker, remove_user;
    try (by intros [= _ <-]); try (by repeat case_match; intros; simplify_eq).
  - intros [= _ <-]. unfold flush_work, Shared.add_session. cbn. rewrite map_sum_insert, delete_id; [done |].
    apply not_elem_of_dom. apply is_fresh.
  - apply on_session_work. done.
  - apply on_session_work. intros o. apply receive_supply.
  - apply on_session_work. intros o. pose proof (extract_supply empty_packet o).
    by destruct (Session.extract_packet _ o) as [[b p] o'].
Qed.

Lemma perform_events a s r s' :
  perform a s = Done r s' -> may Main a ->
  if took a r then (length (main_events (world s')) < length (main_events (world s)))%nat
  else main_events (world s') = main_events (world s).
Proof.
  destruct a; cbn; unfold read, write, see_session, see_worker, see_user, on_user, on_worker, on_session, remove_user;
    try (by intros [= _ <-]); try (by repeat case_match; intros; simplify_eq).
  destruct (main_events (world s)) as [| e q]; intros [= <- <-] _; cbn; [done | lia].
Qed.

(** ** The measure *)

Import Interleaving.

(** [ts] are the threads other than the main one that may be running. *)
Definition crew (ts : list Tid) (st : State) : Prop :=
  NoDup ts /\ Main ∉ ts /\ forall t, running st t <> None -> t = Main \/ t ∈ ts.

Definition programs (ts : list Tid) (st : State) : list (option (Prog unit)) := (running st) <$> ts.

Definition node_of (o : option (Prog unit)) : option (Prog unit) := node <$> o.

Definition ahead (ts : list Tid) (st : State) : list (option (Prog unit)) := node_of <$> programs ts st.

Definition work (ts : list Tid) (st : State) : nat :=
  flush_work (world (shared st)) + sum_list_with phase_of (programs ts st).

Definition events (st : State) : nat := length (main_events (world (shared st))).

Lemma programs_moved ts i t p s st :
  NoDup ts -> ts !! i = Some t -> programs ts (set_running t p s st) = <[i := p]> (programs ts st).
Proof.
  intros Hnd Hi. apply list_eq. intros j. unfold programs. rewrite list_lookup_fmap.
  assert (Hl : (i < length (running st <$> ts))%nat) by (rewrite length_fmap; by eapply lookup_lt_Some).
  destruct (decide (j = i)) as [-> |]; [rewrite list_lookup_insert_eq, Hi by done; cbn; by rewrite decide_True |].
  rewrite list_lookup_insert_ne, list_lookup_fmap by done. destruct (ts !! j) as [t' |] eqn:Ej; [| done].
  cbn. rewrite decide_False; [done |]. intros ->. by destruct (NoDup_lookup ts i j t Hnd Hi Ej).
Qed.

Lemma programs_same ts t p s st : t ∉ ts -> programs ts (set_running t p s st) = programs ts st.
Proof.
  intros Ht. apply list_fmap_ext. intros i t' Hi. cbn. rewrite decide_False; [done |]. intros ->.
  destruct Ht. by eapply list_elem_of_lookup_2.
Qed.

Lemma sum_moved {X : Type} (f : X -> nat) l i x x' :
  l !! i = Some x -> (sum_list_with f (<[i := x']> l) + f x = sum_list_with f l + f x')%nat.
Proof.
  revert i. induction l as [| y l IH]; intros [| i] Hi; cbn in *; try done.
  - injection Hi as ->. lia.
  - rewrite <- !Nat.add_assoc. f_equal. exact (IH i Hi).
Qed.

Lemma crew_moved ts t p s st : crew ts st -> running st t <> None -> crew ts (set_running t p s st).
Proof.
  intros (Hnd & Hm & Hts) Ht. split_and!; [done.. |]. intros t'. cbn. case_decide as Hd; [| apply Hts].
  intros _. subst. by apply Hts.
Qed.

(** What a step does to the measure. *)
Definition lower (ts : list Tid) (st' st : State) : Prop :=
  one_below (ahead ts st') (ahead ts st) \/
  ahead ts st' = ahead ts st /\
    ((work ts st' < work ts st)%nat \/
     work ts st' = work ts st /\
       ((events st' < events st)%nat \/
        events st' = events st /\ main_below (running st' Main) (running st Main))).

(** Another thread's step that leaves its node: *)
Lemma lower_ahead ts t x s st :
  crew ts st -> t <> Main -> running st t <> None -> below (node_of x) (node_of (running st t)) ->
  lower ts (set_running t x s st) st.
Proof.
  intros (Hnd & _ & Hts) Ht Hr Hb. left. destruct (Hts t Hr) as [| [i Hi]%list_elem_of_lookup_1]; [done |].
  unfold ahead. rewrite (programs_moved ts i t) by done. exists i, (node_of (running st t)), (node_of x).
  split_and!; [| done | by rewrite list_fmap_insert].
  unfold programs. by rewrite !list_lookup_fmap, Hi.
Qed.

(** and one inside a flush. *)
Lemma lower_flush ts t sid pc pc' k s st :
  crew ts st -> t <> Main -> running st t = Some (Flush sid pc k) ->
  node (Flush sid pc' k) = node (Flush sid pc k) ->
  (flush_work (world s) + phase pc' < flush_work (world (shared st)) + phase pc)%nat ->
  lower ts (set_running t (Some (Flush sid pc' k)) s st) st.
Proof.
  intros (Hnd & _ & Hts) Ht Hr Hn Hw. right.
  destruct (Hts t) as [| [i Hi]%list_elem_of_lookup_1]; [by rewrite Hr | done |].
  assert (Hp : programs ts st !! i = Some (Some (Flush sid pc k))).
  { unfold programs. by rewrite list_lookup_fmap, Hi, <- Hr. }
  unfold ahead, work. rewrite (programs_moved ts i t) by done. split.
  - rewrite list_fmap_insert. apply list_insert_id. rewrite list_lookup_fmap, Hp. cbn -[node].
    by rewrite Hn.
  - left. pose proof (sum_moved phase_of _ _ _ (Some (Flush sid pc' k)) Hp) as Hsum.
    unfold phase_of in Hsum at 2 4. cbn [shared set_running]. lia.
Qed.

(** A step of the main thread outside the flushes' part of the world. *)
Lemma lower_main ts x s st :
  crew ts st -> flush_work (world s) = flush_work (world (shared st)) ->
  (length (main_events (world s)) < events st)%nat \/
    main_events (world s) = main_events (world (shared st)) /\ main_below x (running st Main) ->
  lower ts (set_running Main x s st) st.
Proof.
  intros (Hnd & Hm & _) Hw H. right. unfold ahead, work, events. rewrite programs_same by done.
  split; [done |]. right. cbn [shared set_running]. split; [by rewrite Hw |].
  destruct H as [H | [E H]]; [by left | right]. by rewrite E.
Qed.

Lemma tstep_packs p p' o o' data :
  FlushConc.tstep p o = Some (p', o') -> p' <> FlushConc.Packing data.
Proof. intros H. destruct p; cbn in H; unfold FlushConc.send_once in H; repeat (case_match; try done); by simplify_eq. Qed.

Lemma node_flush {A : Type} sid pc (k : Session.FlushResult -> Prog A) :
  (forall data, pc <> FlushConc.Packing data) -> node (Flush sid pc k) = Flush sid FlushConc.Idle k.
Proof. intros H. destruct pc; try done. by destruct (H data). Qed.

(** A step inside a flush leaves its node, or does some of the flush's work. *)
Lemma flush_cases t sid pc (k : Session.FlushResult -> Prog unit) p' s s' :
  prog_step t (Flush sid pc k) s = Some (More p' s') ->
  (exists h, world s' = set_heap h (world s)) /\
  (child (node p') (node (Flush sid pc k)) \/
   exists pc', p' = Flush sid pc' k /\ node p' = node (Flush sid pc k) /\
     (flush_work (world s') + phase pc' < flush_work (world s) + phase pc)%nat).
Proof.
  intros Hx. assert (Hpost : (exists c r, pc = FlushConc.Posting c r) \/ forall c r, pc <> FlushConc.Posting c r)
    by (destruct pc; [right; done .. | left; eauto]).
  destruct Hpost as [(c & r & ->) | Hn].
  { injection Hx as <- <-. split; [exists (heap (world s)); by destruct (world s) |]. left. by exists r. }
  assert (E : exists pc', flush_step t sid pc s = Done pc' s' /\ p' = Flush sid pc' k).
  { destruct (flush_step t sid pc s) as [pc' s1 | c] eqn:E; destruct pc; cbn in Hx; try rewrite E in Hx;
      try done; try (injection Hx as <- <-; eauto); by destruct (Hn o r). }
  clear Hx. destruct E as (pc' & E & ->). unfold flush_step in E.
  destruct (heap (world s) !! sid) as [o |] eqn:Ho; [| done].
  destruct (FlushConc.tstep pc o) as [[pc1 o'] |] eqn:Et; [| done]. injection E as -> <-.
  split; [by eexists |]. assert (Hpack : (exists data, pc = FlushConc.Packing data) \/ forall data, pc <> FlushConc.Packing data)
    by (destruct pc; first [left; eexists; reflexivity | right; done]).
  destruct Hpack as [[data ->] | Hnp]; [left; by injection Et as <- _ | right]. exists pc'. split_and!; [done | |].
  - rewrite !node_flush; [done | done |]. intros data. by eapply tstep_packs.
  - pose proof (tstep_less _ _ _ _ Et Hnp Hn). pose proof (flush_work_put _ _ _ o' Ho). cbn [world]. lia.
Qed.

Lemma continue_flush ts t sid pc k st st' :
  crew ts st -> t <> Main -> running st t = Some (Flush sid pc k) -> exec (Continue t) st = Next st' ->
  crew ts st' /\ lower ts st' st.
Proof.
  intros Hts Ht Ep Hx. cbn [exec] in Hx. rewrite Ep in Hx.
  destruct (prog_step t (Flush sid pc k) (shared st)) as [[p' s | c] |] eqn:E; [| done | by destruct pc].
  injection Hx as <-. split; [apply crew_moved; [done | by rewrite Ep] |].
  destruct (flush_cases _ _ _ _ _ _ _ E) as [_ [Hc | (pc' & -> & Hn & Hw)]].
  - apply lower_ahead; [done | done | by rewrite Ep |]. rewrite Ep. by apply below_child.
  - by eapply lower_flush.
Qed.

Lemma continue_lower n ts st st' t :
  reachable n st -> crew ts st -> enabled st (Continue t) -> exec (Continue t) st = Next st' ->
  crew ts st' /\ lower ts st' st.
Proof.
  intros Hr Hts He Hx. cbn in He, Hx. destruct (running st t) as [p |] eqn:Ep; [| done].
  pose proof (reachable_policy n st t p Hr Ep) as Hp.
  assert (Hcrew : forall x s, crew ts (set_running t x s st)) by (intros; apply crew_moved; [done | by rewrite Ep]).
  destruct p as [a | a k | sid pc k | e | body k]; cbn in Hp, Hx; try done.
  - injection Hx as <-. split; [done |]. destruct (decide (t = Main)) as [-> |].
    + apply lower_main; [done.. |]. right. by rewrite Ep.
    + apply lower_ahead; [done | done | by rewrite Ep | by rewrite Ep].
  - destruct Hp as [Hm Hk]. destruct (perform a (shared st)) as [r s |] eqn:E; [| done]. injection Hx as <-.
    split; [done |]. destruct (decide (t = Main)) as [-> |].
    + apply lower_main; [done | by eapply perform_work |].
      pose proof (perform_events a _ r s E Hm) as Hev. destruct (took a r) eqn:Etook; [by left | right].
      split; [done |]. rewrite Ep. cbn. by exists r.
    + apply lower_ahead; [done | done | by rewrite Ep |]. rewrite Ep. cbn. by exists r.
  - destruct Hp as [Ht Hk]. eapply continue_flush; [done | done | exact Ep |]. cbn. by rewrite Ep.
  - destruct Hp as (-> & -> & x & ->). injection Hx as <-. split; [done |]. apply lower_main; [done.. |].
    right. split; [done |]. rewrite Ep. cbn. done.
Qed.

Lemma lower_wf ts st : Acc (lower ts) st.
Proof.
  assert (Hl : Acc one_below (ahead ts st)).
  { apply one_below_wf. unfold ahead. apply Forall_fmap, Forall_forall. intros o _. apply below_wf. }
  assert (Hm : Acc main_below (running st Main)) by apply main_below_wf.
  remember (ahead ts st) as l eqn:El. remember (work ts st) as b eqn:Eb. remember (events st) as e eqn:Ee.
  remember (running st Main) as m eqn:Em. revert b e m Hm st El Eb Ee Em.
  induction Hl as [l _ IHl]. intros b. induction (lt_wf b) as [b _ IHb]. intros e.
  induction (lt_wf e) as [e _ IHe]. intros m Hm. induction Hm as [m _ IHm]. intros st -> -> -> ->.
  constructor. intros st' [H | [Ea [H | [Eb [H | [Ee H]]]]]].
  - eapply IHl; [exact H | apply main_below_wf | reflexivity ..].
  - eapply IHb; [exact H | apply main_below_wf | exact (eq_sym Ea) | reflexivity ..].
  - eapply IHe; [exact H | apply main_below_wf | exact (eq_sym Ea) | exact (eq_sym Eb) | reflexivity ..].
  - eapply IHm; [exact H | exact (eq_sym Ea) | exact (eq_sym Eb) | exact (eq_sym Ee) | reflexivity].
Qed.

(** ** Handlers finish *)

(** A step of some thread inside its handler. *)
Definition onward (st st' : State) : Prop :=
  exists t, enabled st (Continue t) /\ exec (Continue t) st = Next st'.

Lemma onward_reachable n st st' : reachable n st -> rtc onward st st' -> reachable n st'.
Proof.
  unfold reachable. intros Hr H. etransitivity; [exact Hr |]. eapply rtc_subrel; [| exact H].
  intros st1 st2 (t & Ht). by exists (Continue t).
Qed.

Lemma reachable_crew n st : reachable n st -> exists ts, crew ts st.
Proof.
  apply (rtc_ind_r (R := step) (fun st => exists ts, crew ts st) (init n)).
  - exists []. split_and!; [constructor | apply not_elem_of_nil | done].
  - intros st1 st2 _ (a & He & Ha) (ts & Hts). destruct a as [l | t].
    + destruct (thread_of l) as [t |] eqn:El.
      * rewrite (exec_begin l t st1 El) in Ha. injection Ha as <-.
        destruct Hts as (Hnd & Hm & Hts). destruct (decide (t = Main \/ t ∈ ts)) as [Hin | Hout].
        -- exists ts. split_and!; [done.. |]. intros t'. cbn. case_decide as Hd; [by subst | apply Hts].
        -- exists (t :: ts). split_and!; [constructor; [tauto | done] | |].
           ++ intros [<- | ?]%elem_of_cons; tauto.
           ++ intros t'. cbn. case_decide as Hd; [intros _; subst; right; by left |].
              intros [| ?]%Hts; [by left | right; by right].
      * exists ts. destruct l as [| | | | | sid outs]; try done. cbn in Ha.
        destruct (kernel_step sid outs (shared st1)); [| done]. by injection Ha as <-.
    + exists ts. cbn in He, Ha. destruct (running st1 t) as [p |] eqn:Ep; [| done].
      assert (Hc : forall x s, crew ts (set_running t x s st1)) by (intros; apply crew_moved; [done | by rewrite Ep]).
      destruct (prog_step t p (shared st1)) as [[p' s' | c] |]; [injection Ha as <- | done | injection Ha as <-]; apply Hc.
Qed.

Lemma onward_acc n ts st : reachable n st -> crew ts st -> Acc (fun st2 st1 => onward st1 st2) st.
Proof.
  intros Hr Hts. induction (lower_wf ts st) as [st _ IH]. constructor. intros st2 (t & He & Hx).
  destruct (continue_lower n ts st st2 t Hr Hts He Hx) as [Hts2 Hlow]. apply IH; [done | | done].
  eapply onward_reachable; [done |]. apply rtc_once. by exists t.
Qed.

(** A thread has been stopped: the main thread by a failing [epoll_ctl], or, with
    fewer than two workers, the database thread by the empty distribution. *)
Definition halted (n : Z) (st : State) : Prop :=
  exists a c, enabled st a /\ exec a st = Halt c /\ halts n a c.

Lemma stuck_returned n st : reachable n st -> (forall st', ~ onward st st') -> idle st \/ halted n st.
Proof.
  intros Hr Hstuck. destruct (reachable_crew n st Hr) as (ts & _ & _ & Hts).
  destruct (decide (Exists (fun t => enabled st (Continue t)) (Main :: ts))) as [H | H].
  - right. apply Exists_exists in H as (t & _ & He).
    destruct (reachable_on n st Hr) as [Hst En]. pose proof (exec_ok (Continue t) st Hst He) as Hok.
    destruct (exec (Continue t) st) as [st'' | c] eqn:E; [destruct (Hstuck st''); by exists t |].
    rewrite En in Hok. by exists (Continue t), c.
  - left. intros t. destruct (running st t) as [p |] eqn:Ep; [| done]. destruct H. apply Exists_exists. exists t.
    assert (Hne : running st t <> None) by (by rewrite Ep). split; [| exact Hne].
    destruct (Hts t Hne) as [-> | Hin]; [by left | by right].
Qed.

(** Handlers return under every interleaving: from every reachable state, if
    no handler is begun, the threads inside one make finitely many steps in
    whatever order, however their flushes and [handle_events] feed each other;
    and where no further step is possible every handler has returned, unless a
    thread was stopped ([halted]). *)
Theorem handlers_finish n st :
  reachable n st ->
  Acc (fun st2 st1 => onward st1 st2) st /\
  forall st', rtc onward st st' -> (forall st'', ~ onward st' st'') ->
    idle st' \/ halted n st'.
Proof.
  intros Hr. destruct (reachable_crew n st Hr) as [ts Hts]. split; [by eapply onward_acc |].
  intros st' Hrun Hstuck. apply (stuck_returned n); [by eapply onward_reachable | done].
Qed.

End Steps.

(** Two threads in the middle of creating rooms, and where they get. *)
Section Demo.
#[local] Existing Instance zero_indeterminate.
#[local] Existing Instance simple_epoll.
Import Interleaving.

Lemma handlers_finish_witness :
  Acc (fun st2 st1 => onward st1 st2) (reached two_rooms) /\
  enabled (reached two_rooms) (Continue Db) /\ enabled (reached two_rooms) (Continue (Worker 2)) /\
  forall st', rtc onward (reached two_rooms) st' -> (forall st'', ~ onward st' st'') ->
    idle st' \/ halted 2 st'.
Proof.
  destruct (handlers_finish 2 (reached two_rooms) two_rooms_reachable) as [H1 H2].
  split; [exact H1 |]. do 2 (split; [apply (bool_decide_unpack _); by vm_compute |]). exact H2.
Defined.

End Demo.
End Finish.
