(* ===== verification/Crossing.v ===== *)
(** * Crossing: a join and a close that cross

    [ghost_member_reachable] (Lifecycle.v) leaves a closed client in a room
    because [join_room] adds the session before it finds that the user is gone.
    With handlers interleaved there is a second way, in which [join_room] does
    find the user and succeeds: [Server::close_session] has read the user's
    current room and not yet removed the user. The DISCONNECT events then go to
    the room the client came from. *)

From S2P Require Import Prelude Codec Wire Session User Room Event World RoomManager RoomWorker.
From S2P Require Import Server RoomWorkerSpec Flow FlushConc Shared Programs Interleaving.

Module Crossing.
Import Protocol World Server Shared Programs Interleaving.

Section Schedules.
Context {Indet : Indeterminate} {Kernel : EpollKernel}.

Lemma run_steps_app l1 l2 st :
  run (l1 ++ l2) st = match run l1 st with Some st1 => run l2 st1 | None => None end.
Proof.
  revert st. induction l1 as [| a l1 IH]; intros st; [done |]. cbn.
  case_decide; [| done]. destruct (exec a st); [apply IH | done].
Qed.

(** Threads that begin nothing stay at rest. *)
Definition begun (steps : list Step) : list Tid :=
  omap (fun a => match a with Begin l => thread_of l | Continue _ => None end) steps.

Lemma exec_begun a st st' t :
  exec a st = Next st' -> running st' t <> None -> running st t <> None \/ t ∈ begun [a].
Proof.
  intros Ha Ht. destruct a as [l | t0].
  - assert (H : match thread_of l with
                | Some t0 => st' = set_running t0 (Some (program l)) (shared st) st
                | None => running st' = running st
                end).
    { destruct l; cbn in Ha |- *; try (by injection Ha as <-).
      destruct (kernel_step sid outs (shared st)); [| done]. by injection Ha as <-. }
    cbn. destruct (thread_of l) as [t0 |]; [subst st'; cbn in Ht | left; by rewrite <- H].
    case_decide as Hd; [right; subst; by left | by left].
  - left. cbn in Ha. destruct (running st t0) as [p |] eqn:Ep; [| by injection Ha as <-].
    destruct (prog_step t0 p (shared st)) as [[p' s' | c] |]; [injection Ha as <- | done | injection Ha as <-];
      cbn in Ht; (case_decide as Hd; [subst; by rewrite Ep | done]).
Qed.

Lemma run_begun steps st st' t :
  run steps st = Some st' -> running st' t <> None -> running st t <> None \/ t ∈ begun steps.
Proof.
  revert st. induction steps as [| a steps IH]; intros st; cbn [run]; [intros [= ->]; by left |].
  case_decide; [| done]. destruct (exec a st) as [st1 |] eqn:E; [| done]. intros Hr Ht.
  assert (Hc : begun (a :: steps) = begun [a] ++ begun steps) by (exact (omap_app _ [a] steps)).
  rewrite Hc, elem_of_app. destruct (IH st1 Hr Ht) as [H1 | H1]; [| by right; right].
  destruct (exec_begun a st st1 t E H1); [by left | by right; left].
Qed.

Definition at_rest (st : State) (t : Tid) : bool := match running st t with None => true | Some _ => false end.

Lemma run_idle n steps st :
  run steps (init n) = Some st -> forallb (at_rest st) (begun steps) = true -> idle st.
Proof.
  intros Hr Hall t. destruct (running st t) as [p |] eqn:E; [| done].
  destruct (run_begun steps (init n) st t Hr) as [H | H]; [by rewrite E | done |].
  rewrite forallb_forall in Hall. apply list_elem_of_In, Hall in H. unfold at_rest in H. by rewrite E in H.
Qed.

End Schedules.

Section Demo.
#[local] Existing Instance zero_indeterminate.
#[local] Existing Instance simple_epoll.

(** Client 5 has created room 100 on worker 2 and client 6 asks to join it.
    Worker 2 has put session 1 into the room and found the user; the connection
    hangs up and the main thread has read the user's room, the lobby. *)
Definition until_crossing : list Step :=
  through (LAccept 5) 8 ++ through (LWorker 1) 7 ++ through (LAccept 6) 8 ++ through (LWorker 1) 7 ++
  through (Flow.sends 5 CMD_CREATE_ROOM 0) 8 ++ through (LWorker 1) 3 ++
  through (placed 100) 7 ++ through (LWorker 2) 11 ++ through (LWorker 1) 15 ++
  through (Flow.sends 6 CMD_JOIN_ROOM 100) 8 ++
  through (LWorker 2) 5 ++ through (LReady 6 None false true) 6.

(** Both go on, and everything that was queued is done. *)
Definition afterwards : list Step :=
  repeat (Continue (Worker 2)) 4 ++ repeat (Continue Main) 7 ++ through (LWorker 1) 7 ++
  through (LKernel 0%nat [Session.SendN 1000]) 0 ++ through (LKernel 1%nat [Session.SendN 1000]) 0 ++
  through (LWorker 1) 5 ++ through (LWorker 2) 2 ++
  through (LDb Event.DBSuccess [] [2; 2]) 4 ++ through (LWorker 2) 12 ++ through LMainEvents 6.

Lemma until_crossing_reachable : reachable 2 (reached until_crossing).
Proof. apply reached_reachable. by vm_compute. Qed.

Definition completes (steps : list Step) : bool :=
  match run steps (init 2) with Some _ => true | None => false end.

Lemma reached_more l1 l2 :
  completes l1 = true -> completes (l1 ++ l2) = true -> rtc step (reached l1) (reached (l1 ++ l2)).
Proof.
  unfold completes, reached. rewrite run_steps_app. destruct (run l1 (init 2)) as [st1 |]; [| done]. intros _.
  cbn. destruct (run l2 st1) as [st2 |] eqn:E; [| done]. intros _. by eapply run_steps.
Qed.

Lemma reached_idle steps : forallb (at_rest (reached steps)) (begun steps) = true -> idle (reached steps).
Proof.
  unfold reached. destruct (run steps (init 2)) as [st |] eqn:E; [by apply (run_idle 2) | by intros _ t].
Qed.

Lemma afterwards_idle : idle (reached (until_crossing ++ afterwards)).
Proof. apply reached_idle. by vm_compute. Qed.

(** C33: A client that disconnects while its join is being executed stays a member
    although the join succeeded: there is a reachable state in which the worker
    has found the user and is about to set its room, the main thread being
    inside [close_session]; and from it one in which nothing is running or
    queued, the room counts the client and holds its session, and neither the
    session table nor the user tables know it. *)
Theorem ghost_after_success :
  exists st1 st2 room,
    reachable 2 st1 /\
    (exists k, running st1 (Worker 2) = Some (Act (SetUserRoom 2 100) k)) /\
    sessions (world (shared st1)) !! 6 = Some 1%nat /\ running st1 Main <> None /\
    rtc step st1 st2 /\ idle st2 /\
    (let w := world (shared st2) in
     RoomWorkerSpec.room_in w 2 100 = Some room /\
     Room.sessions_ room !! 6 = Some 1%nat /\ Room.get_sessions_num room = 2 /\
     sessions w !! 6 = None /\ RoomWorkerSpec.user_of w 6 = None /\
     Flow.idle w 1 /\ Flow.idle w 2 /\ job_queue w = [] /\ main_events w = []).
Proof.
  exists (reached until_crossing), (reached (until_crossing ++ afterwards)).
  eexists. split; [apply until_crossing_reachable |]. split; [eexists; vm_compute; reflexivity |].
  split; [by vm_compute |]. split.
  { assert (E : at_rest (reached until_crossing) Main = false) by by vm_compute.
    unfold at_rest in E. by destruct (running (reached until_crossing) Main). }
  split; [| split].
  - apply reached_more; by vm_compute.
  - apply afterwards_idle.
  - cbv zeta. split_and!; by vm_compute.
Qed.

End Demo.
End Crossing.
