(* ===== verification/Ranks.v ===== *)
(** * Ranks: what work an item of work can lead to

    Every event in a worker's queue, every job and every main event has a rank,
    and a program that handles one posts only items of lower rank: a forwarded
    event has fewer actions left, a job comes before the event its callback
    posts, a main event closes at most one connection, and the events that
    closing posts ([quiet]) post nothing. [descends] is the order in which the
    queued items and the programs in progress shrink: one element is replaced by
    any number of smaller ones. *)

From S2P Require Import Prelude Codec Wire Session User Room Event World RoomManager RoomWorker.
From S2P Require Import Server FlushConc Shared Programs.

(** ** Replacing one element of a list by smaller ones *)

Section Descending.
Context {X : Type} (lt : X -> X -> Prop).

Definition descends (l' l : list X) : Prop :=
  exists x ys rest, l ≡ₚ x :: rest /\ l' ≡ₚ ys ++ rest /\ Forall (fun y => lt y x) ys.

Lemma descends_permutation l l' m : descends l' l -> l ≡ₚ m -> descends l' m.
Proof. intros (x & ys & rest & H1 & H2 & H3) Hm. exists x, ys, rest. by rewrite <- Hm. Qed.

Lemma acc_permutation l m : Acc descends l -> l ≡ₚ m -> Acc descends m.
Proof. intros [H] Hm. constructor. intros l' Hl'. apply H. by eapply descends_permutation. Qed.

Lemma acc_descends_app l m : Acc descends l -> Acc descends m -> Acc descends (l ++ m).
Proof.
  intros Hl. revert m. induction Hl as [l Hl IHl]. intros m Hm. induction Hm as [m Hm IHm].
  constructor. intros n (x & ys & rest & H1 & H2 & H3).
  assert (Hx : x ∈ l ++ m) by (rewrite H1; by left).
  apply elem_of_app in Hx as [[l0 Hl0]%elem_of_Permutation | [m0 Hm0]%elem_of_Permutation].
  - assert (Hrest : rest ≡ₚ l0 ++ m) by (apply (Permutation_cons_inv (a := x)); by rewrite <- H1, Hl0).
    apply (acc_permutation ((ys ++ l0) ++ m)); [| by rewrite H2, Hrest, app_assoc].
    apply IHl; [by exists x, ys, l0 | by constructor].
  - assert (Hrest : rest ≡ₚ l ++ m0).
    { apply (Permutation_cons_inv (a := x)). rewrite <- H1, Hm0. by rewrite Permutation_middle. }
    apply (acc_permutation (l ++ (ys ++ m0))).
    + apply IHm. by exists x, ys, m0.
    + rewrite H2, Hrest, !app_assoc. by rewrite (Permutation_app_comm l ys).
Qed.

Lemma descends_wf l : Forall (Acc lt) l -> Acc descends l.
Proof.
  assert (Hone : forall x, Acc lt x -> Acc descends [x]).
  { induction 1 as [x _ IH]. constructor. intros l' (y & ys & rest & H1 & H2 & H3).
    apply Permutation_singleton_l in H1. injection H1 as <- <-. rewrite app_nil_r in H2.
    apply (acc_permutation ys); [| by symmetry]. clear H2.
    induction H3 as [| y ys Hy _ IHys]; [constructor; intros l1 (z & zs & r & Hz & _); by apply Permutation_nil_l in Hz |].
    apply (acc_descends_app [y]); [by apply IH | done]. }
  induction 1 as [| x l Hx _ IH]; [constructor; intros l1 (z & zs & r & Hz & _); by apply Permutation_nil_l in Hz |].
  apply (acc_descends_app [x]); [by apply Hone | done].
Qed.
End Descending.

Module Ranks.
Import Protocol World Server Shared Programs.

(** ** Ranks of items *)

Definition left (e : Event.RoomEvent) : nat := length (Event.actions e) - Event.current_action e.

(** An event that posts nothing: the DISCONNECT of a closed connection. *)
Definition quiet (e : Event.RoomEvent) : Prop :=
  (exists a, Event.actions e !! Event.current_action e = Some a /\ Event.command a = Event.DISCONNECT_SESSION) /\
  (Event.result_code e = Success \/ Event.result_code e = None_).

#[global] Instance quiet_dec e : Decision (quiet e).
Proof.
  unfold quiet. apply and_dec; [| apply _].
  destruct (Event.actions e !! Event.current_action e) as [a |]; [| right; by intros (a & ? & _)].
  destruct (decide (Event.command a = Event.DISCONNECT_SESSION)) as [H | H].
  - left. by exists a.
  - right. intros (a' & [= <-] & H'). done.
Defined.

Definition event_rank (e : Event.RoomEvent) : nat := if decide (quiet e) then 1 else 2 * left e + 3.

Definition job_rank (j : Event.DBJob) : nat :=
  match Event.on_result j with
  | Event.NoCallback => 1
  | Event.DbCreateRoomOnResult e | Event.DbLoadMessagesOnResult e => 2 * left e + 4
  end.

Definition MAIN_RANK : nat := 2.

Lemma event_rank_le e : (event_rank e <= 2 * left e + 3)%nat.
Proof. unfold event_rank. case_decide; lia. Qed.

(** ** What a program posts *)

Definition pops (a : Action) : bool :=
  match a with PopEvent _ | PopJob | PopMain => true | _ => false end.

Definition posts (a : Action) : list nat :=
  match a with
  | PostEvent _ e => [event_rank e]
  | PostJob j => [job_rank j]
  | PushMain _ => [MAIN_RANK]
  | _ => []
  end.

(** Until the loop of [handle_events] comes round: takes nothing from a queue,
    and puts only items below [r] into one. *)
Fixpoint ranked (r : nat) {A : Type} (p : Prog A) : Prop :=
  match p with
  | Ret _ | Throw _ | Repeat _ _ => True
  | Act a k => pops a = false /\ Forall (fun q => (q < r)%nat) (posts a) /\ forall x, ranked r (k x)
  | Flush _ _ k => forall x, ranked r (k x)
  end.

Lemma ranked_andthen r {A B : Type} (p : Prog A) (f : A -> Prog B) :
  ranked r p -> (forall a, ranked r (f a)) -> ranked r (andthen p f).
Proof.
  intros Hp Hf. induction p as [A a | A a k IH | A sid pc k IH | A e | A body _ k IH]; cbn in *; try done.
  - destruct Hp as (H1 & H2 & H3). split_and!; [done.. |]. intros x. by apply IH.
  - intros x. by apply IH.
Qed.

Lemma ranked_act r a : pops a = false -> posts a = [] -> ranked r (act a).
Proof. intros H1 H2. cbn. rewrite H2. by split_and!. Qed.

Lemma ranked_deref r {A : Type} e (o : option A) : ranked r (deref e o).
Proof. by destruct o. Qed.

Lemma ranked_for_each r {A : Type} (l : list A) f : (forall a, ranked r (f a)) -> ranked r (for_each l f).
Proof. intros H. induction l as [| a l IH]; [done |]. by apply ranked_andthen. Qed.

Create HintDb ranked discriminated.

(** Follows the program's text, like [obey] of Policy.v. *)
Ltac rank_it :=
  repeat first
    [ done
    | solve [auto with ranked nocore]
    | apply ranked_andthen; [| intros ?]
    | apply ranked_act; done
    | apply ranked_deref
    | apply ranked_for_each; intros ?
    | case_decide
    | case_match ].

Section Handlers.
Context (r : nat).

Lemma ranked_session_fd so : ranked r (session_fd so).
Proof. unfold session_fd. rank_it. Qed.

Lemma ranked_current_room e : ranked r (current_room e).
Proof. unfold current_room. rank_it. Qed.

Lemma ranked_post wid e : (event_rank e < r)%nat -> ranked r (act (PostEvent wid e)).
Proof. intros H. split_and!; [done | by constructor | done]. Qed.

Lemma ranked_route e target : (event_rank e < r)%nat -> ranked r (route_event e target).
Proof. intros H. unfold route_event. rank_it. by apply ranked_post. Qed.

Lemma ranked_route_then e target : (event_rank e < r)%nat -> ranked r (route_event e target ;! Ret tt)%prog.
Proof. intros H. apply ranked_andthen; [by apply ranked_route | done]. Qed.

Lemma ranked_leave_room_fd wid fd k : ranked r (leave_room_fd wid fd k).
Proof. unfold leave_room_fd. rank_it. Qed.
#[local] Hint Resolve ranked_session_fd ranked_current_room ranked_leave_room_fd : ranked.

Lemma ranked_leave_first wid fd ids : ranked r (leave_first wid fd ids).
Proof. induction ids as [| k ids IH]; [done |]. cbn [leave_first]. rank_it. Qed.
#[local] Hint Resolve ranked_leave_first : ranked.

Lemma ranked_diconnect_session wid fd k : ranked r (diconnect_session wid fd k).
Proof. unfold diconnect_session. rank_it. Qed.

(** Senders can make the main thread do something. *)
Hypothesis sender : (MAIN_RANK < r)%nat.

Lemma ranked_push e : ranked r (act (PushMain e)).
Proof. split_and!; [done | by constructor | done]. Qed.

Lemma ranked_request ty sid : ranked r (request ty sid).
Proof. unfold request. rank_it. apply ranked_push. Qed.
#[local] Hint Resolve ranked_request : ranked.

Lemma ranked_send_packet so data : ranked r (send_packet so data).
Proof. unfold send_packet. apply ranked_andthen; [rank_it | intros sid]. intros x. cbn [andthen]. rank_it. Qed.

Lemma ranked_flush so : ranked r (flush so).
Proof. unfold flush. apply ranked_andthen; [rank_it | intros sid]. intros x. cbn [andthen]. rank_it. Qed.
#[local] Hint Resolve ranked_send_packet ranked_flush : ranked.

Lemma ranked_send_response e : ranked r (send_response e).
Proof. unfold send_response. rank_it. Qed.
#[local] Hint Resolve ranked_send_response : ranked.

Lemma ranked_broadcast_to e k data sid : ranked r (broadcast_to e k data sid).
Proof. unfold broadcast_to. rank_it. Qed.

Lemma ranked_after_action e cmd f : ranked r (f e) -> ranked r (after_action e cmd f).
Proof. intros H. unfold after_action. rank_it. Qed.

End Handlers.
#[export] Hint Resolve ranked_session_fd ranked_current_room ranked_leave_room_fd ranked_leave_first
  ranked_diconnect_session ranked_broadcast_to ranked_send_response ranked_flush ranked_send_packet : ranked.

(** ** Every handler posts below the item it handles *)

Lemma left_advance e : (Event.current_action e < length (Event.actions e))%nat ->
  left (Event.set_current (S (Event.current_action e)) e) = pred (left e).
Proof. unfold left. cbn. lia. Qed.

Lemma ranked_quiet fuel wid e r : quiet e -> ranked r (process_loop fuel wid e).
Proof.
  intros ((a & Ha & Hc) & Hres). destruct fuel as [| fuel]; [done |]. cbn [process_loop].
  case_decide; [| done]. rewrite decide_False by (intros []; destruct Hres; congruence).
  rewrite Ha. cbn [deref andthen]. rewrite Hc. rank_it.
Qed.

(** A room action, what follows it, and the loop again. *)
Lemma ranked_result r (p : Prog Protocol.Result) e cmd f :
  (MAIN_RANK < r)%nat -> ranked r p -> (forall res, ranked r (f (Event.set_result res e))) ->
  ranked r (let! res := p in after_action (Event.set_result res e) cmd f)%prog.
Proof. intros Hr Hp Hf. apply ranked_andthen; [done |]. intros res. by apply ranked_after_action. Qed.

Lemma ranked_job r j : (job_rank j < r)%nat -> ranked r (act (PostJob j)).
Proof. intros H. split_and!; [done | by constructor | done]. Qed.

Lemma ranked_process_loop fuel wid e r : (2 * left e + 3 <= r)%nat -> ranked r (process_loop fuel wid e).
Proof.
  revert e. induction fuel as [| fuel IH]; intros e He; [done |]. cbn [process_loop].
  case_decide as Hcur; [| done].
  assert (Hadv := left_advance e Hcur). set (e1 := Event.set_current _ e) in *.
  assert (Hl : (0 < left e)%nat) by (unfold left; lia).
  assert (Hr : (MAIN_RANK < r)%nat) by (unfold MAIN_RANK; lia).
  case_decide; [auto with ranked |]. apply ranked_andthen; [apply ranked_deref | intros action]. cbv zeta.
  assert (Hnext : forall res, ranked r (process_loop fuel wid (Event.set_result res e1))).
  { intros res. apply IH. change (left (Event.set_result res e1)) with (left e1). lia. }
  assert (Hroute : forall k target, ranked r (route_event (Event.set_target k e1) target ;! Ret tt)%prog).
  { intros k target. apply ranked_route_then. pose proof (event_rank_le (Event.set_target k e1)) as H1.
    change (left (Event.set_target k e1)) with (left e1) in H1. lia. }
  destruct (Event.command action).
  - apply ranked_result; [done | unfold create_room; rank_it | done].
  - apply ranked_result; [done | unfold join_room, join_room_session; rank_it | done].
  - apply ranked_result; [done | unfold leave_room; rank_it | done].
  - apply ranked_result; [done | unfold send_message; rank_it | done].
  - apply ranked_job. unfold job_rank. cbn [Event.on_result]. lia.
  - apply ranked_andthen; [auto with ranked | intros k]. apply ranked_job. unfold job_rank. cbn [Event.on_result]. lia.
  - apply ranked_andthen; [| intros _; apply ranked_after_action; [done | apply IH; lia]].
    unfold save_message. apply ranked_andthen; [auto with ranked | intros k].
    apply ranked_andthen; [auto with ranked | intros fd]. apply ranked_andthen; [by apply ranked_act | intros id].
    apply ranked_job. cbn. lia.
  - apply Hroute.
  - apply Hroute.
  - auto with ranked.
  - auto with ranked.
  - rank_it.
Qed.

Lemma ranked_process_event wid e : ranked (event_rank e) (process_event wid e).
Proof.
  unfold event_rank. case_decide; [by apply ranked_quiet |]. by apply ranked_process_loop.
Qed.

Lemma ranked_callback j status data draws :
  ranked (job_rank j) (run_callback (Event.on_result j) status data draws).
Proof.
  unfold job_rank. destruct (Event.on_result j) as [| e | e]; cbn [run_callback]; [done | |].
  - unfold db_create_room_on_result. destruct (Codec.take 8 (Codec.reader data)) as [taken rd].
    destruct (if decide (status = Event.DBStError) then None else taken).
    + cbv zeta. apply ranked_andthen; [unfold bind_room_worker; rank_it | intros wid]. apply ranked_route_then.
      eapply Nat.le_lt_trans; [apply event_rank_le |]. unfold left. cbn. rewrite length_fmap. lia.
    + apply ranked_route_then. eapply Nat.le_lt_trans; [apply event_rank_le |]. unfold left. cbn. lia.
  - unfold db_load_messages_on_result. cbv zeta. apply ranked_andthen; [auto with ranked | intros k].
    apply ranked_route_then. eapply Nat.le_lt_trans; [apply event_rank_le |].
    destruct status; unfold left; cbn; lia.
Qed.

(** Closing a connection posts events that post nothing. *)
Lemma ranked_disconnect r fd k : (1 < r)%nat -> ranked r (disconnect_session fd k).
Proof.
  intros Hr. unfold disconnect_session. apply ranked_andthen; [by apply ranked_act | intros junk].
  apply ranked_route_then. unfold event_rank. rewrite decide_True; [done |].
  split; [by eexists | by right].
Qed.

#[export] Hint Resolve ranked_disconnect : ranked.

Lemma ranked_close_session r fd : (1 < r)%nat -> ranked r (close_session fd).
Proof. intros Hr. unfold close_session. rank_it. Qed.

Lemma ranked_main_event e : ranked MAIN_RANK (handle_main_event e).
Proof.
  unfold handle_main_event. destruct (Event.me_type e); [apply ranked_close_session; unfold MAIN_RANK; lia | by apply ranked_act ..].
Qed.

(** Whatever a client sends: its plan has at most six actions. *)
Definition CLIENT_RANK : nat := 16.

Lemma client_event_rank e : (left e <= 6)%nat -> (event_rank e < CLIENT_RANK)%nat.
Proof. intros H. pose proof (event_rank_le e). unfold CLIENT_RANK. lia. Qed.

Lemma left_add cmd k e : (left (Event.add cmd k e) <= S (left e))%nat.
Proof.
  unfold left. rewrite Event.current_action_add. unfold Event.add, Event.add_action. case_decide; cbn; [lia |].
  rewrite length_app. cbn. lia.
Qed.

(** An event with one action. *)
Lemma new_event_rank cmd k e : left e = 0%nat -> (event_rank (Event.add cmd k e) < CLIENT_RANK)%nat.
Proof. intros H. apply client_event_rank. pose proof (left_add cmd k e). lia. Qed.

Lemma ranked_dispatch packet sid : ranked CLIENT_RANK (dispatch_packet packet sid).
Proof.
  unfold dispatch_packet. apply ranked_andthen.
  - apply ranked_route, client_event_rank. unfold left.
    pose proof (RoomManager.plan_length (RoomManager.packet_event packet sid) eq_refl). lia.
  - intros res. case_decide; [| done]. by apply ranked_route_then, new_event_rank.
Qed.

Lemma ranked_request_flush sid : ranked CLIENT_RANK (request_flush sid).
Proof.
  unfold request_flush. rank_it. by apply ranked_post, new_event_rank.
Qed.

Lemma ranked_client_close fd : ranked CLIENT_RANK (close_session fd).
Proof. apply ranked_close_session. unfold CLIENT_RANK. lia. Qed.
#[export] Hint Resolve ranked_dispatch ranked_request_flush ranked_client_close : ranked.

Lemma ranked_handle_packets fuel sid : ranked CLIENT_RANK (handle_packets fuel sid).
Proof. induction fuel as [| fuel IH]; [done |]. cbn [handle_packets]. rank_it. Qed.
#[export] Hint Resolve ranked_handle_packets : ranked.

Lemma ranked_accept fd : ranked CLIENT_RANK (accept_client fd).
Proof. unfold accept_client. rank_it. by apply ranked_post, new_event_rank. Qed.

Lemma ranked_on_ready fd epollin epollout hangup : ranked CLIENT_RANK (on_ready fd epollin epollout hangup).
Proof. unfold on_ready, handle_request, handle_epollout. rank_it. Qed.

End Ranks.
