(* ===== verification/Rest.v ===== *)
(** * Rest: the interleaved server comes to rest

    [server_comes_to_rest] (Quiescence.v) without the assumption that handlers
    are not interrupted, and [handlers_finish] (Finish.v) without the
    restriction that no handler is begun: when clients, sockets and the listener
    are quiet, the threads work through what is queued, in whatever order they
    are scheduled, and stop. The measure is lexicographic: the queued items and
    the programs in progress, each with its rank ([Ranks.descends]); the work of
    the flushes; and how far each thread is between two items. *)

From S2P Require Import Prelude Codec Wire Session User Room Event World RoomManager RoomWorker.
From S2P Require Import Respects Server FlushConc Quiescence Shared Programs RelyGuarantee.
From S2P Require Import Interleaving Policy Finish Ranks.

Module Rest.
Import Protocol World Respects Server Quiescence Shared Programs Policy Finish Ranks.

(** ** Elements: items in queues, and programs handling one *)

Definition Element : Type := nat * option (Prog unit).

Definition smaller (y x : Element) : Prop :=
  (y.1 < x.1)%nat \/
  y.1 = x.1 /\
    match x.2, y.2 with None, Some _ => True | Some p, Some p' => child p' p | _, None => False end.

Lemma child_node {A : Type} (p' p : Prog A) : child p' p -> exists q, p' = node q.
Proof.
  destruct p as [a | a k | sid pc k | e | body k]; cbn; try done.
  - intros [r ->]. by eexists.
  - assert (Hf : forall p1, (exists r, p1 = node (k r)) -> exists q, p1 = node q) by (intros p1 [r H]; by exists (k r)).
    destruct pc; try exact (Hf _). intros ->. by exists (Flush sid FlushConc.Idle k).
Qed.

Lemma child_acc {A : Type} (p : Prog A) : Acc child p.
Proof. constructor. intros p' [q ->]%child_node. apply child_wf. Qed.

Lemma smaller_wf x : Acc smaller x.
Proof.
  destruct x as [n o]. revert o. induction (lt_wf n) as [n _ IH]. intros o.
  assert (Hp : forall p, Acc smaller (n, Some p)).
  { intros p. induction (child_acc p) as [p _ IHp]. constructor. intros [m [q |]] [Hlt | [Heq H]]; cbn in *;
      [by apply IH | subst; by apply IHp | by apply IH | done]. }
  destruct o as [p |]; [apply Hp |]. constructor. intros [m [q |]] [Hlt | [Heq H]]; cbn in *;
    [by apply IH | subst; apply Hp | by apply IH | done].
Qed.

(** ** What is queued *)

Definition worker_items (m : gmap Z RoomWorker) : list nat :=
  map_to_list m ≫= (fun p => event_rank <$> event_queue_ p.2).

Definition items (w : World) : list nat :=
  worker_items (room_workers w) ++ (job_rank <$> job_queue w) ++ ((fun _ => MAIN_RANK) <$> main_events w).

Lemma worker_items_insert m wid r :
  worker_items (<[wid := r]> m) ≡ₚ (event_rank <$> event_queue_ r) ++ worker_items (delete wid m).
Proof.
  unfold worker_items. rewrite <- insert_delete_eq. rewrite map_to_list_insert by apply lookup_delete_eq. done.
Qed.

Lemma worker_items_lookup m wid r :
  m !! wid = Some r -> worker_items m ≡ₚ (event_rank <$> event_queue_ r) ++ worker_items (delete wid m).
Proof. intros H. rewrite <- worker_items_insert. by rewrite insert_id. Qed.

(** A worker whose queue is as before. *)
Lemma worker_items_same m wid r r' :
  m !! wid = Some r -> event_queue_ r' = event_queue_ r -> worker_items (<[wid := r']> m) ≡ₚ worker_items m.
Proof. intros Hr Hq. rewrite worker_items_insert, Hq. by rewrite <- worker_items_lookup. Qed.

Section Steps.
Context {Indet : Indeterminate} {Kernel : EpollKernel}.

Lemma perform_items a s x s' :
  perform a s = Done x s' -> pops a = false -> items (world s') ≡ₚ posts a ++ items (world s).
Proof.
  destruct a; cbn [pops]; try done; cbn [perform posts]; unfold read, write, see_session, see_worker, see_user,
    on_user, on_session, remove_user; try (by intros [= _ <-] _); try (by repeat case_match; intros; simplify_eq).
  - unfold on_worker. destruct (room_workers (world s) !! wid) as [r |] eqn:E; [| done].
    intros [= _ <-] _. unfold items. cbn. by rewrite (worker_items_same _ _ r).
  - unfold on_worker. destruct (room_workers (world s) !! wid) as [r |] eqn:E; [| done].
    intros [= _ <-] _. unfold items. cbn. by rewrite (worker_items_same _ _ r).
  - unfold on_worker. destruct (room_workers (world s) !! wid) as [r |] eqn:E; [| done].
    intros [= _ <-] _. unfold items. cbn. rewrite worker_items_insert, (worker_items_lookup _ _ _ E). cbn.
    rewrite fmap_app. cbn. rewrite <- !app_assoc. by rewrite Permutation_middle.
  - intros [= _ <-] _. unfold items. cbn. rewrite fmap_app. cbn. rewrite <- !app_assoc. cbn.
    by rewrite !Permutation_middle.
  - intros [= _ <-] _. unfold items. cbn. rewrite fmap_app. cbn. rewrite !app_assoc.
    by rewrite Permutation_app_comm.
Qed.

(** Taking an item: the first of its queue; none, and nothing happens. *)
Lemma perform_pop_event wid s x s' :
  perform (PopEvent wid) s = Done x s' ->
  match x with
  | Some e => items (world s) ≡ₚ event_rank e :: items (world s')
  | None => world s' = world s /\ exists r, room_workers (world s) !! wid = Some r /\ event_queue_ r = []
  end.
Proof.
  cbn. unfold on_worker. destruct (room_workers (world s) !! wid) as [r |] eqn:E; [| done].
  destruct (event_queue_ r) as [| e q] eqn:Eq; cbn; intros [= <- <-].
  - split; [| by exists r]. cbn. rewrite insert_id; [by destruct (world s) |]. rewrite E. destruct r. cbn in Eq |- *.
    by subst.
  - unfold items. cbn. rewrite worker_items_insert, (worker_items_lookup _ _ _ E), Eq. done.
Qed.

Lemma perform_pop_job s x s' :
  perform PopJob s = Done x s' ->
  match x with
  | Some j => items (world s) ≡ₚ job_rank j :: items (world s')
  | None => world s' = world s /\ job_queue (world s) = []
  end.
Proof.
  cbn. destruct (job_queue (world s)) as [| j q] eqn:Eq; cbn; intros [= <- <-]; cbn.
  - split; [| done]. destruct (world s). cbn in *. by subst.
  - unfold items. cbn. rewrite Eq. symmetry. apply Permutation_middle.
Qed.

Lemma perform_pop_main s x s' :
  perform PopMain s = Done x s' ->
  match x with
  | Some _ => items (world s) ≡ₚ MAIN_RANK :: items (world s')
  | None => world s' = world s /\ main_events (world s) = []
  end.
Proof.
  cbn. destruct (main_events (world s)) as [| j q] eqn:Eq; cbn; intros [= <- <-]; cbn.
  - split; [| done]. destruct (world s). cbn in *. by subst.
  - unfold items. cbn. rewrite Eq. cbn. rewrite !app_assoc. by rewrite <- Permutation_middle.
Qed.

(** ** What a thread contributes

    A thread that handles an item counts as the item, with the node its program
    has got to. At the point where it takes the next one it counts for
    nothing. *)
Definition counted (p : Prog unit) : bool :=
  match p with Act a _ => negb (pops a) | Flush _ _ _ => true | _ => false end.

Definition share (o : option (Prog unit)) (l : list Element) : Prop :=
  match o with
  | Some p => if counted p then exists r, ranked r p /\ l = [(r, Some (node p))] else l = []
  | None => l = []
  end.

(** Taking an item leads to a program of its rank. *)
Definition rooted {A : Type} (a : Action) : (result a -> Prog A) -> Prop :=
  match a with
  | PopEvent _ => fun k => (exists x, k None = Ret x) /\ forall e, ranked (event_rank e) (k (Some e))
  | PopJob => fun k => (exists x, k None = Ret x) /\ forall j, ranked (job_rank j) (k (Some j))
  | PopMain => fun k => (exists x, k None = Ret x) /\ forall e, ranked MAIN_RANK (k (Some e))
  | _ => fun _ => True
  end.

Definition tame (p : Prog unit) : Prop :=
  (exists r, ranked r p) \/ match p with Act a k => pops a = true /\ rooted a k | _ => False end.

Lemma program_tame l t : thread_of l = Some t -> tame (program l).
Proof.
  destruct l as [fd | fd i o h | | wid | status data draws | sid outs]; cbn [thread_of program]; intros _.
  - left. exists CLIENT_RANK. apply ranked_accept.
  - left. exists CLIENT_RANK. apply ranked_on_ready.
  - left. by exists 0%nat.
  - right. split; [done |]. split; [by eexists |]. intros e. cbn.
    apply ranked_andthen; [| done]. apply ranked_andthen; [apply ranked_process_event | done].
  - right. split; [done |]. split; [by eexists |]. intros j. apply ranked_callback.
  - left. by exists 0%nat.
Qed.

Lemma rooted_tame a (k : result a -> Prog unit) r : pops a = true -> rooted a k -> tame (k r).
Proof.
  intros Ha Hk. destruct a; try done; destruct Hk as [[x Hx] Hk]; destruct r as [i |]; left;
    first [by eexists | rewrite Hx; by exists 0%nat].
Qed.

Lemma repeat_tame (x : unit) :
  tame (andthen take_main_event (fun b => if b then Repeat take_main_event (Ret x) else Ret x)).
Proof.
  right. split; [done |]. split; [by eexists |]. intros e. cbn.
  apply ranked_andthen; [| by intros []]. apply ranked_andthen; [apply ranked_main_event | done].
Qed.

Lemma flush_ranked r t sid pc (k : Session.FlushResult -> Prog unit) p' s s' :
  ranked r (Flush sid pc k) -> prog_step t (Flush sid pc k) s = Some (More p' s') -> ranked r p'.
Proof.
  intros Hr H. destruct pc; try (injection H as <- _; apply Hr); cbn in H;
    (destruct (flush_step _ _ _ _); [| done]); injection H as <- _; exact Hr.
Qed.

Lemma prog_step_tame t (p p' : Prog unit) s s' :
  policy t p -> tame p -> prog_step t p s = Some (More p' s') -> tame p'.
Proof.
  intros Hp Ht H. destruct p as [a | a k | sid pc k | e | body k]; cbn in Hp, H; try done.
  - destruct (perform a s) as [x s1 |]; [| done]. injection H as <- _.
    destruct Ht as [[r (_ & _ & Hr)] | [Ha Hk]]; [left; by exists r | by apply rooted_tame].
  - destruct Ht as [[r Hr] | []]. left. exists r. by eapply flush_ranked.
  - destruct Hp as (_ & -> & x & ->). injection H as <- _. apply repeat_tame.
Qed.

(** ** How far a thread is from taking its next item *)

Definition some_left {A : Type} (q : list A) : bool := match q with [] => false | _ => true end.

Definition waiting (w : World) (t : Tid) : bool :=
  match t with
  | Main => some_left (main_events w)
  | Db => some_left (job_queue w)
  | Worker wid => match room_workers w !! wid with Some r => some_left (event_queue_ r) | None => false end
  end.

Definition turn (more : bool) (o : option (Prog unit)) : nat :=
  match o with
  | None => if more then 4 else 0
  | Some (Ret _) => if more then 5 else 1
  | Some (Repeat _ _) => 3
  | Some (Act a _) => if pops a then 2 else 0
  | _ => 0
  end.

Definition queued (w : World) : list Element := (fun r => (r, None)) <$> items w.

(** A thread goes from [o] to [o'], the world from [w] to [w']: an element goes
    down, or else a flush gets on, or else the thread does. *)
Definition moved (t : Tid) (o o' : option (Prog unit)) (w w' : World) (l : list Element) : Prop :=
  exists l', share o' l' /\
    (descends smaller (l' ++ queued w') (l ++ queued w) \/
     l' = l /\ (exists h, w' = set_heap h w) /\
       ((flush_work w' + phase_of o' < flush_work w + phase_of o)%nat \/
        w' = w /\ phase_of o' = phase_of o /\ (turn (waiting w t) o' < turn (waiting w t) o)%nat)).

(** A quiet step: nothing in hand before or after. *)
Lemma moved_on t o o' w :
  share o' [] -> phase_of o' = phase_of o -> (turn (waiting w t) o' < turn (waiting w t) o)%nat ->
  moved t o o' w w [].
Proof.
  intros Hs Hp Ht. exists []. split; [done |]. right. split; [done |]. split; [exists (heap w); by destruct w |].
  by right.
Qed.

Lemma share_ranked r p : ranked r p -> exists l, share (Some p) l /\ (l = [] \/ l = [(r, Some (node p))]).
Proof.
  intros Hr. cbn. destruct (counted p); [| exists []; by split; [| left]].
  exists [(r, Some (node p))]. split; [by exists r | by right].
Qed.

(** A step of a program with an item in hand: what it posts has lower rank. *)
Lemma moved_ahead t p p' w w' r qs :
  ranked r p' -> child (node p') (node p) -> Forall (fun q => (q < r)%nat) qs -> items w' ≡ₚ qs ++ items w ->
  moved t (Some p) (Some p') w w' [(r, Some (node p))].
Proof.
  intros Hr Hc Hq Hw. destruct (share_ranked r p' Hr) as (l' & Hs & Hl'). exists l'. split; [done |]. left.
  exists (r, Some (node p)), (l' ++ ((fun q => (q, None)) <$> qs)), (queued w). split_and!; [done | |].
  - unfold queued. rewrite Hw, fmap_app. by rewrite app_assoc.
  - apply Forall_app. split.
    + destruct Hl' as [-> | ->]; [constructor |]. apply Forall_singleton. right. by split.
    + apply Forall_fmap. eapply Forall_impl; [exact Hq |]. intros q Hlt. by left.
Qed.

(** One that takes an item in hand. *)
Lemma moved_taking t p p' w w' r :
  ranked r p' -> items w ≡ₚ r :: items w' -> moved t (Some p) (Some p') w w' [].
Proof.
  intros Hr Hw. destruct (share_ranked r p' Hr) as (l' & Hs & Hl'). exists l'. split; [done |]. left.
  exists (r, None), l', (queued w'). split_and!; [| done |].
  - unfold queued. by rewrite Hw.
  - destruct Hl' as [-> | ->]; [constructor |]. apply Forall_singleton. right. by split.
Qed.

Lemma moved_empty t a (k : result a -> Prog unit) y w :
  pops a = true -> waiting w t = false -> moved t (Some (Act a k)) (Some (Ret y)) w w [].
Proof. intros Ha Hw. apply moved_on; [done | done |]. rewrite Hw. cbn. rewrite Ha. lia. Qed.

Lemma pop_moves t a k x s s' :
  may t a -> pops a = true -> rooted a k -> perform a s = Done x s' ->
  moved t (Some (Act a k)) (Some (k x)) (world s) (world s') [].
Proof.
  intros Hm Ha Hk H. destruct a; try done; destruct Hk as [[y Hy] Hk]; cbn in Hm; subst t.
  - apply perform_pop_event in H. destruct x as [e |]; [by eapply moved_taking |].
    destruct H as (-> & r & Hr & Hq). rewrite Hy. apply moved_empty; [done |]. cbn. by rewrite Hr, Hq.
  - apply perform_pop_job in H. destruct x as [j |]; [by eapply moved_taking |].
    destruct H as [-> Hq]. rewrite Hy. apply moved_empty; [done |]. cbn. by rewrite Hq.
  - apply perform_pop_main in H. destruct x as [e |]; [by eapply moved_taking |].
    destruct H as [-> Hq]. rewrite Hy. apply moved_empty; [done |]. cbn. by rewrite Hq.
Qed.

Lemma flush_moves t sid pc k p' s s' l :
  share (Some (Flush sid pc k)) l -> prog_step t (Flush sid pc k) s = Some (More p' s') ->
  moved t (Some (Flush sid pc k)) (Some p') (world s) (world s') l.
Proof.
  intros (r & Hr & ->) Hx. pose proof (flush_ranked r _ _ _ _ _ _ _ Hr Hx) as Hr'.
  destruct (flush_cases _ _ _ _ _ _ _ Hx) as [[h Hh] [Hc | (pc' & -> & Hn & Hw)]].
  - apply (moved_ahead _ _ _ _ _ _ []); [done | done | constructor | by rewrite Hh].
  - exists [(r, Some (node (Flush sid pc k)))]. split; [exists r; by rewrite Hn |]. right.
    split; [done |]. split; [by exists h | by left].
Qed.

Lemma prog_moves t p p' s s' l :
  policy t p -> tame p -> share (Some p) l -> prog_step t p s = Some (More p' s') ->
  moved t (Some p) (Some p') (world s) (world s') l.
Proof.
  intros Hp Ht Hl Hx. destruct p as [a | a k | sid pc k | e | body k]; [done | | | done |].
  - destruct Hp as [Hm _]. cbn in Hx. destruct (perform a s) as [x s1 |] eqn:E; [| done]. injection Hx as <- <-.
    cbn in Hl. destruct (pops a) eqn:Ha; cbn in Hl.
    + subst l. destruct Ht as [[r (H & _)] | [_ Hk]]; [congruence |]. by apply pop_moves.
    + destruct Hl as (r & (_ & Hq & Hk) & ->). change (Act a k) with (node (Act a k)) at 2.
      apply (moved_ahead _ _ _ _ _ _ (posts a));
        [exact (Hk x) | by exists x | exact Hq | by eapply perform_items].
  - by apply flush_moves.
  - cbn in Hl, Hx. subst l. destruct Hp as (-> & -> & x & ->). injection Hx as <- <-. apply moved_on; [done | done |].
    cbn. lia.
Qed.

(** Returning, and beginning where there is something to take. *)
Lemma return_moves t x w : moved t (Some (Ret x)) None w w [].
Proof. apply moved_on; [done | done |]. cbn. destruct (waiting w t); lia. Qed.

Lemma begin_moves t l w :
  has_work w l -> thread_of l = Some t -> moved t None (Some (program l)) w w [].
Proof.
  intros Hw Ht. apply moved_on; destruct l; try done; cbn in Ht; injection Ht as <-; cbn in Hw |- *.
  - destruct (main_events w); [done | cbn; lia].
  - destruct Hw as (e & q & Hq). unfold queues in Hq. rewrite lookup_fmap in Hq.
    destruct (room_workers w !! wid) as [r |]; [| done]. injection Hq as ->. cbn. lia.
  - destruct (job_queue w); [done | cbn; lia].
Qed.

(** ** The whole server *)

Import Interleaving.

(** [ts] are all threads there are, whatever they do. *)
Definition staff (ts : list Tid) (st : State) : Prop :=
  NoDup ts /\ Main ∈ ts /\ Db ∈ ts /\
  (forall wid, is_Some (room_workers (world (shared st)) !! wid) -> Worker wid ∈ ts) /\
  forall t, running st t <> None -> t ∈ ts.

(** No thread is ever added. *)
Definition same_staff (w w' : World) : Prop :=
  room_worker_num w' = room_worker_num w /\
  forall wid, is_Some (room_workers w' !! wid) -> is_Some (room_workers w !! wid).

Lemma same_staff_refl w : same_staff w w.
Proof. by split. Qed.

Lemma perform_staff a s x s' : perform a s = Done x s' -> same_staff (world s) (world s').
Proof.
  destruct a; cbn; unfold read, write, see_session, see_worker, see_user, on_user, on_session, on_worker, remove_user;
    try (by intros [= _ <-]); try (by repeat case_match; intros; simplify_eq);
    repeat case_match; intros; simplify_eq; (split; [done |]); cbn; intros wid';
    rewrite lookup_insert; case_decide; naive_solver.
Qed.

Lemma prog_step_staff t (p p' : Prog unit) s s' :
  prog_step t p s = Some (More p' s') -> same_staff (world s) (world s').
Proof.
  intros H. destruct p as [a | a k | sid pc k | e | body k]; cbn in H; try done.
  - destruct (perform a s) as [x s1 |] eqn:E; [| done]. injection H as _ <-. by eapply perform_staff.
  - assert (Hf : forall p1 s1, flush_step t sid pc s = Done p1 s1 -> same_staff (world s) (world s1)).
    { unfold flush_step. intros p1 s1 H1. destruct (heap (world s) !! sid) as [o |]; [| done].
      destruct (FlushConc.tstep pc o) as [[p2 o'] |]; [| done]. by injection H1 as _ <-. }
    destruct pc; try (by injection H as _ <-);
      destruct (flush_step _ _ _ _) as [p1 s1 |] eqn:E; try done; injection H as _ <-; by eapply Hf.
  - by injection H as _ <-.
Qed.

Lemma staff_moved ts t x s st :
  staff ts st -> t ∈ ts -> same_staff (world (shared st)) (world s) -> staff ts (set_running t x s st).
Proof.
  intros (H1 & H2 & H3 & H4 & H5) Ht [_ Hs]. split_and!; [done.. | |].
  - intros wid Hw. by apply H4, Hs.
  - intros t'. cbn. case_decide; [by subst | apply H5].
Qed.

(** The measure: elements, the work of the flushes, turns. *)
Definition Measure : Type := list Element * nat * nat.

Definition less (m' m : Measure) : Prop :=
  descends smaller m'.1.1 m.1.1 \/
  m'.1.1 = m.1.1 /\ ((m'.1.2 < m.1.2)%nat \/ m'.1.2 = m.1.2 /\ (m'.2 < m.2)%nat).

Lemma measure_down_wf m : Acc less m.
Proof.
  destruct m as [[l b] e]. assert (Hl : Acc (descends smaller) l).
  { apply descends_wf, Forall_forall. intros x _. apply smaller_wf. }
  revert b e. induction Hl as [l _ IHl]. intros b. induction (lt_wf b) as [b _ IHb]. intros e.
  induction (lt_wf e) as [e _ IHe]. constructor. intros [[l' b'] e'] [H | [E H]]; cbn in *; [by apply IHl |].
  subst l'. destruct H as [H | [-> H]]; [by apply IHb | by apply IHe].
Qed.

Definition turns (ts : list Tid) (st : State) : nat :=
  sum_list_with (fun t => turn (waiting (world (shared st)) t) (running st t)) ts.

Definition measured (ts : list Tid) (st : State) (m : Measure) : Prop :=
  exists ls, Forall2 share (programs ts st) ls /\ m.1.1 ≡ₚ concat ls ++ queued (world (shared st)) /\
    m.1.2 = work ts st /\ m.2 = turns ts st.

Lemma turns_moved ts t x s st :
  NoDup ts -> t ∈ ts -> world s = world (shared st) ->
  (turns ts (set_running t x s st) + turn (waiting (world s) t) (running st t) =
   turns ts st + turn (waiting (world s) t) x)%nat.
Proof.
  intros Hnd Ht Hw. unfold turns. cbn [shared set_running running]. rewrite Hw. induction Hnd as [| t' ts Hn Hnd IH];
    [by apply not_elem_of_nil in Ht |]. cbn [sum_list_with]. destruct (decide (t' = t)) as [-> | Hne].
  - assert (E : forall ts', t ∉ ts' ->
      sum_list_with (fun t0 => turn (waiting (world (shared st)) t0)
                                 (if decide (t0 = t) then x else running st t0)) ts' =
      sum_list_with (fun t0 => turn (waiting (world (shared st)) t0) (running st t0)) ts').
    { clear. induction ts' as [| t1 ts' IH]; [done |]. intros [H1 H2]%not_elem_of_cons. cbn [sum_list_with].
      rewrite decide_False by done. by rewrite IH. }
    rewrite (E ts Hn). lia.
  - apply elem_of_cons in Ht as [| Ht]; [done |]. specialize (IH Ht). lia.
Qed.

Lemma concat_part {X : Type} (ls : list (list X)) i l :
  ls !! i = Some l -> exists rest, forall l', concat (<[i := l']> ls) ≡ₚ l' ++ rest.
Proof.
  intros Hi. exists (concat (take i ls) ++ concat (drop (S i) ls)). intros l'.
  rewrite insert_take_drop by by eapply lookup_lt_Some. rewrite concat_app. cbn.
  rewrite !app_assoc. by rewrite (Permutation_app_comm l').
Qed.

Lemma descends_frame {X : Type} (lt : X -> X -> Prop) a b a' b' rest :
  descends lt a b -> a' ≡ₚ rest ++ a -> b' ≡ₚ rest ++ b -> descends lt a' b'.
Proof.
  intros (x & ys & r & Hb & Ha & Hlt) Ha' Hb'. exists x, ys, (rest ++ r). split_and!; [| | done].
  - rewrite Hb', Hb. by rewrite Permutation_middle.
  - rewrite Ha', Ha, !app_assoc. by rewrite (Permutation_app_comm ys).
Qed.

(** One thread's move makes the whole less. *)
Lemma measured_moved ts t x s st m :
  staff ts st -> t ∈ ts -> measured ts st m ->
  (forall l, share (running st t) l -> moved t (running st t) x (world (shared st)) (world s) l) ->
  exists m', measured ts (set_running t x s st) m' /\ less m' m.
Proof.
  intros (Hnd & _) Ht (ls & Hls & Hm & Hwork & Hturn) Hmove. pose proof Ht as [i Hi]%list_elem_of_lookup_1.
  assert (Hp : programs ts st !! i = Some (running st t)) by (unfold programs; by rewrite list_lookup_fmap, Hi).
  destruct (Forall2_lookup_l _ _ _ _ _ Hls Hp) as (l & Hl & Hsh).
  destruct (Hmove l Hsh) as (l' & Hsh' & Hcase). destruct (concat_part ls i l Hl) as [rest Hrest].
  assert (Hls' : Forall2 share (programs ts (set_running t x s st)) (<[i := l']> ls)).
  { rewrite (programs_moved ts i t) by done. by apply Forall2_insert. }
  assert (Hsum := sum_moved phase_of _ _ _ x Hp). rewrite <- (programs_moved ts i t x s st) in Hsum by done.
  assert (Hold : concat ls ≡ₚ l ++ rest) by (rewrite <- Hrest; by rewrite list_insert_id).
  destruct Hcase as [Hd | (-> & [h Hw] & Hcase)].
  - exists (concat (<[i := l']> ls) ++ queued (world s), work ts (set_running t x s st), turns ts (set_running t x s st)).
    split; [by exists (<[i := l']> ls) |]. left. cbn [fst]. eapply (descends_frame _ _ _ _ _ rest); [exact Hd | |].
    + rewrite Hrest, app_assoc. by rewrite (Permutation_app_comm l').
    + rewrite Hm, Hold, app_assoc. by rewrite (Permutation_app_comm l).
  - exists (m.1.1, work ts (set_running t x s st), turns ts (set_running t x s st)). rewrite list_insert_id in Hls' by done.
    split; [exists ls; split_and!; [done | | done..] |].
    + cbn [shared set_running fst]. by rewrite Hm, Hw.
    + right. split; [done |]. cbn [fst snd]. rewrite Hwork, Hturn. unfold work. cbn [shared set_running].
      destruct Hcase as [Hlt | (E & Ep & Hlt)]; [left; lia | right]. rewrite E. split; [lia |].
      pose proof (turns_moved ts t x s st Hnd Ht E) as H. rewrite E in H. lia.
Qed.

(** ** Internal steps *)

(** A thread goes on with its handler, or begins one because something is
    queued for it. *)
Definition internal (st st' : State) : Prop :=
  exists a, enabled st a /\ exec a st = Next st' /\
    match a with Begin l => has_work (world (shared st)) l | Continue _ => True end.

Lemma internal_step st st' : internal st st' -> step st st'.
Proof. intros (a & He & Hx & _). by exists a. Qed.

Lemma onward_internal st st' : onward st st' -> internal st st'.
Proof. intros (t & He & Hx). by exists (Continue t). Qed.

Lemma internal_reachable n st st' : reachable n st -> rtc internal st st' -> reachable n st'.
Proof.
  unfold reachable. intros Hr H. etransitivity; [exact Hr |]. eapply rtc_subrel; [| exact H].
  intros st1 st2. apply internal_step.
Qed.

Lemma reachable_tame n st t p : reachable n st -> running st t = Some p -> policy t p /\ tame p.
Proof.
  apply (running_ind (fun t p => policy t p /\ tame p)).
  - intros l t' Hl. split; [by apply program_policy | by eapply program_tame].
  - intros t' p1 p2 s s' [H1 H2] H. split; [by eapply prog_step_policy | by eapply prog_step_tame].
Qed.

Lemma internal_moved n ts st st' :
  reachable n st -> staff ts st -> internal st st' ->
  exists t x s, st' = set_running t x s st /\ t ∈ ts /\ same_staff (world (shared st)) (world s) /\
    forall l, share (running st t) l -> moved t (running st t) x (world (shared st)) (world s) l.
Proof.
  intros Hr (_ & Hmain & Hdb & Hworkers & Hts) (a & He & Hx & Ha). destruct a as [l | t].
  - destruct (thread_of l) as [t |] eqn:El; [| by destruct l]. rewrite (exec_begin l t st El) in Hx.
    injection Hx as <-. cbn in He. rewrite El in He. destruct He as [He Hnone]. do 3 eexists. split; [reflexivity |].
    rewrite Hnone. split_and!; [| done | intros l' ->; by apply begin_moves].
    destruct l; cbn in El; try done; injection El as <-; [done | by apply Hworkers | done].
  - cbn in He, Hx. specialize (Hts t He). destruct (running st t) as [p |] eqn:Ep; [| done].
    destruct (reachable_tame n st t p Hr Ep) as [Hp Ht].
    destruct (prog_step t p (shared st)) as [[p' s' | c] |] eqn:E; [| done |]; injection Hx as <-;
      do 3 eexists; (split; [reflexivity |]); rewrite Ep.
    + split_and!; [done | by eapply prog_step_staff | intros l Hl; by eapply prog_moves].
    + split_and!; [done | done |]. destruct p; try done; [| by destruct p]. intros l ->. apply return_moves.
Qed.

Lemma reachable_measured n ts st : reachable n st -> exists m, measured ts st m.
Proof.
  intros Hr. assert (H : exists ls, Forall2 share (programs ts st) ls).
  { unfold programs. induction ts as [| t ts [ls IH]]; [by exists [] |].
    assert (H : exists l, share (running st t) l); [| destruct H as [l Hl]; exists (l :: ls); by constructor].
    destruct (running st t) as [p |] eqn:Ep; [| by exists []]. cbn. destruct (counted p) eqn:Hc; [| by exists []].
    destruct (reachable_tame n st t p Hr Ep) as [_ [[r H] | H]]; [exists [(r, Some (node p))]; by exists r |].
    destruct p; try done. destruct H as [H _]. cbn in Hc. by rewrite H in Hc. }
  destruct H as [ls Hls]. by exists (concat ls ++ queued (world (shared st)), work ts st, turns ts st), ls.
Qed.

Lemma reachable_staff n st : reachable n st -> exists ts, staff ts st.
Proof.
  intros Hr. destruct (reachable_crew n st Hr) as (ts & _ & _ & Hts).
  exists (remove_dups (Main :: Db :: ts ++ (Worker <$> elements (dom (room_workers (world (shared st))) : gset Z)))).
  split_and!; [apply NoDup_remove_dups | | | |]; intros; rewrite elem_of_remove_dups.
  - by left.
  - right. by left.
  - do 2 right. apply elem_of_app. right. apply list_elem_of_fmap. eexists. split; [done |].
    by apply elem_of_elements, elem_of_dom.
  - destruct (Hts _ H) as [-> |]; [by left |]. do 2 right. apply elem_of_app. by left.
Qed.

Lemma internal_acc n st : reachable n st -> Acc (fun st2 st1 => internal st1 st2) st.
Proof.
  intros Hr. destruct (reachable_staff n st Hr) as [ts Hts]. destruct (reachable_measured n ts st Hr) as [m Hm].
  revert st Hr Hts Hm. induction (measure_down_wf m) as [m _ IH]. intros st Hr Hts Hm. constructor. intros st2 Hi.
  destruct (internal_moved n ts st st2 Hr Hts Hi) as (t & x & s & -> & Ht & Hs & Hmove).
  destruct (measured_moved ts t x s st m Hts Ht Hm Hmove) as (m' & Hm' & Hless).
  apply (IH m' Hless); [| by apply staff_moved | done]. eapply internal_reachable; [done | by apply rtc_once].
Qed.

Lemma at_rest_or_begins n st :
  reachable n st -> idle st -> at_rest (world (shared st)) \/ exists st', internal st st'.
Proof.
  intros Hr Hidle. destruct (rest_or_work (world (shared st))) as [? | [l Hl]]; [by left | right].
  assert (Hgo : forall l t, thread_of l = Some t -> has_work (world (shared st)) l ->
    Server.enabled (world (shared st)) l -> exists st', internal st st').
  { intros l' t Et Hw He. eexists. exists (Begin l'). split; [| by rewrite (exec_begin l' t st Et)].
    cbn. rewrite Et. split; [done | apply Hidle]. }
  destruct l as [| | | wid | status data draws |]; try done.
  - by apply (Hgo LMainEvents Main).
  - apply (Hgo (LWorker wid) (Worker wid)); [done.. |]. destruct Hl as (e & q & Hq). unfold queues in Hq.
    rewrite lookup_fmap in Hq. cbn. by destruct (room_workers (world (shared st)) !! wid).
  - apply (Hgo (LDb status data (some_draws n)) Db); [done.. |]. cbn. destruct (reachable_on n st Hr) as [_ ->].
    apply some_draws_ok.
Qed.

(** C10: Left alone, the server comes to rest under every interleaving. From
    every reachable state, with any number [n] of workers and handlers of all
    threads anywhere in the middle: if no client connects, sends or hangs up,
    the threads make only finitely many steps, in whatever order they are
    scheduled and however their flushes, events and main events feed each other;
    and where no further step is possible every handler has returned and no
    event, job or main event is queued anywhere, unless a thread has been
    stopped: the main thread by a failing [epoll_ctl] or, with fewer than two
    workers, the database thread by the empty distribution. *)
Theorem interleaved_comes_to_rest n st :
  reachable n st ->
  Acc (fun st2 st1 => internal st1 st2) st /\
  forall st', rtc internal st st' -> (forall st'', ~ internal st' st'') ->
    (idle st' /\ at_rest (world (shared st'))) \/ halted n st'.
Proof.
  intros Hr. split; [by eapply internal_acc |]. intros st' Hrun Hstuck.
  pose proof (internal_reachable n st st' Hr Hrun) as Hr'.
  destruct (stuck_returned n st' Hr') as [Hidle | Hfail]; [| | by right].
  - intros st'' H. by apply (Hstuck st''), onward_internal.
  - left. split; [done |]. destruct (at_rest_or_begins n st' Hr' Hidle) as [? | [st'' H]]; [done |].
    by destruct (Hstuck st'').
Qed.

End Steps.
(** ** Witness: the second room's event is queued while the first is made *)
Section Demo.
#[local] Existing Instance zero_indeterminate.
#[local] Existing Instance simple_epoll.
Import Interleaving.

Definition second_placed : list Step := two_rooms ++ repeat (Continue Db) 4.

Lemma second_placed_reachable : reachable 2 (reached second_placed).
Proof. apply reached_reachable. by vm_compute. Qed.

Definition something_queued (w : World) : bool :=
  bool_decide (map_Exists (fun _ q => q <> []) (queues w)).

Lemma queued_not_rest w : something_queued w = true -> ~ at_rest w.
Proof. intros (wid & q & Hq & Hne)%bool_decide_eq_true (H & _). by destruct (Hne (H wid q Hq)). Qed.

Lemma interleaved_comes_to_rest_witness :
  let st := reached second_placed in
  ~ at_rest (world (shared st)) /\ enabled st (Continue Db) /\ enabled st (Continue (Worker 2)) /\
  Acc (fun st2 st1 => internal st1 st2) st /\
  forall st', rtc internal st st' -> (forall st'', ~ internal st' st'') ->
    (idle st' /\ at_rest (world (shared st'))) \/ halted 2 st'.
Proof.
  cbv zeta. split; [apply queued_not_rest; by vm_compute |].
  do 2 (split; [apply (bool_decide_unpack _); by vm_compute |]).
  apply (interleaved_comes_to_rest 2 (reached second_placed)), second_placed_reachable.
Defined.

End Demo.
End Rest.
